(* ===== verification/_CoqProject ===== *)
-Q . S2P
Prelude.v
RustStr.v
ValueObjects.v
Entities.v
Aggregate.v
Database.v
Effects.v
UserRepo.v
Bcrypt.v
AuthSettings.v
Jwt.v
UseCases.v
Redis.v
RateLimiter.v
Blacklist.v
Revocation.v
Net.v
Http.v
Telemetry.v
Admin.v
Profiles.v
Schema.v
EventBus.v
Evolution.v
Interference.v
Concurrency.v
AuthRoutes.v
EndToEnd.v
Lifecycle.v
Google.v
Settings.v
Redaction.v
App.v
Router.v
ApiDoc.v
System.v
Appointment.v
Answers.v
AuditTrail.v
Startup.v
Deployment.v
