(* ===== verification/Prelude.v ===== *)
(** * app-home-services

    A model of the authentication service in [src/], with the theorems that make
    it correct. The service is a modular monolith in Rust (axum, sqlx): users log
    in with a password or a Google ID token, hold sessions with rotating refresh
    tokens, and present JWT access tokens, which a log-out revokes; two smaller
    contexts, profiles and administration, sit beside it.

    ** Parts and files

    Foundations
    - [Prelude.v] (this file): [result], its monad, lemmas on lists and maps.
    - [RustStr.v]: UTF-8 strings, trimming, splitting, integer and [IpAddr]
      parsing, machine integers: what std does for the service's own code.
    - [Database.v]: the tables of [migrations/] as finite maps and every SQL
      statement as a function on them. [Schema.v]: the migrations themselves,
      run on a catalog of tables with rows, constraints and indexes, and the
      statements and the tables checked against the schema they build.
    - [Effects.v]: the monad of the use cases — tables, the fate of each database
      round trip, clock, randomness, blocking tasks, and the record of work done.

    The shared kernel and the auth context ([crates/shared], [crates/auth])
    - [ValueObjects.v], [Entities.v], [Aggregate.v]: the domain layer.
    - [UserRepo.v]: the Postgres repositories, the user directory, the audit
      handler. [Bcrypt.v]: password verification and the bcrypt limiter.
    - [AuthSettings.v], [Jwt.v], [Google.v]: configuration, tokens, Google
      sign-in with its key cache.
    - [UseCases.v]: log-in, refresh, log-out. [AuthRoutes.v]: their handlers.
    - [EndToEnd.v]: from a log-in to an authenticated request. [Lifecycle.v]: a
      session from its log-in through any number of refreshes, and the replay of
      a token that was exchanged.

    Infrastructure ([crates/infrastructure])
    - [Redis.v], [RateLimiter.v], [Blacklist.v], [Revocation.v] (the revocation
      list as a system of several instances), [Net.v] (client addresses and the
      [/metrics] guard), [Telemetry.v] (the set-up of logging and metrics, and the
      pollers).

    The other contexts: [Admin.v] ([crates/admin]), [Profiles.v]
    ([crates/profiles]).

    The process ([src/src])
    - [Settings.v], [Redaction.v]: its settings, and what [Debug] shows of them.
    - [Http.v]: server state, response bodies, the [AuthenticatedUser] extractor.
    - [App.v]: seeding, health check, CORS, security headers, the route table
      ([serve]), and how to show a fact of every answer ([answers]). [Router.v]:
      [build_router]. [ApiDoc.v]: the API annotations. [Answers.v]: what the
      answers reveal.
    - [EventBus.v], [AuditTrail.v]: the bus, the audit task, and a process as a
      step relation. [Startup.v]: [main]. [Deployment.v]: from [main] on an empty
      database to the first answers.

    Several processes
    - [Evolution.v]: how the database may change, and what the use cases rely on
      of the repositories, as contracts. [Interference.v]: the repositories with
      other processes at work before every statement, which meet the contracts
      too. [Concurrency.v]: what log-in, refresh and log-out guarantee from the
      contracts alone. [System.v]: the invariant of the database over whole
      histories of such requests. [Appointment.v]: where administrators come from
      in them.

    ** How they interact

    A handler is a function on [Srv]: the [World] of [Effects.v], the two rate
    limiters, the revocation list and the events published. It calls use cases,
    which call ports. A port is a type class ([UserRepository],
    [SessionRepository], [AdminRepository], [UserDirectory],
    [ProfileRepository], [JwtService], [AuthProviderPort], [RateLimiter],
    [AccessTokenBlacklist]); the implementations are its instances, and where a
    client's theorem needs more than the operations, a class of laws states it
    ([BlacklistLaws], [FixedWindow], [JwtServiceSpec], [UserRepositoryContract],
    ..) and the implementations discharge it. The step relations [Revocation.step],
    [LimStep], [db_step], [proc_step] and [mo_step] put concurrent work together.

    ** What the theorems show

    - Log-in, refresh and log-out: [login_sound], [login_decides],
      [google_login_sound], [refresh_rotates], [refresh_replay_revokes_all],
      [logout_spec]; password timing in [verify_timing_equalised]; the bcrypt
      bound in [bcrypt_limiter_bound].
    - Sessions: [agg_invariant], and [aggregate_implements_registry], a
      refinement of a registry of sessions by the list-based aggregate; saving
      and loading in [save_aggregate_atomic], [save_load_round_trip]; beside
      other processes [concurrent_sessions_sound]; over a whole session
      [session_lifecycle].
    - Data: [database_history]; [statements_match_schema] (the code against the
      migrations), [schema_enforces_invariants] (their constraints are the
      model's invariants), [migration_008_keeps_roles],
      [migration_010_computes_expiries], [outbox_index_repaired].
    - Tokens: [authenticated_user_sound], [token_pair_round_trip],
      [login_then_authenticated], [google_token_sound].
    - Revocation: [logged_out_token_rejected]; over every interleaving of
      several instances [revocation_durable], [revoked_token_rejected];
      [flush_drains] and [durable_calls_are_runs].
    - Rate limiting: one budget for both implementations through the fixed-window
      contract ([rate_limit_budget], [limiters_agree], [memory_limiter_bounded])
      and the address it is kept for ([client_ip_unforgeable]).
    - Other contexts: [admin_access_control], [no_first_admin],
      [update_profile_read_back].
    - The process: [startup_sound], [fresh_deployment], [settings_enforce_tls],
      [router_surface], [refused_requests_change_nothing],
      [responses_documented], [errors_disclose_nothing], [audit_accounting],
      [audit_catches_up], [error_metrics_exact].

    Beside these stand smaller theorems about one component each, such as
    [unrevoked_token_accepted], [redis_outage_enforces_shadow],
    [user_pages_partition], [pending_gauge_sound] and [jwks_cache_fresh].

    Some theorems outside this list record behaviour that is not as intended:
    [concurrent_refresh_both_succeed], [revoked_token_revalidates],
    [unparsed_allowlist_opens_metrics], [second_forwarded_for_line_is_ignored],
    [opaque_forwarded_for_is_ignored], [jwt_preview_may_panic],
    [redis_url_not_redacted], [backlog_gauge_underreports],
    [negative_lifetime_tokens_dead], [oversized_lifetime_login],
    [update_answers_unstored_time].

    ** Conventions

    Integers are [Z]; machine arithmetic wraps where the code computes with it
    ([wrap_u32], [wrap_u64], [wrap_i64]). Instants and durations are
    microseconds ([SECOND] is 10^6), the unit of Postgres' [TIMESTAMPTZ]; only the
    time a profile update answers with is in nanoseconds, since it is shown
    before it is stored, and its way into the column and back is [to_timestamptz]
    and [of_timestamptz]. A date beyond chrono's calendar panics: [expiry] ends
    the request with an internal error there, where hyper closes the connection
    without an answer. A method that reads the clock takes the
    reading, or draws it from the world; the clock never goes back. Error
    messages of the settings are constructors. A [HashMap] is iterated in the
    order of [map_to_list]. A transaction works on a snapshot of the tables that
    its commit writes back. The theorems about one use case or handler on
    [PostgresUserRepo] describe a run that nothing interleaves with; those of
    [Concurrency.v], [System.v] and [AuditTrail.v] let other processes change the
    tables before every statement, bound only by [OthersSpec], which the program
    keeps to itself ([histories_are_others]); there a transaction is one step, at
    its commit. [db_step] takes what the other processes may do and what is configured
    as parameters: [sound_step] asks that the others keep [OthersSpec] and that
    the seeded email is one, [Appointment.v] that they appoint no administrator,
    whatever is seeded. Log lines are left out.

    Third-party code is a parameter with its documented laws, each with a
    concrete instance on which the witnesses run: Postgres' outcomes, Redis
    ([RedisLib]), bcrypt ([BcryptLib]), jsonwebtoken ([JwtLib]), the Google keys
    and RSA ([GoogleLib]), uuid, chrono, url, tokio's broadcast channel
    ([BroadcastLib]), the metrics crate ([MetricsLib]), tracing-subscriber's
    filters ([TracingLib]), axum with tower-http and
    Swagger UI ([WebLib]).

    ** Bounds and fuel

    The recursive definitions are structural, on the lists the code iterates
    over. [audit_loop] alone takes fuel, since the task waits for events without
    end; [audit_catches_up] shows that two rounds more than the events that wait
    are enough for it to take them all. [flush_drains] bounds the number of
    sweeps that empty the outbox. Theorems that say a log-in or a refresh
    succeeds ask that the session would end on a date chrono and Postgres have
    ([datable], [in_time]): [from_env] takes any [i64] for its days.

    ** Not modelled

    What tracing-subscriber and the Prometheus recorder do once installed; sqlx's
    migration runner (the transaction of a file, the record of those applied), whose result
    is an outcome that [main] is given; timers (a tick of a poller is a step);
    the HTTP transfer of the Google keys (a fetch is its outcome); request
    parsing, preflights and the docs pages ([WebLib]); descriptions and examples
    in the API annotations; [EventBus::subscribe], which nothing calls; the
    derived [Clone], [PartialEq] and serde implementations; plain accessors, which
    are the projections of the records. Postgres text is taken to be free of NUL
    bytes, and a value a column refuses is a [PgFail] outcome. *)

From stdpp Require Export base tactics option list gmap strings fin_maps.
From Stdlib Require Export ZArith Lia.

#[global] Open Scope Z_scope.

(** ** Fallible computations: Rust's [Result] *)

Inductive result (E A : Type) : Type :=
| Ok (a : A)
| Err (e : E).
Arguments Ok {E A} a.
Arguments Err {E A} e.

#[global] Instance result_ret E : MRet (result E) := λ A a, Ok a.

#[global] Instance result_bind E : MBind (result E) := λ A B f m,
  match m with
  | Ok a => f a
  | Err e => Err e
  end.

#[global] Instance result_fmap E : FMap (result E) := λ A B f m,
  match m with
  | Ok a => Ok (f a)
  | Err e => Err e
  end.

#[global] Instance result_eq_dec {E A} `{EqDecision E, EqDecision A} :
  EqDecision (result E A).
Proof. solve_decision. Defined.

Definition map_err {E E' A} (f : E → E') (m : result E A) : result E' A :=
  match m with
  | Ok a => Ok a
  | Err e => Err (f e)
  end.

Definition ok_or {E A} (o : option A) (e : E) : result E A :=
  match o with
  | Some a => Ok a
  | None => Err e
  end.

Definition ok {E A} (m : result E A) : option A :=
  match m with
  | Ok a => Some a
  | Err _ => None
  end.

Definition is_ok {E A} (m : result E A) : bool :=
  match m with
  | Ok _ => true
  | Err _ => false
  end.

(** [Option<Result<A, E>>::transpose]. *)
Definition transpose {E A} (o : option (result E A)) : result E (option A) :=
  match o with
  | None => Ok None
  | Some (Ok a) => Ok (Some a)
  | Some (Err e) => Err e
  end.

(** [iter.map(f).collect::<Result<Vec<_>, _>>()]: stops at the first error. *)
Fixpoint collect {E A B} (f : A → result E B) (l : list A) : result E (list B) :=
  match l with
  | [] => Ok []
  | a :: l' =>
      match f a with
      | Err e => Err e
      | Ok b =>
          match collect f l' with
          | Err e => Err e
          | Ok bs => Ok (b :: bs)
          end
      end
  end.

(** ** Machine integers

    Fixed-width integers are [Z] together with their range; the wrap-around of
    release builds is written out where the source computes on them. *)

Definition U8_MAX : Z := 2 ^ 8 - 1.
Definition U16_MAX : Z := 2 ^ 16 - 1.
Definition U32_MAX : Z := 2 ^ 32 - 1.
Definition U64_MAX : Z := 2 ^ 64 - 1.
Definition I64_MAX : Z := 2 ^ 63 - 1.
Definition I64_MIN : Z := - 2 ^ 63.

Definition wrap_u32 (z : Z) : Z := z mod 2 ^ 32.
Definition wrap_u64 (z : Z) : Z := z mod 2 ^ 64.

(** Two's complement wrap-around of an [i64] result. *)
Definition wrap_i64 (z : Z) : Z := (z + 2 ^ 63) mod 2 ^ 64 - 2 ^ 63.

Definition saturating_sub (a b : Z) : Z := Z.max 0 (a - b).

Definition in_u32 (z : Z) : Prop := 0 ≤ z ≤ U32_MAX.
Definition in_u64 (z : Z) : Prop := 0 ≤ z ≤ U64_MAX.
Definition in_i64 (z : Z) : Prop := I64_MIN ≤ z ≤ I64_MAX.

(** [x.clamp(lo, hi)] *)
Definition clamp (x lo hi : Z) : Z := if x <? lo then lo else if hi <? x then hi else x.

(** ** Time and identifiers

    Instants and [DateTime<Utc>] values are microsecond counts (the resolution
    of a Postgres [TIMESTAMPTZ]); a [Duration] is a number of microseconds. *)

Definition SECOND : Z := 1000000.

Definition from_secs (s : Z) : Z := s * SECOND.

(** [Instant::duration_since] saturates at zero. *)
Definition duration_since (later earlier : Z) : Z := Z.max 0 (later - earlier).

(** [DateTime::timestamp]: whole Unix seconds, rounded down. *)
Definition timestamp (t : Z) : Z := t / SECOND.

(** A [Uuid] is its 128-bit value. *)
Definition Uuid : Type := N.

#[global] Instance Uuid_eq_dec : EqDecision Uuid := _ : EqDecision N.
#[global] Instance Uuid_countable : Countable Uuid := _ : Countable N.
#[global] Instance Uuid_inhabited : Inhabited Uuid := populate 0%N.

(** ** Tactics *)

(** Case analysis on the innermost [match] of the goal or of a hypothesis,
    keeping the equation. *)
Ltac case_step :=
  match goal with
  | |- context [match ?x with _ => _ end] =>
      lazymatch x with context [match _ with _ => _ end] => fail | _ => destruct x eqn:? end
  end.

Ltac case_step_in H :=
  match type of H with
  | context [match ?x with _ => _ end] =>
      lazymatch x with context [match _ with _ => _ end] => fail | _ => destruct x eqn:? end
  end.

(** Turns boolean tests on [Z] and decisions in the context into propositions. *)
Ltac bool_to_prop :=
  repeat match goal with
  | H : (_ && _) = true |- _ => apply andb_true_iff in H as [? ?]
  | H : (_ && _) = false |- _ => apply andb_false_iff in H
  | H : (_ || _) = true |- _ => apply orb_true_iff in H
  | H : (_ || _) = false |- _ => apply orb_false_iff in H as [? ?]
  | H : negb _ = true |- _ => apply negb_true_iff in H
  | H : negb _ = false |- _ => apply negb_false_iff in H
  | H : (_ <? _) = true |- _ => apply Z.ltb_lt in H
  | H : (_ <? _) = false |- _ => apply Z.ltb_ge in H
  | H : (_ <=? _) = true |- _ => apply Z.leb_le in H
  | H : (_ <=? _) = false |- _ => apply Z.leb_gt in H
  | H : (_ =? _) = true |- _ => apply Z.eqb_eq in H
  | H : (_ =? _) = false |- _ => apply Z.eqb_neq in H
  | H : bool_decide _ = true |- _ => apply bool_decide_eq_true in H
  | H : bool_decide _ = false |- _ => apply bool_decide_eq_false in H
  end.

(** ** Lemma databases

    [svc] collects the facts the components' proofs use for routine steps. *)

Create HintDb svc discriminated.

(** ** Shared lemmas *)

Lemma collect_Ok_iff {E A B} (f : A → result E B) l bs :
  collect f l = Ok bs ↔ Forall2 (λ a b, f a = Ok b) l bs.
Proof.
  revert bs; induction l as [|a l IH]; intros bs; simpl.
  - split; [intros [= <-]; constructor | inversion 1; done].
  - split.
    + destruct (f a) eqn:Ha; [|done]. destruct (collect f l) eqn:Hl; [|done].
      intros [= <-]. constructor; [done | by apply IH].
    + inversion 1 as [|? b ? bs' Ha Hl]; simplify_eq. rewrite Ha.
      apply IH in Hl. by rewrite Hl.
Qed.

Lemma collect_total {E A B} (f : A → result E B) (g : A → B) l :
  (∀ a, a ∈ l → f a = Ok (g a)) → collect f l = Ok (g <$> l).
Proof.
  induction l as [|a l IH]; intros H; [done|]. simpl.
  rewrite (H a) by left. rewrite IH; [done|]. intros b Hb. apply H. by right.
Qed.

(** An invariant of every step is an invariant of the run. *)
Lemma foldl_inv {A B} (P : A → Prop) (f : A → B → A) (l : list B) a :
  P a → (∀ a b, P a → P (f a b)) → P (foldl f a l).
Proof. intros Ha Hf. revert a Ha. induction l as [|b l IH]; simpl; auto. Qed.

Lemma wrap_u32_id z : in_u32 z → wrap_u32 z = z.
Proof. unfold in_u32, U32_MAX, wrap_u32. intros. apply Z.mod_small. lia. Qed.

Lemma wrap_u64_id z : in_u64 z → wrap_u64 z = z.
Proof. unfold in_u64, U64_MAX, wrap_u64. intros. apply Z.mod_small. lia. Qed.

Lemma wrap_i64_id z : in_i64 z → wrap_i64 z = z.
Proof.
  unfold in_i64, I64_MIN, I64_MAX, wrap_i64. intros. rewrite Z.mod_small; lia.
Qed.

Lemma clamp_bounds x lo hi : lo ≤ hi → lo ≤ clamp x lo hi ≤ hi.
Proof. unfold clamp. intros. repeat case_match; bool_to_prop; lia. Qed.

Lemma duration_since_lt later earlier d :
  0 < d → duration_since later earlier < d ↔ later - earlier < d.
Proof. unfold duration_since. lia. Qed.

#[export] Hint Resolve wrap_u32_id wrap_u64_id wrap_i64_id clamp_bounds : svc.
