(* ===== verification/RustStr.v ===== *)
(** * Rust strings, headers and socket addresses

    The part of the Rust standard library the service's own code computes with:
    UTF-8 strings as byte strings ([len] counts bytes, [chars] groups them into
    encoded scalar values), [trim], [split], integer and [IpAddr] parsing.
    No definition here is specific to the service. *)

From S2P Require Import Prelude.
From Stdlib Require Export Ascii.

(** ** Bytes and lengths *)

Definition byte_val (b : ascii) : Z := Z.of_N (N_of_ascii b).

(** [str::len] is the number of bytes. *)
Definition str_len (s : string) : Z := Z.of_nat (String.length s).

Definition is_empty (s : string) : bool :=
  match s with
  | EmptyString => true
  | _ => false
  end.

Fixpoint bytes (s : string) : list ascii :=
  match s with
  | EmptyString => []
  | String b s' => b :: bytes s'
  end.

(** ** [chars]: the encoded scalar values of a valid UTF-8 string *)

Definition is_continuation (b : ascii) : bool :=
  (128 <=? byte_val b) && (byte_val b <? 192).

Definition continues (s : string) : bool :=
  match s with
  | String b _ => is_continuation b
  | EmptyString => false
  end.

Fixpoint chars (s : string) : list string :=
  match s with
  | EmptyString => []
  | String b s' =>
      match chars s' with
      | c :: cs =>
          if continues s' then String b c :: cs
          else String b EmptyString :: c :: cs
      | [] => [String b EmptyString]
      end
  end.

Fixpoint concat_str (l : list string) : string :=
  match l with
  | [] => EmptyString
  | s :: l' => String.append s (concat_str l')
  end.

Definition byte_str (l : list Z) : string :=
  fold_right (λ z s, String (ascii_of_N (Z.to_N z)) s) EmptyString l.

(** [char::is_whitespace]: the Unicode [White_Space] property, as the UTF-8
    encodings of U+0009..U+000D, U+0020, U+0085, U+00A0, U+1680,
    U+2000..U+200A, U+2028, U+2029, U+202F, U+205F and U+3000. *)
Definition whitespace_chars : list string :=
  byte_str <$>
  [[9]; [10]; [11]; [12]; [13]; [32]; [194; 133]; [194; 160]; [225; 154; 128];
   [226; 128; 128]; [226; 128; 129]; [226; 128; 130]; [226; 128; 131];
   [226; 128; 132]; [226; 128; 133]; [226; 128; 134]; [226; 128; 135];
   [226; 128; 136]; [226; 128; 137]; [226; 128; 138]; [226; 128; 168];
   [226; 128; 169]; [226; 128; 175]; [226; 129; 159]; [227; 128; 128]].

Definition is_whitespace (c : string) : bool := bool_decide (c ∈ whitespace_chars).

Fixpoint drop_ws (cs : list string) : list string :=
  match cs with
  | c :: cs' => if is_whitespace c then drop_ws cs' else cs
  | [] => []
  end.

(** [str::trim] *)
Definition trim (s : string) : string :=
  concat_str (reverse (drop_ws (reverse (drop_ws (chars s))))).

(** ** ASCII classes and case *)

Definition is_ascii_lowercase (b : ascii) : bool :=
  (97 <=? byte_val b) && (byte_val b <=? 122).
Definition is_ascii_uppercase (b : ascii) : bool :=
  (65 <=? byte_val b) && (byte_val b <=? 90).
Definition is_ascii_digit (b : ascii) : bool :=
  (48 <=? byte_val b) && (byte_val b <=? 57).
Definition is_ascii_alphanumeric (b : ascii) : bool :=
  is_ascii_lowercase b || is_ascii_uppercase b || is_ascii_digit b.

Definition ascii_lower (b : ascii) : ascii :=
  if is_ascii_uppercase b then ascii_of_N (N_of_ascii b + 32) else b.

Fixpoint map_bytes (f : ascii → ascii) (s : string) : string :=
  match s with
  | EmptyString => EmptyString
  | String b s' => String (f b) (map_bytes f s')
  end.

Definition eq_ignore_ascii_case (s t : string) : bool :=
  bool_decide (map_bytes ascii_lower s = map_bytes ascii_lower t).

(** U+212A KELVIN SIGN, the one non-ASCII scalar value whose lower case is an
    ASCII string. *)
Definition kelvin_sign : string := byte_str [226; 132; 170].

(** [str::to_lowercase], exact on ASCII letters and on U+212A. Other non-ASCII
    letters are kept: their lower case is never ASCII, and every use in the
    service compares the result with ASCII literals. *)
Definition to_lowercase (s : string) : string :=
  concat_str ((λ c, if bool_decide (c = kelvin_sign) then "k"%string
                    else map_bytes ascii_lower c) <$> chars s).

(** ** Searching and splitting *)

Definition contains_char (c : ascii) (s : string) : bool :=
  existsb (Ascii.eqb c) (bytes s).

(** [str::split] on one ASCII character: always at least one piece. *)
Fixpoint split (c : ascii) (s : string) : list string :=
  match s with
  | EmptyString => [EmptyString]
  | String b s' =>
      if Ascii.eqb b c then EmptyString :: split c s'
      else match split c s' with
           | p :: ps => String b p :: ps
           | [] => [String b EmptyString]
           end
  end.

(** [str::split_once] on one ASCII character. *)
Fixpoint split_once (c : ascii) (s : string) : option (string * string) :=
  match s with
  | EmptyString => None
  | String b s' =>
      if Ascii.eqb b c then Some (EmptyString, s')
      else match split_once c s' with
           | Some (p, q) => Some (String b p, q)
           | None => None
           end
  end.

Fixpoint strip_prefix (p s : string) : option string :=
  match p, s with
  | EmptyString, _ => Some s
  | String b p', String b' s' => if Ascii.eqb b b' then strip_prefix p' s' else None
  | String _ _, EmptyString => None
  end.

(** ** Integers: [str::parse] *)

Definition digit_val (b : ascii) : option Z :=
  if is_ascii_digit b then Some (byte_val b - 48) else None.

Fixpoint parse_digits (max acc : Z) (s : string) : option Z :=
  match s with
  | EmptyString => Some acc
  | String b s' =>
      match digit_val b with
      | None => None
      | Some d =>
          let acc' := acc * 10 + d in
          if max <? acc' then None else parse_digits max acc' s'
      end
  end.

(** [parse::<uN>()] for the unsigned type with largest value [max]: an optional
    leading [+], at least one digit, no overflow. *)
Definition parse_uint (max : Z) (s : string) : option Z :=
  match s with
  | EmptyString => None
  | String "+" EmptyString => None
  | String "+" s' => parse_digits max 0 s'
  | _ => parse_digits max 0 s
  end.

(** [parse::<i64>()] *)
Definition parse_i64 (s : string) : option Z :=
  match s with
  | EmptyString => None
  | String "+" EmptyString => None
  | String "-" EmptyString => None
  | String "+" s' => parse_digits I64_MAX 0 s'
  | String "-" s' => Z.opp <$> parse_digits (I64_MAX + 1) 0 s'
  | _ => parse_digits I64_MAX 0 s
  end.

(** ** [IpAddr] *)

Inductive IpAddr : Type :=
| V4 (a : N)
| V6 (a : N).

#[global] Instance IpAddr_eq_dec : EqDecision IpAddr.
Proof. solve_decision. Defined.

#[global] Instance IpAddr_countable : Countable IpAddr :=
  inj_countable'
    (λ ip, match ip with V4 a => inl a | V6 a => inr a end)
    (λ s, match s with inl a => V4 a | inr a => V6 a end)
    ltac:(by intros []).

(** [127.0.0.0/8] and [::1]. *)
Definition is_loopback (ip : IpAddr) : bool :=
  match ip with
  | V4 a => N.eqb (N.shiftr a 24) 127
  | V6 a => N.eqb a 1
  end.

(** The address parser of [core::net]: a reader consumes a prefix and returns
    the rest of the input. *)
Definition hex_val (b : ascii) : option Z :=
  if is_ascii_digit b then Some (byte_val b - 48)
  else if (97 <=? byte_val b) && (byte_val b <=? 102) then Some (byte_val b - 87)
  else if (65 <=? byte_val b) && (byte_val b <=? 70) then Some (byte_val b - 55)
  else None.

Fixpoint read_digits (value : ascii → option Z) (radix : Z) (s : string) : list Z * string :=
  match s with
  | EmptyString => ([], EmptyString)
  | String b s' =>
      match value b with
      | None => ([], s)
      | Some d => let '(ds, r) := read_digits value radix s' in (d :: ds, r)
      end
  end.

(** [read_number(radix, Some(max_digits), allow_zero_prefix)] into a type whose
    largest value is [max]. *)
Definition read_number (value : ascii → option Z) (radix : Z) (max_digits : nat)
    (allow_zero_prefix : bool) (max : Z) (s : string) : option (Z * string) :=
  let '(ds, r) := read_digits value radix s in
  let v := fold_left (λ acc d, acc * radix + d) ds 0 in
  if (max_digits <? length ds)%nat then None
  else match ds with
       | [] => None
       | d :: ds' =>
           if negb allow_zero_prefix && (d =? 0) && (0 <? length ds')%nat then None
           else if max <? v then None else Some (v, r)
       end.

Definition read_char (c : ascii) (s : string) : option string :=
  match s with
  | String b s' => if Ascii.eqb b c then Some s' else None
  | EmptyString => None
  end.

Definition read_octet : string → option (Z * string) :=
  read_number digit_val 10 3 false U8_MAX.

Definition read_ipv4_addr (s : string) : option (Z * string) :=
  '(a, s) ← read_octet s;
  s ← read_char "." s; '(b, s) ← read_octet s;
  s ← read_char "." s; '(c, s) ← read_octet s;
  s ← read_char "." s; '(d, s) ← read_octet s;
  Some (((a * 256 + b) * 256 + c) * 256 + d, s).

(** [read_separator(':', i, inner)] *)
Definition read_separator {A} (i : nat) (inner : string → option (A * string))
    (s : string) : option (A * string) :=
  match i with
  | O => inner s
  | S _ => s' ← read_char ":" s; inner s'
  end.

(** [read_groups] over the remaining [n] slots of [i + n]; returns the groups
    read, whether they end in an embedded IPv4 address, and the rest. *)
Fixpoint read_groups (n i : nat) (s : string) : list Z * bool * string :=
  match n with
  | O => ([], false, s)
  | S n' =>
      match (if (0 <? n')%nat then read_separator i read_ipv4_addr s else None) with
      | Some (v4, r) => ([v4 / 65536; v4 mod 65536], true, r)
      | None =>
          match read_separator i (read_number hex_val 16 4 true U16_MAX) s with
          | None => ([], false, s)
          | Some (g, r) =>
              let '(gs, v4, r') := read_groups n' (S i) r in (g :: gs, v4, r')
          end
      end
  end.

Definition groups_to_N (gs : list Z) : N :=
  Z.to_N (fold_left (λ acc g, acc * 65536 + g) gs 0).

Definition read_ipv6_addr (s : string) : option (N * string) :=
  let '(head, head_ipv4, r) := read_groups 8 0 s in
  if (length head =? 8)%nat then Some (groups_to_N head, r)
  else if (head_ipv4 : bool) then None
  else
    r ← read_char ":" r; r ← read_char ":" r;
    let '(tail, _, r') := read_groups (8 - (length head + 1)) 0 r in
    Some (groups_to_N (head ++ replicate (8 - (length head + length tail)) 0 ++ tail), r').

(** [parse::<IpAddr>()]: the whole input must be consumed. *)
Definition parse_ip (s : string) : option IpAddr :=
  match read_ipv4_addr s with
  | Some (v4, r) => if is_empty r then Some (V4 (Z.to_N v4)) else None
  | None =>
      match read_ipv6_addr s with
      | Some (v6, EmptyString) => Some (V6 v6)
      | _ => None
      end
  end.

(** ** HTTP header maps

    A [HeaderMap] is the list of its (lower-case name, raw value) entries;
    [get] returns the first value, [to_str] succeeds on visible ASCII only. *)
Definition HeaderMap : Type := list (string * string).

Definition header_get (name : string) (h : HeaderMap) : option string :=
  snd <$> find (λ kv, bool_decide (kv.1 = name)) h.

Definition visible_ascii (b : ascii) : bool :=
  ((32 <=? byte_val b) && (byte_val b <? 127)) || (byte_val b =? 9).

Definition to_str (v : string) : option string :=
  if forallb visible_ascii (bytes v) then Some v else None.

(** ** Evaluation checks *)

Example parse_ip_v4 : parse_ip "10.0.0.1" = Some (V4 167772161).
Proof. reflexivity. Qed.

Example parse_ip_v6_loopback : parse_ip "::1" = Some (V6 1).
Proof. reflexivity. Qed.

Example parse_ip_v6_mapped :
  parse_ip "::ffff:127.0.0.1" = Some (V6 (0xffff7f000001)).
Proof. reflexivity. Qed.

Example parse_ip_leading_zero : parse_ip "10.01.0.1" = None.
Proof. reflexivity. Qed.

Example parse_ip_v6_full : parse_ip "2001:db8:0:0:0:0:0:1" = parse_ip "2001:db8::1".
Proof. reflexivity. Qed.

Example parse_ip_garbage : parse_ip "1::2::3" = None.
Proof. reflexivity. Qed.

Example trim_mixed : trim (String.append (byte_str [32; 194; 160]) "a b"%string) = "a b"%string.
Proof. reflexivity. Qed.

Example parse_uint_overflow : parse_uint U8_MAX "256" = None.
Proof. reflexivity. Qed.

(** ** Lemmas *)

#[local] Arguments String.append !_ _ / : simpl nomatch.

Lemma is_empty_spec s : is_empty s = true ↔ s = EmptyString.
Proof. destruct s; split; done. Qed.

Lemma str_len_nonneg s : 0 ≤ str_len s.
Proof. unfold str_len. lia. Qed.

Lemma str_len_zero s : str_len s = 0 ↔ s = EmptyString.
Proof. unfold str_len. destruct s; simpl; split; intros; (done || lia). Qed.

Lemma append_assoc (a b c : string) :
  String.append (String.append a b) c = String.append a (String.append b c).
Proof. induction a as [|x a IH]; simpl; [done | by rewrite IH]. Qed.

Lemma append_nil_r (a : string) : String.append a EmptyString = a.
Proof. induction a as [|x a IH]; simpl; [done | by rewrite IH]. Qed.

Lemma concat_str_app l1 l2 :
  concat_str (l1 ++ l2) = String.append (concat_str l1) (concat_str l2).
Proof.
  induction l1 as [|s l1 IH]; simpl; [done|]. by rewrite IH, append_assoc.
Qed.

Lemma chars_concat s : concat_str (chars s) = s.
Proof.
  induction s as [|b s IH]; [done|]. simpl.
  destruct (chars s) as [|c cs]; simpl in *; [by subst|].
  destruct (continues s); simpl; by rewrite IH.
Qed.

Lemma chars_nonempty s c : c ∈ chars s → c ≠ EmptyString.
Proof.
  induction s as [|b s IH]; simpl; [by intros ?%elem_of_nil|].
  destruct (chars s) as [|d ds]; [by intros ->%list_elem_of_singleton|].
  destruct (continues s); rewrite !elem_of_cons.
  - intros [->|Hc]; [done|]. apply IH. rewrite elem_of_cons. by right.
  - intros [->|Hc]; [done|]. apply IH. by rewrite elem_of_cons.
Qed.

Lemma drop_ws_suffix cs : ∃ pre, cs = pre ++ drop_ws cs ∧ Forall (λ c, is_whitespace c = true) pre.
Proof.
  induction cs as [|c cs (pre & Heq & Hpre)]; [by exists []|]. simpl.
  destruct (is_whitespace c) eqn:Hc; [|by exists []].
  exists (c :: pre). split; [by rewrite Heq at 1 | by constructor].
Qed.

Lemma drop_ws_head cs : match drop_ws cs with c :: _ => is_whitespace c = false | [] => True end.
Proof. induction cs as [|c cs IH]; simpl; [done|]. by destruct (is_whitespace c) eqn:Hc. Qed.

Lemma drop_ws_id cs :
  match cs with c :: _ => is_whitespace c = false | [] => True end → drop_ws cs = cs.
Proof. destruct cs as [|c cs]; simpl; [done|]. by intros ->. Qed.

Lemma split_nonempty c s : split c s ≠ [].
Proof. destruct s; simpl; [done|]. repeat case_match; done. Qed.

Lemma split_no_sep c s : contains_char c s = false → split c s = [s].
Proof.
  unfold contains_char. induction s as [|b s IH]; simpl; [done|].
  rewrite orb_false_iff, Ascii.eqb_sym. intros [-> Hs]. by rewrite IH.
Qed.

Lemma split_app c s t :
  split c (String.append s (String c t)) = split c s ++ split c t.
Proof.
  induction s as [|b s IH]; simpl.
  - by rewrite Ascii.eqb_refl.
  - destruct (Ascii.eqb b c); simpl; rewrite IH; [done|].
    destruct (split c s) eqn:Hs; [by apply split_nonempty in Hs | done].
Qed.

(** *** UTF-8 grouping

    Every character but the first starts with a non-continuation byte, and the
    other bytes of a character are continuation bytes; such a grouping is the
    only one [chars] can return, so re-grouping a slice of it gives it back. *)

Definition tail_conts (c : string) : bool :=
  match c with
  | String _ t => forallb is_continuation (bytes t)
  | EmptyString => false
  end.

Definition grouped (l : list string) : Prop :=
  Forall (λ c, tail_conts c = true) l ∧ Forall (λ c, continues c = false) (tail l).

Lemma continues_concat c l :
  c ≠ EmptyString → continues (concat_str (c :: l)) = continues c.
Proof. by destruct c. Qed.

Lemma chars_grouped s : grouped (chars s).
Proof.
  induction s as [|b s [Ht Hs]]; [by split|]. simpl.
  destruct (chars s) as [|c cs] eqn:Hc; [by split; repeat constructor|].
  apply Forall_cons in Ht as [Hc1 Ht]. destruct c as [|x t]; [done|].
  assert (Hx : continues s = is_continuation x).
  { by rewrite <- (chars_concat s), Hc. }
  destruct (continues s) eqn:Hcont; split; simpl.
  - constructor; [simpl in *; by rewrite <- Hx, Hc1 | done].
  - done.
  - constructor; [done|]. by constructor.
  - by constructor.
Qed.

Lemma chars_extend b t rest :
  forallb is_continuation (bytes t) = true → continues rest = false →
  chars (String b (String.append t rest)) = String b t :: chars rest.
Proof.
  revert b; induction t as [|x t IH]; intros b Ht Hr.
  - simpl. rewrite Hr. by destruct (chars rest).
  - apply andb_true_iff in Ht as [Hx Ht].
    change (String.append (String x t) rest) with (String x (String.append t rest)).
    pose proof (IH x Ht Hr) as IH'. simpl in *. by rewrite IH', Hx.
Qed.

Lemma chars_of_grouped l : grouped l → chars (concat_str l) = l.
Proof.
  induction l as [|c l IH]; intros [Ht Hs]; [done|].
  apply Forall_cons in Ht as [Hc Ht]. destruct c as [|b t]; [done|].
  assert (Hg : grouped l).
  { split; [done|]. destruct l; [done|]. by apply Forall_cons in Hs as [_ ?]. }
  assert (Hcont : continues (concat_str l) = false).
  { destruct l as [|d l]; [done|]. apply Forall_cons in Hs as [Hd _].
    apply Forall_cons in Ht as [Hd' _]. rewrite continues_concat; [done|]. by destruct d. }
  change (concat_str (String b t :: l)) with (String b (String.append t (concat_str l))).
  by rewrite chars_extend, IH.
Qed.

Lemma grouped_app_inv l1 l2 : grouped (l1 ++ l2) → grouped l1 ∧ grouped l2.
Proof.
  intros [Ht Hs]. apply Forall_app in Ht as [Ht1 Ht2].
  destruct l1 as [|c l1]; [by split|]. simpl in Hs. apply Forall_app in Hs as [Hs1 Hs2].
  split; split; try done. destruct l2; [done|]. by apply Forall_cons in Hs2 as [_ ?].
Qed.

(** The characters [trim] keeps. *)
Definition trimmed (s : string) : list string :=
  reverse (drop_ws (reverse (drop_ws (chars s)))).

Lemma trimmed_split s :
  ∃ pre post, chars s = pre ++ trimmed s ++ post ∧
    Forall (λ c, is_whitespace c = true) pre ∧ Forall (λ c, is_whitespace c = true) post.
Proof.
  destruct (drop_ws_suffix (chars s)) as (pre & Hpre & Fpre).
  destruct (drop_ws_suffix (reverse (drop_ws (chars s)))) as (post & Hpost & Fpost).
  exists pre, (reverse post). unfold trimmed. split_and!; [|done|by apply Forall_reverse].
  rewrite Hpre at 1. f_equal.
  by rewrite <- reverse_app, <- Hpost, reverse_involutive.
Qed.

Lemma trimmed_ends s :
  match trimmed s with c :: _ => is_whitespace c = false | [] => True end ∧
  match reverse (trimmed s) with c :: _ => is_whitespace c = false | [] => True end.
Proof.
  split; [|unfold trimmed; rewrite reverse_involutive; apply drop_ws_head].
  destruct (drop_ws_suffix (reverse (drop_ws (chars s)))) as (post & Hpost & _).
  pose proof (drop_ws_head (chars s)) as Hh.
  assert (Heq : drop_ws (chars s) = trimmed s ++ reverse post).
  { unfold trimmed. by rewrite <- reverse_app, <- Hpost, reverse_involutive. }
  rewrite Heq in Hh. by destruct (trimmed s).
Qed.

Lemma chars_trim s : chars (trim s) = trimmed s.
Proof.
  apply chars_of_grouped. pose proof (chars_grouped s) as Hg.
  destruct (trimmed_split s) as (pre & post & Heq & _ & _). rewrite Heq in Hg.
  apply grouped_app_inv in Hg as [_ Hg]. by apply grouped_app_inv in Hg as [Hg _].
Qed.

Lemma trim_idempotent s : trim (trim s) = trim s.
Proof.
  destruct (trimmed_ends s) as [H1 H2]. unfold trim at 1.
  rewrite chars_trim, (drop_ws_id _ H1), (drop_ws_id _ H2).
  by rewrite reverse_involutive.
Qed.

Lemma str_len_append s t : str_len (String.append s t) = str_len s + str_len t.
Proof.
  unfold str_len. induction s as [|b s IH]; simpl; [lia|].
  rewrite !Nat2Z.inj_succ, IH. lia.
Qed.

(** Trimming never lengthens a string. *)
Lemma trim_len s : str_len (trim s) ≤ str_len s.
Proof.
  destruct (trimmed_split s) as (pre & post & Heq & _ & _).
  assert (Hs : str_len s = str_len (concat_str (pre ++ trimmed s ++ post)))
    by by rewrite <- Heq, chars_concat.
  rewrite Hs, !concat_str_app, !str_len_append.
  change (concat_str (trimmed s)) with (trim s).
  pose proof (str_len_nonneg (concat_str pre)). pose proof (str_len_nonneg (concat_str post)). lia.
Qed.

Lemma strip_prefix_Some p s r : strip_prefix p s = Some r → s = String.append p r.
Proof.
  revert s. induction p as [|b p IH]; intros [|b' s]; simpl; try done; [by intros [= ->]..|].
  destruct (Ascii.eqb b b') eqn:E; [|done]. intros Hr. apply Ascii.eqb_eq in E as ->. by rewrite (IH _ Hr).
Qed.
