(* ===== verification/ValueObjects.v ===== *)
(** * Shared domain vocabulary

    [crates/shared/src/domain]: the value objects ([Email], [HashedPassword],
    [AuthMethod], [AuthProvider], [EventType]) with their
    constructors and textual encodings, the domain errors, and the domain events
    an aggregate emits. Enumerations are stored in Postgres under [as_str] and
    read back by [TryFrom<&str>]; the lemmas at the end show the two are inverse. *)

From S2P Require Import Prelude RustStr.

(** ** Errors *)

Inductive DomainError : Type :=
| InvalidEmail (s : string)
| InvalidValue (s : string)
| DomainInternalError (s : string).

(** [#[error("...")]] messages ([Display]). *)
Definition DomainError_to_string (e : DomainError) : string :=
  match e with
  | InvalidEmail s => String.append "Invalid email: " s
  | InvalidValue s => String.append "Invalid value: " s
  | DomainInternalError s => String.append "Internal error: " s
  end.

Inductive AuthError : Type :=
| InvalidCredentials
| UserNotFound
| TokenVerificationFailed
| SessionNotFound
| SessionExpired
| SessionInvalidated
| InvalidRefreshToken
| RateLimited
| TokenGenerationFailed
| InternalError (s : string).

#[global] Instance AuthError_eq_dec : EqDecision AuthError.
Proof. solve_decision. Defined.

(** ** Enumerations with a textual encoding *)

Inductive AuthMethod : Type :=
| Password
| GoogleOAuth.

#[global] Instance AuthMethod_eq_dec : EqDecision AuthMethod.
Proof. solve_decision. Defined.

Definition AuthMethod_as_str (m : AuthMethod) : string :=
  match m with
  | Password => "password"
  | GoogleOAuth => "google_oauth"
  end.

Definition AuthMethod_try_from (value : string) : result string AuthMethod :=
  if bool_decide (value = "password") then Ok Password
  else if bool_decide (value = "google_oauth") then Ok GoogleOAuth
  else Err (String.append "Invalid auth method: " value).

Inductive AuthProvider : Type :=
| Local
| Google.

#[global] Instance AuthProvider_eq_dec : EqDecision AuthProvider.
Proof. solve_decision. Defined.

Definition AuthProvider_as_str (p : AuthProvider) : string :=
  match p with
  | Local => "local"
  | Google => "google"
  end.

Definition AuthProvider_try_from (value : string) : result string AuthProvider :=
  if bool_decide (value = "local") then Ok Local
  else if bool_decide (value = "google") then Ok Google
  else Err (String.append "Invalid auth provider: " value).

Inductive EventType : Type :=
| Login
| Logout
| Refresh.

#[global] Instance EventType_eq_dec : EqDecision EventType.
Proof. solve_decision. Defined.

Definition EventType_as_str (t : EventType) : string :=
  match t with
  | Login => "login"
  | Logout => "logout"
  | Refresh => "refresh"
  end.

Definition EventType_try_from (value : string) : result string EventType :=
  if bool_decide (value = "login") then Ok Login
  else if bool_decide (value = "logout") then Ok Logout
  else if bool_decide (value = "refresh") then Ok Refresh
  else Err (String.append "Invalid event type: " value).

(** ** Validated strings *)

Record Email : Type := MkEmail { email_str : string }.

#[global] Instance Email_eq_dec : EqDecision Email.
Proof. solve_decision. Defined.

Definition Email_new (s : string) : result DomainError Email :=
  if is_empty s || negb (contains_char "@" s) then Err (InvalidEmail s)
  else Ok (MkEmail s).

Record HashedPassword : Type := MkHashedPassword { hash_str : string }.

#[global] Instance HashedPassword_eq_dec : EqDecision HashedPassword.
Proof. solve_decision. Defined.

Definition HashedPassword_new (s : string) : result string HashedPassword :=
  if is_empty s then Err "Password hash must not be empty"%string
  else Ok (MkHashedPassword s).

Definition REDACTED_HASH_MARKER : string := "<redacted>".

(** [Display] and [Debug] of a password hash: neither shows the hash. *)
Definition HashedPassword_display (h : HashedPassword) : string := REDACTED_HASH_MARKER.

(** The double quote is byte 34. *)
Definition HashedPassword_debug (h : HashedPassword) : string :=
  String.append (String.append "HashedPassword(" (byte_str [34]))
    (String.append REDACTED_HASH_MARKER (String.append (byte_str [34]) ")")).

(** ** Domain events *)

Record UserLoggedIn : Type := MkUserLoggedIn {
  uli_user_id : Uuid; uli_session_id : Uuid; uli_method : AuthMethod; uli_occurred_at : Z }.

Record UserLoggedOut : Type := MkUserLoggedOut {
  ulo_user_id : Uuid; ulo_session_id : Uuid; ulo_method : AuthMethod; ulo_occurred_at : Z }.

Record SessionRefreshed : Type := MkSessionRefreshed {
  sre_user_id : Uuid; sre_session_id : Uuid; sre_method : AuthMethod; sre_occurred_at : Z }.

Record UserCreated : Type := MkUserCreated {
  uc_user_id : Uuid; uc_provider : AuthProvider; uc_occurred_at : Z }.

Inductive Event : Type :=
| EvUserLoggedIn (e : UserLoggedIn)
| EvUserLoggedOut (e : UserLoggedOut)
| EvSessionRefreshed (e : SessionRefreshed)
| EvUserCreated (e : UserCreated).

(** The constructors stamp the event with the clock; [now] is that reading. *)
Definition UserLoggedIn_new (now : Z) (user_id session_id : Uuid) (m : AuthMethod) : UserLoggedIn :=
  MkUserLoggedIn user_id session_id m now.
Definition UserLoggedOut_new (now : Z) (user_id session_id : Uuid) (m : AuthMethod) : UserLoggedOut :=
  MkUserLoggedOut user_id session_id m now.
Definition SessionRefreshed_new (now : Z) (user_id session_id : Uuid) (m : AuthMethod) : SessionRefreshed :=
  MkSessionRefreshed user_id session_id m now.
Definition UserCreated_new (now : Z) (user_id : Uuid) (p : AuthProvider) : UserCreated :=
  MkUserCreated user_id p now.

Definition Event_event_type (e : Event) : string :=
  match e with
  | EvUserLoggedIn _ => "user_logged_in"
  | EvUserLoggedOut _ => "user_logged_out"
  | EvSessionRefreshed _ => "session_refreshed"
  | EvUserCreated _ => "user_created"
  end.

Definition Event_occurred_at (e : Event) : Z :=
  match e with
  | EvUserLoggedIn e => uli_occurred_at e
  | EvUserLoggedOut e => ulo_occurred_at e
  | EvSessionRefreshed e => sre_occurred_at e
  | EvUserCreated e => uc_occurred_at e
  end.

Definition Event_aggregate_id (e : Event) : Uuid :=
  match e with
  | EvUserLoggedIn e => uli_user_id e
  | EvUserLoggedOut e => ulo_user_id e
  | EvSessionRefreshed e => sre_user_id e
  | EvUserCreated e => uc_user_id e
  end.

Definition Event_auth_method (e : Event) : option AuthMethod :=
  match e with
  | EvUserLoggedIn e => Some (uli_method e)
  | EvUserLoggedOut e => Some (ulo_method e)
  | EvSessionRefreshed e => Some (sre_method e)
  | EvUserCreated _ => None
  end.

Definition Event_session_id (e : Event) : option Uuid :=
  match e with
  | EvUserLoggedIn e => Some (uli_session_id e)
  | EvUserLoggedOut e => Some (ulo_session_id e)
  | EvSessionRefreshed e => Some (sre_session_id e)
  | EvUserCreated _ => None
  end.

Definition Event_user_id (e : Event) : Uuid := Event_aggregate_id e.

(** ** Lemmas *)

Lemma AuthMethod_round_trip m : AuthMethod_try_from (AuthMethod_as_str m) = Ok m.
Proof. by destruct m. Qed.

Lemma AuthProvider_round_trip p : AuthProvider_try_from (AuthProvider_as_str p) = Ok p.
Proof. by destruct p. Qed.

Lemma EventType_round_trip t : EventType_try_from (EventType_as_str t) = Ok t.
Proof. by destruct t. Qed.

Lemma AuthMethod_try_from_Ok s m : AuthMethod_try_from s = Ok m → s = AuthMethod_as_str m.
Proof. unfold AuthMethod_try_from. intros. repeat case_bool_decide; by simplify_eq. Qed.

Lemma AuthProvider_try_from_Ok s p : AuthProvider_try_from s = Ok p → s = AuthProvider_as_str p.
Proof. unfold AuthProvider_try_from. intros. repeat case_bool_decide; by simplify_eq. Qed.

Lemma EventType_try_from_Ok s t : EventType_try_from s = Ok t → s = EventType_as_str t.
Proof. unfold EventType_try_from. intros. repeat case_bool_decide; by simplify_eq. Qed.

Lemma HashedPassword_new_Ok s h : HashedPassword_new s = Ok h ↔ s = hash_str h ∧ s ≠ EmptyString.
Proof.
  unfold HashedPassword_new. destruct h as [t]; simpl. destruct s as [|b s]; simpl; naive_solver.
Qed.

Lemma Email_new_Ok s e :
  Email_new s = Ok e ↔ s = email_str e ∧ contains_char "@" s = true.
Proof.
  unfold Email_new. destruct e as [t]; simpl. destruct s as [|b s]; simpl.
  - split; [done|]. by intros [_ ?].
  - destruct (contains_char "@" (String b s)) eqn:Hc; naive_solver.
Qed.

#[export] Hint Resolve AuthMethod_round_trip AuthProvider_round_trip EventType_round_trip : svc.
