(* ===== verification/Entities.v ===== *)
(** * Entities of the auth context

    [crates/auth/src/domain/entities]: [Session]/[NewSession], [User]/[NewUser]
    and the audit record [UserAction]/[NewUserAction]. A method that reads the
    clock takes the reading [now] as its first argument. *)

From S2P Require Import Prelude RustStr ValueObjects.

(** ** Sessions *)

Record Session : Type := MkSession {
  s_id : Uuid;
  s_user_id : Uuid;
  s_refresh_token_hash : HashedPassword;
  s_expires_at : Z;
  s_is_active : bool;
  s_created_at : Z;
  s_auth_method : AuthMethod }.

#[global] Instance Session_eq_dec : EqDecision Session.
Proof. solve_decision. Defined.

Record NewSession : Type := MkNewSession {
  ns_id : Uuid;
  ns_user_id : Uuid;
  ns_refresh_token_hash : HashedPassword;
  ns_expires_at : Z;
  ns_auth_method : AuthMethod }.

Definition Session_is_expired (now : Z) (s : Session) : bool := s_expires_at s <=? now.

Definition Session_invalidate (s : Session) : Session :=
  MkSession (s_id s) (s_user_id s) (s_refresh_token_hash s) (s_expires_at s)
    false (s_created_at s) (s_auth_method s).

Definition NewSession_validate (now : Z) (s : NewSession) : result string unit :=
  if is_empty (hash_str (ns_refresh_token_hash s))
  then Err "refresh_token_hash must not be empty"%string
  else if ns_expires_at s <=? now then Err "expires_at must be in the future"%string
  else Ok tt.

(** ** Users *)

Record User : Type := MkUser {
  u_id : Uuid;
  u_username : option string;
  u_email : Email;
  u_display_name : string;
  u_password_hash : option HashedPassword;
  u_auth_provider : AuthProvider;
  u_created_at : Z;
  u_updated_at : Z }.

#[global] Instance User_eq_dec : EqDecision User.
Proof. solve_decision. Defined.

(** The condition of the two [debug_assert!]s of [User::new]. *)
Definition User_validate_invariants (password_hash : option HashedPassword)
    (auth_provider : AuthProvider) : bool :=
  match auth_provider with
  | Local => bool_decide (is_Some password_hash)
  | Google => bool_decide (password_hash = None)
  end.

Definition User_new (id : Uuid) (username : option string) (email : Email)
    (display_name : string) (password_hash : option HashedPassword)
    (auth_provider : AuthProvider) (created_at updated_at : Z) : User :=
  MkUser id username email display_name password_hash auth_provider created_at updated_at.

Record NewUser : Type := MkNewUser {
  nu_username : option string;
  nu_email : Email;
  nu_display_name : string;
  nu_password_hash : option HashedPassword;
  nu_auth_provider : AuthProvider }.

Definition NewUser_new_local (username : option string) (email : Email)
    (display_name : string) (password_hash : HashedPassword) : NewUser :=
  MkNewUser username email display_name (Some password_hash) Local.

Definition NewUser_new_google (email : Email) (display_name : string) : NewUser :=
  MkNewUser None email display_name None Google.

(** ** Audit records *)

Record UserAction : Type := MkUserAction {
  ua_id : Uuid;
  ua_user_id : Uuid;
  ua_session_id : option Uuid;
  ua_event_type : EventType;
  ua_auth_method : AuthMethod;
  ua_created_at : Z }.

#[global] Instance UserAction_eq_dec : EqDecision UserAction.
Proof. solve_decision. Defined.

Definition UserAction_new (id user_id : Uuid) (session_id : option Uuid) (event_type : EventType)
    (auth_method : AuthMethod) (created_at : Z) : UserAction :=
  MkUserAction id user_id session_id event_type auth_method created_at.

Record NewUserAction : Type := MkNewUserAction {
  na_user_id : Uuid;
  na_session_id : option Uuid;
  na_event_type : EventType;
  na_auth_method : AuthMethod }.

Definition NewUserAction_new_login (user_id : Uuid) (m : AuthMethod) : NewUserAction :=
  MkNewUserAction user_id None Login m.

Definition NewUserAction_new_logout (user_id session_id : Uuid) (m : AuthMethod) : NewUserAction :=
  MkNewUserAction user_id (Some session_id) Logout m.

Definition NewUserAction_new_refresh (user_id session_id : Uuid) (m : AuthMethod) : NewUserAction :=
  MkNewUserAction user_id (Some session_id) Refresh m.

Definition NewUserAction_validate (a : NewUserAction) : result string unit := Ok tt.

(** ** Lemmas *)

Lemma Session_invalidate_inactive s : s_is_active (Session_invalidate s) = false.
Proof. done. Qed.

Lemma Session_invalidate_id s : s_id (Session_invalidate s) = s_id s.
Proof. done. Qed.

Lemma Session_invalidate_of_inactive s : s_is_active s = false → Session_invalidate s = s.
Proof. destruct s; simpl; by intros ->. Qed.

(** Both constructors of [NewUser] meet the invariant [User::new] asserts. *)
Lemma NewUser_constructors_valid username email name h :
  let l := NewUser_new_local username email name h in
  let g := NewUser_new_google email name in
  User_validate_invariants (nu_password_hash l) (nu_auth_provider l) = true ∧
  User_validate_invariants (nu_password_hash g) (nu_auth_provider g) = true.
Proof. by split. Qed.

#[export] Hint Resolve Session_invalidate_inactive Session_invalidate_id : svc.
