(* ===== verification/Aggregate.v ===== *)
(** * The user aggregate

    [crates/auth/src/domain/aggregate.rs]: a user with the sessions loaded for
    it and the events not yet taken. Methods with [&mut self] return the new
    aggregate next to their [Result]. [now] is the clock reading of the call.

    The second half gives the abstract specification (a session registry keyed
    by session id, where a session is live, revoked or expired) and shows that
    the list-based methods implement it. *)

From S2P Require Import Prelude RustStr ValueObjects Entities.

Definition MAX_ACTIVE_SESSIONS : Z := 25.

Record UserAggregate : Type := MkUserAggregate {
  agg_user : User;
  agg_sessions : list Session;
  agg_pending_events : list Event }.

Definition UserAggregate_new (user : User) (sessions : list Session) : UserAggregate :=
  MkUserAggregate user sessions [].

Definition agg_set_sessions (a : UserAggregate) (l : list Session) : UserAggregate :=
  MkUserAggregate (agg_user a) l (agg_pending_events a).

Definition agg_push (a : UserAggregate) (e : Event) : UserAggregate :=
  MkUserAggregate (agg_user a) (agg_sessions a) (agg_pending_events a ++ [e]).

(** [self.sessions.iter().filter(|s| s.is_active() && !s.is_expired()).count()] *)
Definition active_count (now : Z) (l : list Session) : Z :=
  Z.of_nat (length (List.filter (λ s, s_is_active s && negb (Session_is_expired now s)) l)).

Definition has_id (id : Uuid) (s : Session) : bool := bool_decide (s_id s = id).

(** The element [iter_mut().find(..)] points at, updated in place. *)
Fixpoint update_first (p : Session → bool) (f : Session → Session) (l : list Session) : list Session :=
  match l with
  | [] => []
  | s :: l' => if p s then f s :: l' else s :: update_first p f l'
  end.

Definition add_session (now : Z) (session_id : Uuid) (refresh_token_hash : HashedPassword)
    (expires_at : Z) (auth_method : AuthMethod) (a : UserAggregate)
    : result AuthError NewSession * UserAggregate :=
  let active := active_count now (agg_sessions a) in
  if MAX_ACTIVE_SESSIONS <=? active
  then (Err (InternalError "maximum active sessions reached"), a)
  else
    let new_session := MkNewSession session_id (u_id (agg_user a)) refresh_token_hash
                         expires_at auth_method in
    (Ok new_session,
     agg_push a (EvUserLoggedIn (UserLoggedIn_new now (u_id (agg_user a)) session_id auth_method))).

Definition invalidate_session (now : Z) (session_id : Uuid) (a : UserAggregate)
    : result AuthError AuthMethod * UserAggregate :=
  match find (has_id session_id) (agg_sessions a) with
  | None => (Err SessionNotFound, a)
  | Some session =>
      if negb (bool_decide (s_user_id session = u_id (agg_user a))) then (Err SessionNotFound, a)
      else if negb (s_is_active session) then (Err SessionInvalidated, a)
      else if Session_is_expired now session then (Err SessionExpired, a)
      else
        let auth_method := s_auth_method session in
        let a1 := agg_set_sessions a
                    (update_first (has_id session_id) Session_invalidate (agg_sessions a)) in
        (Ok auth_method,
         agg_push a1 (EvUserLoggedOut (UserLoggedOut_new now (u_id (agg_user a)) session_id auth_method)))
  end.

Definition rotate_session (now : Z) (session_id : Uuid) (token_matches : bool)
    (new_session_id : Uuid) (new_refresh_hash : HashedPassword) (expires_at : Z)
    (a : UserAggregate) : result AuthError NewSession * UserAggregate :=
  match find (has_id session_id) (agg_sessions a) with
  | None => (Err SessionNotFound, a)
  | Some session =>
      if negb (s_is_active session) then (Err SessionInvalidated, a)
      else if Session_is_expired now session then (Err SessionExpired, a)
      else if negb token_matches then (Err InvalidRefreshToken, a)
      else
        let auth_method := s_auth_method session in
        let a1 := agg_set_sessions a
                    (update_first (has_id session_id) Session_invalidate (agg_sessions a)) in
        let new_session := MkNewSession new_session_id (u_id (agg_user a)) new_refresh_hash
                             expires_at auth_method in
        (Ok new_session,
         agg_push a1 (EvSessionRefreshed
           (SessionRefreshed_new now (u_id (agg_user a)) new_session_id auth_method)))
  end.

(** The loop of [invalidate_all_active_sessions]: the sessions after it and the
    events pushed by it, in order. *)
Fixpoint invalidate_loop (now : Z) (user_id : Uuid) (l : list Session) : list Session * list Event :=
  match l with
  | [] => ([], [])
  | s :: l' =>
      let '(ss, evs) := invalidate_loop now user_id l' in
      if s_is_active s
      then (Session_invalidate s :: ss,
            EvUserLoggedOut (UserLoggedOut_new now user_id (s_id s) (s_auth_method s)) :: evs)
      else (s :: ss, evs)
  end.

Definition invalidate_all_active_sessions (now : Z) (a : UserAggregate) : UserAggregate :=
  let '(ss, evs) := invalidate_loop now (u_id (agg_user a)) (agg_sessions a) in
  MkUserAggregate (agg_user a) ss (agg_pending_events a ++ evs).

Definition take_events (a : UserAggregate) : list Event * UserAggregate :=
  (agg_pending_events a, MkUserAggregate (agg_user a) (agg_sessions a) []).

(** ** Invariant

    What a loaded aggregate satisfies: session ids are unique, every session
    belongs to the user, and every pending event is about the user. *)

Definition agg_wf (a : UserAggregate) : Prop :=
  NoDup (s_id <$> agg_sessions a) ∧
  Forall (λ s, s_user_id s = u_id (agg_user a)) (agg_sessions a) ∧
  Forall (λ e, Event_user_id e = u_id (agg_user a)) (agg_pending_events a).

(** ** Abstract specification

    A registry of sessions by id. [spec_check] is the contract's admission rule:
    unknown, revoked and expired sessions are told apart in that order. *)

Definition registry (l : list Session) : gmap Uuid Session :=
  list_to_map ((λ s, (s_id s, s)) <$> l).

Definition spec_check (now : Z) (id : Uuid) (r : gmap Uuid Session) : result AuthError Session :=
  match r !! id with
  | None => Err SessionNotFound
  | Some s => if negb (s_is_active s) then Err SessionInvalidated
              else if Session_is_expired now s then Err SessionExpired
              else Ok s
  end.

Definition spec_revoke (id : Uuid) (r : gmap Uuid Session) : gmap Uuid Session :=
  alter Session_invalidate id r.

Definition spec_revoke_all (r : gmap Uuid Session) : gmap Uuid Session :=
  Session_invalidate <$> r.

(** The operations a client can perform on an aggregate, and one step of it. *)
Inductive AggOp : Type :=
| OpAdd (now : Z) (id : Uuid) (h : HashedPassword) (exp : Z) (m : AuthMethod)
| OpInvalidate (now : Z) (id : Uuid)
| OpRotate (now : Z) (id : Uuid) (tm : bool) (nid : Uuid) (h : HashedPassword) (exp : Z)
| OpInvalidateAll (now : Z)
| OpTake.

Definition agg_step (op : AggOp) (a : UserAggregate) : UserAggregate :=
  match op with
  | OpAdd now id h exp m => (add_session now id h exp m a).2
  | OpInvalidate now id => (invalidate_session now id a).2
  | OpRotate now id tm nid h exp => (rotate_session now id tm nid h exp a).2
  | OpInvalidateAll now => invalidate_all_active_sessions now a
  | OpTake => (take_events a).2
  end.

(** ** Lemmas on the session list *)

Lemma has_id_spec id s : has_id id s = true ↔ s_id s = id.
Proof. apply bool_decide_eq_true. Qed.

Lemma has_id_false id s : has_id id s = false ↔ s_id s ≠ id.
Proof. apply bool_decide_eq_false. Qed.

Lemma registry_cons s l : registry (s :: l) = <[s_id s := s]> (registry l).
Proof. done. Qed.

(** Looking an id up in the registry is [iter().find(..)]. *)
Lemma registry_find id l : registry l !! id = find (has_id id) l.
Proof.
  induction l as [|s l IH]; [done|]. rewrite registry_cons. simpl.
  destruct (has_id id s) eqn:Hid.
  - apply has_id_spec in Hid as <-. apply lookup_insert_eq.
  - apply has_id_false in Hid. by rewrite lookup_insert_ne.
Qed.

Lemma find_has_id id l s : find (has_id id) l = Some s → s ∈ l ∧ s_id s = id.
Proof.
  intros H. apply find_some in H as [Hin Hid]. split.
  - by apply list_elem_of_In.
  - by apply has_id_spec.
Qed.

Lemma registry_update_first id l :
  registry (update_first (has_id id) Session_invalidate l) = spec_revoke id (registry l).
Proof.
  apply map_eq. intros j. unfold spec_revoke. rewrite lookup_alter, !registry_find.
  induction l as [|s l IH]; simpl; [by case_decide|].
  destruct (has_id id s) eqn:Hid; simpl; unfold has_id in *; simpl;
    repeat case_bool_decide; repeat case_decide; simplify_eq; auto.
Qed.

Lemma update_first_ids id l :
  s_id <$> update_first (has_id id) Session_invalidate l = s_id <$> l.
Proof.
  induction l as [|s l IH]; simpl; [done|]. destruct (has_id id s); simpl; by f_equal.
Qed.

Lemma update_first_users id l u :
  Forall (λ s, s_user_id s = u) l →
  Forall (λ s, s_user_id s = u) (update_first (has_id id) Session_invalidate l).
Proof. induction 1; simpl; [done|]. destruct (has_id id x); by constructor. Qed.

(** ** The revocation loop *)

Lemma invalidate_loop_sessions now u l : (invalidate_loop now u l).1 = Session_invalidate <$> l.
Proof.
  induction l as [|s l IH]; simpl; [done|].
  destruct (invalidate_loop now u l) as [ss evs]; simpl in IH; subst ss.
  destruct (s_is_active s) eqn:Hs; simpl; [done|]. f_equal.
  by rewrite Session_invalidate_of_inactive.
Qed.

Lemma invalidate_loop_events now u l :
  (invalidate_loop now u l).2 =
  (λ s, EvUserLoggedOut (UserLoggedOut_new now u (s_id s) (s_auth_method s)))
    <$> List.filter s_is_active l.
Proof.
  induction l as [|s l IH]; simpl; [done|].
  destruct (invalidate_loop now u l) as [ss evs]; simpl in *.
  destruct (s_is_active s); simpl; by rewrite IH.
Qed.

Lemma invalidate_all_eq now a :
  invalidate_all_active_sessions now a =
  MkUserAggregate (agg_user a) (Session_invalidate <$> agg_sessions a)
    (agg_pending_events a ++
     ((λ s, EvUserLoggedOut (UserLoggedOut_new now (u_id (agg_user a)) (s_id s) (s_auth_method s)))
       <$> List.filter s_is_active (agg_sessions a))).
Proof.
  unfold invalidate_all_active_sessions.
  rewrite <- (invalidate_loop_sessions now (u_id (agg_user a))).
  rewrite <- (invalidate_loop_events now (u_id (agg_user a))).
  by destruct (invalidate_loop now _ _).
Qed.

Lemma registry_invalidate_all l : registry (Session_invalidate <$> l) = spec_revoke_all (registry l).
Proof.
  apply map_eq. intros j. unfold spec_revoke_all. rewrite lookup_fmap, !registry_find.
  induction l as [|s l IH]; simpl; [done|]. unfold has_id in *; simpl.
  by case_bool_decide.
Qed.

Lemma take_events_preserves a :
  agg_sessions (take_events a).2 = agg_sessions a ∧ agg_user (take_events a).2 = agg_user a.
Proof. done. Qed.

(** Unfolds an aggregate method and splits on its guards. *)
Ltac agg_cases :=
  unfold add_session, invalidate_session, rotate_session in *;
  repeat case_match; simpl in *; simplify_eq; bool_to_prop.

Lemma agg_step_user op a : agg_user (agg_step op a) = agg_user a.
Proof. destruct op; simpl; [agg_cases; done..| by rewrite invalidate_all_eq | done]. Qed.

Lemma agg_wf_push a e :
  agg_wf a → Event_user_id e = u_id (agg_user a) → agg_wf (agg_push a e).
Proof. intros (?&?&?) He. split_and!; simpl; [done..|]. apply Forall_app. by split; [|constructor]. Qed.

Lemma agg_wf_revoke a id :
  agg_wf a →
  agg_wf (agg_set_sessions a (update_first (has_id id) Session_invalidate (agg_sessions a))).
Proof.
  intros (?&?&?). split_and!; simpl; [|by apply update_first_users|done].
  by rewrite update_first_ids.
Qed.

Lemma agg_wf_invalidate_all now a : agg_wf a → agg_wf (invalidate_all_active_sessions now a).
Proof.
  intros (Hnd&Hu&He). rewrite invalidate_all_eq. split_and!; simpl.
  - by rewrite <- list_fmap_compose.
  - apply Forall_fmap. by eapply Forall_impl.
  - apply Forall_app; split; [done|]. apply Forall_fmap, Forall_true. done.
Qed.

#[export] Hint Resolve agg_wf_push agg_wf_revoke agg_wf_invalidate_all : svc.

Lemma agg_step_wf op a : agg_wf a → agg_wf (agg_step op a).
Proof.
  intros Ha. destruct op; simpl; [| | |by auto with svc|by destruct Ha as (?&?&?)];
    agg_cases; auto with svc; apply agg_wf_push; auto with svc.
Qed.

(** How an operation may change one session: not at all, or revoke it. *)
Definition only_revoked (s s' : Session) : Prop := s' = s ∨ s' = Session_invalidate s.

Lemma only_revoked_trans s1 s2 s3 : only_revoked s1 s2 → only_revoked s2 s3 → only_revoked s1 s3.
Proof. unfold only_revoked. intros [->| ->] [->| ->]; auto. Qed.

Lemma only_revoked_refl_list l : Forall2 only_revoked l l.
Proof. induction l; constructor; [by left | done]. Qed.

Lemma only_revoked_update id l :
  Forall2 only_revoked l (update_first (has_id id) Session_invalidate l).
Proof.
  induction l as [|s l IH]; simpl; [constructor|].
  destruct (has_id id s); constructor; auto using only_revoked_refl_list; unfold only_revoked; auto.
Qed.

Lemma agg_step_only_revoked op a :
  Forall2 only_revoked (agg_sessions a) (agg_sessions (agg_step op a)).
Proof.
  destruct op; simpl;
    [agg_cases; auto using only_revoked_refl_list, only_revoked_update ..| |
     apply only_revoked_refl_list].
  rewrite invalidate_all_eq; simpl. induction (agg_sessions a); simpl; constructor; [by right|done].
Qed.

Lemma agg_steps_only_revoked ops a :
  Forall2 only_revoked (agg_sessions a) (agg_sessions (foldl (flip agg_step) a ops)).
Proof.
  revert a; induction ops as [|op ops IH]; intros a; simpl; [apply only_revoked_refl_list|].
  specialize (IH (agg_step op a)). pose proof (agg_step_only_revoked op a) as H.
  unfold flip in *. revert H IH. generalize (agg_sessions (agg_step op a)).
  generalize (agg_sessions (foldl (λ x y, agg_step y x) (agg_step op a) ops)).
  generalize (agg_sessions a). clear.
  intros l1 l3 l2 H12. revert l3. induction H12 as [|s1 s2 l1 l2 H _ IH]; intros l3 H23;
    inversion H23; simplify_eq; constructor; eauto using only_revoked_trans.
Qed.

(** A small aggregate the witnesses evaluate: user 7 with one live session (1),
    one revoked session (2) and one expired session (3) at time 100. *)
Definition demo_hash : HashedPassword := MkHashedPassword "h".
Definition demo_user : User :=
  User_new 7%N (Some "jdoe") (MkEmail "jdoe@example.com") "J Doe" (Some demo_hash) Local 0 0.
Definition demo_agg : UserAggregate :=
  UserAggregate_new demo_user
    [MkSession 1%N 7%N demo_hash 1000 true 5 Password;
     MkSession 2%N 7%N demo_hash 1000 false 4 GoogleOAuth;
     MkSession 3%N 7%N demo_hash 50 true 3 Password].

Lemma demo_agg_wf : agg_wf demo_agg.
Proof.
  split_and!; simpl; [|repeat constructor..].
  apply (bool_decide_unpack _). vm_compute. done.
Qed.

(** ** Properties *)

(** No operation ever brings a revoked session back: after any sequence of
    operations the session list has the same sessions in the same order, each
    one unchanged or revoked, so a session inactive before is inactive after. *)
Theorem agg_never_reactivates (a : UserAggregate) (ops : list AggOp) (i : nat) (s : Session) :
  agg_sessions a !! i = Some s →
  ∃ s', agg_sessions (foldl (flip agg_step) a ops) !! i = Some s' ∧ s_id s' = s_id s ∧
        (s_is_active s = false → s' = s) ∧ (s' = s ∨ s_is_active s' = false).
Proof.
  intros Hs. pose proof (agg_steps_only_revoked ops a) as H.
  destruct (Forall2_lookup_l _ _ _ _ _ H Hs) as (s' & Hs' & [->| ->]); eauto 7.
  exists (Session_invalidate s). split_and!; auto.
  apply Session_invalidate_of_inactive.
Qed.

(** Every sequence of aggregate operations keeps the aggregate well formed:
    session ids stay unique, every session still belongs to the aggregate's
    user, and every pending event is about that user; and none ever brings a
    revoked session back: the session list has the same sessions in the same
    order, each one unchanged or revoked. *)
Theorem agg_invariant (a : UserAggregate) (ops : list AggOp) :
  agg_wf a →
  let a' := foldl (flip agg_step) a ops in
  agg_wf a' ∧ length (agg_sessions a') = length (agg_sessions a) ∧
  ∀ i s, agg_sessions a !! i = Some s →
    ∃ s', agg_sessions a' !! i = Some s' ∧ s_id s' = s_id s ∧
          (s_is_active s = false → s' = s) ∧ (s' = s ∨ s_is_active s' = false).
Proof.
  intros Ha a'. split_and!.
  - apply (foldl_inv agg_wf); [done|]. intros x op. apply agg_step_wf.
  - symmetry. eapply Forall2_length, agg_steps_only_revoked.
  - intros i s. apply agg_never_reactivates.
Qed.

Lemma agg_invariant_witness :
  agg_wf (foldl (flip agg_step) demo_agg
    [OpRotate 100 1%N true 9%N demo_hash 5000; OpInvalidate 100 3%N; OpInvalidateAll 200]).
Proof. exact (proj1 (agg_invariant demo_agg _ demo_agg_wf)). Defined.

Lemma agg_never_reactivates_witness :
  ∃ s', agg_sessions (foldl (flip agg_step) demo_agg [OpInvalidateAll 100]) !! 0%nat = Some s' ∧
        s_id s' = 1%N ∧ s_is_active s' = false.
Proof.
  destruct (agg_never_reactivates demo_agg [OpInvalidateAll 100] 0
              (MkSession 1%N 7%N demo_hash 1000 true 5 Password) eq_refl)
    as (s' & Hs' & Hid & _ & _).
  exists s'. vm_compute in Hs'. split_and!; [vm_compute; congruence|exact Hid|].
  injection Hs' as <-. reflexivity.
Defined.

(** [rotate_session] implements the registry contract: the session is
    looked up by id; an unknown, a revoked and an expired session are reported
    in that order, whatever the token check said; only then a wrong token is
    [InvalidRefreshToken]. On success exactly that session is revoked, the new
    session inherits its auth method and owner, and one [SessionRefreshed]
    event is appended; on every error the aggregate is unchanged. *)
Theorem rotate_session_refines now id (tm : bool) nid h exp (a : UserAggregate) :
  let r := registry (agg_sessions a) in
  let u := u_id (agg_user a) in
  match spec_check now id r with
  | Err e => rotate_session now id tm nid h exp a = (Err e, a)
  | Ok s =>
      if tm
      then ∃ a', rotate_session now id tm nid h exp a =
                   (Ok (MkNewSession nid u h exp (s_auth_method s)), a') ∧
                 registry (agg_sessions a') = spec_revoke id r ∧
                 agg_user a' = agg_user a ∧
                 agg_pending_events a' = agg_pending_events a ++
                   [EvSessionRefreshed (SessionRefreshed_new now u nid (s_auth_method s))]
      else rotate_session now id tm nid h exp a = (Err InvalidRefreshToken, a)
  end.
Proof.
  cbv zeta. unfold spec_check, rotate_session. rewrite registry_find.
  destruct (find _ _) as [s|]; [|done].
  destruct (s_is_active s); simpl; [|done]. destruct (Session_is_expired now s); [done|].
  destruct tm; simpl; [|done]. eexists. split_and!; [done| |done..].
  simpl. by rewrite registry_update_first.
Qed.

(** [invalidate_session] (logout) implements the same contract and revokes
    only a session of the aggregate's own user: a session of somebody else is
    indistinguishable from an unknown one. On success exactly that session is
    revoked and one [UserLoggedOut] event is appended. *)
Lemma invalidate_session_contract now id (a : UserAggregate) :
  let r := registry (agg_sessions a) in
  let u := u_id (agg_user a) in
  match r !! id with
  | Some s0 =>
      if bool_decide (s_user_id s0 = u) then
        match spec_check now id r with
        | Err e => invalidate_session now id a = (Err e, a)
        | Ok s => ∃ a', invalidate_session now id a = (Ok (s_auth_method s), a') ∧
                    registry (agg_sessions a') = spec_revoke id r ∧
                    agg_user a' = agg_user a ∧
                    agg_pending_events a' = agg_pending_events a ++
                      [EvUserLoggedOut (UserLoggedOut_new now u id (s_auth_method s))]
        end
      else invalidate_session now id a = (Err SessionNotFound, a)
  | None => invalidate_session now id a = (Err SessionNotFound, a)
  end.
Proof.
  cbv zeta. unfold spec_check, invalidate_session. rewrite registry_find.
  destruct (find _ _) as [s|]; [|done].
  case_bool_decide; simpl; [|done].
  destruct (s_is_active s); simpl; [|done]. destruct (Session_is_expired now s); [done|].
  eexists. split_and!; [done| |done..]. simpl. by rewrite registry_update_first.
Qed.

(** [invalidate_all_active_sessions] revokes every session of the registry
    and appends exactly one [UserLoggedOut] event per session that was active,
    in order. *)
Lemma invalidate_all_contract now (a : UserAggregate) :
  let a' := invalidate_all_active_sessions now a in
  registry (agg_sessions a') = spec_revoke_all (registry (agg_sessions a)) ∧
  Forall (λ s, s_is_active s = false) (agg_sessions a') ∧
  agg_user a' = agg_user a ∧
  ∃ evs, agg_pending_events a' = agg_pending_events a ++ evs ∧
    (Event_session_id <$> evs) = (Some ∘ s_id <$> List.filter s_is_active (agg_sessions a)) ∧
    Forall (λ e, Event_event_type e = "user_logged_out"%string) evs.
Proof.
  cbv zeta. rewrite invalidate_all_eq. simpl. split_and!.
  - apply registry_invalidate_all.
  - apply Forall_fmap, Forall_true. done.
  - done.
  - eexists. split_and!; [done| |by apply Forall_fmap, Forall_true].
    by rewrite <- list_fmap_compose.
Qed.

(** Revocation implements the registry contract. [invalidate_session]
    revokes exactly the named session, only if it is the user's own, active and
    unexpired, with one [UserLoggedOut] event, and otherwise reports why and
    changes nothing; [invalidate_all_active_sessions] leaves no session active,
    with one event per session it closed. *)
Theorem invalidation_refines now id (a : UserAggregate) :
  let r := registry (agg_sessions a) in
  let u := u_id (agg_user a) in
  (match r !! id with
   | Some s0 =>
       if bool_decide (s_user_id s0 = u) then
         match spec_check now id r with
         | Err e => invalidate_session now id a = (Err e, a)
         | Ok s => ∃ a', invalidate_session now id a = (Ok (s_auth_method s), a') ∧
                     registry (agg_sessions a') = spec_revoke id r ∧
                     agg_user a' = agg_user a ∧
                     agg_pending_events a' = agg_pending_events a ++
                       [EvUserLoggedOut (UserLoggedOut_new now u id (s_auth_method s))]
         end
       else invalidate_session now id a = (Err SessionNotFound, a)
   | None => invalidate_session now id a = (Err SessionNotFound, a)
   end) ∧
  let a' := invalidate_all_active_sessions now a in
  registry (agg_sessions a') = spec_revoke_all r ∧
  Forall (λ s, s_is_active s = false) (agg_sessions a') ∧
  ∃ evs, agg_pending_events a' = agg_pending_events a ++ evs ∧
    (Event_session_id <$> evs) = (Some ∘ s_id <$> List.filter s_is_active (agg_sessions a)).
Proof.
  split; [apply invalidate_session_contract|].
  destruct (invalidate_all_contract now a) as (? & ? & _ & evs & ? & ? & _). split_and!; eauto.
Qed.

(** [add_session] enforces the session limit: it succeeds exactly when
    fewer than 25 sessions are active and unexpired, returning a session owned
    by the user and appending one [UserLoggedIn] event; at the limit it fails
    and changes nothing. *)
Theorem add_session_limit now id h exp m (a : UserAggregate) :
  (active_count now (agg_sessions a) < 25 ∧
   add_session now id h exp m a =
     (Ok (MkNewSession id (u_id (agg_user a)) h exp m),
      agg_push a (EvUserLoggedIn (UserLoggedIn_new now (u_id (agg_user a)) id m)))) ∨
  (25 ≤ active_count now (agg_sessions a) ∧
   add_session now id h exp m a =
     (Err (InternalError "maximum active sessions reached"), a)).
Proof.
  unfold add_session. destruct (MAX_ACTIVE_SESSIONS <=? _) eqn:H;
    unfold MAX_ACTIVE_SESSIONS in H; bool_to_prop; auto.
Qed.

(** C13. The aggregate implements the session registry. [rotate_session]: the
    session is looked up by id; an unknown, a revoked and an expired session are
    reported in that order, whatever the token check said, and only then a wrong
    token; on success exactly that session is revoked, the new one inherits its
    auth method and owner, and one event says so. [invalidate_session]: a session
    that is unknown or another user's is [SessionNotFound], and then a revoked
    and an expired one are reported, in that order; on success exactly that
    session is revoked, with one event. [invalidate_all_active_sessions] leaves
    none active, with one event for each it closed. [add_session]: a new session and
    one event, exactly while fewer than 25 are active and unexpired. On every
    error the aggregate is unchanged. *)
Theorem aggregate_implements_registry now id (tm : bool) nid h exp m (a : UserAggregate) :
  let r := registry (agg_sessions a) in
  let u := u_id (agg_user a) in
  match spec_check now id r with
  | Err e =>
      rotate_session now id tm nid h exp a = (Err e, a) ∧
      invalidate_session now id a =
        (Err match r !! id with
             | Some s => if bool_decide (s_user_id s = u) then e else SessionNotFound
             | None => SessionNotFound
             end, a)
  | Ok s =>
      (if tm
       then ∃ a', rotate_session now id tm nid h exp a = (Ok (MkNewSession nid u h exp (s_auth_method s)), a') ∧
              registry (agg_sessions a') = spec_revoke id r ∧ agg_user a' = agg_user a ∧
              agg_pending_events a' = agg_pending_events a ++
                [EvSessionRefreshed (SessionRefreshed_new now u nid (s_auth_method s))]
       else rotate_session now id tm nid h exp a = (Err InvalidRefreshToken, a)) ∧
      (if bool_decide (s_user_id s = u)
       then ∃ a', invalidate_session now id a = (Ok (s_auth_method s), a') ∧
              registry (agg_sessions a') = spec_revoke id r ∧ agg_user a' = agg_user a ∧
              agg_pending_events a' = agg_pending_events a ++
                [EvUserLoggedOut (UserLoggedOut_new now u id (s_auth_method s))]
       else invalidate_session now id a = (Err SessionNotFound, a))
  end ∧
  (let a' := invalidate_all_active_sessions now a in
   registry (agg_sessions a') = spec_revoke_all r ∧ Forall (λ s, s_is_active s = false) (agg_sessions a') ∧
   ∃ evs, agg_pending_events a' = agg_pending_events a ++ evs ∧
     (Event_session_id <$> evs) = (Some ∘ s_id <$> List.filter s_is_active (agg_sessions a))) ∧
  (if active_count now (agg_sessions a) <? 25
   then add_session now nid h exp m a =
          (Ok (MkNewSession nid u h exp m),
           agg_push a (EvUserLoggedIn (UserLoggedIn_new now u nid m)))
   else add_session now nid h exp m a = (Err (InternalError "maximum active sessions reached"), a)).
Proof.
  intros r u. pose proof (rotate_session_refines now id tm nid h exp a) as Hrot.
  destruct (invalidation_refines now id a) as [Hinv Hall]. cbv zeta in *. fold r u in Hrot, Hinv.
  split; [|split; [exact Hall|]].
  - destruct (spec_check now id r) as [s|e] eqn:Hc.
    + split; [exact Hrot|]. unfold spec_check in Hc. destruct (r !! id) as [s0|]; [|done].
      assert (s0 = s) as -> by (destruct (s_is_active s0); simpl in Hc; [|done]; destruct (Session_is_expired _ _); by simplify_eq).
      by destruct (bool_decide (s_user_id s = u)).
    + split; [exact Hrot|]. destruct (r !! id) as [s0|]; [|exact Hinv].
      by destruct (bool_decide _).
  - destruct (add_session_limit now nid h exp m a) as [[Hlt Heq]|[Hge Heq]].
    + by rewrite (proj2 (Z.ltb_lt _ _) Hlt).
    + by rewrite (proj2 (Z.ltb_ge _ _) Hge).
Qed.
