(* ===== verification/Database.v ===== *)
(** * The Postgres tables

    The tables of [migrations/] that the Rust code reads and writes, as finite
    maps keyed by primary key, and the effect of each SQL statement the adapters
    issue. A statement returns either its result with the new tables or the
    constraint violation Postgres reports (primary key, unique, foreign key). *)

From S2P Require Import Prelude RustStr ValueObjects.
From stdpp Require Import sorting.
#[local] Open Scope Z_scope.

(** ** Rows *)

Record UserRow : Type := MkUserRow {
  ur_id : Uuid;
  ur_username : option string;
  ur_email : string;
  ur_display_name : string;
  ur_password_hash : option string;
  ur_auth_provider : string;
  ur_created_at : Z;
  ur_updated_at : Z }.

#[global] Instance UserRow_eq_dec : EqDecision UserRow.
Proof. solve_decision. Defined.

Record SessionRow : Type := MkSessionRow {
  sr_id : Uuid;
  sr_user_id : Uuid;
  sr_refresh_token_hash : string;
  sr_expires_at : Z;
  sr_is_active : bool;
  sr_created_at : Z;
  sr_auth_method : string }.

#[global] Instance SessionRow_eq_dec : EqDecision SessionRow.
Proof. solve_decision. Defined.

Record UserActionRow : Type := MkUserActionRow {
  ar_id : Uuid;
  ar_user_id : Uuid;
  ar_session_id : option Uuid;
  ar_event_type : string;
  ar_auth_method : string;
  ar_created_at : Z }.

Record RoleRow : Type := MkRoleRow { rr_role : string; rr_updated_at : Z }.

Record ProfileRow : Type := MkProfileRow {
  pr_user_id : Uuid;
  pr_avatar_url : option string;
  pr_bio : option string;
  pr_updated_at : Z }.

Record Db : Type := MkDb {
  db_users : gmap Uuid UserRow;
  db_sessions : gmap Uuid SessionRow;
  db_actions : gmap Uuid UserActionRow;
  db_roles : gmap Uuid RoleRow;
  db_profiles : gmap Uuid ProfileRow }.

Definition empty_db : Db := MkDb ∅ ∅ ∅ ∅ ∅.

Definition with_users (db : Db) (m : gmap Uuid UserRow) : Db :=
  MkDb m (db_sessions db) (db_actions db) (db_roles db) (db_profiles db).
Definition with_sessions (db : Db) (m : gmap Uuid SessionRow) : Db :=
  MkDb (db_users db) m (db_actions db) (db_roles db) (db_profiles db).
Definition with_actions (db : Db) (m : gmap Uuid UserActionRow) : Db :=
  MkDb (db_users db) (db_sessions db) m (db_roles db) (db_profiles db).
Definition with_roles (db : Db) (m : gmap Uuid RoleRow) : Db :=
  MkDb (db_users db) (db_sessions db) (db_actions db) m (db_profiles db).
Definition with_profiles (db : Db) (m : gmap Uuid ProfileRow) : Db :=
  MkDb (db_users db) (db_sessions db) (db_actions db) (db_roles db) m.

(** ** Statements *)

Definition Stmt (A : Type) : Type := Db → result string (A * Db).

(** The rows of a table, in an unspecified order. *)
Definition rows {R} (m : gmap Uuid R) : list R := snd <$> map_to_list m.

Definition select_user (p : UserRow → bool) : Stmt (option UserRow) := λ db,
  Ok (find p (rows (db_users db)), db).

Definition select_user_by_id (id : Uuid) : Stmt (option UserRow) := λ db,
  Ok (db_users db !! id, db).

Definition username_is (u : string) (r : UserRow) : bool := bool_decide (ur_username r = Some u).
Definition email_is (e : string) (r : UserRow) : bool := bool_decide (ur_email r = e).

(** The [UNIQUE] constraint on [username] ignores NULLs. *)
Definition username_taken (u : option string) (db : Db) : bool :=
  match u with
  | None => false
  | Some name => existsb (username_is name) (rows (db_users db))
  end.

Definition email_taken (e : string) (db : Db) : bool := existsb (email_is e) (rows (db_users db)).

Definition insert_user (r : UserRow) : Stmt UserRow := λ db,
  if bool_decide (is_Some (db_users db !! ur_id r)) then Err "users_pkey"%string
  else if username_taken (ur_username r) db then Err "users_username_key"%string
  else if email_taken (ur_email r) db then Err "users_email_key"%string
  else Ok (r, with_users db (<[ur_id r := r]> (db_users db))).

(** [INSERT ... ON CONFLICT (username) DO NOTHING] *)
Definition insert_user_on_conflict_username (r : UserRow) : Stmt unit := λ db,
  if username_taken (ur_username r) db then Ok (tt, db)
  else match insert_user r db with
       | Ok (_, db') => Ok (tt, db')
       | Err e => Err e
       end.

Definition count_local_users : Stmt Z := λ db,
  Ok (Z.of_nat (length (List.filter (λ r, bool_decide (ur_auth_provider r = "local"%string))
                                    (rows (db_users db)))), db).

Definition count_users_stmt : Stmt Z := λ db, Ok (Z.of_nat (size (db_users db)), db).

(** [ORDER BY created_at DESC, id DESC] *)
Definition user_order (a b : UserRow) : Prop :=
  ur_created_at b < ur_created_at a ∨
  (ur_created_at a = ur_created_at b ∧ (ur_id b ≤ ur_id a)%N).

#[global] Instance user_order_dec a b : Decision (user_order a b).
Proof. unfold user_order. apply _. Defined.

Definition users_by_recency (db : Db) : list UserRow := merge_sort user_order (rows (db_users db)).

Definition select_users_page (limit offset : Z) : Stmt (list UserRow) := λ db,
  Ok (take (Z.to_nat limit) (drop (Z.to_nat offset) (users_by_recency db)), db).

(** [WHERE user_id = $1 ORDER BY created_at DESC] *)
Definition session_order (a b : SessionRow) : Prop := sr_created_at b ≤ sr_created_at a.

#[global] Instance session_order_dec a b : Decision (session_order a b).
Proof. unfold session_order. apply _. Defined.

Definition session_rows (p : SessionRow → bool) (db : Db) : list SessionRow :=
  merge_sort session_order (List.filter p (rows (db_sessions db))).

Definition of_user (user_id : Uuid) (r : SessionRow) : bool := bool_decide (sr_user_id r = user_id).

Definition select_sessions_of_user (user_id : Uuid) : Stmt (list SessionRow) := λ db,
  Ok (session_rows (of_user user_id) db, db).

(** [WHERE user_id = $1 AND is_active = TRUE AND expires_at > NOW()] *)
Definition select_active_sessions (now : Z) (user_id : Uuid) : Stmt (list SessionRow) := λ db,
  Ok (session_rows (λ r, of_user user_id r && sr_is_active r && (now <? sr_expires_at r)) db, db).

Definition select_session (id : Uuid) : Stmt (option SessionRow) := λ db,
  Ok (db_sessions db !! id, db).

Definition insert_session_row (r : SessionRow) : Stmt SessionRow := λ db,
  if bool_decide (is_Some (db_sessions db !! sr_id r)) then Err "sessions_pkey"%string
  else if bool_decide (db_users db !! sr_user_id r = None) then Err "sessions_user_id_fkey"%string
  else Ok (r, with_sessions db (<[sr_id r := r]> (db_sessions db))).

Definition row_deactivate (r : SessionRow) : SessionRow :=
  MkSessionRow (sr_id r) (sr_user_id r) (sr_refresh_token_hash r) (sr_expires_at r)
    false (sr_created_at r) (sr_auth_method r).

(** [UPDATE sessions SET is_active = FALSE WHERE id = $1] *)
Definition update_session_inactive (id : Uuid) : Stmt unit := λ db,
  Ok (tt, with_sessions db (alter row_deactivate id (db_sessions db))).

(** [UPDATE sessions SET is_active = FALSE WHERE user_id = $1 AND is_active = TRUE] *)
Definition update_sessions_inactive_of_user (user_id : Uuid) : Stmt unit := λ db,
  Ok (tt, with_sessions db
    ((λ r, if of_user user_id r && sr_is_active r then row_deactivate r else r) <$> db_sessions db)).

Definition insert_user_action (r : UserActionRow) : Stmt UserActionRow := λ db,
  if bool_decide (is_Some (db_actions db !! ar_id r)) then Err "user_actions_pkey"%string
  else if bool_decide (db_users db !! ar_user_id r = None) then Err "user_actions_user_id_fkey"%string
  else if match ar_session_id r with
          | Some sid => bool_decide (db_sessions db !! sid = None)
          | None => false
          end
  then Err "user_actions_session_id_fkey"%string
  else Ok (r, with_actions db (<[ar_id r := r]> (db_actions db))).

(** ** Integrity

    What the schema's constraints and the Rust writers together maintain: rows
    are stored under their key, sessions refer to existing users, usernames and
    emails are unique. *)

Definition db_ok (db : Db) : Prop :=
  map_Forall (λ id r, ur_id r = id) (db_users db) ∧
  map_Forall (λ id r, sr_id r = id) (db_sessions db) ∧
  map_Forall (λ _ r, is_Some (db_users db !! sr_user_id r)) (db_sessions db) ∧
  (∀ i j r1 r2, db_users db !! i = Some r1 → db_users db !! j = Some r2 →
     ur_email r1 = ur_email r2 → i = j) ∧
  (∀ i j r1 r2 u, db_users db !! i = Some r1 → db_users db !! j = Some r2 →
     ur_username r1 = Some u → ur_username r2 = Some u → i = j).

(** ** Lemmas *)

Lemma elem_of_rows {R} (m : gmap Uuid R) r : r ∈ rows m ↔ ∃ id, m !! id = Some r.
Proof.
  unfold rows. rewrite list_elem_of_fmap. split.
  - intros ([id r'] & -> & Hin). exists id. by apply elem_of_map_to_list in Hin.
  - intros [id Hid]. exists (id, r). split; [done|]. by apply elem_of_map_to_list.
Qed.

Lemma find_rows {R} (p : R → bool) (m : gmap Uuid R) r :
  find p (rows m) = Some r → (∃ id, m !! id = Some r) ∧ p r = true.
Proof.
  intros H%find_some. destruct H as [Hin Hp]. split; [|done].
  by apply elem_of_rows, list_elem_of_In.
Qed.

Lemma find_rows_None {R} (p : R → bool) (m : gmap Uuid R) :
  find p (rows m) = None → ∀ id r, m !! id = Some r → p r = false.
Proof.
  intros H id r Hid. eapply find_none in H; [done|].
  apply list_elem_of_In, elem_of_rows. eauto.
Qed.

Lemma find_rows_unique {R} (p : R → bool) (m : gmap Uuid R) id r :
  m !! id = Some r → p r = true →
  (∀ j r', m !! j = Some r' → p r' = true → j = id) → find p (rows m) = Some r.
Proof.
  intros Hid Hp Huniq. destruct (find p (rows m)) as [r'|] eqn:Hf.
  - apply find_rows in Hf as [[j Hj] Hp']. by rewrite (Huniq j r' Hj Hp') in Hj; simplify_eq.
  - exfalso. pose proof (find_rows_None p m Hf id r Hid). congruence.
Qed.

Lemma existsb_rows_false {R} (p : R → bool) (m : gmap Uuid R) :
  existsb p (rows m) = false → ∀ id r, m !! id = Some r → p r = false.
Proof.
  intros H id r Hid. destruct (p r) eqn:Hp; [|done].
  assert (existsb p (rows m) = true); [|congruence].
  apply existsb_exists. exists r. split; [|done]. apply list_elem_of_In, elem_of_rows. eauto.
Qed.

Lemma elem_of_session_rows p db r :
  r ∈ session_rows p db ↔ (∃ id, db_sessions db !! id = Some r) ∧ p r = true.
Proof.
  unfold session_rows. rewrite merge_sort_Permutation.
  rewrite list_elem_of_In, filter_In, <- list_elem_of_In, elem_of_rows. done.
Qed.

Lemma rows_NoDup_key {R} (m : gmap Uuid R) (k : R → Uuid) :
  map_Forall (λ id r, k r = id) m → NoDup (k <$> rows m).
Proof.
  intros Hk. unfold rows. rewrite <- list_fmap_compose.
  replace ((k ∘ snd) <$> map_to_list m) with ((map_to_list m).*1); [apply NoDup_fst_map_to_list|].
  apply list_fmap_ext. intros i [id r] Hi. simpl.
  apply list_elem_of_lookup_2, elem_of_map_to_list in Hi. by rewrite (Hk id r Hi).
Qed.

Lemma NoDup_fmap_filter {A B} (f : A → B) (p : A → bool) l :
  NoDup (f <$> l) → NoDup (f <$> List.filter p l).
Proof.
  induction l as [|a l IH]; simpl; [done|]. intros [Ha Hl]%NoDup_cons.
  destruct (p a); simpl; [|auto]. apply NoDup_cons. split; [|auto].
  intros Hin. apply Ha. apply list_elem_of_fmap in Hin as (b & -> & Hb).
  apply list_elem_of_fmap. exists b. split; [done|].
  apply list_elem_of_In, filter_In in Hb as [Hb _]. by apply list_elem_of_In.
Qed.

Lemma session_rows_NoDup p db : db_ok db → NoDup (sr_id <$> session_rows p db).
Proof.
  intros (_ & Hs & _). unfold session_rows. rewrite merge_sort_Permutation.
  apply NoDup_fmap_filter, rows_NoDup_key, Hs.
Qed.

Lemma empty_db_ok : db_ok empty_db.
Proof. split_and!; try apply map_Forall_empty; simpl; set_solver. Qed.

#[export] Hint Resolve empty_db_ok : svc.

Lemma insert_user_ok r r' db db' :
  insert_user r db = Ok (r', db') → db_ok db →
  r' = r ∧ db_ok db' ∧ db' = with_users db (<[ur_id r := r]> (db_users db)) ∧
  db_users db !! ur_id r = None.
Proof.
  unfold insert_user. intros H (Hu & Hs & Hfk & He & Hn).
  case_bool_decide as Hk; [done|]. apply eq_None_not_Some in Hk.
  destruct (username_taken _ db) eqn:Hut; [done|]. destruct (email_taken _ db) eqn:Het; [done|].
  simplify_eq. split_and!; try done. simpl.
  pose proof (existsb_rows_false _ _ Het) as He'. unfold email_is in He'.
  split_and!; simpl; [by apply map_Forall_insert_2|done| | |].
  - eapply map_Forall_impl; [done|]. intros id s [x Hx]. apply lookup_insert_is_Some'. by right; exists x.
  - intros i j r1 r2 [[? ?]|[? H1]]%lookup_insert_Some [[? ?]|[? H2]]%lookup_insert_Some Heq;
      simplify_eq; eauto.
    + apply He' in H2. by case_bool_decide.
    + apply He' in H1. by case_bool_decide.
  - intros i j r1 r2 u [[? ?]|[? H1]]%lookup_insert_Some [[? ?]|[? H2]]%lookup_insert_Some E1 E2;
      simplify_eq; eauto;
      unfold username_taken in Hut; [rewrite E1 in Hut|rewrite E2 in Hut].
    + pose proof (existsb_rows_false _ _ Hut _ _ H2) as Hf. unfold username_is in Hf. by case_bool_decide.
    + pose proof (existsb_rows_false _ _ Hut _ _ H1) as Hf. unfold username_is in Hf. by case_bool_decide.
Qed.

Lemma insert_session_row_ok r r' db db' :
  insert_session_row r db = Ok (r', db') → db_ok db →
  r' = r ∧ db_ok db' ∧ db' = with_sessions db (<[sr_id r := r]> (db_sessions db)) ∧
  db_sessions db !! sr_id r = None.
Proof.
  unfold insert_session_row. intros H (Hu & Hs & Hfk & He & Hn).
  case_bool_decide as Hk; [done|]. apply eq_None_not_Some in Hk.
  case_bool_decide as Hf; [done|]. simplify_eq. split_and!; try done.
  split_and!; simpl; try done; apply map_Forall_insert_2; try done.
  by apply not_eq_None_Some.
Qed.

Lemma update_session_inactive_ok id db : db_ok db →
  db_ok (with_sessions db (alter row_deactivate id (db_sessions db))).
Proof.
  intros (Hu & Hs & Hfk & He & Hn). split_and!; simpl; try done;
    intros j r Hj; apply lookup_alter_Some in Hj as [(-> & r0 & Hr0 & ->)|[_ Hj]]; simpl;
    [exact (Hs _ _ Hr0)|exact (Hs _ _ Hj)|exact (Hfk _ _ Hr0)|exact (Hfk _ _ Hj)].
Qed.

#[export] Hint Resolve update_session_inactive_ok : svc.
