(* ===== verification/Effects.v ===== *)
(** * Effects of the application layer

    The world an asynchronous use case runs in: the database, what happens to
    each database round trip, the clock, and the process's randomness. A use
    case is a state-passing function to a [result]; [?] is the monadic bind.

    - [w_pg] lists the fate of the next database round trips: [PgOk], [PgFail]
      (the statement did not run) or [PgLost] (it ran, but the answer never
      arrived, so the caller sees an error). An exhausted list means [PgOk].
    - [w_ticks] lists how far the clock advances before each of the next
      readings; an exhausted list means it stands still. It never goes back.
    - [w_seed] counts the draws of randomness (UUIDs and bcrypt salts).
    - [w_dummies] is the process-wide [DUMMY_PASSWORD_HASHES] cache.
    - [w_join] lists the fate of the next [spawn_blocking] tasks: [Some e] is a
      task that is lost with join error [e] without having run; an exhausted
      list means the task runs.
    - [w_work] is the bcrypt work and the sleeping done so far, newest first. It
      is observed by timing only: no code branches on it. *)

From S2P Require Import Prelude RustStr ValueObjects Database.

Inductive PgOutcome : Type :=
| PgOk
| PgFail (e : string)
| PgLost (e : string).

Inductive Work : Type :=
| WHash (cost : Z)
| WVerify (hash : string)
| WSleep (ms : Z).

Record World : Type := MkWorld {
  w_db : Db;
  w_pg : list PgOutcome;
  w_clock : Z;
  w_ticks : list N;
  w_seed : nat;
  w_dummies : gmap Z (option string);
  w_join : list (option string);
  w_work : list Work }.

Definition with_db (w : World) (db : Db) : World :=
  MkWorld db (w_pg w) (w_clock w) (w_ticks w) (w_seed w) (w_dummies w) (w_join w) (w_work w).
Definition with_pg (w : World) (l : list PgOutcome) : World :=
  MkWorld (w_db w) l (w_clock w) (w_ticks w) (w_seed w) (w_dummies w) (w_join w) (w_work w).
Definition with_time (w : World) (t : Z) (ticks : list N) : World :=
  MkWorld (w_db w) (w_pg w) t ticks (w_seed w) (w_dummies w) (w_join w) (w_work w).
Definition with_seed (w : World) (n : nat) : World :=
  MkWorld (w_db w) (w_pg w) (w_clock w) (w_ticks w) n (w_dummies w) (w_join w) (w_work w).
Definition with_dummies (w : World) (m : gmap Z (option string)) : World :=
  MkWorld (w_db w) (w_pg w) (w_clock w) (w_ticks w) (w_seed w) m (w_join w) (w_work w).
Definition with_join (w : World) (l : list (option string)) : World :=
  MkWorld (w_db w) (w_pg w) (w_clock w) (w_ticks w) (w_seed w) (w_dummies w) l (w_work w).
Definition with_work (w : World) (l : list Work) : World :=
  MkWorld (w_db w) (w_pg w) (w_clock w) (w_ticks w) (w_seed w) (w_dummies w) (w_join w) l.

(** A process that just started, on the tables [db] at time [t]. *)
Definition fresh_world (db : Db) (t : Z) : World := MkWorld db [] t [] 0 ∅ [] [].

Definition M (E A : Type) : Type := World → result E A * World.

#[global] Instance M_ret E : MRet (M E) := λ A a w, (Ok a, w).

#[global] Instance M_bind E : MBind (M E) := λ A B f m w,
  match m w with
  | (Ok a, w') => f a w'
  | (Err e, w') => (Err e, w')
  end.

Definition fail {E A} (e : E) : M E A := λ w, (Err e, w).

(** An update of the process state that cannot fail. *)
Definition effect {E A} (f : World → A * World) : M E A := λ w, let '(a, w') := f w in (Ok a, w').

(** A pure [Result] used with [?]. *)
Definition lift {E A} (r : result E A) : M E A := λ w, (r, w).

(** [.map_err(f)] on an awaited result. *)
Definition with_err {E E' A} (f : E → E') (m : M E A) : M E' A := λ w,
  let '(r, w') := m w in (map_err f r, w').

(** [match m.await { .. }]: the result itself, without [?]. *)
Definition attempt {E E' A} (m : M E A) : M E' (result E A) := λ w,
  let '(r, w') := m w in (Ok r, w').

(** ** Clock and randomness *)

(** What the clock shows when it is read next. *)
Definition reading (w : World) : Z := w_clock w + Z.of_N (default 0%N (head (w_ticks w))).

(** [Utc::now()] *)
Definition utc_now {E} : M E Z := λ w,
  (Ok (reading w), with_time w (reading w) (tail (w_ticks w))).

(** One draw from the operating system's randomness. *)
Definition draw {E} : M E nat := λ w,
  (Ok (w_seed w), with_seed w (S (w_seed w))).

(** The [uuid] crate: the identifier produced by the [n]-th draw, and the
    hyphenated text form with its parser. *)
Class UuidLib : Type := {
  uuid_v7 : nat → Uuid;
  uuid_to_string : Uuid → string;
  uuid_parse : string → option Uuid }.

(** Documented: generated UUIDs are unique, and the text form parses back. *)
Class UuidSpec `{UuidLib} : Prop := {
  uuid_v7_inj : Inj (=) (=) uuid_v7;
  uuid_parse_to_string : ∀ u, uuid_parse (uuid_to_string u) = Some u }.

(** [Uuid::now_v7()] *)
Definition now_v7 `{UuidLib} {E} : M E Uuid := n ← draw; mret (uuid_v7 n).

(** ** Database round trips *)

Definition next_outcome (w : World) : PgOutcome * World :=
  match w_pg w with
  | [] => (PgOk, w)
  | o :: l => (o, with_pg w l)
  end.

(** One auto-committed statement. *)
Definition exec {A} (st : Stmt A) : M string A := λ w,
  let '(o, w1) := next_outcome w in
  match o with
  | PgFail e => (Err e, w1)
  | PgOk => match st (w_db w1) with
            | Ok (a, db') => (Ok a, with_db w1 db')
            | Err e => (Err e, w1)
            end
  | PgLost e => match st (w_db w1) with
                | Ok (_, db') => (Err e, with_db w1 db')
                | Err _ => (Err e, w1)
                end
  end.

(** A statement inside a transaction works on the transaction's own tables
    [db]; nothing is visible outside before the commit. *)
Definition tx_exec {A} (st : Stmt A) (db : Db) : M string (A * Db) := λ w,
  let '(o, w1) := next_outcome w in
  match o with
  | PgFail e | PgLost e => (Err e, w1)
  | PgOk => (st db, w1)
  end.

Definition tx_begin : M string Db := λ w,
  let '(o, w1) := next_outcome w in
  match o with
  | PgFail e | PgLost e => (Err e, w1)
  | PgOk => (Ok (w_db w1), w1)
  end.

Definition tx_commit (db : Db) : M string unit := λ w,
  let '(o, w1) := next_outcome w in
  match o with
  | PgFail e => (Err e, w1)
  | PgOk => (Ok tt, with_db w1 db)
  | PgLost e => (Err e, with_db w1 db)
  end.

(** ** Reasoning about runs *)

Lemma bind_Ok_inv {E A B} (m : M E A) (k : A → M E B) w b w' :
  (m ≫= k) w = (Ok b, w') → ∃ a w1, m w = (Ok a, w1) ∧ k a w1 = (Ok b, w').
Proof.
  unfold mbind, M_bind. destruct (m w) as [[a|e] w1] eqn:Hm; [|done]. eauto.
Qed.

Lemma bind_Err_inv {E A B} (m : M E A) (k : A → M E B) w e w' :
  (m ≫= k) w = (Err e, w') →
  m w = (Err e, w') ∨ ∃ a w1, m w = (Ok a, w1) ∧ k a w1 = (Err e, w').
Proof.
  unfold mbind, M_bind. destruct (m w) as [[a|e'] w1] eqn:Hm; [eauto|].
  intros [= -> ->]. by left.
Qed.

Lemma bind_run {E A B} (m : M E A) (k : A → M E B) w :
  (m ≫= k) w = match m w with (Ok a, w') => k a w' | (Err e, w') => (Err e, w') end.
Proof. done. Qed.

Lemma bind_Ok {E A B} (m : M E A) (k : A → M E B) w a w1 :
  m w = (Ok a, w1) → (m ≫= k) w = k a w1.
Proof. intros H. by rewrite bind_run, H. Qed.

Lemma utc_now_run {E} w :
  utc_now (E := E) w = (Ok (reading w), with_time w (reading w) (tail (w_ticks w))).
Proof. done. Qed.

Lemma now_v7_run `{UuidLib} {E} w :
  now_v7 (E := E) w = (Ok (uuid_v7 (w_seed w)), with_seed w (S (w_seed w))).
Proof. done. Qed.

Lemma reading_ge w : w_clock w ≤ reading w.
Proof. unfold reading. lia. Qed.

Lemma effect_run {E A} (f : World → A * World) w : effect (E := E) f w = (Ok (f w).1, (f w).2).
Proof. unfold effect. by destruct (f w). Qed.

Lemma with_err_Ok_inv {E E' A} (f : E → E') (m : M E A) w a w' :
  with_err f m w = (Ok a, w') → m w = (Ok a, w').
Proof. unfold with_err. destruct (m w) as [[]]; naive_solver. Qed.

Lemma with_err_Err_inv {E E' A} (f : E → E') (m : M E A) w e w' :
  with_err f m w = (Err e, w') → ∃ e0, m w = (Err e0, w') ∧ e = f e0.
Proof. unfold with_err. destruct (m w) as [[]]; naive_solver. Qed.

Lemma lift_Ok_inv {E A} (r : result E A) w a w' : lift r w = (Ok a, w') → r = Ok a ∧ w' = w.
Proof. unfold lift. naive_solver. Qed.

Lemma lift_Err_inv {E A} (r : result E A) w e w' : lift r w = (Err e, w') → r = Err e ∧ w' = w.
Proof. unfold lift. naive_solver. Qed.

(** Decomposes a successful run [H : m w = (Ok _, _)] of a bind. *)
Ltac run_inv H :=
  lazymatch type of H with
  | (mbind _ _) _ = (Ok _, _) =>
      let a := fresh "v" in let w := fresh "w" in let H1 := fresh "R" in
      apply bind_Ok_inv in H as (a & w & H1 & H)
  | with_err _ _ _ = (Ok _, _) => apply with_err_Ok_inv in H
  | lift _ _ = (Ok _, _) => apply lift_Ok_inv in H as [H ->]
  | mret _ _ = (Ok _, _) => injection H as <- <-
  end.

(** *** The database is only touched by [exec] and [tx_commit] *)

(** [m] never changes the database. *)
Definition db_pure {E A} (m : M E A) : Prop := ∀ w, w_db (m w).2 = w_db w.

Lemma db_pure_bind {E A B} (m : M E A) (k : A → M E B) :
  db_pure m → (∀ a, db_pure (k a)) → db_pure (m ≫= k).
Proof.
  intros Hm Hk w. rewrite bind_run. specialize (Hm w).
  destruct (m w) as [[a|e] w1]; simpl in *; [by rewrite Hk | done].
Qed.

Lemma db_pure_ret {E A} (a : A) : db_pure (mret (M := M E) a).
Proof. done. Qed.

Lemma db_pure_lift {E A} (r : result E A) : db_pure (lift r).
Proof. done. Qed.

Lemma db_pure_fail {E A} (e : E) : db_pure (A := A) (fail e).
Proof. done. Qed.

Lemma db_pure_with_err {E E' A} (f : E → E') (m : M E A) : db_pure m → db_pure (with_err f m).
Proof. intros Hm w. specialize (Hm w). unfold with_err. by destruct (m w). Qed.

Lemma db_pure_utc_now {E} : db_pure (E := E) utc_now.
Proof. done. Qed.

Lemma db_pure_draw {E} : db_pure (E := E) draw.
Proof. done. Qed.

Lemma db_pure_now_v7 `{UuidLib} {E} : db_pure (E := E) now_v7.
Proof. apply db_pure_bind; [apply db_pure_draw | intros; apply db_pure_ret]. Qed.

Lemma next_outcome_db w : w_db (next_outcome w).2 = w_db w.
Proof. unfold next_outcome. by destruct (w_pg w). Qed.

(** A statement that leaves the tables alone (a [SELECT]). *)
Definition read_only {A} (st : Stmt A) : Prop := ∀ db a db', st db = Ok (a, db') → db' = db.

Lemma db_pure_exec {A} (st : Stmt A) : read_only st → db_pure (exec st).
Proof.
  intros Hst w. unfold exec. pose proof (next_outcome_db w) as Hw.
  destruct (next_outcome w) as [o w1]; simpl in Hw.
  destruct o; destruct (st (w_db w1)) as [[a db']|] eqn:E; simpl; auto;
    apply Hst in E; by subst.
Qed.

Lemma db_pure_effect {E A} (f : World → A * World) :
  (∀ w, w_db (f w).2 = w_db w) → db_pure (E := E) (effect f).
Proof. intros Hf w. unfold effect. specialize (Hf w). by destruct (f w). Qed.

Lemma db_pure_attempt {E E' A} (m : M E A) : db_pure m → db_pure (E := E') (attempt m).
Proof. intros Hm w. specialize (Hm w). unfold attempt. by destruct (m w). Qed.

#[export] Hint Resolve db_pure_effect db_pure_attempt db_pure_ret db_pure_lift db_pure_fail db_pure_with_err
  db_pure_utc_now db_pure_draw db_pure_now_v7 db_pure_exec db_pure_bind : svc.

(** A run of a read that reported success saw the current tables. *)
Lemma exec_Ok_inv {A} (st : Stmt A) w a w' :
  exec st w = (Ok a, w') →
  ∃ db', st (w_db w) = Ok (a, db') ∧ w_db w' = db' ∧ w_pg w' = tail (w_pg w) ∧
         w_clock w' = w_clock w ∧ w_seed w' = w_seed w.
Proof.
  unfold exec, next_outcome. intros H.
  destruct (w_pg w) as [|[] l] eqn:Hp; simpl in H;
    destruct (st (w_db w)) as [[a' db']|] eqn:E; simplify_eq/=; eauto 8.
Qed.

(** With no database fault ahead, a statement just runs. *)
Lemma exec_no_fault {A} (st : Stmt A) w a db' :
  w_pg w = [] → st (w_db w) = Ok (a, db') → exec st w = (Ok a, with_db w db').
Proof. intros Hp Hst. unfold exec, next_outcome. by rewrite Hp, Hst. Qed.

(** ** Frames

    [frame w w']: from [w] to [w'] the database and the faults ahead are
    untouched, time has not gone back and no randomness was reused. *)

Definition frame (w w' : World) : Prop :=
  w_db w' = w_db w ∧ w_pg w' = w_pg w ∧ w_clock w ≤ w_clock w' ∧ (w_seed w ≤ w_seed w')%nat.

#[global] Instance frame_preorder : PreOrder frame.
Proof.
  split; [by intros w; split_and!; try lia|]. intros w1 w2 w3 (?&?&?&?) (?&?&?&?).
  split_and!; try congruence; lia.
Qed.

(** [m] only moves the clock and draws randomness. *)
Definition framed {E A} (m : M E A) : Prop := ∀ w r w', m w = (r, w') → frame w w'.

Lemma framed_ret {E A} (a : A) : framed (mret (M := M E) a).
Proof. by intros w r w' [= <- <-]. Qed.

Lemma framed_lift {E A} (r : result E A) : framed (lift r).
Proof. by intros w r' w' [= <- <-]. Qed.

Lemma framed_fail {E A} (e : E) : framed (A := A) (fail e).
Proof. by intros w r w' [= <- <-]. Qed.

Lemma framed_utc_now {E} : framed (E := E) utc_now.
Proof.
  intros w r w'. rewrite utc_now_run. intros [= <- <-]. split_and!; try done. apply reading_ge.
Qed.

Lemma framed_draw {E} : framed (E := E) draw.
Proof. intros w r w' [= <- <-]. split_and!; simpl; try done; lia. Qed.

Lemma framed_bind {E A B} (m : M E A) (k : A → M E B) :
  framed m → (∀ a, framed (k a)) → framed (m ≫= k).
Proof.
  intros Hm Hk w r w'. rewrite bind_run. destruct (m w) as [[a|e] w1] eqn:E1; intros H.
  - etrans; [exact (Hm _ _ _ E1)|exact (Hk _ _ _ _ H)].
  - injection H as <- <-. exact (Hm _ _ _ E1).
Qed.

Lemma framed_now_v7 `{UuidLib} {E} : framed (E := E) now_v7.
Proof. apply framed_bind; [apply framed_draw|intros; apply framed_ret]. Qed.

Lemma framed_effect {E A} (f : World → A * World) :
  (∀ w, frame w (f w).2) → framed (E := E) (effect f).
Proof. intros Hf w r w'. rewrite effect_run. intros [= <- <-]. apply Hf. Qed.

#[export] Hint Resolve framed_ret framed_lift framed_fail framed_utc_now framed_draw framed_bind
  framed_now_v7 : svc.

(** [later w w']: time and randomness only moved forward. Everything does that. *)
Definition later (w w' : World) : Prop := w_clock w ≤ w_clock w' ∧ (w_seed w ≤ w_seed w')%nat.

#[global] Instance later_preorder : PreOrder later.
Proof. split; [by split|]. intros w1 w2 w3 [? ?] [? ?]. split; lia. Qed.

Definition advancing {E A} (m : M E A) : Prop := ∀ w r w', m w = (r, w') → later w w'.

Lemma frame_later w w' : frame w w' → later w w'.
Proof. by intros (_ & _ & ? & ?). Qed.

Lemma framed_advancing {E A} (m : M E A) : framed m → advancing m.
Proof. intros Hm w r w' Hr. apply frame_later. by eapply Hm. Qed.

Lemma advancing_bind {E A B} (m : M E A) (k : A → M E B) :
  advancing m → (∀ a, advancing (k a)) → advancing (m ≫= k).
Proof.
  intros Hm Hk w r w'. rewrite bind_run. destruct (m w) as [[a|e] w1] eqn:E1; intros H.
  - etrans; [exact (Hm _ _ _ E1)|exact (Hk _ _ _ _ H)].
  - injection H as <- <-. exact (Hm _ _ _ E1).
Qed.

Lemma advancing_with_err {E E' A} (f : E → E') (m : M E A) : advancing m → advancing (with_err f m).
Proof.
  intros Hm w r w'. unfold with_err. destruct (m w) as [r0 w0] eqn:E0. intros [= <- <-]. by eapply Hm.
Qed.

Lemma advancing_exec {A} (st : Stmt A) : advancing (exec st).
Proof.
  intros w r w'. unfold exec, next_outcome. intros H.
  destruct (w_pg w) as [|[] l]; simpl in H; destruct (st (w_db w)) as [[? ?]|]; simplify_eq/=; done.
Qed.

#[export] Hint Resolve framed_advancing advancing_bind advancing_with_err advancing_exec : svc.
