(* ===== verification/UserRepo.v ===== *)
(** * Postgres repositories of the auth context

    [crates/auth/src/adapters/postgres_user_repo.rs], [postgres_session_repo.rs],
    [postgres_user_directory.rs] and [audit_event_handler.rs]: row conversions and
    every query, with [sqlx] errors turned into [InternalError] as in the source.
    [UserRepository] is the port of [application/ports/user_repository.rs];
    [PostgresUserRepo] is its instance. *)

From S2P Require Import Prelude RustStr ValueObjects Entities Aggregate Database Effects.

(** ** Row conversions *)

Definition SessionRow_into_session (r : SessionRow) : result AuthError Session :=
  refresh_token_hash ← map_err InternalError (HashedPassword_new (sr_refresh_token_hash r));
  auth_method ← map_err InternalError (AuthMethod_try_from (sr_auth_method r));
  Ok (MkSession (sr_id r) (sr_user_id r) refresh_token_hash (sr_expires_at r)
        (sr_is_active r) (sr_created_at r) auth_method).

Definition UserRow_into_user (r : UserRow) : result AuthError User :=
  email ← map_err (InternalError ∘ DomainError_to_string) (Email_new (ur_email r));
  auth_provider ← map_err InternalError (AuthProvider_try_from (ur_auth_provider r));
  password_hash ← map_err InternalError (transpose (HashedPassword_new <$> ur_password_hash r));
  Ok (User_new (ur_id r) (ur_username r) email (ur_display_name r) password_hash
        auth_provider (ur_created_at r) (ur_updated_at r)).

Definition UserActionRow_into_user_action (r : UserActionRow) : result AuthError UserAction :=
  event_type ← map_err InternalError (EventType_try_from (ar_event_type r));
  auth_method ← map_err InternalError (AuthMethod_try_from (ar_auth_method r));
  Ok (UserAction_new (ar_id r) (ar_user_id r) (ar_session_id r) event_type auth_method
        (ar_created_at r)).

(** The rows the [INSERT]s bind. [TIMESTAMPTZ] keeps the microseconds of a time,
    which is all a reading of the clock has here. *)
Definition new_session_row (now : Z) (s : NewSession) : SessionRow :=
  MkSessionRow (ns_id s) (ns_user_id s) (hash_str (ns_refresh_token_hash s)) (ns_expires_at s)
    true now (AuthMethod_as_str (ns_auth_method s)).

Definition new_user_row (id : Uuid) (now : Z) (u : NewUser) : UserRow :=
  MkUserRow id (nu_username u) (email_str (nu_email u)) (nu_display_name u)
    (hash_str <$> nu_password_hash u) (AuthProvider_as_str (nu_auth_provider u)) now now.

Definition new_action_row (id : Uuid) (now : Z) (a : NewUserAction) : UserActionRow :=
  MkUserActionRow id (na_user_id a) (na_session_id a) (EventType_as_str (na_event_type a))
    (AuthMethod_as_str (na_auth_method a)) now.

(** [.map_err(|e| AuthError::InternalError(e.to_string()))] *)
Definition db_call {A} (m : M string A) : M AuthError A := with_err InternalError m.

(** ** The port *)

Class UserRepository : Type := {
  find_by_username : string → M AuthError (option User);
  find_by_email : string → M AuthError (option User);
  find_by_id : Uuid → M AuthError (option User);
  create : NewUser → M AuthError User;
  create_user_action : NewUserAction → M AuthError UserAction;
  find_aggregate_by_id : Uuid → M AuthError (option UserAggregate);
  find_aggregate_by_username : string → M AuthError (option UserAggregate);
  find_aggregate_by_email : string → M AuthError (option UserAggregate);
  save_aggregate : UserAggregate → list NewSession → M AuthError unit }.

(** ** [PostgresUserRepo] *)

Definition load_aggregate (user : User) : M AuthError UserAggregate :=
  rows ← db_call (exec (select_sessions_of_user (u_id user)));
  sessions ← lift (collect SessionRow_into_session rows);
  mret (UserAggregate_new user sessions).

Definition read_user (st : Stmt (option UserRow)) : M AuthError (option User) :=
  row ← db_call (exec st);
  lift (transpose (UserRow_into_user <$> row)).

Definition pg_find_by_username (username : string) : M AuthError (option User) :=
  read_user (select_user (username_is username)).

Definition pg_find_by_email (email : string) : M AuthError (option User) :=
  read_user (select_user (email_is email)).

Definition pg_find_by_id (id : Uuid) : M AuthError (option User) :=
  read_user (select_user_by_id id).

Definition pg_create `{UuidLib} (user : NewUser) : M AuthError User :=
  now ← utc_now;
  id ← now_v7;
  row ← db_call (exec (insert_user (new_user_row id now user)));
  lift (UserRow_into_user row).

Definition pg_create_user_action `{UuidLib} (action : NewUserAction) : M AuthError UserAction :=
  id ← now_v7;
  now ← utc_now;
  row ← db_call (exec (insert_user_action (new_action_row id now action)));
  lift (UserActionRow_into_user_action row).

Definition with_aggregate (find : M AuthError (option User)) : M AuthError (option UserAggregate) :=
  user_opt ← find;
  match user_opt with
  | Some user => a ← load_aggregate user; mret (Some a)
  | None => mret None
  end.

Definition pg_find_aggregate_by_id (id : Uuid) : M AuthError (option UserAggregate) :=
  with_aggregate (pg_find_by_id id).

Definition pg_find_aggregate_by_username (username : string) : M AuthError (option UserAggregate) :=
  with_aggregate (pg_find_by_username username).

Definition pg_find_aggregate_by_email (email : string) : M AuthError (option UserAggregate) :=
  with_aggregate (pg_find_by_email email).

(** [insert_session] of the transaction [tx], whose tables are [db]. *)
Definition insert_session (session : NewSession) (db : Db) : M string Db :=
  now ← utc_now;
  '(_, db') ← tx_exec (insert_session_row (new_session_row now session)) db;
  mret db'.

Fixpoint insert_sessions (new_sessions : list NewSession) (db : Db) : M string Db :=
  match new_sessions with
  | [] => mret db
  | s :: l => db' ← insert_session s db; insert_sessions l db'
  end.

Fixpoint deactivate_sessions (ids : list Uuid) (db : Db) : M string Db :=
  match ids with
  | [] => mret db
  | id :: l => '(_, db') ← tx_exec (update_session_inactive id) db; deactivate_sessions l db'
  end.

Definition invalidated_ids (a : UserAggregate) : list Uuid :=
  s_id <$> List.filter (λ s, negb (s_is_active s)) (agg_sessions a).

Definition pg_save_aggregate (a : UserAggregate) (new_sessions : list NewSession) : M AuthError unit :=
  db_call (
    db ← tx_begin;
    db ← insert_sessions new_sessions db;
    db ← deactivate_sessions (invalidated_ids a) db;
    tx_commit db).

#[global] Instance PostgresUserRepo `{UuidLib} : UserRepository := {
  find_by_username := pg_find_by_username;
  find_by_email := pg_find_by_email;
  find_by_id := pg_find_by_id;
  create := pg_create;
  create_user_action := pg_create_user_action;
  find_aggregate_by_id := pg_find_aggregate_by_id;
  find_aggregate_by_username := pg_find_aggregate_by_username;
  find_aggregate_by_email := pg_find_aggregate_by_email;
  save_aggregate := pg_save_aggregate }.

(** ** [PostgresSessionRepo]

    No use case calls it: they go through the aggregate. *)

Class SessionRepository : Type := {
  sr_create : NewSession → M AuthError Session;
  sr_find_by_id : Uuid → M AuthError (option Session);
  sr_find_active_by_user_id : Uuid → M AuthError (list Session);
  sr_invalidate : Uuid → M AuthError unit;
  sr_invalidate_all_for_user : Uuid → M AuthError unit;
  sr_sessions_for_user : Uuid → M AuthError (list Session) }.

(** The row type of this file has the same columns and the same conversion. *)
Definition SessionRepo_into_session (r : SessionRow) : result AuthError Session :=
  refresh_token_hash ← map_err InternalError (HashedPassword_new (sr_refresh_token_hash r));
  auth_method ← map_err InternalError (AuthMethod_try_from (sr_auth_method r));
  Ok (MkSession (sr_id r) (sr_user_id r) refresh_token_hash (sr_expires_at r)
        (sr_is_active r) (sr_created_at r) auth_method).

Definition session_create (session : NewSession) : M AuthError Session :=
  now ← utc_now;
  row ← db_call (exec (insert_session_row (new_session_row now session)));
  lift (SessionRepo_into_session row).

Definition session_find_by_id (id : Uuid) : M AuthError (option Session) :=
  row ← db_call (exec (select_session id));
  lift (transpose (SessionRepo_into_session <$> row)).

(** [NOW()] is the server's clock. *)
Definition session_find_active_by_user_id (user_id : Uuid) : M AuthError (list Session) :=
  now ← utc_now;
  rows ← db_call (exec (select_active_sessions now user_id));
  lift (collect SessionRepo_into_session rows).

Definition session_invalidate (id : Uuid) : M AuthError unit :=
  db_call (exec (update_session_inactive id)).

Definition session_sessions_for_user (user_id : Uuid) : M AuthError (list Session) :=
  rows ← db_call (exec (select_sessions_of_user user_id));
  lift (collect SessionRepo_into_session rows).

Definition session_invalidate_all_for_user (user_id : Uuid) : M AuthError unit :=
  db_call (exec (update_sessions_inactive_of_user user_id)).

#[global] Instance PostgresSessionRepo : SessionRepository := {
  sr_create := session_create;
  sr_find_by_id := session_find_by_id;
  sr_find_active_by_user_id := session_find_active_by_user_id;
  sr_invalidate := session_invalidate;
  sr_invalidate_all_for_user := session_invalidate_all_for_user;
  sr_sessions_for_user := session_sessions_for_user }.

(** ** [AuditEventHandler] *)

Definition insert_action `{UuidLib} (user_id : Uuid) (session_id : option Uuid)
    (event_type : EventType) (auth_method : AuthMethod) : M string unit :=
  id ← now_v7;
  now ← utc_now;
  _ ← exec (insert_user_action
        (MkUserActionRow id user_id session_id (EventType_as_str event_type)
           (AuthMethod_as_str auth_method) now));
  mret tt.

(** A failed insert is only logged: the handler itself never fails. *)
Definition audit_handle `{UuidLib} (event : Event) : M AuthError unit :=
  _ ← attempt
    match event with
    | EvUserLoggedIn e => insert_action (uli_user_id e) (Some (uli_session_id e)) Login (uli_method e)
    | EvUserLoggedOut e => insert_action (ulo_user_id e) (Some (ulo_session_id e)) Logout (ulo_method e)
    | EvSessionRefreshed e => insert_action (sre_user_id e) (Some (sre_session_id e)) Refresh (sre_method e)
    | EvUserCreated _ => mret tt
    end;
  mret tt.

(** ** [PostgresUserDirectory] *)

Record UserSummary : Type := MkUserSummary {
  us_id : Uuid;
  us_username : option string;
  us_email : string;
  us_display_name : string;
  us_auth_provider : string;
  us_created_at : Z;
  us_updated_at : Z }.

(** [UserSummaryRow::into_summary]: the row has no password hash to begin with. *)
Definition into_summary (r : UserRow) : UserSummary :=
  MkUserSummary (ur_id r) (ur_username r) (ur_email r) (ur_display_name r)
    (ur_auth_provider r) (ur_created_at r) (ur_updated_at r).

Definition get_user_summary (user_id : Uuid) : M DomainError (option UserSummary) :=
  row ← with_err DomainInternalError (exec (select_user_by_id user_id));
  mret (into_summary <$> row).

Definition list_user_summaries (limit offset : Z) : M DomainError (list UserSummary) :=
  offset ← lift (if offset <=? I64_MAX then Ok offset
                 else Err (DomainInternalError "pagination offset exceeds PostgreSQL range"));
  rows ← with_err DomainInternalError (exec (select_users_page limit offset));
  mret (into_summary <$> rows).

Definition count_users : M DomainError Z :=
  with_err DomainInternalError (exec count_users_stmt).

(** ** What the repositories store can be read back *)

Definition row_of_session (s : Session) : SessionRow :=
  MkSessionRow (s_id s) (s_user_id s) (hash_str (s_refresh_token_hash s)) (s_expires_at s)
    (s_is_active s) (s_created_at s) (AuthMethod_as_str (s_auth_method s)).

Definition row_of_user (u : User) : UserRow :=
  MkUserRow (u_id u) (u_username u) (email_str (u_email u)) (u_display_name u)
    (hash_str <$> u_password_hash u) (AuthProvider_as_str (u_auth_provider u))
    (u_created_at u) (u_updated_at u).

(** Every session and user row of the database converts to an entity. *)
Definition db_readable (db : Db) : Prop :=
  map_Forall (λ _ r, ∃ s, SessionRow_into_session r = Ok s) (db_sessions db) ∧
  map_Forall (λ _ r, ∃ u, UserRow_into_user r = Ok u) (db_users db).

Lemma into_session_iff r s :
  SessionRow_into_session r = Ok s ↔
  r = row_of_session s ∧ hash_str (s_refresh_token_hash s) ≠ EmptyString.
Proof.
  unfold SessionRow_into_session. split.
  - destruct (HashedPassword_new _) as [h|] eqn:Hh; simpl; [|done].
    destruct (AuthMethod_try_from _) as [m|] eqn:Hm; simpl; [|done]. intros [= <-].
    apply HashedPassword_new_Ok in Hh as [Hh Hne]. apply AuthMethod_try_from_Ok in Hm.
    unfold row_of_session; simpl. rewrite <- Hh, <- Hm. by destruct r.
  - intros [-> Hne]. simpl. destruct s as [? ? [h] ? ? ? m]; simpl in *.
    destruct h as [|b h]; [done|]. simpl. by rewrite AuthMethod_round_trip.
Qed.

Lemma into_session_row s :
  hash_str (s_refresh_token_hash s) ≠ EmptyString → SessionRow_into_session (row_of_session s) = Ok s.
Proof. intros. by apply into_session_iff. Qed.

Lemma into_session_new now ns :
  hash_str (ns_refresh_token_hash ns) ≠ EmptyString →
  SessionRow_into_session (new_session_row now ns) =
  Ok (MkSession (ns_id ns) (ns_user_id ns) (ns_refresh_token_hash ns) (ns_expires_at ns) true now
        (ns_auth_method ns)).
Proof. intros. by apply into_session_iff. Qed.

Lemma into_session_deactivate r s :
  SessionRow_into_session r = Ok s →
  SessionRow_into_session (row_deactivate r) = Ok (Session_invalidate s).
Proof. rewrite !into_session_iff. intros [-> Hh]. done. Qed.

Lemma into_user_id r u : UserRow_into_user r = Ok u → u_id u = ur_id r ∧ row_of_user u = r.
Proof.
  unfold UserRow_into_user. destruct (Email_new _) as [e|] eqn:He; simpl; [|done].
  destruct (AuthProvider_try_from _) as [p|] eqn:Hp; simpl; [|done].
  destruct (ur_password_hash r) as [h|] eqn:Hh; simpl.
  - destruct (HashedPassword_new h) as [hp|] eqn:Hhp; simpl; [|done]. intros [= <-].
    apply Email_new_Ok in He as [He _]. apply AuthProvider_try_from_Ok in Hp.
    apply HashedPassword_new_Ok in Hhp as [-> _].
    unfold row_of_user; simpl. rewrite <- He, <- Hp, <- Hh. by destruct r.
  - intros [= <-]. apply Email_new_Ok in He as [He _]. apply AuthProvider_try_from_Ok in Hp.
    unfold row_of_user; simpl. rewrite <- He, <- Hp, <- Hh. by destruct r.
Qed.

(** ** Loading *)

Lemma select_read_only :
  (∀ p, read_only (select_user p)) ∧ (∀ id, read_only (select_user_by_id id)) ∧
  (∀ u, read_only (select_sessions_of_user u)) ∧ (∀ id, read_only (select_session id)).
Proof.
  unfold read_only, select_user, select_user_by_id, select_sessions_of_user, select_session.
  naive_solver.
Qed.

Lemma load_aggregate_pure u : db_pure (load_aggregate u).
Proof.
  destruct select_read_only as (_&_&Hs&_). unfold load_aggregate, db_call.
  repeat (apply db_pure_bind; [auto with svc|intros]). auto with svc.
Qed.

Lemma with_aggregate_pure m : db_pure m → db_pure (with_aggregate m).
Proof.
  intros Hm. unfold with_aggregate. apply db_pure_bind; [done|]. intros [u|]; [|auto with svc].
  apply db_pure_bind; [apply load_aggregate_pure|]. auto with svc.
Qed.

Lemma read_user_pure st : read_only st → db_pure (read_user st).
Proof. intros. unfold read_user, db_call. auto 6 with svc. Qed.

Lemma find_aggregate_pure :
  (∀ id, db_pure (pg_find_aggregate_by_id id)) ∧
  (∀ s, db_pure (pg_find_aggregate_by_username s)) ∧
  (∀ s, db_pure (pg_find_aggregate_by_email s)).
Proof.
  destruct select_read_only as (Hu&Hi&_).
  split_and!; intros; apply with_aggregate_pure, read_user_pure; auto.
Qed.

(** What a loaded aggregate is, relative to the tables it was loaded from. *)
Definition loaded (db : Db) (a : UserAggregate) : Prop :=
  db_users db !! u_id (agg_user a) = Some (row_of_user (agg_user a)) ∧
  agg_pending_events a = [] ∧
  (∀ id s, registry (agg_sessions a) !! id = Some s ↔
           db_sessions db !! id = Some (row_of_session s) ∧
           hash_str (s_refresh_token_hash s) ≠ EmptyString ∧
           s_user_id s = u_id (agg_user a)).

Lemma collect_sessions_registry db uid ss :
  db_ok db → collect SessionRow_into_session (session_rows (of_user uid) db) = Ok ss →
  NoDup (s_id <$> ss) ∧ Forall (λ s, s_user_id s = uid) ss ∧
  (∀ id s, registry ss !! id = Some s ↔
     db_sessions db !! id = Some (row_of_session s) ∧
     hash_str (s_refresh_token_hash s) ≠ EmptyString ∧ s_user_id s = uid).
Proof.
  intros Hok Hc. apply collect_Ok_iff in Hc.
  assert (Hrow : ∀ s, s ∈ ss → row_of_session s ∈ session_rows (of_user uid) db ∧
                     hash_str (s_refresh_token_hash s) ≠ EmptyString).
  { intros s (i & Hi)%list_elem_of_lookup.
    destruct (Forall2_lookup_r _ _ _ _ _ Hc Hi) as (r & Hr & Hrs).
    apply into_session_iff in Hrs as [-> Hh]. split; [|done]. by apply list_elem_of_lookup_2 in Hr. }
  assert (Hids : s_id <$> ss = sr_id <$> session_rows (of_user uid) db).
  { clear Hrow. induction Hc as [|r s rs ss Hrs _ IH]; simpl; [done|]. f_equal; [|done].
    by apply into_session_iff in Hrs as [-> _]. }
  assert (Hnd : NoDup (s_id <$> ss)) by (rewrite Hids; by apply session_rows_NoDup).
  split_and!; [done| |].
  - apply Forall_forall. intros s Hs%Hrow. destruct Hs as [Hs _].
    apply elem_of_session_rows in Hs as [_ Hs]. by apply bool_decide_eq_true in Hs.
  - intros id s. unfold registry. rewrite <- elem_of_list_to_map by by rewrite <- list_fmap_compose.
    rewrite list_elem_of_fmap. split.
    + intros (s' & [= -> ->] & Hs). destruct (Hrow _ Hs) as [Hr Hh].
      apply elem_of_session_rows in Hr as [[id Hid] Hu]. apply bool_decide_eq_true in Hu.
      destruct Hok as (_ & Hk & _). pose proof (Hk _ _ Hid) as Heq. simpl in Heq. by subst id.
    + intros (Hid & Hh & Hu). exists s.
      assert (row_of_session s ∈ session_rows (of_user uid) db) as (i & Hi)%list_elem_of_lookup.
      { apply elem_of_session_rows. split; [by exists id|]. by apply bool_decide_eq_true. }
      destruct (Forall2_lookup_l _ _ _ _ _ Hc Hi) as (s' & Hs' & Hconv).
      rewrite into_session_row in Hconv by done. simplify_eq.
      destruct Hok as (_ & Hk & _). pose proof (Hk _ _ Hid) as Heq. simpl in Heq. subst id.
      split; [done|]. by apply list_elem_of_lookup_2 in Hs'.
Qed.

Lemma load_aggregate_Ok u w a w' :
  db_ok (w_db w) → db_users (w_db w) !! u_id u = Some (row_of_user u) →
  load_aggregate u w = (Ok a, w') → loaded (w_db w) a ∧ agg_wf a ∧ agg_user a = u.
Proof.
  intros Hok Hu H. unfold load_aggregate, db_call in H. run_inv H. run_inv R. run_inv H. run_inv R0. run_inv H.
  apply exec_Ok_inv in R as (db' & [= <- <-] & _).
  destruct (collect_sessions_registry _ _ _ Hok R0) as (Hnd & Hf & Hreg).
  split_and!; [split_and!; done| |done]. split_and!; simpl; [done..|constructor].
Qed.

Lemma read_user_Ok st w u w' :
  (∀ db o db', st db = Ok (o, db') → ∀ r, o = Some r → ∃ id, db_users db !! id = Some r) →
  db_ok (w_db w) → read_user st w = (Ok (Some u), w') →
  db_users (w_db w) !! u_id u = Some (row_of_user u) ∧ st (w_db w) = Ok (Some (row_of_user u), w_db w').
Proof.
  intros Hst Hok H. unfold read_user, db_call in H. run_inv H. run_inv R. run_inv H.
  apply exec_Ok_inv in R as (db' & Hrun & Hdb & _).
  destruct v as [r|]; simpl in H; [|done]. destruct (UserRow_into_user r) as [u'|] eqn:Hr; [|done].
  injection H as ->. apply into_user_id in Hr as [Hid Hrow]. subst r.
  destruct (Hst _ _ _ Hrun _ eq_refl) as [id Hid']. destruct Hok as (Hk & _).
  pose proof (Hk _ _ Hid') as Heq. simpl in Heq. subst id. by rewrite Hdb.
Qed.

Lemma select_user_by_id_Some id : ∀ db o db', select_user_by_id id db = Ok (o, db') →
  ∀ r, o = Some r → ∃ id, db_users db !! id = Some r.
Proof. unfold select_user_by_id. naive_solver. Qed.

Lemma select_user_Some p : ∀ db o db', select_user p db = Ok (o, db') →
  ∀ r, o = Some r → ∃ id, db_users db !! id = Some r.
Proof. unfold select_user. intros db o db' [= <- <-] r Hr. by apply find_rows in Hr as [? _]. Qed.

Lemma find_aggregate_Ok st w a w' :
  (∀ db o db', st db = Ok (o, db') → ∀ r, o = Some r → ∃ id, db_users db !! id = Some r) →
  read_only st → db_ok (w_db w) → with_aggregate (read_user st) w = (Ok (Some a), w') →
  loaded (w_db w) a ∧ agg_wf a ∧ w_db w' = w_db w ∧
  st (w_db w) = Ok (Some (row_of_user (agg_user a)), w_db w).
Proof.
  intros Hst Hro Hok H. pose proof (with_aggregate_pure _ (read_user_pure _ Hro) w) as Hpure.
  rewrite H in Hpure; simpl in Hpure. unfold with_aggregate in H. run_inv H.
  pose proof (read_user_pure _ Hro w) as Hp1. rewrite R in Hp1; simpl in Hp1.
  destruct v as [u|]; [|by injection H]. run_inv H. run_inv H.
  apply read_user_Ok in R as [Hu Hrun]; [|done..].
  apply load_aggregate_Ok in R0 as (Hl & Hwf & Hau); [|by rewrite Hp1..].
  rewrite Hp1 in *. rewrite Hau. eauto.
Qed.

Lemma find_aggregate_by_id_Ok id w a w' :
  db_ok (w_db w) → pg_find_aggregate_by_id id w = (Ok (Some a), w') →
  loaded (w_db w) a ∧ agg_wf a ∧ w_db w' = w_db w ∧ u_id (agg_user a) = id.
Proof.
  intros Hok H. destruct select_read_only as (_&Hi&_).
  apply find_aggregate_Ok in H as (Hl & Hwf & Hdb & Hst); [|apply select_user_by_id_Some|auto..].
  split_and!; try done. unfold select_user_by_id in Hst. injection Hst as Hst.
  destruct Hok as (Hk & _). by pose proof (Hk _ _ Hst).
Qed.

Lemma find_aggregate_by_username_Ok name w a w' :
  db_ok (w_db w) → pg_find_aggregate_by_username name w = (Ok (Some a), w') →
  loaded (w_db w) a ∧ agg_wf a ∧ w_db w' = w_db w ∧ u_username (agg_user a) = Some name.
Proof.
  intros Hok H. destruct select_read_only as (Hu&_).
  apply find_aggregate_Ok in H as (Hl & Hwf & Hdb & Hst); [|apply select_user_Some|auto..].
  split_and!; try done. unfold select_user in Hst. injection Hst as Hst.
  apply find_rows in Hst as [_ Hst]. by apply bool_decide_eq_true in Hst.
Qed.

Lemma find_aggregate_by_email_Ok email w a w' :
  db_ok (w_db w) → pg_find_aggregate_by_email email w = (Ok (Some a), w') →
  loaded (w_db w) a ∧ agg_wf a ∧ w_db w' = w_db w ∧ email_str (u_email (agg_user a)) = email.
Proof.
  intros Hok H. destruct select_read_only as (Hu&_).
  apply find_aggregate_Ok in H as (Hl & Hwf & Hdb & Hst); [|apply select_user_Some|auto..].
  split_and!; try done. unfold select_user in Hst. injection Hst as Hst.
  apply find_rows in Hst as [_ Hst]. by apply bool_decide_eq_true in Hst.
Qed.

Lemma find_aggregate_advancing st : advancing (with_aggregate (read_user st)).
Proof.
  unfold with_aggregate, read_user, load_aggregate, db_call.
  apply advancing_bind; [apply advancing_bind; auto with svc|]. intros [u|]; [|auto with svc].
  apply advancing_bind; [|auto with svc]. apply advancing_bind; [auto with svc|]. intros rs.
  apply advancing_bind; auto with svc.
Qed.

Lemma tx_exec_advancing {A} (st : Stmt A) db : advancing (tx_exec st db).
Proof. intros w r w'. unfold tx_exec, next_outcome. destruct (w_pg w) as [|[] l]; by intros [= <- <-]. Qed.

Lemma tx_begin_advancing : advancing tx_begin.
Proof. intros w r w'. unfold tx_begin, next_outcome. destruct (w_pg w) as [|[] l]; by intros [= <- <-]. Qed.

Lemma tx_commit_advancing db : advancing (tx_commit db).
Proof. intros w r w'. unfold tx_commit, next_outcome. destruct (w_pg w) as [|[] l]; by intros [= <- <-]. Qed.

#[local] Hint Resolve tx_exec_advancing tx_begin_advancing tx_commit_advancing : svc.

Lemma insert_sessions_advancing ns db : advancing (insert_sessions ns db).
Proof.
  revert db. induction ns as [|s ns IH]; intros db; simpl; [auto with svc|].
  apply advancing_bind; [|done]. apply advancing_bind; [auto with svc|]. intros t.
  apply advancing_bind; [auto with svc|]. intros [? ?]. auto with svc.
Qed.

Lemma deactivate_sessions_advancing ids db : advancing (deactivate_sessions ids db).
Proof.
  revert db. induction ids as [|id ids IH]; intros db; simpl; [auto with svc|].
  apply advancing_bind; [auto with svc|]. by intros [? ?].
Qed.

Lemma save_aggregate_advancing a ns : advancing (pg_save_aggregate a ns).
Proof.
  apply advancing_with_err, advancing_bind; [auto with svc|]. intros db.
  apply advancing_bind; [apply insert_sessions_advancing|]. intros db'.
  apply advancing_bind; [apply deactivate_sessions_advancing|]. auto with svc.
Qed.

Lemma exec_pg {A} (st : Stmt A) w r w' : exec st w = (r, w') → w_pg w = [] → w_pg w' = [].
Proof.
  unfold exec, next_outcome. intros H Hp. rewrite Hp in H.
  destruct (st (w_db w)) as [[? ?]|]; simplify_eq/=; done.
Qed.

Lemma find_aggregate_pg st w r w' :
  with_aggregate (read_user st) w = (r, w') → w_pg w = [] → w_pg w' = [].
Proof.
  unfold with_aggregate, read_user, load_aggregate, db_call, with_err. intros H Hp.
  rewrite !bind_run in H. destruct (exec st w) as [ro w1] eqn:E1.
  pose proof (exec_pg _ _ _ _ E1 Hp) as Hp1. destruct ro as [o|e]; simpl in H; [|by injection H as <- <-].
  destruct (transpose _) as [[u|]|]; simpl in H; [|by injection H as <- <-..].
  rewrite !bind_run in H. destruct (exec (select_sessions_of_user _) w1) as [rs w2] eqn:E2.
  pose proof (exec_pg _ _ _ _ E2 Hp1) as Hp2. destruct rs as [rs|e]; simpl in H; [|by injection H as <- <-].
  rewrite bind_run in H. unfold lift in H. destruct (collect _ rs); simpl in H; by injection H as <- <-.
Qed.

(** ** Saving *)

(** What a committed [save_aggregate] leaves behind: the new sessions, stamped
    no earlier than [t0], the listed ids deactivated, and nothing else. *)
Definition deactivate_if (ids : list Uuid) (id : Uuid) (r : SessionRow) : SessionRow :=
  if bool_decide (id ∈ ids) then row_deactivate r else r.

Definition saved (t0 : Z) (ids : list Uuid) (ns : list NewSession) (db db' : Db) : Prop :=
  ∃ m', db' = with_sessions db m' ∧
    (∀ id, id ∉ ns_id <$> ns → m' !! id = deactivate_if ids id <$> db_sessions db !! id) ∧
    Forall (λ s, db_sessions db !! ns_id s = None ∧
                 ∃ t, t0 ≤ t ∧ m' !! ns_id s = Some (deactivate_if ids (ns_id s) (new_session_row t s))) ns.

Lemma utc_now_Ok {E} w t w' :
  utc_now (E := E) w = (Ok t, w') → w_clock w ≤ t ∧ w_clock w' = t ∧ w_db w' = w_db w ∧ w_pg w' = w_pg w.
Proof. rewrite utc_now_run. intros [= <- <-]. split_and!; try done. apply reading_ge. Qed.

Lemma tx_exec_Ok {A} (st : Stmt A) db w x w' :
  tx_exec st db w = (Ok x, w') → st db = Ok x ∧ w_clock w' = w_clock w ∧ w_pg w' = tail (w_pg w).
Proof.
  unfold tx_exec, next_outcome. intros H. destruct (w_pg w) as [|[] ?] eqn:E; simplify_eq/=;
    rewrite ?E; done.
Qed.

Lemma db_pure_tx_exec {A} (st : Stmt A) db : db_pure (tx_exec st db).
Proof.
  intros w. unfold tx_exec. pose proof (next_outcome_db w) as H.
  destruct (next_outcome w) as [[] ?]; done.
Qed.

Lemma db_pure_tx_begin : db_pure tx_begin.
Proof.
  intros w. unfold tx_begin. pose proof (next_outcome_db w) as H.
  destruct (next_outcome w) as [[] ?]; done.
Qed.

#[export] Hint Resolve db_pure_tx_exec db_pure_tx_begin : svc.

Lemma insert_sessions_pure ns db : db_pure (insert_sessions ns db).
Proof.
  revert db; induction ns as [|s ns IH]; intros db; simpl; [auto with svc|].
  apply db_pure_bind; [|done]. unfold insert_session.
  apply db_pure_bind; [auto with svc|]. intros t. apply db_pure_bind; [auto with svc|].
  intros [? ?]. auto with svc.
Qed.

Lemma deactivate_sessions_pure ids db : db_pure (deactivate_sessions ids db).
Proof.
  revert db; induction ids as [|s ns IH]; intros db; simpl; [auto with svc|].
  apply db_pure_bind; [auto with svc|]. by intros [? ?].
Qed.

Lemma insert_sessions_Ok ns db w db' w' :
  insert_sessions ns db w = (Ok db', w') → db_ok db →
  db_ok db' ∧ saved (w_clock w) [] ns db db'.
Proof.
  revert db w; induction ns as [|s ns IH]; intros db w H Hok; simpl in H.
  - run_inv H. split; [done|]. exists (db_sessions db). split_and!; [by destruct db| |done].
    intros id _. unfold deactivate_if. by destruct (_ !! id).
  - run_inv H. unfold insert_session in R. run_inv R. run_inv R. destruct v1 as [r dbr].
    run_inv R. apply utc_now_Ok in R0 as (Ht & Hc1 & _). apply tx_exec_Ok in R1 as (Hi & Hc2 & _).
    apply insert_session_row_ok in Hi as (-> & Hok' & -> & Hfresh); [|done].
    apply IH in H as (Hok'' & m' & -> & Hold & Hnew); [|done]. split; [done|]. simpl in *.
    rewrite Forall_forall in Hnew.
    assert (Hnin : ns_id s ∉ ns_id <$> ns).
    { intros (s' & Hid & Hs')%list_elem_of_fmap. apply Hnew in Hs' as [Hn _].
      rewrite <- Hid, lookup_insert_eq in Hn. done. }
    exists m'. split_and!; [done| |].
    + intros id [Hne Hni]%not_elem_of_cons. rewrite Hold by done.
      by rewrite lookup_insert_ne.
    + apply Forall_cons. split.
      * split; [done|]. exists v0. split; [done|].
        by rewrite Hold, lookup_insert_eq by done.
      * apply Forall_forall. intros s' Hs'. destruct (Hnew s' Hs') as (Hn & t & Hle & Hl).
        apply lookup_insert_None in Hn as [Hn _]. split; [done|]. exists t. split; [lia|done].
Qed.

Lemma deactivate_if_cons id ids j r :
  deactivate_if ids j (if bool_decide (j = id) then row_deactivate r else r) =
  deactivate_if (id :: ids) j r.
Proof.
  unfold deactivate_if.
  destruct (bool_decide (j = id)) eqn:E1, (bool_decide (j ∈ ids)) eqn:E2,
    (bool_decide (j ∈ id :: ids)) eqn:E3; bool_to_prop; try done; set_solver.
Qed.

Lemma deactivate_sessions_Ok ids db w db' w' :
  deactivate_sessions ids db w = (Ok db', w') → db_ok db →
  db_ok db' ∧ saved (w_clock w) ids [] db db'.
Proof.
  revert db w; induction ids as [|i ids IH]; intros db w H Hok; simpl in H.
  - run_inv H. split; [done|]. exists (db_sessions db). split_and!; [by destruct db| |done].
    intros id _. unfold deactivate_if. by destruct (_ !! id).
  - run_inv H. destruct v as [[] db1]. apply tx_exec_Ok in R as (Hu & _).
    injection Hu as <-. apply IH in H as (Hok' & m' & -> & Hold & _); [|auto with svc].
    split; [done|]. exists m'. split_and!; [done| |done]. intros id Hid. rewrite Hold by done.
    simpl. rewrite lookup_alter. destruct (db_sessions db !! id) as [r|] eqn:E; simpl.
    + rewrite <- deactivate_if_cons. case_decide; subst; rewrite ?E; simpl.
      * by rewrite bool_decide_eq_true_2.
      * by rewrite bool_decide_eq_false_2.
    + case_decide; subst; by rewrite ?E.
Qed.

Lemma tx_begin_Ok w db w' :
  tx_begin w = (Ok db, w') → db = w_db w ∧ w_clock w' = w_clock w ∧ w_pg w' = tail (w_pg w).
Proof.
  unfold tx_begin, next_outcome. intros H.
  destruct (w_pg w) as [|[] ?] eqn:E; simplify_eq/=; rewrite ?E; done.
Qed.

Lemma insert_sessions_clock ns db w db' w' :
  insert_sessions ns db w = (Ok db', w') → w_clock w ≤ w_clock w'.
Proof.
  revert db w; induction ns as [|s ns IH]; intros db w H; simpl in H; [by run_inv H|].
  run_inv H. unfold insert_session in R. run_inv R. run_inv R. destruct v1 as [r dbr]. run_inv R.
  apply utc_now_Ok in R0 as (? & ? & _). apply tx_exec_Ok in R1 as (_ & ? & _). apply IH in H. lia.
Qed.

Lemma saved_trans t0 t1 ids ns db db1 db2 :
  saved t0 [] ns db db1 → saved t1 ids [] db1 db2 → saved t0 ids ns db db2.
Proof.
  intros (m1 & -> & Hold & Hnew) (m2 & -> & Hd & _). exists m2. split_and!; [done| |].
  - intros id Hid. rewrite Hd by apply not_elem_of_nil. simpl. rewrite Hold by done.
    unfold deactivate_if at 2. by destruct (_ !! id).
  - eapply Forall_impl; [exact Hnew|]. intros s (Hn & t & Ht & Hl). split; [done|].
    exists t. split; [done|]. rewrite Hd by apply not_elem_of_nil. simpl. by rewrite Hl.
Qed.

(** The two ways a save can end. *)
Lemma save_aggregate_cases a ns w r w' :
  db_ok (w_db w) → pg_save_aggregate a ns w = (r, w') →
  (w_db w' = w_db w ∧ is_ok r = false) ∨
  (db_ok (w_db w') ∧ saved (w_clock w) (invalidated_ids a) ns (w_db w) (w_db w')).
Proof.
  intros Hok H. unfold pg_save_aggregate, db_call, with_err in H.
  destruct ((tx_begin ≫= _) w) as [r0 w0] eqn:E. injection H as <- <-.
  destruct (tx_begin w) as [[db0|e0] wb] eqn:Hb.
  2:{ left. rewrite bind_run, Hb in E. injection E as <- <-. split; [|done].
      pose proof (db_pure_tx_begin w) as Hp. by rewrite Hb in Hp. }
  rewrite (bind_Ok _ _ _ _ _ Hb) in E. pose proof (db_pure_tx_begin w) as Hp0. rewrite Hb in Hp0.
  simpl in Hp0. apply tx_begin_Ok in Hb as (-> & Hc0 & _).
  pose proof (insert_sessions_pure ns (w_db w) wb) as Hp1. rewrite bind_run in E.
  destruct (insert_sessions ns (w_db w) wb) as [[db1|e1] w1] eqn:Hi; simpl in Hp1.
  2:{ left. injection E as <- <-. split; [congruence|done]. }
  pose proof (insert_sessions_clock _ _ _ _ _ Hi) as Hc1.
  apply insert_sessions_Ok in Hi as [Hok1 Hs1]; [|done].
  pose proof (deactivate_sessions_pure (invalidated_ids a) db1 w1) as Hp2. rewrite bind_run in E.
  destruct (deactivate_sessions (invalidated_ids a) db1 w1) as [[db2|e2] w2] eqn:Hd; simpl in Hp2.
  2:{ left. injection E as <- <-. split; [congruence|done]. }
  apply deactivate_sessions_Ok in Hd as [Hok2 Hs2]; [|done].
  pose proof (saved_trans _ _ _ _ _ _ _ Hs1 Hs2) as Hs. rewrite Hc0 in Hs.
  unfold tx_commit, next_outcome in E.
  destruct (w_pg w2) as [|[] l]; simplify_eq/=; [by right|by right|left|by right].
  split; [congruence|done].
Qed.

Lemma insert_sessions_pg ns db w r w' :
  insert_sessions ns db w = (r, w') → w_pg w = [] → w_pg w' = [].
Proof.
  revert db w; induction ns as [|s ns IH]; intros db w H Hp; simpl in H; [by injection H as <- <-|].
  rewrite bind_run in H. unfold insert_session in H. rewrite bind_run, utc_now_run in H.
  rewrite bind_run in H. unfold tx_exec, next_outcome in H. simpl in H. rewrite Hp in H.
  destruct (insert_session_row _ db) as [[? db1]|]; simpl in H; [by apply IH in H|].
  by injection H as <- <-.
Qed.

Lemma deactivate_sessions_pg ids db w r w' :
  deactivate_sessions ids db w = (r, w') → w_pg w = [] → w_pg w' = [].
Proof.
  revert db w; induction ids as [|i ids IH]; intros db w H Hp; simpl in H; [by injection H as <- <-|].
  rewrite bind_run in H. unfold tx_exec, next_outcome in H. rewrite Hp in H. simpl in H.
  by apply IH in H.
Qed.

(** When the database is up, an error means that nothing was written. *)
Lemma save_aggregate_no_fault a ns w e w' :
  w_pg w = [] → pg_save_aggregate a ns w = (Err e, w') → w_db w' = w_db w.
Proof.
  intros Hp H. unfold pg_save_aggregate, db_call in H.
  apply with_err_Err_inv in H as (e0 & H & _). rewrite bind_run in H.
  unfold tx_begin, next_outcome in H. rewrite Hp in H. rewrite bind_run in H.
  pose proof (insert_sessions_pure ns (w_db w) w) as P1.
  destruct (insert_sessions ns (w_db w) w) as [[db1|e1] w1] eqn:E1; simpl in P1; [|by injection H as _ <-].
  apply insert_sessions_pg in E1; [|done]. rewrite bind_run in H.
  pose proof (deactivate_sessions_pure (invalidated_ids a) db1 w1) as P2.
  destruct (deactivate_sessions _ db1 w1) as [[db2|e2] w2] eqn:E2; simpl in P2;
    [|injection H as _ <-; congruence].
  apply deactivate_sessions_pg in E2; [|done]. unfold tx_commit, next_outcome in H. by rewrite E2 in H.
Qed.

(** A save runs to the end when the database does not fail, the owner exists and
    the new ids are fresh and distinct. *)
Lemma insert_sessions_total ns db w :
  w_pg w = [] → NoDup (ns_id <$> ns) →
  Forall (λ s, db_sessions db !! ns_id s = None ∧ is_Some (db_users db !! ns_user_id s)) ns →
  ∃ db' w', insert_sessions ns db w = (Ok db', w') ∧ w_pg w' = [].
Proof.
  revert db w; induction ns as [|s ns IH]; intros db w Hp Hnd Hall; simpl; [by exists db, w|].
  apply NoDup_cons in Hnd as [Hs Hnd]. apply Forall_cons in Hall as [[Hf Hu] Hall].
  rewrite bind_run. unfold insert_session. rewrite bind_run. unfold utc_now; simpl. rewrite bind_run.
  unfold tx_exec, next_outcome; simpl. rewrite Hp. unfold insert_session_row; simpl.
  rewrite bool_decide_eq_false_2 by (rewrite Hf; apply is_Some_None).
  rewrite bool_decide_eq_false_2 by (by apply not_eq_None_Some). simpl.
  apply IH; [done..|]. apply Forall_forall. intros s' Hs'. rewrite Forall_forall in Hall.
  destruct (Hall s' Hs') as [Hf' Hu']. split; [|done]. simpl. apply lookup_insert_None. split; [done|].
  intros Heq. apply Hs. rewrite Heq. by apply list_elem_of_fmap_2.
Qed.

Lemma deactivate_sessions_total ids db w :
  w_pg w = [] → ∃ db' w', deactivate_sessions ids db w = (Ok db', w') ∧ w_pg w' = [].
Proof.
  revert db w; induction ids as [|i ids IH]; intros db w Hp; simpl; [by exists db, w|].
  rewrite bind_run. unfold tx_exec, next_outcome. rewrite Hp. simpl. by apply IH.
Qed.

Lemma save_aggregate_total a ns w :
  w_pg w = [] → NoDup (ns_id <$> ns) →
  Forall (λ s, db_sessions (w_db w) !! ns_id s = None ∧
               is_Some (db_users (w_db w) !! ns_user_id s)) ns →
  ∃ w', pg_save_aggregate a ns w = (Ok tt, w') ∧ w_pg w' = [].
Proof.
  intros Hp Hnd Hall. unfold pg_save_aggregate, db_call, with_err.
  rewrite bind_run. unfold tx_begin, next_outcome. rewrite Hp.
  destruct (insert_sessions_total ns (w_db w) w Hp Hnd Hall) as (db1 & w1 & E1 & Hp1).
  rewrite bind_run, E1.
  destruct (deactivate_sessions_total (invalidated_ids a) db1 w1 Hp1) as (db2 & w2 & E2 & Hp2).
  rewrite bind_run, E2. unfold tx_commit, next_outcome. rewrite Hp2. simpl. by eexists.
Qed.

(** ** Reading back what was saved *)

Definition hash_nonempty (s : NewSession) : Prop := hash_str (ns_refresh_token_hash s) ≠ EmptyString.

Definition session_of_new (now : Z) (s : NewSession) : Session :=
  MkSession (ns_id s) (ns_user_id s) (ns_refresh_token_hash s) (ns_expires_at s) true now
    (ns_auth_method s).

Lemma row_of_session_of_new now s : row_of_session (session_of_new now s) = new_session_row now s.
Proof. done. Qed.

Lemma row_of_session_invalidate s : row_of_session (Session_invalidate s) = row_deactivate (row_of_session s).
Proof. done. Qed.

Lemma row_of_session_inj s1 s2 : row_of_session s1 = row_of_session s2 → s1 = s2.
Proof.
  destruct s1 as [? ? [?] ? ? ? m1], s2 as [? ? [?] ? ? ? m2]. unfold row_of_session; simpl.
  destruct m1, m2; intros [=]; by subst.
Qed.

Lemma saved_cases t0 ids ns db db' id r :
  saved t0 ids ns db db' → db_sessions db' !! id = Some r →
  (∃ s t, s ∈ ns ∧ ns_id s = id ∧ t0 ≤ t ∧ r = deactivate_if ids id (new_session_row t s)) ∨
  (id ∉ (ns_id <$> ns) ∧ ∃ r0, db_sessions db !! id = Some r0 ∧ r = deactivate_if ids id r0).
Proof.
  intros (m' & -> & Hold & Hnew) Hid; simpl in Hid. rewrite Forall_forall in Hnew.
  destruct (decide (id ∈ ns_id <$> ns)) as [Hin|Hni].
  - left. apply list_elem_of_fmap in Hin as (s & -> & Hs).
    destruct (Hnew s Hs) as (_ & t & Ht & Hl). rewrite Hl in Hid. simplify_eq. eauto 6.
  - right. split; [done|]. rewrite Hold in Hid by done.
    apply fmap_Some in Hid as (r0 & Hr0 & ->). eauto.
Qed.

Lemma into_session_deactivate_if ids id r s :
  SessionRow_into_session r = Ok s → ∃ s', SessionRow_into_session (deactivate_if ids id r) = Ok s'.
Proof.
  intros H. unfold deactivate_if. case_bool_decide; [|eauto].
  apply into_session_deactivate in H. eauto.
Qed.

Lemma saved_readable t0 ids ns db db' :
  saved t0 ids ns db db' → Forall hash_nonempty ns → db_readable db → db_readable db'.
Proof.
  intros Hs Hns [Hrs Hru]. split.
  - intros id r Hid. rewrite Forall_forall in Hns.
    destruct (saved_cases _ _ _ _ _ _ _ Hs Hid) as [(s & t & Hin & _ & _ & ->)|(_ & r0 & Hr0 & ->)].
    + eapply into_session_deactivate_if, into_session_new. by apply Hns.
    + destruct (Hrs _ _ Hr0) as [s0 Hs0]. by eapply into_session_deactivate_if.
  - destruct Hs as (m' & -> & _). done.
Qed.

(** With the database up and readable, a lookup returns, and returns the user
    of the row found. *)
Lemma find_aggregate_run (st : Stmt (option UserRow)) o w :
  w_pg w = [] → db_readable (w_db w) → st (w_db w) = Ok (o, w_db w) →
  (∀ r, o = Some r → ∃ id, db_users (w_db w) !! id = Some r) →
  ∃ ao, with_aggregate (read_user st) w = (Ok ao, w) ∧
        agg_user <$> ao = (o ≫= λ r, ok (UserRow_into_user r)) ∧ (is_Some o → is_Some ao) ∧
        (∀ a, ao = Some a → collect SessionRow_into_session
                 (session_rows (of_user (u_id (agg_user a))) (w_db w)) = Ok (agg_sessions a)).
Proof.
  intros Hp [Hrs Hru] Hst Ho.
  unfold with_aggregate, read_user, load_aggregate, db_call, with_err.
  assert (Hex : ∀ A (st : Stmt A) a, st (w_db w) = Ok (a, w_db w) → exec st w = (Ok a, w)).
  { intros A st' a Hst'. rewrite (exec_no_fault st' w a (w_db w)) by done. by destruct w. }
  rewrite !bind_run, (Hex _ st o Hst). simpl. destruct o as [r|]; simpl.
  2:{ exists None. split_and!; [done..| |done]. by intros [? ?]. }
  destruct (Ho r eq_refl) as [id Hr]. destruct (Hru _ _ Hr) as [u Hu]. rewrite Hu. simpl.
  rewrite !bind_run.
  rewrite (Hex _ (select_sessions_of_user (u_id u)) (session_rows (of_user (u_id u)) (w_db w))) by done.
  simpl. rewrite !bind_run. unfold lift.
  assert (∃ ss, collect SessionRow_into_session (session_rows (of_user (u_id u)) (w_db w)) = Ok ss)
    as [ss Hss].
  2:{ rewrite Hss; simpl. eexists; split_and!; [done..|by eexists|]. intros a [= <-]. done. }
  assert (Hall : Forall (λ r, ∃ s, SessionRow_into_session r = Ok s)
                   (session_rows (of_user (u_id u)) (w_db w))).
  { apply Forall_forall. intros x [[i Hi] _]%elem_of_session_rows. by apply (Hrs i). }
  clear -Hall. induction Hall as [|x l [s Hs] _ [ss IH]]; simpl; [by exists []|].
  rewrite Hs, IH. by eexists.
Qed.

Lemma find_aggregate_total id w :
  w_pg w = [] → db_ok (w_db w) → db_readable (w_db w) → is_Some (db_users (w_db w) !! id) →
  ∃ a, pg_find_aggregate_by_id id w = (Ok (Some a), w).
Proof.
  intros Hp Hok Hrd [r Hr].
  destruct (find_aggregate_run (select_user_by_id id) (Some r) w) as (ao & Hrun & _ & Hs & _); [done..| | |].
  - unfold select_user_by_id. by rewrite Hr.
  - intros ? [= <-]. eauto.
  - destruct (Hs (mk_is_Some _ _ eq_refl)) as [a ->]. eauto.
Qed.

Lemma registry_only_revoked l l' id :
  Forall2 only_revoked l l' →
  (registry l !! id = None ∧ registry l' !! id = None) ∨
  ∃ s s', registry l !! id = Some s ∧ registry l' !! id = Some s' ∧ only_revoked s s'.
Proof.
  rewrite !registry_find. induction 1 as [|s s' l l' Hs _ IH]; simpl; [by left|].
  assert (Hid : has_id id s' = has_id id s) by (destruct Hs as [->| ->]; done).
  rewrite Hid. destruct (has_id id s); [|done]. right. eauto 6.
Qed.

Lemma invalidated_ids_spec a id s :
  agg_wf a → registry (agg_sessions a) !! id = Some s →
  (id ∈ invalidated_ids a ↔ s_is_active s = false).
Proof.
  intros (Hnd & _) Hs. unfold invalidated_ids. rewrite list_elem_of_fmap. split.
  - intros (s' & -> & Hs'). apply list_elem_of_In, filter_In in Hs' as [Hin Hact].
    apply negb_true_iff in Hact. apply list_elem_of_In in Hin.
    assert (registry (agg_sessions a) !! s_id s' = Some s') as Hreg; [|congruence].
    unfold registry. apply elem_of_list_to_map; [by rewrite <- list_fmap_compose|].
    apply list_elem_of_fmap. by exists s'.
  - intros Hact. rewrite registry_find in Hs. apply find_has_id in Hs as [Hin <-].
    exists s. split; [done|]. apply list_elem_of_In, filter_In. split; [by apply list_elem_of_In|].
    by rewrite Hact.
Qed.

Lemma invalidated_ids_registry a id :
  id ∈ invalidated_ids a → is_Some (registry (agg_sessions a) !! id).
Proof.
  unfold invalidated_ids. intros (s & -> & Hs)%list_elem_of_fmap.
  apply list_elem_of_In, filter_In in Hs as [Hs _]. apply list_elem_of_In in Hs.
  unfold registry. induction (agg_sessions a) as [|x l IH]; [by apply not_elem_of_nil in Hs|].
  simpl. apply lookup_insert_is_Some'. apply elem_of_cons in Hs as [->|Hs]; auto.
Qed.

Lemma row_of_user_inj u1 u2 : row_of_user u1 = row_of_user u2 → u1 = u2.
Proof.
  destruct u1 as [? ? [?] ? h1 p1 ? ?], u2 as [? ? [?] ? h2 p2 ? ?]. unfold row_of_user; simpl.
  destruct h1 as [[h1]|], h2 as [[h2]|], p1, p2; simpl; intros [=]; by subst.
Qed.

(** The sessions of a reloaded aggregate, after a save of [a] which was obtained
    from [a0] by aggregate operations. *)
Lemma reload_registry t0 db db' (a0 a a' : UserAggregate) ns :
  loaded db a0 → agg_wf a → Forall2 only_revoked (agg_sessions a0) (agg_sessions a) →
  saved t0 (invalidated_ids a) ns db db' → loaded db' a' →
  u_id (agg_user a0) = u_id (agg_user a') →
  Forall (λ s, ns_user_id s = u_id (agg_user a') ∧ hash_nonempty s) ns →
  (∀ id, id ∉ ns_id <$> ns →
     registry (agg_sessions a') !! id = registry (agg_sessions a) !! id) ∧
  Forall (λ s, ∃ t, t0 ≤ t ∧ registry (agg_sessions a') !! ns_id s = Some (session_of_new t s)) ns.
Proof.
  intros (_ & _ & Hl0) Hwf Hrev (m' & -> & Hold & Hnew) (_ & _ & Hl') Hu Hns; simpl in *. split.
  - intros id Hid. apply option_eq. intros s'. rewrite Hl', Hold by done.
    destruct (registry_only_revoked _ _ id Hrev) as [[Hn0 Hn]|(s0 & s & Hs0 & Hs & Hor)].
    + rewrite Hn. split; [|done]. intros (Hr & Hh & Hus).
      apply fmap_Some in Hr as (r0 & Hr0 & Hr).
      unfold deactivate_if in Hr. case_bool_decide as Hin.
      * apply invalidated_ids_registry in Hin. rewrite Hn in Hin. by apply is_Some_None in Hin.
      * subst r0. assert (registry (agg_sessions a0) !! id = Some s'); [|congruence].
        apply Hl0. by rewrite Hu.
    + rewrite Hs. pose proof (invalidated_ids_spec _ _ _ Hwf Hs) as Hinv.
      apply Hl0 in Hs0 as (Hr0 & Hh0 & Hu0). rewrite Hr0; simpl.
      assert (Heq : deactivate_if (invalidated_ids a) id (row_of_session s0) = row_of_session s).
      { unfold deactivate_if. case_bool_decide as Hin; rewrite Hinv in Hin.
        - rewrite <- row_of_session_invalidate. destruct Hor as [->| ->]; [|done].
          by rewrite Session_invalidate_of_inactive.
        - destruct Hor as [->| ->]; [done|]. by destruct Hin. }
      rewrite Heq. split.
      * intros (He & _ & _). apply (inj Some), row_of_session_inj in He as ->. done.
      * intros [= <-]. split; [done|]. rewrite <- Hu.
        by destruct Hor as [->| ->].
  - apply Forall_forall. intros s Hs. rewrite Forall_forall in Hnew, Hns.
    destruct (Hnew s Hs) as (Hf & t & Ht & Hm). destruct (Hns s Hs) as [Hus Hh].
    exists t. split; [done|]. apply Hl'. split_and!; [|done|by rewrite <- Hus].
    rewrite Hm. unfold deactivate_if. rewrite bool_decide_eq_false_2; [done|].
    intros [x Hx]%invalidated_ids_registry.
    destruct (registry_only_revoked _ _ (ns_id s) Hrev) as [[_ ?]|(s0 & ? & Hs0 & _)]; [congruence|].
    apply Hl0 in Hs0 as (Hr0 & _). congruence.
Qed.

(** A save of an aggregate as it was loaded revokes nothing new. *)
Lemma loaded_inactive db a id r :
  loaded db a → agg_wf a → id ∈ invalidated_ids a → db_sessions db !! id = Some r →
  row_deactivate r = r.
Proof.
  intros (_ & _ & Hl) Hwf Hin Hr. destruct (invalidated_ids_registry _ _ Hin) as [s Hs].
  pose proof (proj1 (invalidated_ids_spec _ _ _ Hwf Hs) Hin) as Hact.
  apply Hl in Hs as (Hrow & _). rewrite Hr in Hrow. injection Hrow as ->.
  unfold row_deactivate, row_of_session; simpl. by rewrite Hact.
Qed.

Lemma saved_insert t0 db db' a s :
  loaded db a → agg_wf a → saved t0 (invalidated_ids a) [s] db db' →
  ∃ t, t0 ≤ t ∧ db_sessions db !! ns_id s = None ∧
       db' = with_sessions db (<[ns_id s := new_session_row t s]> (db_sessions db)).
Proof.
  intros Hl Hwf (m' & -> & Hold & Hnew). apply Forall_cons in Hnew as [(Hf & t & Ht & Hm) _].
  exists t. split_and!; [done..|]. f_equal. apply map_eq. intros id.
  destruct (decide (id = ns_id s)) as [->|Hne].
  - rewrite lookup_insert_eq, Hm. unfold deactivate_if. rewrite bool_decide_eq_false_2; [done|].
    intros Hin. destruct (invalidated_ids_registry _ _ Hin) as [x Hx].
    destruct Hl as (_ & _ & Hl). apply Hl in Hx as (Hx & _). congruence.
  - rewrite lookup_insert_ne by done. rewrite Hold by (simpl; set_solver).
    destruct (db_sessions db !! id) as [r|] eqn:Hr; [|done]. simpl. f_equal.
    unfold deactivate_if. case_bool_decide; [|done]. by eapply loaded_inactive.
Qed.

(** The demonstration database: [demo_agg]'s user and sessions. *)
Definition demo_db : Db :=
  let db0 := with_users empty_db {[7%N := row_of_user demo_user]} in
  with_sessions db0 (list_to_map ((λ s, (s_id s, row_of_session s)) <$> agg_sessions demo_agg)).

Definition demo_world : World := fresh_world demo_db 100.

Lemma demo_db_ok : db_ok demo_db.
Proof.
  split_and!; [by apply (bool_decide_unpack _); vm_compute..| |];
    intros i j r1 r2; [intros H1 H2 _|intros ? H1 H2 _ _]; simpl in H1, H2;
    apply lookup_singleton_Some in H1 as [<- _]; by apply lookup_singleton_Some in H2 as [<- _].
Qed.

Lemma demo_db_readable : db_readable demo_db.
Proof.
  split; intros id r Hr; simpl in Hr.
  - repeat (apply lookup_insert_Some in Hr as [[<- <-]|[_ Hr]]; [by eexists|]). done.
  - apply lookup_singleton_Some in Hr as [<- <-]. by eexists.
Qed.

(** ** Properties *)

(** C14. [save_aggregate] is all or nothing: whatever the database does, the
    tables afterwards are either exactly what they were (and the caller got an
    error) or hold every new session, every invalidated session deactivated and
    nothing else changed; in both cases the schema's integrity holds. *)
Theorem save_aggregate_atomic (a : UserAggregate) (ns : list NewSession) w r w' :
  db_ok (w_db w) → pg_save_aggregate a ns w = (r, w') →
  db_ok (w_db w') ∧
  ((w_db w' = w_db w ∧ is_ok r = false) ∨
   saved (w_clock w) (invalidated_ids a) ns (w_db w) (w_db w')).
Proof.
  intros Hok H. destruct (save_aggregate_cases _ _ _ _ _ Hok H) as [[Hdb Hr]|[Hok' Hs]]; [|by auto].
  rewrite Hdb. auto.
Qed.

Lemma save_aggregate_atomic_witness :
  let new := [MkNewSession 9%N 7%N demo_hash 5000 Password] in
  let w := with_pg demo_world [PgOk; PgOk; PgFail "reset"] in
  db_ok (w_db (pg_save_aggregate demo_agg new w).2).
Proof.
  intros new w. destruct (pg_save_aggregate demo_agg new w) as [r w'] eqn:E.
  destruct (save_aggregate_atomic demo_agg new w r w' demo_db_ok E) as [H _]. exact H.
Defined.

(** C28. Load, modify, save, load, the database being up: when an aggregate is
    loaded, changed by any aggregate operations and saved with new sessions under fresh ids, the save
    succeeds and loading again returns the same user, every old session in the
    state the aggregate left it in, and every new session, active. *)
Theorem save_load_round_trip uid w0 a0 w ops (ns : list NewSession) :
  db_ok (w_db w0) → db_readable (w_db w0) → w_pg w0 = [] →
  pg_find_aggregate_by_id uid w0 = (Ok (Some a0), w) →
  NoDup (ns_id <$> ns) →
  Forall (λ s, ns_user_id s = uid ∧ hash_nonempty s ∧ db_sessions (w_db w0) !! ns_id s = None) ns →
  let a := foldl (flip agg_step) a0 ops in
  ∃ w1 a' w2,
    pg_save_aggregate a ns w = (Ok tt, w1) ∧
    pg_find_aggregate_by_id uid w1 = (Ok (Some a'), w2) ∧
    agg_user a' = agg_user a0 ∧
    (∀ id, id ∉ ns_id <$> ns →
       registry (agg_sessions a') !! id = registry (agg_sessions a) !! id) ∧
    Forall (λ s, ∃ t, w_clock w ≤ t ∧
                 registry (agg_sessions a') !! ns_id s = Some (session_of_new t s)) ns.
Proof.
  intros Hok Hrd Hp Hfind Hnd Hns a.
  destruct (find_aggregate_by_id_Ok _ _ _ _ Hok Hfind) as (Hl0 & Hwf0 & Hdb & Huid).
  assert (Husr : is_Some (db_users (w_db w0) !! uid)) by (destruct Hl0 as (Hu & _); rewrite <- Huid; eauto).
  destruct (find_aggregate_total uid w0 Hp Hok Hrd Husr) as [a0' Ht].
  rewrite Ht in Hfind. injection Hfind as -> <-. clear Ht.
  assert (Hwf : agg_wf a) by (apply (foldl_inv agg_wf); [done|]; intros; by apply agg_step_wf).
  destruct (save_aggregate_total a ns w0 Hp Hnd) as (w1 & Hsave & Hp1).
  { eapply Forall_impl; [exact Hns|]. intros s (-> & _ & ?). done. }
  destruct (save_aggregate_cases _ _ _ _ _ Hok Hsave) as [[_ ?]|[Hok1 Hs]]; [done|].
  assert (Hrd1 : db_readable (w_db w1)).
  { eapply saved_readable; [done| |done]. eapply Forall_impl; [exact Hns|]. naive_solver. }
  assert (Husers : db_users (w_db w1) = db_users (w_db w0)) by (by destruct Hs as (m' & -> & _)).
  destruct (find_aggregate_total uid w1) as [a' Hfind']; [done..|by rewrite Husers|].
  destruct (find_aggregate_by_id_Ok _ _ _ _ Hok1 Hfind') as (Hl' & _ & _ & Huid').
  exists w1, a', w1. split; [done|]. split; [done|]. split.
  - apply row_of_user_inj. destruct Hl0 as (Hu0 & _), Hl' as (Hu' & _).
    rewrite Husers, Huid' in Hu'. rewrite Huid in Hu0. congruence.
  - apply (reload_registry _ _ _ a0 _ a' _ Hl0 Hwf (agg_steps_only_revoked ops a0) Hs Hl');
      [congruence|]. rewrite Huid'. eapply Forall_impl; [exact Hns|]. naive_solver.
Qed.

Lemma save_load_round_trip_witness :
  ∃ w1 a' w2,
    pg_save_aggregate (foldl (flip agg_step) demo_agg [OpInvalidate 100 1%N])
      [MkNewSession 9%N 7%N demo_hash 5000 Password] demo_world = (Ok tt, w1) ∧
    pg_find_aggregate_by_id 7%N w1 = (Ok (Some a'), w2) ∧
    registry (agg_sessions a') !! 1%N = Some (MkSession 1%N 7%N demo_hash 1000 false 5 Password).
Proof.
  destruct (save_load_round_trip 7%N demo_world demo_agg demo_world [OpInvalidate 100 1%N]
              [MkNewSession 9%N 7%N demo_hash 5000 Password])
    as (w1 & a' & w2 & H1 & H2 & _ & H3 & _);
    [exact demo_db_ok|exact demo_db_readable|reflexivity|vm_compute; reflexivity
    |repeat constructor; apply not_elem_of_nil|repeat constructor; vm_compute; done|].
  exists w1, a', w2. split; [exact H1|]. split; [exact H2|]. rewrite H3; [reflexivity|].
  apply not_elem_of_cons. split; [done|apply not_elem_of_nil].
Defined.
