(* ===== verification/Bcrypt.v ===== *)
(** * Password verification and the bcrypt limiter

    [crates/auth/src/domain/services]: [password_verification.rs] (the dummy-hash
    cache, the timing padding, [verify_password_timing_safe]) and
    [bcrypt_task.rs] ([BcryptLimiter]). The bcrypt crate itself is the parameter
    [BcryptLib]; what is relied on of it is [BcryptSpec]. *)

From S2P Require Import Prelude RustStr ValueObjects Entities Database Effects.

(** ** The bcrypt crate *)

(** [bcrypt_hash n password cost] uses the [n]-th drawn salt. *)
Class BcryptLib : Type := {
  bcrypt_hash : nat → string → Z → result string string;
  bcrypt_verify : string → string → result string bool }.

(** The two decimal digits of a cost. *)
Definition cost_text (c : Z) : string :=
  String (ascii_of_N (Z.to_N (48 + c / 10))) (String (ascii_of_N (Z.to_N (48 + c mod 10))) EmptyString).

(** Documented behaviour: costs 4 to 31 are accepted, the hash is in the
    [$2b$<cost>$...] format, it verifies the password it was made from, and a
    hash the crate made can always be checked. *)
Class BcryptSpec `{BcryptLib} : Prop := {
  bcrypt_hash_format : ∀ n pw c h, bcrypt_hash n pw c = Ok h →
    4 ≤ c ≤ 31 ∧ ∃ rest, h = String.append "$2b$" (String.append (cost_text c) (String "$" rest));
  bcrypt_hash_total : ∀ n pw c, 4 ≤ c ≤ 31 → contains_char "000" pw = false →
    ∃ h, bcrypt_hash n pw c = Ok h;
  bcrypt_verify_own : ∀ n pw c h, bcrypt_hash n pw c = Ok h → bcrypt_verify pw h = Ok true;
  bcrypt_verify_total : ∀ n pw pw' c h, bcrypt_hash n pw c = Ok h → ∃ b, bcrypt_verify pw' h = Ok b }.

Definition push_work (k : Work) (w : World) : World := with_work w (k :: w_work w).

(** [bcrypt::hash(password, cost)] *)
Definition hash_io `{BcryptLib} {E} (password : string) (cost : Z) : M E (result string string) :=
  n ← draw;
  effect (λ w, let r := bcrypt_hash n password cost in
               (r, if is_ok r then push_work (WHash cost) w else w)).

(** [bcrypt::verify(password, hash)] *)
Definition verify_io `{BcryptLib} {E} (password hash : string) : M E (result string bool) :=
  effect (λ w, let r := bcrypt_verify password hash in
               (r, if is_ok r then push_work (WVerify hash) w else w)).

(** [User::verify_password], which only tests call. *)
Definition User_verify_password `{BcryptLib} (self : User) (password : string) : bool :=
  match u_password_hash self with
  | Some hash => match bcrypt_verify password (hash_str hash) with
                 | Ok valid => valid
                 | Err _ => false
                 end
  | None => false
  end.

(** [std::thread::sleep] *)
Definition sleep {E} (ms : Z) : M E unit := effect (λ w, (tt, push_work (WSleep ms) w)).

(** ** Timing-safe verification *)

Definition DUMMY_PASSWORD : string := "dummy-password-for-timing-safety".

Definition dummy_password_hash `{BcryptLib} {E} (cost : Z) : M E (option string) :=
  cached ← effect (λ w, (w_dummies w !! cost, w));
  match cached with
  | Some hash => mret hash
  | None =>
      r ← hash_io DUMMY_PASSWORD cost;
      let hash := ok r in
      _ ← effect (λ w, (tt, match w_dummies w !! cost with
                            | Some _ => w
                            | None => with_dummies w (<[cost := hash]> (w_dummies w))
                            end));
      mret hash
  end.

Definition stored_hash_cost (hash : string) : option Z :=
  match split "$" hash with
  | [] => None
  | p0 :: parts =>
      if negb (is_empty p0) then None
      else match parts with
           | _version :: p2 :: _ => parse_uint U32_MAX p2
           | _ => None
           end
  end.

(** [(1u32 << (configured_cost - stored_cost)) - 1], with the wrap-around of a
    release build (the shift amount is taken modulo 32). *)
Definition extra_verifies (configured_cost stored_cost : Z) : Z :=
  wrap_u32 (wrap_u32 (Z.shiftl 1 (wrap_u32 (configured_cost - stored_cost) mod 32)) - 1).

Fixpoint verify_times `{BcryptLib} {E} (n : nat) (password hash : string) : M E unit :=
  match n with
  | O => mret tt
  | S n' => _ ← verify_io password hash; verify_times n' password hash
  end.

Definition pad_timing_to `{BcryptLib} {E} (stored_hash : string) (configured_cost : Z) : M E unit :=
  match stored_hash_cost stored_hash with
  | None => mret tt
  | Some stored_cost =>
      if configured_cost <=? stored_cost then mret tt
      else
        dummy ← dummy_password_hash stored_cost;
        match dummy with
        | None => sleep 50
        | Some dummy =>
            verify_times (Z.to_nat (extra_verifies configured_cost stored_cost)) DUMMY_PASSWORD dummy
        end
  end.

(** [PasswordVerificationService::hash_password] *)
Definition hash_password `{BcryptLib} {E} (password : string) (cost : Z) : M E (result string string) :=
  hash_io password cost.

Definition verify_password_timing_safe `{BcryptLib} {E} (user : option User) (password : string)
    (cost : Z) : M E bool :=
  match user ≫= (λ u, hash_str <$> u_password_hash u) with
  | Some hash =>
      _ ← pad_timing_to hash cost;
      r ← verify_io password hash;
      match r with
      | Ok valid => mret valid
      | Err _ => mret false
      end
  | None =>
      dummy ← dummy_password_hash cost;
      match dummy with
      | Some hash => _ ← verify_io password hash; mret false
      | None => _ ← sleep 50; mret false
      end
  end.

(** ** The limiter

    [run_bounded] as its caller sees it; the waiting itself is [LimStep] below. *)

Definition run_bounded {A} (f : M AuthError A) : M AuthError A := λ w,
  match w_join w with
  | Some e :: l =>
      (Err (InternalError (String.append "bcrypt task failed to complete: " e)), with_join w l)
  | None :: l => f (with_join w l)
  | [] => f w
  end.

(** The semaphore and the tasks around it: [lim_waiting] in arrival order,
    [lim_running] on blocking threads, each holding one permit. *)
Record Limiter : Type := MkLimiter {
  lim_permits : nat;
  lim_waiting : list nat;
  lim_running : list nat }.

Definition BcryptLimiter_new (max_concurrent : nat) : Limiter :=
  MkLimiter (max_concurrent `max` 1) [] [].

(** [LsRequest]: a caller enters [run_bounded]. [LsAcquire]: the oldest waiter
    gets a free permit and its closure starts. [LsCancel]: a waiting caller goes
    away. [LsFinish]: a closure returns or panics, which drops its permit; a
    caller that goes away after [LsAcquire] does not stop its closure. *)
Inductive LimStep : Limiter → Limiter → Prop :=
| LsRequest p ws rs t : LimStep (MkLimiter p ws rs) (MkLimiter p (ws ++ [t]) rs)
| LsAcquire p t ws rs : LimStep (MkLimiter (S p) (t :: ws) rs) (MkLimiter p ws (t :: rs))
| LsCancel p ws1 t ws2 rs :
    LimStep (MkLimiter p (ws1 ++ t :: ws2) rs) (MkLimiter p (ws1 ++ ws2) rs)
| LsFinish p ws rs1 t rs2 :
    LimStep (MkLimiter p ws (rs1 ++ t :: rs2)) (MkLimiter (S p) ws (rs1 ++ rs2)).

Definition lim_reachable (n : nat) (l : Limiter) : Prop := rtc LimStep (BcryptLimiter_new n) l.

(** ** Work accounting

    bcrypt does [2 ^ cost] rounds; the cost of a verification is the one stored
    in the hash. *)

Definition work_units (k : Work) : Z :=
  match k with
  | WHash c => 2 ^ c
  | WVerify h => match stored_hash_cost h with Some c => 2 ^ c | None => 0 end
  | WSleep _ => 0
  end.

Definition total_work (w : World) : Z := foldr (λ k n, work_units k + n) 0 (w_work w).

(** A dummy hash of cost [c] is in the cache already. *)
Definition warm (c : Z) (w : World) : Prop := ∃ h, w_dummies w !! c = Some (Some h).

(** The cached hashes are what [bcrypt::hash] returned for their cost. *)
Definition dummies_ok `{BcryptLib} (w : World) : Prop :=
  ∀ c h, w_dummies w !! c = Some (Some h) → ∃ n, bcrypt_hash n DUMMY_PASSWORD c = Ok h.

(** ** Lemmas *)

Lemma stored_hash_cost_own `{BcryptSpec} n pw c h :
  bcrypt_hash n pw c = Ok h → stored_hash_cost h = Some c ∧ h ≠ EmptyString.
Proof.
  intros Hh. apply bcrypt_hash_format in Hh as (Hc & rest & ->).
  assert (Hin : c ∈ (Z.of_nat <$> seq 4 28)).
  { apply list_elem_of_fmap. exists (Z.to_nat c). split; [lia|]. apply elem_of_seq. lia. }
  split; [|done]. clear Hc. simpl in Hin.
  repeat (apply elem_of_cons in Hin as [->|Hin]; [reflexivity|]). by apply not_elem_of_nil in Hin.
Qed.

Lemma extra_verifies_exact D C : 4 ≤ C → C < D → D ≤ 31 → extra_verifies D C = 2 ^ (D - C) - 1.
Proof.
  intros HC HCD HD. unfold extra_verifies.
  assert (Hp : 2 ≤ 2 ^ (D - C) < 2 ^ 32).
  { split; [change 2 with (2 ^ 1) at 1; apply Z.pow_le_mono_r; lia|apply Z.pow_lt_mono_r; lia]. }
  rewrite (wrap_u32_id (D - C)) by (unfold in_u32, U32_MAX; lia).
  rewrite (Z.mod_small (D - C) 32) by lia. rewrite Z.shiftl_1_l.
  rewrite (wrap_u32_id (2 ^ (D - C))) by (unfold in_u32, U32_MAX; lia).
  apply wrap_u32_id. unfold in_u32, U32_MAX. lia.
Qed.

(** [w'] differs from [w] at most in the bcrypt bookkeeping. *)
Definition quiet (w w' : World) : Prop :=
  w_db w' = w_db w ∧ w_pg w' = w_pg w ∧ w_clock w' = w_clock w ∧ w_ticks w' = w_ticks w ∧
  w_join w' = w_join w ∧ (w_seed w ≤ w_seed w')%nat.

#[global] Instance quiet_preorder : PreOrder quiet.
Proof.
  split; [by intros w; split_and!|]. intros w1 w2 w3 (?&?&?&?&?&?) (?&?&?&?&?&?).
  split_and!; try congruence; lia.
Qed.

(** An infallible computation that only does bcrypt bookkeeping. *)
Definition quiet_run {E A} (m : M E A) (w : World) (a : A) (w' : World) : Prop :=
  m w = (Ok a, w') ∧ quiet w w'.

Lemma quiet_run_bind {E A B} (m : M E A) (k : A → M E B) w a w1 b w2 :
  quiet_run m w a w1 → quiet_run (k a) w1 b w2 → quiet_run (m ≫= k) w b w2.
Proof.
  intros [Hm Hq1] [Hk Hq2]. split; [|by etrans]. by rewrite (bind_Ok _ _ _ _ _ Hm).
Qed.

Lemma quiet_push_work k w : quiet w (push_work k w).
Proof. by split_and!. Qed.

(** The bcrypt functions only do bookkeeping, whatever the cache holds. *)
Lemma frame_push_work k w : frame w (push_work k w).
Proof. split_and!; simpl; try done; lia. Qed.

Section framing.
Context `{BcryptLib}.

Lemma framed_hash_io {E} pw c : framed (E := E) (hash_io pw c).
Proof.
  apply framed_bind; [auto with svc|]. intros n. apply framed_effect. intros w; simpl.
  destruct (is_ok _); [apply frame_push_work|reflexivity].
Qed.

Lemma framed_verify_io {E} pw h : framed (E := E) (verify_io pw h).
Proof.
  apply framed_effect. intros w; simpl. destruct (is_ok _); [apply frame_push_work|reflexivity].
Qed.

Lemma framed_sleep {E} ms : framed (E := E) (sleep ms).
Proof. apply framed_effect. intros w. apply frame_push_work. Qed.

Lemma framed_dummy {E} c : framed (E := E) (dummy_password_hash c).
Proof.
  apply framed_bind; [apply framed_effect; reflexivity|]. intros [o|]; [auto with svc|].
  apply framed_bind; [apply framed_hash_io|]. intros r.
  apply framed_bind; [|auto with svc]. apply framed_effect. intros w; simpl.
  destruct (w_dummies w !! c); [reflexivity|]. split_and!; simpl; try done; lia.
Qed.

Lemma framed_verify_times {E} n pw h : framed (E := E) (verify_times n pw h).
Proof. induction n; simpl; [auto with svc|]. apply framed_bind; [apply framed_verify_io|done]. Qed.

Lemma framed_verify_password {E} user pw c : framed (E := E) (verify_password_timing_safe user pw c).
Proof.
  unfold verify_password_timing_safe. destruct (user ≫= _) as [h|].
  - apply framed_bind.
    + unfold pad_timing_to. destruct (stored_hash_cost h) as [C|]; [|auto with svc].
      destruct (c <=? C); [auto with svc|]. apply framed_bind; [apply framed_dummy|].
      intros [d|]; [apply framed_verify_times|apply framed_sleep].
    + intros _. apply framed_bind; [apply framed_verify_io|]. intros [b|]; auto with svc.
  - apply framed_bind; [apply framed_dummy|].
    intros [d|]; apply framed_bind; auto using framed_verify_io, framed_sleep with svc.
Qed.

Lemma framed_run_bounded {A} (f : M AuthError A) : framed f → framed (run_bounded f).
Proof.
  intros Hf w r w'. unfold run_bounded. destruct (w_join w) as [|[e|] l] eqn:E; intros Hr.
  - exact (Hf _ _ _ Hr).
  - injection Hr as <- <-. split_and!; simpl; try done; lia.
  - apply Hf in Hr as (Hd & Hp & Hc & Hs). split_and!; simpl in *; done.
Qed.

End framing.

#[export] Hint Resolve framed_hash_io framed_verify_io framed_sleep framed_verify_password
  framed_run_bounded : svc.

Section bcrypt.
Context `{BcryptSpec}.

Lemma hash_io_run {E} pw c w :
  ∃ w', quiet_run (E := E) (hash_io pw c) w (bcrypt_hash (w_seed w) pw c) w' ∧
    w_dummies w' = w_dummies w ∧
    total_work w' = total_work w + (if is_ok (bcrypt_hash (w_seed w) pw c) then 2 ^ c else 0).
Proof.
  unfold quiet_run, hash_io. rewrite bind_run; simpl. unfold effect.
  destruct (bcrypt_hash (w_seed w) pw c); simpl; eexists;
    (split_and!; [done|unfold quiet; simpl; split_and!; try done; lia|done|unfold total_work; simpl; lia]).
Qed.

Lemma verify_io_run {E} pw h w :
  ∃ w', quiet_run (E := E) (verify_io pw h) w (bcrypt_verify pw h) w' ∧
    w_dummies w' = w_dummies w ∧
    total_work w' = total_work w + (if is_ok (bcrypt_verify pw h) then work_units (WVerify h) else 0).
Proof.
  unfold quiet_run, verify_io, effect.
  destruct (bcrypt_verify pw h); eexists; split_and!; try done; unfold total_work; simpl; lia.
Qed.

Lemma dummy_run {E} c w :
  dummies_ok w →
  ∃ o w', quiet_run (E := E) (dummy_password_hash c) w o w' ∧ dummies_ok w' ∧
    (∀ h, o = Some h → ∃ n, bcrypt_hash n DUMMY_PASSWORD c = Ok h) ∧
    (warm c w → total_work w' = total_work w ∧ is_Some o) ∧
    (w_dummies w !! c = None → 4 ≤ c ≤ 31 → total_work w' = total_work w + 2 ^ c ∧ is_Some o).
Proof.
  intros Hok. unfold dummy_password_hash.
  destruct (w_dummies w !! c) as [o|] eqn:Hc.
  - exists o, w. split_and!; [|done|naive_solver| |done].
    + split; [|done]. unfold effect. rewrite bind_run. by rewrite Hc.
    + intros [h Hh]. rewrite Hc in Hh. simplify_eq. split; [lia|done].
  - destruct (hash_io_run (E := E) DUMMY_PASSWORD c w) as (w1 & [Hr Hq] & Hd & Hw).
    set (o := ok (bcrypt_hash (w_seed w) DUMMY_PASSWORD c)) in *.
    exists o, (with_dummies w1 (<[c := o]> (w_dummies w1))).
    split_and!.
    + split; [|by destruct Hq as (?&?&?&?&?&?)]. rewrite bind_run, effect_run; simpl. rewrite Hc.
      rewrite (bind_Ok _ _ _ _ _ Hr). fold o. rewrite bind_run, effect_run; simpl. by rewrite Hd, Hc.
    + intros c' h'. simpl. rewrite Hd, lookup_insert_Some. intros [[<- Ho]|[_ Hh]]; [|by apply Hok].
      unfold o in Ho. destruct (bcrypt_hash (w_seed w) DUMMY_PASSWORD c) eqn:E1; simplify_eq/=; eauto.
    + intros h Ho. unfold o in Ho.
      destruct (bcrypt_hash (w_seed w) DUMMY_PASSWORD c) eqn:E1; simplify_eq/=; eauto.
    + intros [h Hh]. congruence.
    + intros _ Hrange. destruct (bcrypt_hash_total (w_seed w) DUMMY_PASSWORD c Hrange) as [h Hh]; [done|].
      unfold o. rewrite Hh in Hw |- *. simpl in *. split; [exact Hw|by eexists].
Qed.

Lemma verify_times_run {E} n pw h w :
  (∃ b, bcrypt_verify pw h = Ok b) →
  ∃ w', quiet_run (E := E) (verify_times n pw h) w tt w' ∧ w_dummies w' = w_dummies w ∧
        total_work w' = total_work w + Z.of_nat n * work_units (WVerify h).
Proof.
  intros [b Hb]. revert w; induction n as [|n IH]; intros w.
  - exists w. split_and!; [done..|]. lia.
  - destruct (verify_io_run (E := E) pw h w) as (w1 & Hr1 & Hd1 & Hw1). rewrite Hb in Hw1. simpl in Hw1.
    destruct (IH w1) as (w2 & Hr2 & Hd2 & Hw2). exists w2.
    split; [by eapply quiet_run_bind|]. split; [congruence|]. simpl in Hw2 |- *. lia.
Qed.

Lemma pad_run {E} h D w :
  dummies_ok w → D ≤ 31 →
  ∃ w', quiet_run (E := E) (pad_timing_to h D) w tt w' ∧ dummies_ok w' ∧
    (∀ C, stored_hash_cost h = Some C → C < D → warm C w →
          total_work w' = total_work w + (2 ^ D - 2 ^ C)) ∧
    (∀ C, stored_hash_cost h = Some C → D ≤ C → w' = w).
Proof.
  intros Hok HD. unfold pad_timing_to. destruct (stored_hash_cost h) as [C|] eqn:HC.
  2:{ exists w. split_and!; try done; by split. }
  destruct (D <=? C) eqn:Hle; bool_to_prop.
  { exists w. split; [by split|]. split; [done|]. split; intros; simplify_eq; [lia|done]. }
  destruct (dummy_run (E := E) C w Hok) as (o & w1 & Hr1 & Hok1 & Hdm & Hwarm & _).
  destruct o as [d|].
  - destruct (Hdm d eq_refl) as [n Hn].
    destruct (verify_times_run (E := E) (Z.to_nat (extra_verifies D C)) DUMMY_PASSWORD d w1)
      as (w2 & Hr2 & Hd2 & Hw2); [by eapply bcrypt_verify_total|].
    exists w2. split_and!; [by eapply quiet_run_bind|by unfold dummies_ok; rewrite Hd2| |intros; simplify_eq; lia].
    intros C' [= <-] _ Hwm. destruct (Hwarm Hwm) as [Hw1 _]. rewrite Hw2, Hw1. simpl.
    destruct (stored_hash_cost_own _ _ _ _ Hn) as [-> _]. apply bcrypt_hash_format in Hn as [Hrange _].
    rewrite extra_verifies_exact by lia.
    assert (2 ^ D = 2 ^ (D - C) * 2 ^ C) as -> by (rewrite <- Z.pow_add_r by lia; f_equal; lia).
    assert (0 < 2 ^ (D - C)) by (apply Z.pow_pos_nonneg; lia). rewrite Z2Nat.id by lia. lia.
  - exists (push_work (WSleep 50) w1). split_and!.
    + eapply quiet_run_bind; [exact Hr1|]. by split; [|apply quiet_push_work].
    + done.
    + intros C' [= <-] _ Hwm. destruct (Hwarm Hwm) as [_ [? ?]]. done.
    + intros; simplify_eq; lia.
Qed.

(** What [verify_password_timing_safe] answers. *)
Definition password_matches (user : option User) (password : string) : bool :=
  match user ≫= (λ u, hash_str <$> u_password_hash u) with
  | Some h => bool_decide (ok (bcrypt_verify password h) = Some true)
  | None => false
  end.

Lemma verify_password_run {E} user pw D w :
  dummies_ok w → D ≤ 31 →
  ∃ w', quiet_run (E := E) (verify_password_timing_safe user pw D) w (password_matches user pw) w' ∧
        dummies_ok w'.
Proof.
  intros Hok HD. unfold verify_password_timing_safe, password_matches.
  destruct (user ≫= _) as [h|].
  - destruct (pad_run (E := E) h D w Hok HD) as (w1 & Hr1 & Hok1 & _).
    destruct (verify_io_run (E := E) pw h w1) as (w2 & Hr2 & Hd2 & _). exists w2.
    split; [|by unfold dummies_ok; rewrite Hd2].
    eapply quiet_run_bind; [exact Hr1|]. eapply quiet_run_bind; [exact Hr2|].
    destruct (bcrypt_verify pw h) as [[]|]; by split.
  - destruct (dummy_run (E := E) D w Hok) as (o & w1 & Hr1 & Hok1 & _).
    destruct o as [d|].
    + destruct (verify_io_run (E := E) pw d w1) as (w2 & Hr2 & Hd2 & _). exists w2.
      split; [|by unfold dummies_ok; rewrite Hd2].
      eapply quiet_run_bind; [exact Hr1|]. eapply quiet_run_bind; [exact Hr2|]. by split.
    + exists (push_work (WSleep 50) w1). split; [|done].
      eapply quiet_run_bind; [exact Hr1|].
      eapply quiet_run_bind; [split; [done|apply quiet_push_work]|]. by split.
Qed.

End bcrypt.

(** A concrete bcrypt the witnesses run on: the "digest" is the password. *)
Fixpoint str_drop (n : nat) (s : string) : string :=
  match n, s with
  | S n', String _ s' => str_drop n' s'
  | _, _ => s
  end.

Definition toy_bcrypt : BcryptLib := {|
  bcrypt_hash n pw c :=
    if (4 <=? c) && (c <=? 31)
    then Ok (String.append "$2b$" (String.append (cost_text c) (String "$" pw)))
    else Err "invalid cost"%string;
  bcrypt_verify pw h := Ok (bool_decide (str_drop 7 h = pw)) |}.

Lemma toy_bcrypt_spec : @BcryptSpec toy_bcrypt.
Proof.
  split; simpl.
  - intros n pw c h Hh. destruct ((4 <=? c) && (c <=? 31)) eqn:E; [|done]. simplify_eq.
    bool_to_prop. split; [lia|]. by exists pw.
  - intros n pw c Hc _. replace ((4 <=? c) && (c <=? 31)) with true; [by eexists|].
    symmetry. apply andb_true_iff. rewrite !Z.leb_le. lia.
  - intros n pw c h Hh. destruct ((4 <=? c) && (c <=? 31)); [|done]. simplify_eq.
    f_equal. by apply bool_decide_eq_true_2.
  - intros. by eexists.
Qed.

(** ** The semaphore *)

Lemma lim_reachable_inv n l :
  lim_reachable n l → (lim_permits l + length (lim_running l) = n `max` 1)%nat.
Proof.
  unfold lim_reachable. intros Hr.
  assert (Hinv : ∀ l1 l2, LimStep l1 l2 → (lim_permits l1 + length (lim_running l1))%nat =
                                       (lim_permits l2 + length (lim_running l2))%nat).
  { intros l1 l2 Hs. inversion Hs; simpl; rewrite ?length_app; simpl; rewrite ?length_app; lia. }
  remember (BcryptLimiter_new n) as l0 eqn:H0.
  assert (H0' : (lim_permits l0 + length (lim_running l0) = n `max` 1)%nat) by (subst; simpl; lia).
  clear H0. induction Hr as [|l1 l2 l3 Hs _ IH]; [done|]. apply IH. by rewrite <- (Hinv _ _ Hs).
Qed.

(** ** Properties *)

(** [verify_password_timing_safe] answers [true] exactly when the user exists,
    has a stored hash and bcrypt accepts the password for it: an unknown user, a
    Google-only account and a corrupt hash are all plain [false]. It always
    returns, and never touches the database. *)
Theorem verify_password_correct `{BcryptSpec} user pw cost w :
  dummies_ok w → cost ≤ 31 →
  ∃ b w', verify_password_timing_safe (E := AuthError) user pw cost w = (Ok b, w') ∧
    (b = true ↔ ∃ u h, user = Some u ∧ u_password_hash u = Some h ∧
                       bcrypt_verify pw (hash_str h) = Ok true) ∧
    w_db w' = w_db w.
Proof.
  intros Hok Hc. destruct (verify_password_run (E := AuthError) user pw cost w Hok Hc)
    as (w' & [Hr (Hdb & _)] & _).
  exists (password_matches user pw), w'. split_and!; [done| |done].
  unfold password_matches. destruct user as [u|]; simpl; [|by split; [|intros (?&?&?&_)]].
  destruct (u_password_hash u) as [h|] eqn:Hu; simpl.
  - rewrite bool_decide_eq_true. split.
    + intros Hv. exists u, h. split_and!; [done..|]. by destruct (bcrypt_verify pw (hash_str h)); simplify_eq/=.
    + intros (u' & h' & ? & ? & Hv). simplify_eq. by rewrite Hv.
  - split; [done|]. intros (u' & h' & ? & ? & _). simplify_eq.
Qed.

Lemma verify_password_correct_witness :
  ∃ b w', @verify_password_timing_safe toy_bcrypt AuthError (Some
            (User_new 7%N None (MkEmail "a@b") "A" (Some (MkHashedPassword "$2b$12$secret")) Local 0 0))
            "secret" 12 (fresh_world empty_db 0) = (Ok b, w') ∧ b = true.
Proof.
  destruct (@verify_password_correct toy_bcrypt toy_bcrypt_spec (Some
            (User_new 7%N None (MkEmail "a@b") "A" (Some (MkHashedPassword "$2b$12$secret")) Local 0 0))
            "secret" 12 (fresh_world empty_db 0)) as (b & w' & H1 & H2 & _);
    [intros c h Hc; simpl in Hc; by rewrite lookup_empty in Hc|lia|].
  exists b, w'. split; [exact H1|]. apply H2. eexists _, _. split; [reflexivity|]. split; reflexivity.
Defined.

(** C27. Timing equalisation: once the dummy hashes are cached, a login for a
    known user whose stored hash has any cost [C] from 4 up to the configured
    cost [D] costs exactly [2 ^ D] bcrypt rounds, the same as a login for an
    unknown user; the [u32] arithmetic of the padding loop does not overflow. *)
Theorem verify_timing_equalised `{BcryptSpec} (u : User) h pw C D w :
  dummies_ok w → warm C w → warm D w → 4 ≤ C ≤ D → D ≤ 31 →
  u_password_hash u = Some h → stored_hash_cost (hash_str h) = Some C →
  is_ok (bcrypt_verify pw (hash_str h)) = true →
  ∃ b w1 w2,
    verify_password_timing_safe (E := AuthError) (Some u) pw D w = (Ok b, w1) ∧
    verify_password_timing_safe (E := AuthError) None pw D w = (Ok false, w2) ∧
    total_work w1 = total_work w + 2 ^ D ∧ total_work w2 = total_work w + 2 ^ D.
Proof.
  intros Hok HwC HwD HC HD Hh Hcost Hv.
  unfold verify_password_timing_safe; simpl. rewrite Hh; simpl.
  destruct (pad_run (E := AuthError) (hash_str h) D w Hok HD) as (w1 & [Hr1 _] & _ & Hpad & Hskip).
  destruct (verify_io_run (E := AuthError) pw (hash_str h) w1) as (w2 & [Hr2 _] & _ & Hw2).
  rewrite Hv in Hw2. simpl in Hw2. rewrite Hcost in Hw2.
  destruct (dummy_run (E := AuthError) D w Hok) as (o & w3 & [Hr3 _] & _ & Hdm & Hwarm & _).
  destruct (Hwarm HwD) as [Hw3 [d ->]]. destruct (Hdm d eq_refl) as [n Hn].
  destruct (verify_io_run (E := AuthError) pw d w3) as (w4 & [Hr4 _] & _ & Hw4).
  destruct (bcrypt_verify_total _ _ pw _ _ Hn) as [b' Hb']. rewrite Hb' in Hw4.
  destruct (stored_hash_cost_own _ _ _ _ Hn) as [Hd _]. simpl in Hw4. rewrite Hd in Hw4.
  destruct (bcrypt_verify pw (hash_str h)) as [b|] eqn:Hb; [|done].
  exists b, w2, w4. split_and!.
  - rewrite (bind_Ok _ _ _ _ _ Hr1), (bind_Ok _ _ _ _ _ Hr2). done.
  - rewrite (bind_Ok _ _ _ _ _ Hr3), (bind_Ok _ _ _ _ _ Hr4). done.
  - destruct (decide (C < D)) as [Hlt|Hge].
    + rewrite (Hpad C Hcost Hlt HwC) in Hw2. lia.
    + assert (C = D) as -> by lia. rewrite (Hskip D Hcost) in Hw2 by lia. lia.
  - lia.
Qed.

Lemma verify_timing_equalised_witness :
  let u := User_new 7%N None (MkEmail "a@b") "A" (Some (MkHashedPassword "$2b$10$secret")) Local 0 0 in
  let w := with_dummies (fresh_world empty_db 0)
             {[10 := Some "$2b$10$dummy-password-for-timing-safety"%string;
               12 := Some "$2b$12$dummy-password-for-timing-safety"%string]} in
  ∃ b w1 w2,
    @verify_password_timing_safe toy_bcrypt AuthError (Some u) "x" 12 w = (Ok b, w1) ∧
    @verify_password_timing_safe toy_bcrypt AuthError None "x" 12 w = (Ok false, w2) ∧
    total_work w1 = 0 + 2 ^ 12 ∧ total_work w2 = 0 + 2 ^ 12.
Proof.
  intros u w.
  apply (@verify_timing_equalised toy_bcrypt toy_bcrypt_spec u (MkHashedPassword "$2b$10$secret") "x" 10 12 w);
    try lia; try reflexivity; [|eexists; reflexivity..].
  intros c h. unfold w; simpl. intros [[<- [= <-]]|[_ Hc]]%lookup_insert_Some; [by exists 0%nat|].
  apply lookup_singleton_Some in Hc as [<- [= <-]]. by exists 0%nat.
Defined.

(** C39. The limiter never runs more than [max(1, max_concurrent)] bcrypt
    closures at once, loses no permit however closures and callers end, and a
    waiting caller is never stuck: a permit is free for the oldest one, or the
    full number of closures is running and the first to end frees a permit. *)
Theorem bcrypt_limiter_bound n l :
  lim_reachable n l →
  (length (lim_running l) ≤ n `max` 1)%nat ∧
  (lim_permits l + length (lim_running l) = n `max` 1)%nat ∧
  (∀ t ws, lim_waiting l = t :: ws →
     (∃ l', LimStep l l' ∧ lim_running l' = t :: lim_running l) ∨
     (length (lim_running l) = n `max` 1 ∧
      ∃ l', LimStep l l' ∧ lim_permits l' = 1 ∧ lim_waiting l' = t :: ws)%nat).
Proof.
  intros Hr. pose proof (lim_reachable_inv n l Hr) as Hinv. split; [lia|]. split; [done|].
  intros t ws Hw. destruct l as [p ws' rs]; simpl in *; subst ws'. destruct p as [|p].
  - right. split; [lia|]. destruct rs as [|r rs]; simpl in Hinv; [lia|].
    eexists. split; [apply (LsFinish 0 (t :: ws) [] r rs)|]. done.
  - left. eexists. split; [constructor|done].
Qed.

Lemma bcrypt_limiter_bound_witness :
  lim_reachable 2 (MkLimiter 0 [3] [2; 1])%nat ∧ (length [2; 1] ≤ 2 `max` 1)%nat.
Proof.
  assert (Hr : lim_reachable 2 (MkLimiter 0 [3] [2; 1])%nat).
  { unfold lim_reachable, BcryptLimiter_new; simpl.
    eapply rtc_l; [apply (LsRequest 2 [] [] 1)|].
    eapply rtc_l; [apply (LsRequest 2 [1%nat] [] 2)|].
    eapply rtc_l; [apply (LsRequest 2 [1; 2]%nat [] 3)|]. simpl.
    eapply rtc_l; [apply (LsAcquire 1 1 [2; 3]%nat [])|].
    eapply rtc_l; [apply (LsAcquire 0 2 [3%nat] [1%nat])|].
    apply rtc_refl. }
  split; [exact Hr|]. apply (bcrypt_limiter_bound 2 _ Hr).
Defined.
