(* ===== verification/AuthSettings.v ===== *)
(** * Configuration of the auth context

    [crates/auth/src/config/auth_settings.rs]: the startup validations of the
    JWT secret, the default user's password and the bcrypt parameters, and
    [AuthSettings::from_env]. The process environment is a function from
    variable names. *)

From S2P Require Import Prelude RustStr ValueObjects Bcrypt.
From stdpp Require Import pretty.
#[local] Open Scope Z_scope.

(** ** The environment *)

Inductive VarError : Type :=
| NotPresent
| NotUnicode.

Definition Env : Type := string → result VarError string.

(** [std::env::var(name).unwrap_or_else(|_| default)] *)
Definition env_or (env : Env) (name default : string) : string :=
  match env name with
  | Ok v => v
  | Err _ => default
  end.

(** ** Validations *)

Definition MIN_JWT_SECRET_LEN : Z := 32.
Definition MIN_UNIQUE_CHARS : Z := 8.
Definition DEFAULT_BCRYPT_COST : Z := 12.
Definition MIN_BCRYPT_COST : Z := 12.
Definition MAX_BCRYPT_COST : Z := 31.
Definition DEFAULT_BCRYPT_MAX_CONCURRENT : Z := 8.
Definition MAX_BCRYPT_MAX_CONCURRENT : Z := 512.
Definition MIN_DEFAULT_PASSWORD_LEN : Z := 12.
Definition RECOMMENDED_DEFAULT_PASSWORD_LEN : Z := 16.

Definition concat (l : list string) : string := concat_str l.

Definition validate_bcrypt_cost (cost : Z) : result string unit :=
  if cost <? MIN_BCRYPT_COST
  then Err (concat ["BCRYPT_COST must be at least "; pretty MIN_BCRYPT_COST;
                    " (OWASP minimum for new applications); got "; pretty cost])
  else if MAX_BCRYPT_COST <? cost
  then Err (concat ["BCRYPT_COST must be at most "; pretty MAX_BCRYPT_COST;
                    " (bcrypt's maximum); got "; pretty cost])
  else Ok tt.

Definition validate_bcrypt_max_concurrent (value : Z) : result string unit :=
  if value =? 0 then Err "BCRYPT_MAX_CONCURRENT must be at least 1"%string
  else if MAX_BCRYPT_MAX_CONCURRENT <? value
  then Err (concat ["BCRYPT_MAX_CONCURRENT must be at most "; pretty MAX_BCRYPT_MAX_CONCURRENT;
                    " (Tokio's default blocking-thread pool size -- higher values add no real parallelism); got ";
                    pretty value])
  else Ok tt.

(** [secret.chars().collect::<HashSet<char>>().len()] *)
Definition unique_chars (s : string) : Z := Z.of_nat (size (list_to_set (chars s) : gset string)).

Definition validate_jwt_secret (secret : string) : result string unit :=
  if str_len secret <? MIN_JWT_SECRET_LEN
  then Err (concat ["JWT_SECRET must be at least "; pretty MIN_JWT_SECRET_LEN; " bytes long (got ";
                    pretty (str_len secret); "); generate one with `openssl rand -hex 64`"])
  else if unique_chars secret <? MIN_UNIQUE_CHARS
  then Err (concat ["JWT_SECRET has too few unique characters ("; pretty (unique_chars secret);
                    ", minimum "; pretty MIN_UNIQUE_CHARS; "); generate one with `openssl rand -hex 64`"])
  else Ok tt.

Definition jwt_secret_low_entropy_warning (secret : string) : bool :=
  unique_chars secret <? Z.max (str_len secret / 10) MIN_UNIQUE_CHARS.

Definition KNOWN_WEAK_PASSWORDS : list string :=
  ["password"; "password1"; "password123"; "admin"; "admin123"; "administrator"; "12345678";
   "123456789"; "1234567890"; "qwerty123"; "qwertyuiop"; "letmein123"; "welcome123"; "changeme";
   "changeme123"; "changethis"; "default123"; "rootroot"; "p@ssw0rd"; "password1!"]%string.

(** A predicate on [char] that holds of ASCII characters only. *)
Definition ascii_char (p : ascii → bool) (c : string) : bool :=
  match c with
  | String b EmptyString => p b
  | _ => false
  end.

Definition class_count (password : string) : Z :=
  let cs := chars password in
  let has_lower := existsb (ascii_char is_ascii_lowercase) cs in
  let has_upper := existsb (ascii_char is_ascii_uppercase) cs in
  let has_digit := existsb (ascii_char is_ascii_digit) cs in
  let has_symbol := existsb (λ c, negb (ascii_char is_ascii_alphanumeric c)) cs in
  Z.of_nat (length (List.filter id [has_lower; has_upper; has_digit; has_symbol])).

Definition validate_default_user_password (password : string) : result string unit :=
  if str_len password <? MIN_DEFAULT_PASSWORD_LEN
  then Err (concat ["DEFAULT_USER_PASSWORD must be at least "; pretty MIN_DEFAULT_PASSWORD_LEN;
                    " characters long (got "; pretty (str_len password);
                    "); this is the password for the automatically-created admin account and must not be left weak"])
  else if existsb (λ weak, bool_decide (to_lowercase password = weak)) KNOWN_WEAK_PASSWORDS
  then Err "DEFAULT_USER_PASSWORD is a known weak/placeholder password and must not be used for the automatically-created admin account -- choose a unique password, e.g. `openssl rand -base64 18`"%string
  else if class_count password <? 3
  then Err (concat ["DEFAULT_USER_PASSWORD must contain at least 3 of: lowercase letters, uppercase letters, digits, symbols (found ";
                    pretty (class_count password); "); e.g. generate one with `openssl rand -base64 18`"])
  else Ok tt.

Definition default_user_password_below_recommended_length (password : string) : bool :=
  str_len password <? RECOMMENDED_DEFAULT_PASSWORD_LEN.

(** ** [AuthSettings] *)

Record AuthSettings : Type := MkAuthSettings {
  default_user_username : string;
  default_user_password : string;
  default_user_email : string;
  google_client_id : string;
  jwt_secret : string;
  jwt_issuer : string;
  jwt_audience : string;
  access_token_expiry_minutes : Z;
  refresh_token_expiry_days : Z;
  bcrypt_cost : Z;
  bcrypt_max_concurrent : Z;
  bcrypt_limiter : Limiter }.

(** [&s[..n]]: panics ([None]) unless [n] is a character boundary. *)
Definition str_slice_to (n : nat) (s : string) : option string :=
  if (Z.of_nat n <=? str_len s) && negb (continues (str_drop n s))
  then Some (String.substring 0 n s) else None.

(** The [jwt_secret] field of the [Debug] output. *)
Definition jwt_preview (s : AuthSettings) : option string :=
  if 8 <? str_len (jwt_secret s)
  then (λ p, String.append p "...") <$> str_slice_to 8 (jwt_secret s)
  else Some "(too short)"%string.

(** A numeric variable whose absence means a default and whose non-Unicode value
    is an error. *)
Definition numeric_var (env : Env) (name : string) (max default : Z) : result string Z :=
  match env name with
  | Ok value => ok_or (parse_uint max value) (String.append name " must be a valid number")
  | Err NotPresent => Ok default
  | Err NotUnicode => Err (String.append name " must be valid Unicode")
  end.

Definition from_env (env : Env) : result string AuthSettings :=
  max_concurrent ← numeric_var env "BCRYPT_MAX_CONCURRENT" U64_MAX DEFAULT_BCRYPT_MAX_CONCURRENT;
  _ ← validate_bcrypt_max_concurrent max_concurrent;
  let username := env_or env "DEFAULT_USER_USERNAME" "admin" in
  password ← map_err (λ _, "DEFAULT_USER_PASSWORD must be set"%string) (env "DEFAULT_USER_PASSWORD"%string);
  _ ← validate_default_user_password password;
  let email := env_or env "DEFAULT_USER_EMAIL" "admin@example.com" in
  let client_id := env_or env "GOOGLE_CLIENT_ID" "" in
  secret ← map_err (λ _, "JWT_SECRET must be set"%string) (env "JWT_SECRET"%string);
  _ ← validate_jwt_secret secret;
  let issuer := env_or env "JWT_ISSUER" "app-home-services" in
  let audience := env_or env "JWT_AUDIENCE" "app-home-services" in
  access ← ok_or (parse_i64 (env_or env "ACCESS_TOKEN_EXPIRY_MINUTES" "15"))
             "ACCESS_TOKEN_EXPIRY_MINUTES must be a valid number"%string;
  refresh ← ok_or (parse_i64 (env_or env "REFRESH_TOKEN_EXPIRY_DAYS" "7"))
              "REFRESH_TOKEN_EXPIRY_DAYS must be a valid number"%string;
  cost ← numeric_var env "BCRYPT_COST" U32_MAX DEFAULT_BCRYPT_COST;
  _ ← validate_bcrypt_cost cost;
  Ok (MkAuthSettings username password email client_id secret issuer audience access refresh cost
        max_concurrent (BcryptLimiter_new (Z.to_nat max_concurrent))).

(** What a process that started holds in its settings. *)
Definition settings_ok (s : AuthSettings) : Prop :=
  12 ≤ bcrypt_cost s ≤ 31 ∧
  1 ≤ bcrypt_max_concurrent s ≤ 512 ∧
  bcrypt_limiter s = BcryptLimiter_new (Z.to_nat (bcrypt_max_concurrent s)) ∧
  32 ≤ str_len (jwt_secret s) ∧ 8 ≤ unique_chars (jwt_secret s) ∧
  12 ≤ str_len (default_user_password s) ∧ 3 ≤ class_count (default_user_password s) ∧
  in_i64 (access_token_expiry_minutes s) ∧ in_i64 (refresh_token_expiry_days s).

(** ** Lemmas *)

Lemma parse_digits_bounds max acc s v :
  0 ≤ acc ≤ max → parse_digits max acc s = Some v → 0 ≤ v ≤ max.
Proof.
  revert acc; induction s as [|b s IH]; intros acc Hacc; simpl; [by intros [= <-]|].
  unfold digit_val. destruct (is_ascii_digit b) eqn:Hb; [|done]. unfold is_ascii_digit in Hb. bool_to_prop.
  destruct (max <? _) eqn:Hm; [done|]. bool_to_prop. apply IH. lia.
Qed.

Lemma parse_uint_bounds max s v : 0 ≤ max → parse_uint max s = Some v → 0 ≤ v ≤ max.
Proof.
  intros Hm. unfold parse_uint. repeat case_match; try done; apply parse_digits_bounds; lia.
Qed.

Lemma parse_i64_bounds s v : parse_i64 s = Some v → in_i64 v.
Proof.
  unfold parse_i64, in_i64, I64_MIN. repeat case_match; try done; intros Hp;
    try (apply parse_digits_bounds in Hp; unfold I64_MAX in *; lia).
  all: apply fmap_Some in Hp as (x & Hp & ->); apply parse_digits_bounds in Hp; unfold I64_MAX in *; lia.
Qed.

Lemma numeric_var_bounds env name max default v :
  0 ≤ default ≤ max → numeric_var env name max default = Ok v → 0 ≤ v ≤ max.
Proof.
  intros Hd. unfold numeric_var. destruct (env name) as [x|[]]; [|by intros [= <-]|done].
  destruct (parse_uint max x) eqn:Hp; [|done]. intros [= <-]. eapply parse_uint_bounds; [|done]. lia.
Qed.

#[local] Arguments String.append !_ _ / : simpl nomatch.

Lemma map_bytes_append f s t :
  map_bytes f (String.append s t) = String.append (map_bytes f s) (map_bytes f t).
Proof. induction s as [|b s IH]; [done|]. cbn. by rewrite IH. Qed.

Lemma map_bytes_len f s : str_len (map_bytes f s) = str_len s.
Proof. unfold str_len. induction s; simpl; lia. Qed.

Lemma bytes_append s t : bytes (String.append s t) = bytes s ++ bytes t.
Proof. induction s as [|b s IH]; [done|]. cbn. by rewrite IH. Qed.

Lemma bytes_map_bytes f s : bytes (map_bytes f s) = f <$> bytes s.
Proof. induction s as [|b s IH]; [done|]. cbn. by rewrite IH. Qed.

Lemma contains_char_append c s t :
  contains_char c (String.append s t) = contains_char c s || contains_char c t.
Proof. unfold contains_char. rewrite bytes_append. apply existsb_app. Qed.

(** Without a [k] in it, the lower-cased string is the byte-wise lower case. *)
Lemma to_lowercase_no_k s :
  contains_char "k" (to_lowercase s) = false → to_lowercase s = map_bytes ascii_lower s.
Proof.
  unfold to_lowercase. rewrite <- (chars_concat s) at 3. induction (chars s) as [|c cs IH]; [done|].
  rewrite fmap_cons. cbn [concat_str]. rewrite contains_char_append, map_bytes_append.
  intros [Hc Hcs]%orb_false_iff. rewrite <- (IH Hcs). f_equal. by case_bool_decide.
Qed.

Lemma chars_ascii s :
  Forall (λ b, is_continuation b = false) (bytes s) → chars s = (λ b, String b EmptyString) <$> bytes s.
Proof.
  induction s as [|b s IH]; [done|]. simpl. intros [_ Hs]%Forall_cons. rewrite IH by done.
  destruct s as [|b' s]; [done|]. simpl in *. by apply Forall_cons in Hs as [-> _].
Qed.

Definition is_letter (b : ascii) : bool := is_ascii_lowercase b || is_ascii_uppercase b.

Lemma class_count_letters s : forallb is_letter (bytes s) = true → class_count s ≤ 2.
Proof.
  intros Hs. rewrite forallb_forall in Hs.
  assert (Hch : chars s = (λ b, String b EmptyString) <$> bytes s).
  { apply chars_ascii, Forall_forall. intros b Hb%list_elem_of_In. apply Hs in Hb.
    unfold is_letter, is_ascii_lowercase, is_ascii_uppercase, is_continuation in *.
    apply orb_true_iff in Hb. apply andb_false_iff. rewrite Z.leb_gt, Z.ltb_ge.
    destruct Hb as [Hb|Hb]; bool_to_prop; lia. }
  unfold class_count. rewrite Hch.
  assert (Hd : existsb (ascii_char is_ascii_digit) ((λ b, String b EmptyString) <$> bytes s) = false).
  { apply not_true_iff_false. intros (c & Hin & Hp)%existsb_exists.
    apply list_elem_of_In, list_elem_of_fmap in Hin as (b & -> & Hb%list_elem_of_In%Hs). simpl in Hp.
    unfold is_letter, is_ascii_lowercase, is_ascii_uppercase, is_ascii_digit in *.
    apply orb_true_iff in Hb. bool_to_prop. destruct Hb; bool_to_prop; lia. }
  assert (Hy : existsb (λ c, negb (ascii_char is_ascii_alphanumeric c))
                 ((λ b, String b EmptyString) <$> bytes s) = false).
  { apply not_true_iff_false. intros (c & Hin & Hp)%existsb_exists.
    apply list_elem_of_In, list_elem_of_fmap in Hin as (b & -> & Hb%list_elem_of_In%Hs). simpl in Hp.
    apply negb_true_iff in Hp. unfold is_ascii_alphanumeric in Hp. unfold is_letter in Hb.
    by rewrite Hb in Hp. }
  rewrite Hd, Hy. simpl.
  destruct (existsb (ascii_char is_ascii_lowercase) _), (existsb (ascii_char is_ascii_uppercase) _);
    simpl; lia.
Qed.

Lemma ascii_lower_letter b : is_ascii_lowercase (ascii_lower b) = true → is_letter b = true.
Proof.
  unfold ascii_lower, is_letter. destruct (is_ascii_uppercase b); [by rewrite orb_true_r|].
  intros ->. done.
Qed.

(** A password of 12 bytes or more that lower-cases to an entry of the weak list
    is a spelling of "administrator". *)
Lemma weak_is_administrator pw :
  12 ≤ str_len pw →
  existsb (λ weak, bool_decide (to_lowercase pw = weak)) KNOWN_WEAK_PASSWORDS = true →
  map_bytes ascii_lower pw = "administrator"%string.
Proof.
  intros Hlen (weak & Hin & Hw)%existsb_exists. bool_to_prop.
  assert (Hk : contains_char "k" weak = false).
  { apply list_elem_of_In in Hin. unfold KNOWN_WEAK_PASSWORDS in Hin.
    repeat (apply elem_of_cons in Hin as [->|Hin]; [reflexivity|]). by apply not_elem_of_nil in Hin. }
  rewrite <- Hw in Hk. apply to_lowercase_no_k in Hk. rewrite Hk in Hw.
  rewrite <- (map_bytes_len ascii_lower), Hw in Hlen.
  apply list_elem_of_In in Hin. unfold KNOWN_WEAK_PASSWORDS in Hin.
  repeat (apply elem_of_cons in Hin as [->|Hin];
          [first [exact Hw | exfalso; vm_compute in Hlen; by destruct (Hlen eq_refl)]|]).
  by apply not_elem_of_nil in Hin.
Qed.

Lemma administrator_classes pw :
  map_bytes ascii_lower pw = "administrator"%string → class_count pw ≤ 2.
Proof.
  intros Hpw. apply class_count_letters. apply forallb_forall. intros b Hb.
  apply ascii_lower_letter.
  assert (Hall : forallb is_ascii_lowercase (bytes (map_bytes ascii_lower pw)) = true) by by rewrite Hpw.
  rewrite forallb_forall in Hall. apply Hall. rewrite bytes_map_bytes. by apply in_map.
Qed.

Lemma validations_Ok :
  (∀ v, validate_bcrypt_max_concurrent v = Ok tt → v ≠ 0 ∧ v ≤ 512) ∧
  (∀ pw, validate_default_user_password pw = Ok tt → 12 ≤ str_len pw ∧ 3 ≤ class_count pw) ∧
  (∀ s, validate_jwt_secret s = Ok tt → 32 ≤ str_len s ∧ 8 ≤ unique_chars s) ∧
  (∀ c, validate_bcrypt_cost c = Ok tt → 12 ≤ c ≤ 31).
Proof.
  unfold validate_bcrypt_max_concurrent, validate_default_user_password, validate_jwt_secret,
    validate_bcrypt_cost, MIN_BCRYPT_COST, MAX_BCRYPT_COST, MAX_BCRYPT_MAX_CONCURRENT,
    MIN_DEFAULT_PASSWORD_LEN, MIN_JWT_SECRET_LEN, MIN_UNIQUE_CHARS.
  split_and!; intros x H; repeat (case_step_in H; [try done|]); try done; bool_to_prop; try lia.
Qed.

(** ** Properties *)

(** A process that gets past [AuthSettings::from_env] has safe settings: a
    bcrypt cost between 12 and 31, a limiter with 1 to 512 permits, a JWT secret
    of at least 32 bytes with 8 distinct characters, and a default password of
    at least 12 bytes with 3 character classes. *)
Theorem from_env_settings_ok env s : from_env env = Ok s → settings_ok s.
Proof.
  unfold from_env.
  destruct (numeric_var env "BCRYPT_MAX_CONCURRENT" _ _) as [mc|] eqn:Hmc; simpl; [|done].
  apply numeric_var_bounds in Hmc; [|unfold DEFAULT_BCRYPT_MAX_CONCURRENT, U64_MAX; lia].
  destruct (validate_bcrypt_max_concurrent mc) as [[]|] eqn:Hv1; simpl; [|done].
  destruct (env "DEFAULT_USER_PASSWORD") as [pw|]; simpl; [|done].
  destruct (validate_default_user_password pw) as [[]|] eqn:Hv2; simpl; [|done].
  destruct (env "JWT_SECRET") as [sec|]; simpl; [|done].
  destruct (validate_jwt_secret sec) as [[]|] eqn:Hv3; simpl; [|done].
  destruct (parse_i64 (env_or env "ACCESS_TOKEN_EXPIRY_MINUTES" "15")) as [am|] eqn:Ham; simpl; [|done].
  destruct (parse_i64 (env_or env "REFRESH_TOKEN_EXPIRY_DAYS" "7")) as [rd|] eqn:Hrd; simpl; [|done].
  destruct (numeric_var env "BCRYPT_COST" _ _) as [cost|] eqn:Hco; simpl; [|done].
  destruct (validate_bcrypt_cost cost) as [[]|] eqn:Hv4; simpl; [|done]. intros [= <-].
  destruct validations_Ok as (HA & HB & HC & HD).
  apply HA in Hv1. apply HB in Hv2. apply HC in Hv3. apply HD in Hv4. apply parse_i64_bounds in Ham, Hrd.
  unfold settings_ok; simpl. split_and!; try done; lia.
Qed.

Definition demo_env : Env := λ name,
  if bool_decide (name = "DEFAULT_USER_PASSWORD"%string) then Ok "Test-Password-9!"%string
  else if bool_decide (name = "JWT_SECRET"%string) then Ok "0123456789abcdef0123456789abcdef"%string
  else Err NotPresent.

Lemma from_env_settings_ok_witness : ∃ s, from_env demo_env = Ok s ∧ settings_ok s.
Proof.
  destruct (from_env demo_env) as [s|e] eqn:E; [|vm_compute in E; discriminate E].
  exists s. split; [reflexivity|]. exact (from_env_settings_ok demo_env s E).
Defined.

(** The known-weak-password list never changes the verdict: a default
    password is accepted exactly when it has at least 12 bytes and three
    character classes, since every entry of the list fails one of the two. *)
Theorem weak_list_redundant pw :
  validate_default_user_password pw = Ok tt ↔ 12 ≤ str_len pw ∧ 3 ≤ class_count pw.
Proof.
  unfold validate_default_user_password, MIN_DEFAULT_PASSWORD_LEN.
  destruct (str_len pw <? 12) eqn:Hl; bool_to_prop; [split; [done|lia]|].
  destruct (existsb _ KNOWN_WEAK_PASSWORDS) eqn:Hw.
  - apply weak_is_administrator in Hw; [|done]. apply administrator_classes in Hw. split; [done|lia].
  - destruct (class_count pw <? 3) eqn:Hc; bool_to_prop; split; try done; lia.
Qed.

(** Printing accepted settings with [{:?}] can panic: the preview slices the
    secret after its eighth byte, which need not end a character. *)
Definition accented_env : Env := λ name,
  if bool_decide (name = "JWT_SECRET"%string)
  then Ok (String.append "0123456" (String.append (byte_str [195; 169]) "89abcdef0123456789abcdef"))
  else demo_env name.

Theorem jwt_preview_may_panic : jwt_preview <$> ok (from_env accented_env) = Some None.
Proof. vm_compute. reflexivity. Qed.
