(* ===== verification/Jwt.v ===== *)
(** * Tokens

    [crates/shared/src/auth.rs] ([JwtVerification]),
    [crates/auth/src/application/ports/jwt_service.rs] (the claims and the
    [JwtService] port) and [crates/auth/src/adapters/jwt_service.rs]
    ([JwtServiceImpl]). The jsonwebtoken crate is the parameter [JwtLib]. *)

From S2P Require Import Prelude RustStr ValueObjects Database Effects.

(** ** The jsonwebtoken crate *)

(** JSON values as far as claims use them; [JInt] holds an [i64]. *)
Inductive JVal : Type :=
| JStr (s : string)
| JInt (z : Z)
| JArr (l : list string)
| JBool (b : bool)
| JNull
| JOther.

Definition Claims : Type := gmap string JVal.

Record Validation : Type := MkValidation {
  v_algorithm : string;
  v_leeway : Z;
  v_validate_exp : bool;
  v_iss : list string;
  v_aud : list string;
  v_required : list string }.

(** [Validation::new]: 60 seconds of leeway, [exp] required and checked. *)
Definition Validation_new (algorithm : string) : Validation :=
  MkValidation algorithm 60 true [] [] ["exp"%string].

(** [jwt_encode secret claims] signs with the default header (HS256);
    [jwt_decode secret validation now token] checks signature and claims. *)
Class JwtLib : Type := {
  jwt_encode : string → Claims → result string string;
  jwt_decode : string → Validation → Z → string → option Claims }.

Definition claim_in (allowed : list string) (v : option JVal) : bool :=
  match v with
  | Some (JStr s) => bool_decide (s ∈ allowed)
  | Some (JArr l) => existsb (λ s, bool_decide (s ∈ allowed)) l
  | _ => false
  end.

(** The claims [set_required_spec_claims] knows; other names are ignored. *)
Definition spec_claims : list string := ["exp"; "sub"; "iss"; "aud"; "nbf"]%string.

(** The documented meaning of a [Validation]. *)
Definition claims_valid (v : Validation) (now : Z) (c : Claims) : bool :=
  forallb (λ k, negb (bool_decide (k ∈ spec_claims)) || bool_decide (is_Some (c !! k))) (v_required v) &&
  (negb (v_validate_exp v) ||
   match c !! "exp"%string with
   | Some (JInt e) => now - v_leeway v <=? e
   | Some _ => false
   | None => true
   end) &&
  claim_in (v_iss v) (c !! "iss"%string) && claim_in (v_aud v) (c !! "aud"%string).

(** Documented: what decodes has valid claims, and a token this crate encoded
    with the same secret decodes to the encoded claims while they are valid. *)
Class JwtSpec `{JwtLib} : Prop := {
  jwt_decode_valid : ∀ key v now t c, jwt_decode key v now t = Some c → claims_valid v now c = true;
  jwt_decode_encode : ∀ key v now c t, jwt_encode key c = Ok t → v_algorithm v = "HS256"%string →
    jwt_decode key v now t = if claims_valid v now c then Some c else None }.

(** ** Claims *)

Record AccessTokenClaims : Type := MkAccessTokenClaims {
  ac_sub : Uuid; ac_jti : Uuid; ac_iss : string; ac_aud : string; ac_exp : Z; ac_iat : Z }.

Record RefreshTokenClaims : Type := MkRefreshTokenClaims {
  rc_sub : Uuid; rc_session_id : Uuid; rc_iss : string; rc_aud : string; rc_exp : Z; rc_iat : Z }.

(** The claims the request extractor deserialises. *)
Record RequestClaims : Type := MkRequestClaims { qc_sub : Uuid; qc_jti : Uuid; qc_exp : Z }.

Record TokenPair : Type := MkTokenPair { tp_access_token : string; tp_refresh_token : string }.

Section claims.
Context `{UuidLib}.

Definition get_uuid (k : string) (c : Claims) : option Uuid :=
  match c !! k with
  | Some (JStr s) => uuid_parse s
  | _ => None
  end.

Definition get_str (k : string) (c : Claims) : option string :=
  match c !! k with
  | Some (JStr s) => Some s
  | _ => None
  end.

Definition get_i64 (k : string) (c : Claims) : option Z :=
  match c !! k with
  | Some (JInt z) => Some z
  | _ => None
  end.

(** [serde::Serialize] and [Deserialize] of the claims. *)
Definition access_to_json (c : AccessTokenClaims) : Claims :=
  list_to_map [("sub", JStr (uuid_to_string (ac_sub c))); ("jti", JStr (uuid_to_string (ac_jti c)));
               ("iss", JStr (ac_iss c)); ("aud", JStr (ac_aud c));
               ("exp", JInt (ac_exp c)); ("iat", JInt (ac_iat c))]%string.

Definition access_of_json (c : Claims) : option AccessTokenClaims :=
  sub ← get_uuid "sub" c;
  jti ← get_uuid "jti" c;
  iss ← get_str "iss" c;
  aud ← get_str "aud" c;
  exp ← get_i64 "exp" c;
  iat ← get_i64 "iat" c;
  Some (MkAccessTokenClaims sub jti iss aud exp iat).

Definition refresh_to_json (c : RefreshTokenClaims) : Claims :=
  list_to_map [("sub", JStr (uuid_to_string (rc_sub c)));
               ("session_id", JStr (uuid_to_string (rc_session_id c)));
               ("iss", JStr (rc_iss c)); ("aud", JStr (rc_aud c));
               ("exp", JInt (rc_exp c)); ("iat", JInt (rc_iat c))]%string.

Definition refresh_of_json (c : Claims) : option RefreshTokenClaims :=
  sub ← get_uuid "sub" c;
  session_id ← get_uuid "session_id" c;
  iss ← get_str "iss" c;
  aud ← get_str "aud" c;
  exp ← get_i64 "exp" c;
  iat ← get_i64 "iat" c;
  Some (MkRefreshTokenClaims sub session_id iss aud exp iat).

Definition request_of_json (c : Claims) : option RequestClaims :=
  sub ← get_uuid "sub" c;
  jti ← get_uuid "jti" c;
  exp ← get_i64 "exp" c;
  Some (MkRequestClaims sub jti exp).

End claims.

(** ** [JwtVerification] *)

Record JwtVerification : Type := MkJwtVerification {
  jv_secret : string;
  issuer : string;
  audience : string }.

Definition validation (self : JwtVerification) : Validation :=
  let v := Validation_new "HS256" in
  MkValidation (v_algorithm v) (v_leeway v) (v_validate_exp v) [issuer self] [audience self]
    ["exp"; "iss"; "aud"]%string.

(** [decode::<T>], with [T]'s deserialiser. The crate reads the clock. *)
Definition decode `{JwtLib} {E T} (of_json : Claims → option T) (self : JwtVerification)
    (token : string) : M E (option T) :=
  now ← utc_now;
  mret (jwt_decode (jv_secret self) (validation self) (timestamp now) token ≫= of_json).

(** ** The [JwtService] port and its implementation *)

Class JwtService : Type := {
  generate_token_pair : Uuid → Uuid → M AuthError TokenPair;
  validate_access_token : string → M AuthError AccessTokenClaims;
  validate_refresh_token : string → M AuthError RefreshTokenClaims }.

Record JwtServiceImpl : Type := MkJwtServiceImpl {
  encoding_key : string;
  verification : JwtVerification;
  access_expiry_minutes : Z;
  refresh_expiry_days : Z }.

Definition JwtServiceImpl_new (secret : string) (access_expiry_minutes refresh_expiry_days : Z)
    (issuer audience : string) : JwtServiceImpl :=
  MkJwtServiceImpl secret (MkJwtVerification secret issuer audience)
    access_expiry_minutes refresh_expiry_days.

(** The expiries, in [i64] arithmetic with the wrap-around of a release build. *)
Definition access_exp (self : JwtServiceImpl) (now : Z) : Z :=
  wrap_i64 (now + wrap_i64 (access_expiry_minutes self * 60)).
Definition refresh_exp (self : JwtServiceImpl) (now : Z) : Z :=
  wrap_i64 (now + wrap_i64 (refresh_expiry_days self * 86400)).

Definition jwt_generate `{UuidLib, JwtLib} (self : JwtServiceImpl) (user_id session_id : Uuid)
    : M AuthError TokenPair :=
  t ← utc_now;
  let now := timestamp t in
  jti ← now_v7;
  let iss := issuer (verification self) in
  let aud := audience (verification self) in
  let access_claims := MkAccessTokenClaims user_id jti iss aud (access_exp self now) now in
  let refresh_claims := MkRefreshTokenClaims user_id session_id iss aud (refresh_exp self now) now in
  access ← lift (map_err (λ _, TokenGenerationFailed) (jwt_encode (encoding_key self) (access_to_json access_claims)));
  refresh ← lift (map_err (λ _, TokenGenerationFailed) (jwt_encode (encoding_key self) (refresh_to_json refresh_claims)));
  mret (MkTokenPair access refresh).

Definition jwt_validate_access `{UuidLib, JwtLib} (self : JwtServiceImpl) (token : string)
    : M AuthError AccessTokenClaims :=
  c ← decode access_of_json (verification self) token;
  lift (ok_or c TokenVerificationFailed).

Definition jwt_validate_refresh `{UuidLib, JwtLib} (self : JwtServiceImpl) (token : string)
    : M AuthError RefreshTokenClaims :=
  c ← decode refresh_of_json (verification self) token;
  lift (ok_or c TokenVerificationFailed).

Definition JwtServiceImpl_service `{UuidLib, JwtLib} (self : JwtServiceImpl) : JwtService := {|
  generate_token_pair := jwt_generate self;
  validate_access_token := jwt_validate_access self;
  validate_refresh_token := jwt_validate_refresh self |}.

(** ** Concrete libraries the witnesses run on

    Tokens are the bits of the pair of secret and claims. *)

Fixpoint pos_bits (p : positive) : string :=
  match p with
  | xH => EmptyString
  | xO p' => String "0" (pos_bits p')
  | xI p' => String "1" (pos_bits p')
  end.

Fixpoint bits_pos (s : string) : positive :=
  match s with
  | EmptyString => xH
  | String b s' => if Ascii.eqb b "0" then xO (bits_pos s') else xI (bits_pos s')
  end.

Lemma bits_pos_bits p : bits_pos (pos_bits p) = p.
Proof. induction p; simpl; by f_equal. Qed.

#[global] Instance JVal_eq_dec : EqDecision JVal.
Proof. solve_decision. Defined.

#[global] Program Instance JVal_countable : Countable JVal :=
  inj_countable
    (λ v, match v with
          | JStr s => inl (inl s)
          | JInt z => inl (inr z)
          | JArr l => inr (inl l)
          | JNull => inr (inr None)
          | JBool b => inr (inr (Some (Some b)))
          | JOther => inr (inr (Some None))
          end : (string + Z) + (list string + option (option bool)))
    (λ x, Some match x with
          | inl (inl s) => JStr s
          | inl (inr z) => JInt z
          | inr (inl l) => JArr l
          | inr (inr None) => JNull
          | inr (inr (Some (Some b))) => JBool b
          | inr (inr (Some None)) => JOther
          end) _.
Next Obligation. by intros []. Qed.

Definition toy_uuid : UuidLib := {|
  uuid_v7 n := (100 + N.of_nat n)%N;
  uuid_to_string u := pos_bits (N.succ_pos u);
  uuid_parse s := Some (Pos.pred_N (bits_pos s)) |}.

Lemma toy_uuid_spec : @UuidSpec toy_uuid.
Proof.
  split; simpl; [intros n m; lia|]. intros u. by rewrite bits_pos_bits, N.pos_pred_succ.
Qed.

Definition toy_jwt : JwtLib := {|
  jwt_encode key c := Ok (pos_bits (encode (key, c)));
  jwt_decode key v now t :=
    match countable.decode (bits_pos t) : option (string * Claims) with
    | Some (k, c) => if bool_decide (k = key) && claims_valid v now c then Some c else None
    | None => None
    end |}.

Lemma toy_jwt_spec : @JwtSpec toy_jwt.
Proof.
  split; simpl.
  - intros key v now t c. destruct (countable.decode _) as [[k c']|]; [|done].
    destruct (bool_decide _); [|done]. simpl. destruct (claims_valid v now c') eqn:E; [|done].
    by intros [= <-].
  - intros key v now c t [= <-] _. rewrite bits_pos_bits, decode_encode.
    by rewrite bool_decide_eq_true_2.
Qed.

(** ** Lemmas *)

Lemma wrap_i64_range z : in_i64 (wrap_i64 z).
Proof.
  unfold in_i64, wrap_i64, I64_MIN, I64_MAX. pose proof (Z.mod_pos_bound (z + 2 ^ 63) (2 ^ 64)). lia.
Qed.

Lemma access_json_round_trip `{UuidSpec} c : access_of_json (access_to_json c) = Some c.
Proof.
  unfold access_of_json, get_uuid, get_str, get_i64, access_to_json; simpl.
  simplify_map_eq. rewrite !uuid_parse_to_string. simpl. by destruct c.
Qed.

Lemma refresh_json_round_trip `{UuidSpec} c : refresh_of_json (refresh_to_json c) = Some c.
Proof.
  unfold refresh_of_json, get_uuid, get_str, get_i64, refresh_to_json; simpl.
  simplify_map_eq. rewrite !uuid_parse_to_string. simpl. by destruct c.
Qed.

(** A refresh token has no [jti], an access token no [session_id]. *)
Lemma refresh_no_jti `{UuidLib} c : get_uuid "jti" (refresh_to_json c) = None.
Proof. unfold get_uuid, refresh_to_json; simpl. by simplify_map_eq. Qed.

Lemma access_no_session `{UuidLib} c : get_uuid "session_id" (access_to_json c) = None.
Proof. unfold get_uuid, access_to_json; simpl. by simplify_map_eq. Qed.

Lemma access_valid `{UuidLib} self now c :
  ac_iss c = issuer self → ac_aud c = audience self →
  claims_valid (validation self) now (access_to_json c) = (now - 60 <=? ac_exp c).
Proof.
  intros Hi Ha. unfold claims_valid, access_to_json; simpl. simplify_map_eq.
  rewrite Hi, Ha, !bool_decide_eq_true_2 by (by eexists || by left). simpl.
  by rewrite !andb_true_r.
Qed.

Lemma refresh_valid `{UuidLib} self now c :
  rc_iss c = issuer self → rc_aud c = audience self →
  claims_valid (validation self) now (refresh_to_json c) = (now - 60 <=? rc_exp c).
Proof.
  intros Hi Ha. unfold claims_valid, refresh_to_json; simpl. simplify_map_eq.
  rewrite Hi, Ha, !bool_decide_eq_true_2 by (by eexists || by left). simpl.
  by rewrite !andb_true_r.
Qed.

(** What [generate_token_pair] put into the two tokens. *)
Definition issued_access `{UuidLib} (self : JwtServiceImpl) (uid : Uuid) (w : World) : AccessTokenClaims :=
  let now := timestamp (reading w) in
  MkAccessTokenClaims uid (uuid_v7 (w_seed w)) (issuer (verification self))
    (audience (verification self)) (access_exp self now) now.

Definition issued_refresh (self : JwtServiceImpl) (uid sid : Uuid) (w : World) : RefreshTokenClaims :=
  let now := timestamp (reading w) in
  MkRefreshTokenClaims uid sid (issuer (verification self)) (audience (verification self))
    (refresh_exp self now) now.

Lemma jwt_generate_Ok `{UuidLib, JwtLib} self uid sid w tp w' :
  jwt_generate self uid sid w = (Ok tp, w') →
  jwt_encode (encoding_key self) (access_to_json (issued_access self uid w)) = Ok (tp_access_token tp) ∧
  jwt_encode (encoding_key self) (refresh_to_json (issued_refresh self uid sid w)) = Ok (tp_refresh_token tp) ∧
  w' = with_seed (with_time w (reading w) (tail (w_ticks w))) (S (w_seed w)).
Proof.
  intros Hr. unfold jwt_generate in Hr. run_inv Hr. injection R as <- <-.
  run_inv Hr. unfold now_v7 in R. run_inv R. injection R0 as <- <-. run_inv R.
  run_inv Hr. run_inv R. run_inv Hr. run_inv R0. run_inv Hr. simpl.
  unfold issued_access, issued_refresh.
  destruct (jwt_encode _ (access_to_json _)) eqn:E1; [|done].
  destruct (jwt_encode _ (refresh_to_json _)) eqn:E2; [|done]. simplify_eq/=. done.
Qed.

Section round_trip.
Context `{UuidSpec, JwtSpec}.
Variables (key iss aud : string) (minutes days : Z).
Let self : JwtServiceImpl := JwtServiceImpl_new key minutes days iss aud.

Lemma jwt_decode_access c t now :
  ac_iss c = iss → ac_aud c = aud → jwt_encode key (access_to_json c) = Ok t →
  jwt_decode key (validation (verification self)) now t =
    if now - 60 <=? ac_exp c then Some (access_to_json c) else None.
Proof.
  intros Hi Ha He. rewrite (jwt_decode_encode _ _ _ _ _ He) by done. by rewrite access_valid.
Qed.

Lemma jwt_decode_refresh c t now :
  rc_iss c = iss → rc_aud c = aud → jwt_encode key (refresh_to_json c) = Ok t →
  jwt_decode key (validation (verification self)) now t =
    if now - 60 <=? rc_exp c then Some (refresh_to_json c) else None.
Proof.
  intros Hi Ha He. rewrite (jwt_decode_encode _ _ _ _ _ He) by done. by rewrite refresh_valid.
Qed.

Lemma decode_run {E T} (of_json : Claims → option T) v t w :
  decode (E := E) of_json v t w =
    (Ok (jwt_decode (jv_secret v) (validation v) (timestamp (reading w)) t ≫= of_json),
     with_time w (reading w) (tail (w_ticks w))).
Proof. done. Qed.

End round_trip.

(** ** Properties *)

(** C29. Tokens round-trip and cannot be confused: with the service's own
    configuration, at any later clock reading, the access token of a generated
    pair validates to exactly the issued claims up to 60 seconds past its
    expiry and is rejected afterwards, and so does the refresh token; the access
    token is never accepted as a refresh token, nor the refresh token as an
    access token, nor by the request extractor. *)
Theorem token_pair_round_trip `{UuidSpec, JwtSpec} key minutes days iss aud uid sid w tp w1 w2 :
  let self := JwtServiceImpl_new key minutes days iss aud in
  let a := issued_access self uid w in
  let r := issued_refresh self uid sid w in
  let t := timestamp (reading w2) in
  jwt_generate self uid sid w = (Ok tp, w1) →
  (jwt_validate_access self (tp_access_token tp) w2).1 =
    (if t - 60 <=? ac_exp a then Ok a else Err TokenVerificationFailed) ∧
  (jwt_validate_refresh self (tp_refresh_token tp) w2).1 =
    (if t - 60 <=? rc_exp r then Ok r else Err TokenVerificationFailed) ∧
  (jwt_validate_refresh self (tp_access_token tp) w2).1 = Err TokenVerificationFailed ∧
  (jwt_validate_access self (tp_refresh_token tp) w2).1 = Err TokenVerificationFailed ∧
  (decode (E := AuthError) request_of_json (verification self) (tp_refresh_token tp) w2).1 = Ok None.
Proof.
  intros self a r t Hgen. apply jwt_generate_Ok in Hgen as (Ha & Hr & _).
  pose proof (jwt_decode_access key iss aud minutes days a _ t eq_refl eq_refl Ha) as Hda.
  pose proof (jwt_decode_refresh key iss aud minutes days r _ t eq_refl eq_refl Hr) as Hdr.
  unfold jwt_validate_access, jwt_validate_refresh. rewrite !bind_run, !decode_run.
  fold self in Hda, Hdr. fold t. change (jv_secret (verification self)) with key.
  rewrite Hda, Hdr. clearbody a r. clear Hda Hdr Ha Hr.
  split_and!; case_match; simpl; try done.
  - by rewrite access_json_round_trip.
  - by rewrite refresh_json_round_trip.
  - unfold refresh_of_json. rewrite access_no_session. by destruct (get_uuid "sub" _).
  - unfold access_of_json. rewrite refresh_no_jti. by destruct (get_uuid "sub" _).
  - unfold request_of_json. rewrite refresh_no_jti. by destruct (get_uuid "sub" _).
Qed.

Lemma token_pair_round_trip_witness :
  let self := JwtServiceImpl_new "0123456789abcdef0123456789abcdef" 15 7 "svc" "svc" in
  let w := fresh_world empty_db (from_secs 1000) in
  ∃ tp w1, @jwt_generate toy_uuid toy_jwt self 7%N 1%N w = (Ok tp, w1) ∧
    (@jwt_validate_access toy_uuid toy_jwt self (tp_access_token tp) (fresh_world empty_db (from_secs 1960))).1 =
      Ok (@issued_access toy_uuid self 7%N w).
Proof.
  intros self w.
  destruct (@jwt_generate toy_uuid toy_jwt self 7%N 1%N w) as [[tp|e] w1] eqn:E;
    [|vm_compute in E; discriminate E].
  exists tp, w1. split; [reflexivity|].
  destruct (@token_pair_round_trip toy_uuid toy_uuid_spec toy_jwt toy_jwt_spec
              "0123456789abcdef0123456789abcdef" 15 7 "svc" "svc" 7%N 1%N w tp w1
              (fresh_world empty_db (from_secs 1960)) E) as (H1 & _).
  fold self in H1. rewrite H1. vm_compute. reflexivity.
Defined.
