(* ===== verification/UseCases.v ===== *)
(** * Use cases of the auth context

    [crates/auth/src/application/use_cases]: login with a password, login with
    Google, logout, refresh and the audit entry, against the ports
    [UserRepository], [JwtService] and [AuthProvider]. The theorems are about the
    use cases running on the Postgres repository. *)

From S2P Require Import Prelude RustStr ValueObjects Entities Aggregate Database Effects UserRepo.
From S2P Require Import Bcrypt AuthSettings Jwt.

(** ** The identity provider port *)

Record GoogleUserInfo : Type := MkGoogleUserInfo { gu_email : string; gu_name : string }.

Class AuthProviderPort : Type := { verify_id_token : string → M AuthError GoogleUserInfo }.

Record LoginResult : Type := MkLoginResult {
  lr_user : User;
  lr_session_id : Uuid;
  lr_access_token : string;
  lr_refresh_token : string;
  lr_events : list Event }.

Record LoginWithGoogleResult : Type := MkLoginWithGoogleResult {
  lg_user : User;
  lg_session_id : Uuid;
  lg_access_token : string;
  lg_refresh_token : string;
  lg_is_new_user : bool;
  lg_events : list Event }.

Record RefreshResult : Type := MkRefreshResult {
  rf_user_id : Uuid;
  rf_session_id : Uuid;
  rf_access_token : string;
  rf_refresh_token : string;
  rf_auth_method : AuthMethod;
  rf_events : list Event }.

(** [chrono::Duration::days], in microseconds. *)
Definition days (n : Z) : Z := from_secs (n * 86400).

(** The calendar of chrono: a [DateTime<Utc>] is at or after the first and before
    the second. *)
Definition DATETIME_MIN : Z := from_secs (-8334601228800).
Definition DATETIME_END : Z := from_secs 8210266876800.

(** [Utc::now() + Duration::days(n)], the clock having read [t]. Outside the
    calendar it panics, which ends the request there: here an internal error
    does. (A [Duration] too long for chrono, at which [Duration::days] panics
    itself, leads outside it as well.) *)
Definition expiry (t n : Z) : M AuthError Z :=
  let expires_at := t + days n in
  if (DATETIME_MIN <=? expires_at) && (expires_at <? DATETIME_END) then mret expires_at
  else fail (InternalError "`DateTime + TimeDelta` overflowed").

Section use_cases.
Context `{UuidLib, BcryptLib, UserRepository, JwtService, AuthProviderPort}.
Variable settings : AuthSettings.

(** [HashedPassword::new(run_bounded(|| bcrypt::hash(token, cost)).await?..)?] *)
Definition hash_refresh_token (token : string) : M AuthError HashedPassword :=
  r ← run_bounded (hash_io token (bcrypt_cost settings));
  h ← lift (map_err (λ _, TokenGenerationFailed) r);
  lift (map_err (λ _, TokenGenerationFailed) (HashedPassword_new h)).

(** The statements [create_session_tokens] and [login_with_google] share: new
    tokens, a new session in the aggregate, and the save. *)
Definition open_session (auth_method : AuthMethod) (aggregate : UserAggregate)
    : M AuthError (Uuid * TokenPair * UserAggregate) :=
  session_id ← now_v7;
  token_pair ← generate_token_pair (u_id (agg_user aggregate)) session_id;
  t ← utc_now;
  expires_at ← expiry t (refresh_token_expiry_days settings);
  refresh_hash ← hash_refresh_token (tp_refresh_token token_pair);
  now ← utc_now;
  let '(r, aggregate) := add_session now session_id refresh_hash expires_at auth_method aggregate in
  new_session ← lift r;
  _ ← save_aggregate aggregate [new_session];
  mret (session_id, token_pair, aggregate).

Definition create_session_tokens (aggregate : UserAggregate) : M AuthError LoginResult :=
  '(session_id, token_pair, aggregate) ← open_session Password aggregate;
  let '(events, aggregate) := take_events aggregate in
  mret (MkLoginResult (agg_user aggregate) session_id (tp_access_token token_pair)
          (tp_refresh_token token_pair) events).

Definition login_with_password (username password : string) : M AuthError LoginResult :=
  aggregate ← find_aggregate_by_username username;
  password_ok ← run_bounded
    (verify_password_timing_safe (agg_user <$> aggregate) password (bcrypt_cost settings));
  if negb password_ok then fail InvalidCredentials
  else
    aggregate ← lift (ok_or aggregate InvalidCredentials);
    create_session_tokens aggregate.

(** The [match existing] of [login_with_google]: an unknown email gets a user. *)
Definition google_aggregate (user_info : GoogleUserInfo) (existing : option UserAggregate)
    : M AuthError (UserAggregate * bool) :=
  match existing with
  | Some agg => mret (agg, false)
  | None =>
      email ← lift (map_err (InternalError ∘ DomainError_to_string) (Email_new (gu_email user_info)));
      let new_user := NewUser_new_google email (gu_name user_info) in
      user ← create new_user;
      found ← find_aggregate_by_id (u_id user);
      agg ← lift (ok_or found (InternalError "created user not found"));
      mret (agg, true)
  end.

Definition login_with_google (id_token : string) : M AuthError LoginWithGoogleResult :=
  user_info ← verify_id_token id_token;
  existing ← find_aggregate_by_email (gu_email user_info);
  '(aggregate, is_new_user) ← google_aggregate user_info existing;
  '(session_id, token_pair, aggregate) ← open_session GoogleOAuth aggregate;
  let '(events, aggregate) := take_events aggregate in
  now ← utc_now;
  let events :=
    if (is_new_user : bool)
    then EvUserCreated (UserCreated_new now (u_id (agg_user aggregate)) Google) :: events
    else events in
  mret (MkLoginWithGoogleResult (agg_user aggregate) session_id (tp_access_token token_pair)
          (tp_refresh_token token_pair) is_new_user events).

Definition logout (user_id session_id : Uuid) : M AuthError (list Event) :=
  found ← find_aggregate_by_id user_id;
  aggregate ← lift (ok_or found UserNotFound);
  now ← utc_now;
  let '(r, aggregate) := invalidate_session now session_id aggregate in
  _ ← lift r;
  _ ← save_aggregate aggregate [];
  mret (take_events aggregate).1.

(** The first half of [refresh_token]: the token's claims and the aggregate. *)
Definition refresh_load (token : string) : M AuthError (RefreshTokenClaims * UserAggregate) :=
  claims ← validate_refresh_token token;
  found ← find_aggregate_by_id (rc_sub claims);
  aggregate ← lift (ok_or found UserNotFound);
  mret (claims, aggregate).

(** Whether the presented token is the one the session was issued with. *)
Definition token_matches (token : string) (claims : RefreshTokenClaims) (aggregate : UserAggregate)
    : M AuthError bool :=
  match find (has_id (rc_session_id claims)) (agg_sessions aggregate) with
  | Some session =>
      r ← run_bounded (verify_io token (hash_str (s_refresh_token_hash session)));
      mret match r with Ok b => b | Err _ => false end
  | None => mret false
  end.

(** The second half: from the aggregate as it was loaded to the saved rotation. *)
Definition refresh_rotate (token : string) (claims : RefreshTokenClaims) (aggregate : UserAggregate)
    : M AuthError RefreshResult :=
  new_session_id ← now_v7;
  token_pair ← generate_token_pair (rc_sub claims) new_session_id;
  t ← utc_now;
  expires_at ← expiry t (refresh_token_expiry_days settings);
  refresh_hash ← hash_refresh_token (tp_refresh_token token_pair);
  matches ← token_matches token claims aggregate;
  now ← utc_now;
  match rotate_session now (rc_session_id claims) matches new_session_id refresh_hash expires_at aggregate with
  | (Ok new_session, aggregate) =>
      _ ← save_aggregate aggregate [new_session];
      let events := (take_events aggregate).1 in
      let auth_method := default Password (head events ≫= Event_auth_method) in
      mret (MkRefreshResult (rc_sub claims) new_session_id (tp_access_token token_pair)
              (tp_refresh_token token_pair) auth_method events)
  | (Err SessionInvalidated, aggregate) =>
      now ← utc_now;
      let aggregate := invalidate_all_active_sessions now aggregate in
      _ ← save_aggregate aggregate [];
      fail SessionInvalidated
  | (Err e, _) => fail e
  end.

Definition refresh_token (token : string) : M AuthError RefreshResult :=
  '(claims, aggregate) ← refresh_load token;
  refresh_rotate token claims aggregate.

Definition record_audit_entry (user_id : Uuid) (session_id : option Uuid) (event_type : EventType)
    (auth_method : AuthMethod) : M AuthError UserAction :=
  create_user_action (MkNewUserAction user_id session_id event_type auth_method).

End use_cases.

(** ** What the use cases rely on of the token port

    Issuing and checking tokens never touches the database. *)

Class JwtServiceSpec `{JwtService} : Prop := {
  generate_framed : ∀ uid sid, framed (generate_token_pair uid sid);
  validate_access_framed : ∀ t, framed (validate_access_token t);
  validate_refresh_framed : ∀ t, framed (validate_refresh_token t);
  validate_refresh_join : ∀ t w r w', validate_refresh_token t w = (r, w') → w_join w' = w_join w }.

Lemma framed_decode `{JwtLib} {E T} (of_json : Claims → option T) v t : framed (E := E) (decode of_json v t).
Proof. apply framed_bind; auto with svc. Qed.

#[global] Instance JwtServiceImpl_spec `{UuidLib, JwtLib} self : @JwtServiceSpec (JwtServiceImpl_service self).
Proof.
  split; simpl; intros.
  - unfold jwt_generate. repeat (apply framed_bind; [auto with svc|intros]). auto with svc.
  - apply framed_bind; [apply framed_decode|auto with svc].
  - apply framed_bind; [apply framed_decode|auto with svc].
  - match goal with Hv : jwt_validate_refresh _ _ _ = _ |- _ =>
      unfold jwt_validate_refresh in Hv; rewrite bind_run, decode_run in Hv; by injection Hv as <- <- end.
Qed.

#[export] Hint Resolve generate_framed validate_refresh_framed : svc.

(** One step of a use case's run: splits on the outcome of its first call. *)
Ltac ustep H v w E :=
  rewrite bind_run in H;
  match type of H with
  | match ?m with _ => _ end = _ => destruct m as [[v|?] w] eqn:E
  end.

Lemma expiry_Ok t n w e w' : expiry t n w = (Ok e, w') → e = t + days n ∧ w' = w.
Proof. unfold expiry. destruct (_ && _); by intros [= <- <-]. Qed.

Lemma framed_expiry t n : framed (expiry t n).
Proof. unfold expiry. destruct (_ && _); auto with svc. Qed.

#[export] Hint Resolve framed_expiry : svc.

(** First day of a Postgres [TIMESTAMPTZ]; its last is after chrono's. *)
Definition TIMESTAMPTZ_MIN : Z := from_secs (-210866803200).

(** From the clock of [w] to that of [w'], the end of a new session is a date that
    chrono and Postgres have. *)
Definition datable (settings : AuthSettings) (w w' : World) : Prop :=
  TIMESTAMPTZ_MIN ≤ w_clock w + days (refresh_token_expiry_days settings) ∧
  w_clock w' + days (refresh_token_expiry_days settings) < DATETIME_END.

(** A call that ends within these dates does not stop at the expiry. *)
Lemma expiry_step {A} settings (k : Z → M AuthError A) w t u r w' :
  (expiry t (refresh_token_expiry_days settings) ≫= k) u = (r, w') →
  w_clock w ≤ t ≤ w_clock u → datable settings w w' →
  k (t + days (refresh_token_expiry_days settings)) u = (r, w').
Proof.
  rewrite bind_run. unfold expiry. intros Hr Ht [Hlo Hhi]. assert (DATETIME_MIN ≤ TIMESTAMPTZ_MIN) by done.
  rewrite (proj2 (Z.leb_le _ _)) in Hr by lia. destruct (_ <? _) eqn:Hend; [exact Hr|].
  injection Hr as _ <-. bool_to_prop. lia.
Qed.

Lemma datable_later settings w w1 w' : later w w1 → datable settings w w' → datable settings w1 w'.
Proof. intros [Hc _] [? ?]. split; lia. Qed.

Lemma saved_le t0 t1 ids ns db db' : t1 ≤ t0 → saved t0 ids ns db db' → saved t1 ids ns db db'.
Proof.
  intros Hle (m' & -> & Hold & Hnew). exists m'. split_and!; [done..|].
  eapply Forall_impl; [exact Hnew|]. intros s (Hn & t & Ht & Hl). split; [done|].
  exists t. split; [lia|done].
Qed.

Section pg.
Context `{UuidLib, BcryptLib}.
Context {js : JwtService} {jspec : JwtServiceSpec} {ap : AuthProviderPort}.
Variable settings : AuthSettings.

Lemma hash_refresh_token_framed t : framed (hash_refresh_token settings t).
Proof. unfold hash_refresh_token. apply framed_bind; auto with svc. Qed.

Lemma hash_refresh_token_Ok t w h w' :
  hash_refresh_token settings t w = (Ok h, w') →
  ∃ n, bcrypt_hash n t (bcrypt_cost settings) = Ok (hash_str h) ∧ hash_str h ≠ EmptyString.
Proof.
  intros Hr. unfold hash_refresh_token in Hr. run_inv Hr. run_inv Hr. run_inv R0.
  apply lift_Ok_inv in Hr as [Hr _].
  unfold run_bounded in R. destruct (w_join w) as [|[e|] l]; [|done|];
    unfold hash_io in R; run_inv R; injection R1 as <- <-; rewrite effect_run in R; simpl in R;
    injection R as <- _; destruct (bcrypt_hash _ _ _) as [x|] eqn:E; simplify_eq/=;
    destruct (HashedPassword_new v0) as [hp|] eqn:Eh; simplify_eq/=;
    apply HashedPassword_new_Ok in Eh as [-> Hne]; eauto.
Qed.

(** The session a login or a rotation stores. *)
Definition issued_session (w : World) (uid : Uuid) (m : AuthMethod) (rt : string) (s : NewSession) : Prop :=
  ns_user_id s = uid ∧ ns_auth_method s = m ∧
  (∃ n, bcrypt_hash n rt (bcrypt_cost settings) = Ok (hash_str (ns_refresh_token_hash s))) ∧
  hash_nonempty s ∧
  (∃ t, w_clock w ≤ t ∧ ns_expires_at s = t + days (refresh_token_expiry_days settings)) ∧
  (∃ n, ns_id s = uuid_v7 n ∧ (w_seed w ≤ n)%nat).

Lemma save_one_cases (a : UserAggregate) ns w r w' :
  db_ok (w_db w) → pg_save_aggregate a ns w = (r, w') →
  db_ok (w_db w') ∧
  ((is_ok r = false ∧ (w_pg w = [] → w_db w' = w_db w) ∧
    (w_db w' = w_db w ∨ saved (w_clock w) (invalidated_ids a) ns (w_db w) (w_db w'))) ∨
   (r = Ok tt ∧ saved (w_clock w) (invalidated_ids a) ns (w_db w) (w_db w'))).
Proof.
  intros Hok Hs. destruct (save_aggregate_cases _ _ _ _ _ Hok Hs) as [[Hdb Hr]|[Hok' Hsv]].
  - rewrite Hdb. split; [done|]. left. auto.
  - split; [done|]. destruct r as [[]|e]; [by right|]. left. split_and!; auto.
    intros Hp. by eapply save_aggregate_no_fault.
Qed.

(** Everything an [open_session] can do. *)
Lemma open_session_cases m a w r w' :
  db_ok (w_db w) → open_session settings m a w = (r, w') →
  (is_ok r = false ∧ (w_pg w = [] → w_db w' = w_db w) ∧ db_ok (w_db w') ∧
   (w_db w' = w_db w ∨ ∃ tp s, issued_session w (u_id (agg_user a)) m (tp_refresh_token tp) s ∧
                               saved (w_clock w) (invalidated_ids a) [s] (w_db w) (w_db w'))) ∨
  ∃ tp s now,
    r = Ok (ns_id s, tp, agg_push a (EvUserLoggedIn
              (UserLoggedIn_new now (u_id (agg_user a)) (ns_id s) m))) ∧
    w_clock w ≤ now ∧ active_count now (agg_sessions a) < 25 ∧
    issued_session w (u_id (agg_user a)) m (tp_refresh_token tp) s ∧
    db_ok (w_db w') ∧ saved (w_clock w) (invalidated_ids a) [s] (w_db w) (w_db w').
Proof.
  intros Hok Hr. unfold open_session in Hr.
  assert (Herr : ∀ (e : AuthError) w1, frame w w1 → (Err e, w1) = (r, w') →
    is_ok r = false ∧ (w_pg w = [] → w_db w' = w_db w) ∧ db_ok (w_db w') ∧
   (w_db w' = w_db w ∨ ∃ tp s, issued_session w (u_id (agg_user a)) m (tp_refresh_token tp) s ∧
                               saved (w_clock w) (invalidated_ids a) [s] (w_db w) (w_db w'))).
  { intros e w1 (Hdb & _) [= <- <-]. rewrite Hdb. split_and!; auto. }
  ustep Hr sid w1 E1; pose proof (framed_now_v7 _ _ _ E1) as F1; [|left; by eapply Herr].
  ustep Hr tp w2 E2; pose proof (generate_framed _ _ _ _ _ E2) as F2;
    [|left; eapply Herr; [|exact Hr]; by etrans].
  ustep Hr t w3 E3; pose proof (framed_utc_now _ _ _ E3) as F3;
    [|left; eapply Herr; [|exact Hr]; etrans; [|exact F3]; by etrans].
  assert (F03 : frame w w3) by (etrans; [|exact F3]; by etrans).
  apply utc_now_Ok in E3 as (Ht & Hc3 & _).
  ustep Hr exp w3' Ex; pose proof (framed_expiry _ _ _ _ _ Ex) as Fx; [|left; eapply Herr; [|exact Hr]; by etrans].
  apply expiry_Ok in Ex as [-> ->]. clear Fx.
  ustep Hr h w4 E4; pose proof (hash_refresh_token_framed _ _ _ _ E4) as F4;
    [|left; eapply Herr; [|exact Hr]; by etrans].
  ustep Hr now w5 E5; pose proof (framed_utc_now _ _ _ E5) as F5;
    [|left; eapply Herr; [|exact Hr]; etrans; [|exact F5]; by etrans].
  assert (F05 : frame w w5) by (etrans; [|exact F5]; by etrans).
  apply utc_now_Ok in E5 as (Hnow & Hc5 & _).
  unfold add_session, MAX_ACTIVE_SESSIONS in Hr.
  destruct (25 <=? _) eqn:Hlim; [left; eapply Herr; [exact F05|exact Hr]|]. apply Z.leb_gt in Hlim.
  unfold lift in Hr. rewrite bind_run in Hr.
  set (s := MkNewSession sid (u_id (agg_user a)) h (t + days (refresh_token_expiry_days settings)) m) in Hr.
  set (a' := agg_push a _) in Hr.
  assert (Hiss : issued_session w (u_id (agg_user a)) m (tp_refresh_token tp) s).
  { apply hash_refresh_token_Ok in E4 as (n & Hn & Hne).
    destruct F1 as (_ & _ & Hc1 & _), F2 as (_ & _ & Hc2 & _).
    rewrite now_v7_run in E1. injection E1 as <- <-.
    split_and!; simpl; try done; [by exists n|exists t; split; [lia|done]|exists (w_seed w); split; [done|lia]]. }
  destruct F05 as (Hdb5 & Hpg5 & Hcl5 & _).
  assert (Hok5 : db_ok (w_db w5)) by by rewrite Hdb5.
  ustep Hr u w6 E6; apply (save_one_cases a' [s] w5 _ _ Hok5) in E6;
    change (invalidated_ids a') with (invalidated_ids a) in E6;
    destruct E6 as [Hok6 [(He & Hnf & Hor)|(He & Hsv)]]; try done; rewrite Hdb5 in *.
  - right. injection Hr as <- <-. exists tp, s, now. split_and!; try done; [lia|].
    by eapply saved_le.
  - left. injection Hr as <- <-. split_and!; try done; [intros Hp; apply Hnf; congruence|].
    destruct Hor as [Hor|Hor]; [by left|right]. exists tp, s. split; [done|]. by eapply saved_le.
Qed.

Lemma issued_session_later w w1 uid m rt s :
  later w w1 → issued_session w1 uid m rt s → issued_session w uid m rt s.
Proof.
  intros [Hc Hs] (Hu & Hm & Hh & Hne & (t & Ht & He) & (n & Hn & Hle)).
  split_and!; try done; [exists t; split; [lia|done]|exists n; split; [done|lia]].
Qed.

Lemma verify_password_true {E} user pw c w w' :
  verify_password_timing_safe (E := E) user pw c w = (Ok true, w') →
  ∃ u h, user = Some u ∧ u_password_hash u = Some h ∧ bcrypt_verify pw (hash_str h) = Ok true.
Proof.
  unfold verify_password_timing_safe. destruct user as [u|]; simpl.
  - destruct (u_password_hash u) as [h|] eqn:Hh; simpl; intros Hr.
    + run_inv Hr. run_inv Hr. unfold verify_io in R0. rewrite effect_run in R0. injection R0 as <- _.
      exists u, h. split_and!; [done..|].
      destruct (bcrypt_verify pw (hash_str h)) as [b|] eqn:Hb; simpl in Hr; injection Hr as Hbt _; congruence.
    + run_inv Hr. destruct v; run_inv Hr; by injection Hr as ?.
  - intros Hr. run_inv Hr. destruct v; run_inv Hr; by injection Hr as ?.
Qed.

Lemma run_bounded_Ok {A} (f : M AuthError A) w a w' :
  run_bounded f w = (Ok a, w') → ∃ w1, f w1 = (Ok a, w') ∧ frame w w1.
Proof.
  unfold run_bounded. destruct (w_join w) as [|[e|] l]; [|done|]; intros Hf; eexists; (split; [exact Hf|]).
  - reflexivity.
  - split_and!; simpl; try done; lia.
Qed.

(** Everything a password login can do. *)
Lemma login_cases username password w r w' :
  db_ok (w_db w) → login_with_password settings username password w = (r, w') →
  (is_ok r = false ∧ db_ok (w_db w') ∧ (w_pg w = [] → w_db w' = w_db w)) ∨
  ∃ u h s tp now t,
    r = Ok (MkLoginResult u (ns_id s) (tp_access_token tp) (tp_refresh_token tp)
              [EvUserLoggedIn (UserLoggedIn_new now (u_id u) (ns_id s) Password)]) ∧
    db_users (w_db w) !! u_id u = Some (row_of_user u) ∧
    u_username u = Some username ∧ u_password_hash u = Some h ∧
    bcrypt_verify password (hash_str h) = Ok true ∧
    issued_session w (u_id u) Password (tp_refresh_token tp) s ∧
    w_clock w ≤ t ∧ db_sessions (w_db w) !! ns_id s = None ∧
    w_db w' = with_sessions (w_db w) (<[ns_id s := new_session_row t s]> (db_sessions (w_db w))) ∧
    db_ok (w_db w').
Proof.
  intros Hok Hr. unfold login_with_password in Hr.
  destruct find_aggregate_pure as (_ & Hpure & _). specialize (Hpure username w).
  ustep Hr ao w1 E1; change (find_aggregate_by_username username w)
    with (pg_find_aggregate_by_username username w) in E1; rewrite E1 in Hpure; simpl in Hpure.
  2:{ left. injection Hr as <- <-. rewrite Hpure. auto. }
  pose proof (find_aggregate_advancing _ _ _ _ E1) as L1.
  assert (Hpg1 : w_pg w = [] → w_pg w1 = []) by (by eapply find_aggregate_pg).
  ustep Hr okb w2 E2; assert (F2 : frame w1 w2) by (eapply (framed_run_bounded _ (framed_verify_password _ _ _)); exact E2);
    pose proof F2 as (Hdb2 & Hpg2 & _).
  2:{ left. injection Hr as <- <-. rewrite Hdb2, Hpure. auto. }
  destruct okb; simpl in Hr.
  2:{ left. injection Hr as <- <-. rewrite Hdb2, Hpure. auto. }
  apply run_bounded_Ok in E2 as (w1' & E2 & _).
  apply verify_password_true in E2 as (u & h & Hu & Hh & Hv).
  destruct ao as [a|]; [|done]. injection Hu as <-. simpl in Hr. rewrite bind_run in Hr. simpl in Hr.
  apply find_aggregate_by_username_Ok in E1 as (Hl & Hwf & _ & Hname); [|done].
  unfold create_session_tokens in Hr. rewrite bind_run in Hr.
  destruct (open_session settings Password a w2) as [ro w3] eqn:E3.
  assert (Hok2 : db_ok (w_db w2)) by (by rewrite Hdb2, Hpure).
  assert (L2 : later w w2) by (etrans; [exact L1|by apply frame_later]).
  assert (Hdb : w_db w2 = w_db w) by congruence.
  destruct (open_session_cases _ _ _ _ _ Hok2 E3)
    as [(Hne & Hnf & Hok3 & _)|(tp & s & now & -> & Hnow & Hcnt & Hiss & Hok3 & Hsv)].
  - left. destruct ro as [|e]; [done|]. injection Hr as <- <-. split_and!; [done..|].
    intros Hp. rewrite Hnf, Hdb2, Hpure; [done|]. rewrite Hpg2. auto.
  - right. simpl in Hr. injection Hr as <- <-. rewrite Hdb in Hsv.
    destruct (saved_insert _ _ _ _ _ Hl Hwf Hsv) as (t & Ht & Hf & Heq).
    destruct Hl as (Hrow & Hpe & _). rewrite Hpe.
    exists (agg_user a), h, s, tp, now, t. split_and!; try done; [by eapply issued_session_later|].
    destruct L2. lia.
Qed.

Lemma token_matches_framed token claims a : framed (token_matches token claims a).
Proof.
  unfold token_matches. destruct (find _ _); [|auto with svc]. apply framed_bind; auto with svc.
Qed.

Lemma token_matches_true token claims a w w' :
  token_matches token claims a w = (Ok true, w') →
  ∃ s, registry (agg_sessions a) !! rc_session_id claims = Some s ∧
       bcrypt_verify token (hash_str (s_refresh_token_hash s)) = Ok true.
Proof.
  unfold token_matches. rewrite registry_find. destruct (find _ _) as [s|]; [|done].
  intros Hr. run_inv Hr. apply run_bounded_Ok in R as (w2 & R & _).
  unfold verify_io in R. rewrite effect_run in R. injection R as <- _. exists s. split; [done|].
  destruct (bcrypt_verify token _) as [b|]; simpl in Hr; injection Hr as Hb _; congruence.
Qed.

(** The aggregate after the rotated session was revoked in it. *)
Definition revoked (id : Uuid) (a : UserAggregate) : UserAggregate :=
  agg_set_sessions a (update_first (has_id id) Session_invalidate (agg_sessions a)).

(** Everything the second half of a refresh can do. *)
Lemma refresh_rotate_cases token claims a w r w' :
  db_ok (w_db w) → agg_pending_events a = [] → refresh_rotate settings token claims a w = (r, w') →
  let id := rc_session_id claims in
  db_ok (w_db w') ∧
  ((∃ s0 s tp now,
      registry (agg_sessions a) !! id = Some s0 ∧ s_is_active s0 = true ∧
      w_clock w ≤ now ∧ Session_is_expired now s0 = false ∧
      bcrypt_verify token (hash_str (s_refresh_token_hash s0)) = Ok true ∧
      issued_session w (u_id (agg_user a)) (s_auth_method s0) (tp_refresh_token tp) s ∧
      r = Ok (MkRefreshResult (rc_sub claims) (ns_id s) (tp_access_token tp) (tp_refresh_token tp)
                (s_auth_method s0) [EvSessionRefreshed
                  (SessionRefreshed_new now (u_id (agg_user a)) (ns_id s) (s_auth_method s0))]) ∧
      saved (w_clock w) (invalidated_ids (revoked id a)) [s] (w_db w) (w_db w')) ∨
   (∃ s0 now,
      registry (agg_sessions a) !! id = Some s0 ∧ s_is_active s0 = false ∧
      is_ok r = false ∧
      (r = Err SessionInvalidated ∨ w_pg w ≠ []) ∧
      (r = Err SessionInvalidated →
       saved (w_clock w) (invalidated_ids (invalidate_all_active_sessions now a)) [] (w_db w) (w_db w'))) ∨
   (is_ok r = false ∧ (w_pg w = [] → w_db w' = w_db w))).
Proof.
  intros Hok Hpe Hr id. unfold refresh_rotate in Hr.
  assert (Herr : ∀ (e : AuthError) w1, frame w w1 → (Err e, w1) = (r, w') →
    db_ok (w_db w') ∧ is_ok r = false ∧ (w_pg w = [] → w_db w' = w_db w)).
  { intros e w1 (Hdb & _) [= <- <-]. rewrite Hdb. split_and!; auto. }
  ustep Hr sid w1 E1; pose proof (framed_now_v7 _ _ _ E1) as F1;
    [|destruct (Herr _ _ F1 Hr) as [? ?]; by auto].
  ustep Hr tp w2 E2; pose proof (generate_framed _ _ _ _ _ E2) as F2';
    assert (F2 : frame w w2) by (by etrans); clear F2'; [|destruct (Herr _ _ F2 Hr) as [? ?]; by auto].
  ustep Hr t w3 E3; pose proof (framed_utc_now _ _ _ E3) as F3';
    assert (F3 : frame w w3) by (by etrans); clear F3'; [|destruct (Herr _ _ F3 Hr) as [? ?]; by auto].
  ustep Hr exp wx Ex; pose proof (framed_expiry _ _ _ _ _ Ex) as Fx';
    assert (Fx : frame w wx) by (by etrans); clear Fx'; [|destruct (Herr _ _ Fx Hr) as [? ?]; by auto].
  apply expiry_Ok in Ex as [-> ->]. clear Fx.
  ustep Hr h w4 E4; pose proof (hash_refresh_token_framed _ _ _ _ E4) as F4';
    assert (F4 : frame w w4) by (by etrans); clear F4'; [|destruct (Herr _ _ F4 Hr) as [? ?]; by auto].
  ustep Hr tm w5 E5; pose proof (token_matches_framed _ _ _ _ _ _ E5) as F5';
    assert (F5 : frame w w5) by (by etrans); clear F5'; [|destruct (Herr _ _ F5 Hr) as [? ?]; by auto].
  ustep Hr now w6 E6; pose proof (framed_utc_now _ _ _ E6) as F6';
    assert (F6 : frame w w6) by (by etrans); clear F6'; [|destruct (Herr _ _ F6 Hr) as [? ?]; by auto].
  assert (Hiss : ∀ m, issued_session w (u_id (agg_user a)) m (tp_refresh_token tp)
    (MkNewSession sid (u_id (agg_user a)) h (t + days (refresh_token_expiry_days settings)) m)).
  { intros m. apply hash_refresh_token_Ok in E4 as (n & Hn & Hne). apply utc_now_Ok in E3 as (Ht & _).
    destruct F2 as (_ & _ & Hc2 & _). rewrite now_v7_run in E1. injection E1 as <- <-.
    split_and!; simpl; try done; [by exists n|exists t; split; [lia|done]|exists (w_seed w); split; [done|lia]]. }
  apply utc_now_Ok in E6 as (Hnow & Hc6 & _). destruct F5 as (_ & _ & Hc5 & _).
  unfold rotate_session in Hr. rewrite registry_find. fold id in Hr.
  destruct (find (has_id id) (agg_sessions a)) as [s0|] eqn:Hf; [|destruct (Herr _ _ F6 Hr) as [? ?]; by auto].
  pose proof F6 as (Hdb6 & Hpg6 & Hcl6 & _). assert (Hok6 : db_ok (w_db w6)) by by rewrite Hdb6.
  destruct (s_is_active s0) eqn:Hact; simpl in Hr.
  - destruct (Session_is_expired now s0) eqn:Hexp; [destruct (Herr _ _ F6 Hr) as [? ?]; by auto|].
    destruct tm; simpl in Hr; [|destruct (Herr _ _ F6 Hr) as [? ?]; by auto].
    apply token_matches_true in E5 as (s0' & Hs0' & Hv). rewrite registry_find in Hs0'. fold id in Hs0'.
    rewrite Hf in Hs0'. injection Hs0' as <-.
    set (s := MkNewSession sid _ h _ _) in Hr. set (a' := agg_push _ _) in Hr.
    ustep Hr u w7 E7; apply (save_one_cases a' [s] w6 _ _ Hok6) in E7;
      change (invalidated_ids a') with (invalidated_ids (revoked id a)) in E7;
      destruct E7 as [Hok7 [(He & Hnf & _)|(He & Hsv)]]; try done; rewrite Hdb6 in *.
    + injection Hr as <- <-. split; [done|]. left. exists s0, s, tp, now.
      split_and!; try done; try lia; [unfold a'; simpl; by rewrite Hpe|by eapply saved_le].
    + injection Hr as <- <-. split; [done|]. right; right. split; [done|]. intros Hp. apply Hnf. congruence.
  - ustep Hr now2 w7 E7; [|done]. pose proof (framed_utc_now _ _ _ E7) as (Hdb7 & Hpg7 & Hcl7 & _).
    assert (Hok7 : db_ok (w_db w7)) by by rewrite Hdb7.
    ustep Hr u w8 E8; pose proof E8 as E8'; apply (save_one_cases _ [] w7 _ _ Hok7) in E8;
      destruct E8 as [Hok8 [(He & Hnf & _)|(He & Hsv)]]; try done; rewrite Hdb7, Hdb6 in *.
    + injection Hr as <- <-. split; [done|]. right; left. exists s0, now2. split_and!; try done; [by left|].
      intros _. eapply saved_le; [|exact Hsv]. lia.
    + injection Hr as <- <-. split; [done|]. right; right. split; [done|]. intros Hp. apply Hnf. congruence.
Qed.

(** *** What a save does to the tables when the aggregate came from them *)

Lemma revoked_wf id a : agg_wf a → agg_wf (revoked id a).
Proof. apply agg_wf_revoke. Qed.

Lemma loaded_row db a j r :
  loaded db a → db_readable db → db_sessions db !! j = Some r → sr_user_id r = u_id (agg_user a) →
  ∃ s, r = row_of_session s ∧ registry (agg_sessions a) !! j = Some s.
Proof.
  intros (_ & _ & Hl) [Hrs _] Hr Hu. destruct (Hrs _ _ Hr) as [s Hs].
  apply into_session_iff in Hs as [-> Hne]. exists s. split; [done|]. by apply Hl.
Qed.

Lemma registry_revoked id a j :
  registry (agg_sessions (revoked id a)) !! j = spec_revoke id (registry (agg_sessions a)) !! j.
Proof. unfold revoked; simpl. by rewrite registry_update_first. Qed.

(** Deactivating the ids of the revoked aggregate deactivates just [id]. *)
Lemma revoked_rows db a id s0 j :
  loaded db a → agg_wf a → registry (agg_sessions a) !! id = Some s0 →
  deactivate_if (invalidated_ids (revoked id a)) j <$> db_sessions db !! j =
    alter row_deactivate id (db_sessions db) !! j.
Proof.
  intros Hl Hwf Hs0. pose proof Hl as (_ & _ & Hreg).
  rewrite lookup_alter. case_decide as Hid.
  - subst j. destruct (db_sessions db !! id) as [r|]; [|done]. simpl. f_equal. unfold deactivate_if.
    rewrite bool_decide_eq_true_2; [done|]. eapply invalidated_ids_spec; [by apply revoked_wf| |].
    + rewrite registry_revoked. unfold spec_revoke. by rewrite lookup_alter_eq, Hs0.
    + done.
  - destruct (db_sessions db !! j) as [r|] eqn:Hr; [|done]. simpl. f_equal.
    unfold deactivate_if. case_bool_decide as Hin; [|done].
    destruct (invalidated_ids_registry _ _ Hin) as [x Hx]. pose proof Hx as Hx'.
    rewrite registry_revoked in Hx'. unfold spec_revoke in Hx'. rewrite lookup_alter_ne in Hx' by done.
    eapply loaded_inactive; [exact Hl|exact Hwf| |exact Hr].
    eapply invalidated_ids_spec; [done|exact Hx'|].
    by eapply (invalidated_ids_spec (revoked id a)); [apply revoked_wf| |].
Qed.

Lemma saved_revoke t0 db db' a id s0 :
  loaded db a → agg_wf a → registry (agg_sessions a) !! id = Some s0 →
  saved t0 (invalidated_ids (revoked id a)) [] db db' →
  db' = with_sessions db (alter row_deactivate id (db_sessions db)).
Proof.
  intros Hl Hwf Hs0 (m' & -> & Hold & _). f_equal. apply map_eq. intros j.
  rewrite Hold by apply not_elem_of_nil. by eapply revoked_rows.
Qed.

Lemma saved_rotate t0 db db' a id s0 s :
  loaded db a → agg_wf a → registry (agg_sessions a) !! id = Some s0 →
  saved t0 (invalidated_ids (revoked id a)) [s] db db' →
  ∃ t, t0 ≤ t ∧ db_sessions db !! ns_id s = None ∧ db_sessions db !! id = Some (row_of_session s0) ∧
    db' = with_sessions db
      (<[ns_id s := new_session_row t s]> (alter row_deactivate id (db_sessions db))).
Proof.
  intros Hl Hwf Hs0 (m' & -> & Hold & Hnew). apply Forall_cons in Hnew as [(Hf & t & Ht & Hm) _].
  pose proof Hl as (_ & _ & Hreg). pose proof Hs0 as Hs0'. apply Hreg in Hs0' as (Hrow0 & _).
  exists t. split_and!; [done..|]. f_equal. apply map_eq. intros j.
  destruct (decide (j = ns_id s)) as [->|Hne].
  - rewrite lookup_insert_eq, Hm. unfold deactivate_if. rewrite bool_decide_eq_false_2; [done|].
    intros [x Hx]%invalidated_ids_registry. rewrite registry_revoked in Hx. unfold spec_revoke in Hx.
    apply lookup_alter_Some in Hx as [(_ & y & Hy & _)|[_ Hy]]; apply Hreg in Hy as (Hy & _); congruence.
  - rewrite lookup_insert_ne by done. rewrite Hold by (simpl; set_solver). by eapply revoked_rows.
Qed.

(** All sessions of [uid] deactivated. *)
Definition deactivate_user (uid : Uuid) (db : Db) : Db :=
  with_sessions db ((λ r, if of_user uid r then row_deactivate r else r) <$> db_sessions db).

Lemma saved_all t0 now db db' a :
  loaded db a → agg_wf a → db_readable db →
  saved t0 (invalidated_ids (invalidate_all_active_sessions now a)) [] db db' →
  db' = deactivate_user (u_id (agg_user a)) db.
Proof.
  intros Hl Hwf Hrd (m' & -> & Hold & _). unfold deactivate_user. f_equal. apply map_eq. intros j.
  rewrite Hold by apply not_elem_of_nil. rewrite lookup_fmap.
  destruct (db_sessions db !! j) as [r|] eqn:Hr; [|done]. simpl. f_equal.
  assert (Hrev : registry (agg_sessions (invalidate_all_active_sessions now a)) !! j =
                 Session_invalidate <$> registry (agg_sessions a) !! j).
  { rewrite invalidate_all_eq; simpl. rewrite registry_invalidate_all. apply lookup_fmap. }
  unfold of_user, deactivate_if. destruct (bool_decide (sr_user_id r = _)) eqn:Hu; bool_to_prop.
  - destruct (loaded_row _ _ _ _ Hl Hrd Hr Hu) as (s & -> & Hs).
    rewrite bool_decide_eq_true_2; [done|].
    eapply invalidated_ids_spec; [by apply agg_wf_invalidate_all|by rewrite Hrev, Hs|done].
  - rewrite bool_decide_eq_false_2; [done|]. intros [x Hx]%invalidated_ids_registry.
    rewrite Hrev in Hx. apply fmap_Some in Hx as (s & Hs & _). destruct Hl as (_ & _ & Hreg).
    apply Hreg in Hs as (Hrow & _ & Hsu). rewrite Hr in Hrow. injection Hrow as ->. by apply Hu.
Qed.
End pg.

(** *** Runs without faults

    Issuing tokens succeeds, and tokens are text without NUL bytes. *)

Class JwtServiceTotal `{JwtService} : Prop := {
  generate_total : ∀ uid sid w, ∃ tp w',
    generate_token_pair uid sid w = (Ok tp, w') ∧ frame w w' ∧ w_join w' = w_join w ∧
    contains_char "000" (tp_refresh_token tp) = false }.

Section total.
Context `{UuidSpec, BcryptSpec}.
Context {js : JwtService} {jspec : JwtServiceSpec} {jtot : JwtServiceTotal}.
Variable settings : AuthSettings.
Hypothesis Hcost : 4 ≤ bcrypt_cost settings ≤ 31.

Lemma quiet_frame w w' : quiet w w' → frame w w'.
Proof. intros (?&?&?&?&?&?). split_and!; try done; lia. Qed.

Lemma hash_refresh_token_total t w :
  w_join w = [] → contains_char "000" t = false →
  ∃ h w', hash_refresh_token settings t w = (Ok h, w') ∧ frame w w' ∧ w_join w' = [].
Proof.
  intros Hj Hnul. destruct (bcrypt_hash_total (w_seed w) t _ Hcost Hnul) as [h Hh].
  destruct (hash_io_run (E := AuthError) t (bcrypt_cost settings) w) as (w1 & [Hr Hq] & _).
  unfold hash_refresh_token, run_bounded. rewrite bind_run, Hj, Hr, Hh. simpl.
  apply stored_hash_cost_own in Hh as [_ Hne].
  rewrite bind_run; unfold lift; simpl. unfold HashedPassword_new. destruct h as [|b h]; [done|]. simpl.
  eexists _, w1. split_and!; [done|by apply quiet_frame|]. destruct Hq as (_&_&_&_&->&_). done.
Qed.

Lemma token_matches_total token claims a w :
  w_join w = [] →
  ∃ w', token_matches token claims a w =
    (Ok match registry (agg_sessions a) !! rc_session_id claims with
        | Some s => bool_decide (ok (bcrypt_verify token (hash_str (s_refresh_token_hash s))) = Some true)
        | None => false
        end, w') ∧ frame w w' ∧ w_join w' = [].
Proof.
  intros Hj. unfold token_matches. rewrite registry_find. destruct (find _ _) as [s|]; [|by exists w].
  destruct (verify_io_run (E := AuthError) token (hash_str (s_refresh_token_hash s)) w) as (w1 & [Hr Hq] & _).
  rewrite bind_run. unfold run_bounded. rewrite Hj, Hr. exists w1. split_and!.
  - by destruct (bcrypt_verify token _) as [[]|].
  - by apply quiet_frame.
  - destruct Hq as (_&_&_&_&->&_). done.
Qed.

(** The run of [refresh_rotate] up to the aggregate's decision. *)
Lemma refresh_rotate_prep token claims a w r w' :
  w_join w = [] → refresh_rotate settings token claims a w = (r, w') → datable settings w w' →
  ∃ sid tp exp h now w1,
    (r, w') =
      (match rotate_session now (rc_session_id claims)
               match registry (agg_sessions a) !! rc_session_id claims with
               | Some s => bool_decide (ok (bcrypt_verify token (hash_str (s_refresh_token_hash s))) = Some true)
               | None => false
               end sid h exp a with
       | (Ok new_session, aggregate) =>
           _ ← save_aggregate aggregate [new_session];
           let events := (take_events aggregate).1 in
           let auth_method := default Password (head events ≫= Event_auth_method) in
           mret (MkRefreshResult (rc_sub claims) sid (tp_access_token tp)
                   (tp_refresh_token tp) auth_method events)
       | (Err SessionInvalidated, aggregate) =>
           now ← utc_now;
           let aggregate := invalidate_all_active_sessions now aggregate in
           _ ← save_aggregate aggregate [];
           fail SessionInvalidated
       | (Err e, _) => fail e
       end) w1 ∧
    frame w w1 ∧ now = w_clock w1 ∧ sid = uuid_v7 (w_seed w) ∧ hash_str h ≠ EmptyString.
Proof.
  intros Hj Hr Hdate.
  set (w1 := with_seed w (S (w_seed w))).
  destruct (generate_total (rc_sub claims) (uuid_v7 (w_seed w)) w1) as (tp & w2 & E2 & F2 & J2 & Hnul).
  set (w3 := with_time w2 (reading w2) (tail (w_ticks w2))).
  assert (F3 : frame w2 w3) by (eapply (framed_utc_now (E := AuthError)); by rewrite utc_now_run).
  destruct (hash_refresh_token_total (tp_refresh_token tp) w3) as (h & w4 & E4 & F4 & J4);
    [by simpl; rewrite J2|done|].
  destruct (token_matches_total token claims a w4 J4) as (w5 & E5 & F5 & J5).
  set (w6 := with_time w5 (reading w5) (tail (w_ticks w5))).
  assert (F6 : frame w5 w6) by (eapply (framed_utc_now (E := AuthError)); by rewrite utc_now_run).
  assert (F1 : frame w w1) by (split_and!; simpl; try done; lia).
  exists (uuid_v7 (w_seed w)), tp, (reading w2 + days (refresh_token_expiry_days settings)), h, (reading w5), w6.
  split_and!; try done.
  - unfold refresh_rotate in Hr. rewrite (bind_Ok _ _ _ _ _ (now_v7_run w)) in Hr. fold w1 in Hr.
    rewrite (bind_Ok _ _ _ _ _ E2), (bind_Ok _ _ _ _ _ (utc_now_run w2)) in Hr. fold w3 in Hr.
    apply (expiry_step settings _ w) in Hr; [|split; [|done]|exact Hdate].
    2:{ destruct F2 as (_ & _ & Hc2 & _). pose proof (reading_ge w2). simpl in Hc2. lia. }
    by rewrite (bind_Ok _ _ _ _ _ E4), (bind_Ok _ _ _ _ _ E5), (bind_Ok _ _ _ _ _ (utc_now_run w5)) in Hr.
  - etrans; [exact F1|]. etrans; [exact F2|]. etrans; [exact F3|]. etrans; [exact F4|]. by etrans.
  - by apply hash_refresh_token_Ok in E4 as (n & _ & Hne).
Qed.

(** Opening a session with nothing failing. *)
Lemma open_session_total m a w r w' :
  w_pg w = [] → w_join w = [] →
  (∀ now, active_count now (agg_sessions a) < 25) →
  is_Some (db_users (w_db w) !! u_id (agg_user a)) →
  db_sessions (w_db w) !! uuid_v7 (w_seed w) = None →
  open_session settings m a w = (r, w') → datable settings w w' → ∃ x, r = Ok x.
Proof.
  intros Hp Hj Hcnt Hu Hfresh Hr Hdate. set (sid := uuid_v7 (w_seed w)) in *.
  set (w1 := with_seed w (S (w_seed w))).
  destruct (generate_total (u_id (agg_user a)) sid w1) as (tp & w2 & E2 & F2 & J2 & Hnul).
  set (w3 := with_time w2 (reading w2) (tail (w_ticks w2))).
  assert (F3 : frame w2 w3) by (eapply (framed_utc_now (E := AuthError)); by rewrite utc_now_run).
  destruct (hash_refresh_token_total (tp_refresh_token tp) w3) as (h & w4 & E4 & F4 & J4);
    [by simpl; rewrite J2|done|].
  set (w5 := with_time w4 (reading w4) (tail (w_ticks w4))).
  assert (F5 : frame w4 w5) by (eapply (framed_utc_now (E := AuthError)); by rewrite utc_now_run).
  assert (F15 : frame w1 w5) by (etrans; [exact F2|]; etrans; [exact F3|]; by etrans).
  unfold open_session in Hr. rewrite (bind_Ok _ _ _ _ _ (now_v7_run w)) in Hr. fold w1 sid in Hr.
  rewrite (bind_Ok _ _ _ _ _ E2), (bind_Ok _ _ _ _ _ (utc_now_run w2)) in Hr. fold w3 in Hr.
  apply (expiry_step settings _ w) in Hr; [|split; [|done]|exact Hdate].
  2:{ destruct F2 as (_ & _ & Hc2 & _). pose proof (reading_ge w2). simpl in Hc2. lia. }
  rewrite (bind_Ok _ _ _ _ _ E4), (bind_Ok _ _ _ _ _ (utc_now_run w4)) in Hr. fold w5 in Hr.
  unfold add_session, MAX_ACTIVE_SESSIONS in Hr. rewrite (proj2 (Z.leb_gt _ _) (Hcnt (reading w4))) in Hr.
  rewrite bind_run in Hr. unfold lift in Hr. destruct F15 as (Hdb & Hpg & _). simpl in Hdb, Hpg.
  set (s := MkNewSession _ _ _ _ _) in Hr. set (a' := agg_push _ _) in Hr.
  destruct (save_aggregate_total a' [s] w5) as (w6 & E6 & _);
    [by etrans; [exact Hpg|]|by apply NoDup_singleton|constructor; [simpl; by rewrite Hdb|done]|].
  change (pg_save_aggregate a' [s] w5) with (save_aggregate a' [s] w5) in E6.
  rewrite (bind_Ok _ _ _ _ _ E6) in Hr. injection Hr as <- _. by eexists.
Qed.

(** The admission check of [rotate_session] on the loaded session. *)
Lemma rotate_session_reuse now id (tm : bool) nid h exp a s :
  registry (agg_sessions a) !! id = Some s → s_is_active s = false →
  rotate_session now id tm nid h exp a = (Err SessionInvalidated, a).
Proof. rewrite registry_find. unfold rotate_session. by intros -> ->. Qed.

Lemma rotate_session_ok now id nid h exp a s :
  registry (agg_sessions a) !! id = Some s → s_is_active s = true → now < s_expires_at s →
  rotate_session now id true nid h exp a =
    (Ok (MkNewSession nid (u_id (agg_user a)) h exp (s_auth_method s)),
     agg_push (revoked id a) (EvSessionRefreshed
       (SessionRefreshed_new now (u_id (agg_user a)) nid (s_auth_method s)))).
Proof.
  rewrite registry_find. unfold rotate_session. intros -> -> Hexp.
  unfold Session_is_expired. by rewrite (proj2 (Z.leb_gt _ _) Hexp).
Qed.

(** A token of a revoked session, with nothing failing. *)
Lemma refresh_rotate_reuse token claims a w s r w' :
  db_ok (w_db w) → db_readable (w_db w) → loaded (w_db w) a → agg_wf a →
  w_pg w = [] → w_join w = [] →
  registry (agg_sessions a) !! rc_session_id claims = Some s → s_is_active s = false →
  refresh_rotate settings token claims a w = (r, w') → datable settings w w' →
  r = Err SessionInvalidated ∧ w_db w' = deactivate_user (u_id (agg_user a)) (w_db w).
Proof.
  intros Hok Hrd Hl Hwf Hp Hj Hs Hact Hr Hdate.
  destruct (refresh_rotate_prep token claims a w r w' Hj Hr Hdate) as (sid & tp & exp & h & now & w1 & Heq & F1 & _).
  rewrite (rotate_session_reuse _ _ _ _ _ _ _ _ Hs Hact) in Heq.
  rewrite (bind_Ok _ _ _ _ _ (utc_now_run w1)) in Heq.
  set (w2 := with_time w1 (reading w1) (tail (w_ticks w1))) in Heq.
  set (a' := invalidate_all_active_sessions (reading w1) a) in Heq.
  destruct F1 as (Hdb1 & Hpg1 & _).
  destruct (save_aggregate_total a' [] w2) as (w3 & E3 & _); [by simpl; rewrite Hpg1|by constructor|done|].
  change (pg_save_aggregate a' [] w2) with (save_aggregate a' [] w2) in E3.
  cbv zeta in Heq. rewrite (bind_Ok _ _ _ _ _ E3) in Heq. injection Heq as -> ->. split; [done|].
  assert (Hok2 : db_ok (w_db w2)) by (simpl; by rewrite Hdb1).
  apply (save_one_cases _ _ _ _ _ Hok2) in E3 as [_ [(? & _)|(_ & Hsv)]]; [done|].
  simpl in Hsv. rewrite Hdb1 in Hsv. by eapply saved_all.
Qed.
End total.

(** ** Inversions of the two halves of a refresh and of a logout *)

Section refresh.
Context `{UuidLib, BcryptLib}.
Context {js : JwtService} {jspec : JwtServiceSpec}.
Variable settings : AuthSettings.

Lemma refresh_load_Ok token w claims a w' :
  db_ok (w_db w) → refresh_load token w = (Ok (claims, a), w') →
  (∃ w1, validate_refresh_token token w = (Ok claims, w1)) ∧
  loaded (w_db w) a ∧ agg_wf a ∧ w_db w' = w_db w ∧ u_id (agg_user a) = rc_sub claims ∧ later w w'.
Proof.
  intros Hok Hr. unfold refresh_load in Hr. run_inv Hr. run_inv Hr. run_inv Hr. run_inv R1. run_inv Hr.
  pose proof (validate_refresh_framed _ _ _ _ R) as F. pose proof F as (Hdb & _).
  destruct v0 as [a'|]; [|done]. injection R1 as ->.
  pose proof (find_aggregate_advancing _ _ _ _ R0) as L.
  apply find_aggregate_by_id_Ok in R0 as (Hl & Hwf & Hdb' & Hid); [|by rewrite Hdb].
  rewrite Hdb in Hl. split_and!; try done; [by eexists|congruence|].
  subst w'. etrans; [by apply frame_later|done].
Qed.

(** With the database up and readable, loading succeeds for a known user. *)
Lemma refresh_load_total token w claims w1 :
  db_ok (w_db w) → db_readable (w_db w) → w_pg w = [] →
  validate_refresh_token token w = (Ok claims, w1) → is_Some (db_users (w_db w) !! rc_sub claims) →
  ∃ a, refresh_load token w = (Ok (claims, a), w1) ∧ w_db w1 = w_db w ∧ w_pg w1 = [] ∧
       w_join w1 = w_join w.
Proof.
  intros Hok Hrd Hp Hv Hu. pose proof (validate_refresh_framed _ _ _ _ Hv) as (Hdb & Hpg & _).
  destruct (find_aggregate_total (rc_sub claims) w1) as [a Ha]; [by rewrite ?Hdb, ?Hpg..|].
  exists a. split_and!; [|done|congruence|by eapply validate_refresh_join].
  unfold refresh_load. rewrite (bind_Ok _ _ _ _ _ Hv).
  change (pg_find_aggregate_by_id (rc_sub claims) w1) with (find_aggregate_by_id (rc_sub claims) w1) in Ha.
  by rewrite (bind_Ok _ _ _ _ _ Ha).
Qed.

(** A successful refresh, from the tables' point of view. *)
Lemma refresh_Ok_inv token w res w' :
  db_ok (w_db w) → refresh_token settings token w = (Ok res, w') →
  ∃ claims w1 s0 s now t,
    validate_refresh_token token w = (Ok claims, w1) ∧
    db_sessions (w_db w) !! rc_session_id claims = Some (row_of_session s0) ∧
    s_user_id s0 = rc_sub claims ∧ s_is_active s0 = true ∧
    w_clock w ≤ now ∧ now < s_expires_at s0 ∧
    bcrypt_verify token (hash_str (s_refresh_token_hash s0)) = Ok true ∧
    issued_session settings w (rc_sub claims) (s_auth_method s0) (rf_refresh_token res) s ∧
    rf_user_id res = rc_sub claims ∧ rf_session_id res = ns_id s ∧ rf_auth_method res = s_auth_method s0 ∧
    rf_events res = [EvSessionRefreshed (SessionRefreshed_new now (rc_sub claims) (ns_id s) (s_auth_method s0))] ∧
    w_clock w ≤ t ∧ db_sessions (w_db w) !! ns_id s = None ∧
    is_Some (db_users (w_db w) !! rc_sub claims) ∧ db_ok (w_db w') ∧
    w_db w' = with_sessions (w_db w)
      (<[ns_id s := new_session_row t s]>
        (alter row_deactivate (rc_session_id claims) (db_sessions (w_db w)))).
Proof.
  intros Hok Hr. unfold refresh_token in Hr. run_inv Hr. destruct v as [claims a].
  apply refresh_load_Ok in R as ((w1 & Hv) & Hl & Hwf & Hdb & Hid & Hlat); [|done].
  apply refresh_rotate_cases in Hr as [Hok' Hc]; [|by rewrite Hdb|by destruct Hl as (_ & ? & _)].
  destruct Hc as [(s0 & s & tp & now & Hs0 & Hact & Hnow & Hexp & Hbv & Hiss & Hres & Hsv)|
                  [(? & ? & _ & _ & Hf & _)|(Hf & _)]]; [|done..].
  injection Hres as ->. rewrite Hdb in Hsv.
  destruct (saved_rotate _ _ _ _ _ _ _ Hl Hwf Hs0 Hsv) as (t & Ht & Hfresh & Hrow & Heq).
  unfold Session_is_expired in Hexp. apply Z.leb_gt in Hexp. destruct Hlat as [Hc1 Hc2].
  pose proof Hl as (Hu & _ & Hreg). pose proof Hs0 as Hs0'. apply Hreg in Hs0' as (_ & _ & Hsu).
  rewrite Hid in *. exists claims, w1, s0, s, now, t. simpl.
  split_and!; try done; try lia; try congruence; try (by eexists).
  eapply issued_session_later; [by split|exact Hiss].
Qed.

Lemma logout_cases uid sid w r w' :
  db_ok (w_db w) → logout uid sid w = (r, w') →
  (is_ok r = false ∧ db_ok (w_db w') ∧ (w_pg w = [] → w_db w' = w_db w)) ∨
  ∃ s0 now,
    db_sessions (w_db w) !! sid = Some (row_of_session s0) ∧ s_user_id s0 = uid ∧
    s_is_active s0 = true ∧ w_clock w ≤ now ∧ now < s_expires_at s0 ∧
    r = Ok [EvUserLoggedOut (UserLoggedOut_new now uid sid (s_auth_method s0))] ∧
    db_ok (w_db w') ∧
    w_db w' = with_sessions (w_db w) (alter row_deactivate sid (db_sessions (w_db w))).
Proof.
  intros Hok Hr. unfold logout in Hr. destruct find_aggregate_pure as (Hpure & _). specialize (Hpure uid w).
  ustep Hr ao w1 E1; change (find_aggregate_by_id uid w) with (pg_find_aggregate_by_id uid w) in E1;
    rewrite E1 in Hpure; simpl in Hpure.
  2:{ left. injection Hr as <- <-. rewrite Hpure. auto. }
  pose proof (find_aggregate_advancing _ _ _ _ E1) as [Hc1 _].
  assert (Hpg1 : w_pg w = [] → w_pg w1 = []) by (by eapply find_aggregate_pg).
  destruct ao as [a|]; simpl in Hr; rewrite bind_run in Hr; simpl in Hr.
  2:{ left. injection Hr as <- <-. rewrite Hpure. auto. }
  apply find_aggregate_by_id_Ok in E1 as (Hl & Hwf & _ & Hid); [|done].
  ustep Hr now w2 E2; [|done]. pose proof (framed_utc_now _ _ _ E2) as (Hdb2 & Hpg2 & _).
  apply utc_now_Ok in E2 as (Hnow & Hc2 & _). unfold invalidate_session in Hr.
  assert (Hleft : ∀ (e : AuthError) , (Err e, w2) = (r, w') →
    is_ok r = false ∧ db_ok (w_db w') ∧ (w_pg w = [] → w_db w' = w_db w)).
  { intros e [= <- <-]. rewrite Hdb2, Hpure. auto. }
  destruct (find (has_id sid) (agg_sessions a)) as [s0|] eqn:Hf; [|left; exact (Hleft _ Hr)].
  destruct (bool_decide (s_user_id s0 = _)) eqn:Hu; simpl in Hr; [|left; exact (Hleft _ Hr)].
  destruct (s_is_active s0) eqn:Hact; simpl in Hr; [|left; exact (Hleft _ Hr)].
  destruct (Session_is_expired now s0) eqn:Hexp; [left; exact (Hleft _ Hr)|].
  rewrite bind_run in Hr. simpl in Hr. rewrite <- registry_find in Hf.
  assert (Hok2 : db_ok (w_db w2)) by by rewrite Hdb2, Hpure.
  set (a' := agg_push _ _) in Hr.
  ustep Hr u w3 E3; apply (save_one_cases a' [] w2 _ _ Hok2) in E3;
    change (invalidated_ids a') with (invalidated_ids (revoked sid a)) in E3;
    destruct E3 as [Hok3 [(He & Hnf & _)|(He & Hsv)]]; try done; rewrite Hdb2, Hpure in *.
  - right. injection Hr as <- <-. pose proof Hl as (_ & Hpe & Hreg). pose proof Hf as Hf'.
    apply Hreg in Hf' as (Hrow & _ & Hsu). exists s0, now. unfold Session_is_expired in Hexp.
    bool_to_prop. split_and!; try done; try lia; try congruence.
    + unfold a'; simpl. by rewrite Hpe, Hid.
    + by eapply saved_revoke.
  - left. injection Hr as <- <-. split_and!; try done. intros Hp. apply Hnf. rewrite Hpg2. auto.
Qed.
End refresh.

(** ** A concrete deployment for the witnesses *)

Definition demo_jwt : JwtService :=
  @JwtServiceImpl_service toy_uuid toy_jwt
    (JwtServiceImpl_new "0123456789abcdef0123456789abcdef" 15 7 "svc" "svc").

Lemma toy_token_no_nul key c t :
  @jwt_encode toy_jwt key c = Ok t → contains_char "000" t = false.
Proof.
  simpl. intros [= <-]. unfold contains_char. generalize (encode (key, c)). intros p.
  induction p; simpl; done.
Qed.

#[local] Instance demo_jwt_spec : @JwtServiceSpec demo_jwt.
Proof. apply JwtServiceImpl_spec. Qed.

Lemma toy_jwt_total self : @JwtServiceTotal (@JwtServiceImpl_service toy_uuid toy_jwt self).
Proof.
  assert (Hspec : @JwtServiceSpec (@JwtServiceImpl_service toy_uuid toy_jwt self)) by apply JwtServiceImpl_spec.
  split. intros uid sid w. destruct (generate_token_pair uid sid w) as [[tp|e] w'] eqn:E.
  - pose proof (generate_framed _ _ _ _ _ E) as F. exists tp, w'. split_and!; [done|done| |];
      apply jwt_generate_Ok in E as (_ & Hr & ->); [done|]. exact (toy_token_no_nul _ _ _ Hr).
  - exfalso. unfold generate_token_pair, JwtServiceImpl_service, jwt_generate in E.
    rewrite bind_run, utc_now_run, bind_run, now_v7_run in E. discriminate E.
Qed.

#[local] Instance demo_jwt_total : @JwtServiceTotal demo_jwt.
Proof. apply toy_jwt_total. Qed.

Definition demo_settings : AuthSettings :=
  MkAuthSettings "admin" "Test-Password-9!" "admin@example.com" "" "0123456789abcdef0123456789abcdef"
    "svc" "svc" 15 7 12 8 (BcryptLimiter_new 8).

Definition login_user : User :=
  User_new 7%N (Some "jdoe") (MkEmail "jdoe@example.com") "J Doe"
    (Some (MkHashedPassword "$2b$12$secret")) Local 0 0.

Definition login_db : Db := with_users empty_db {[7%N := row_of_user login_user]}.

Lemma login_db_ok : db_ok login_db.
Proof.
  split_and!; [by apply (bool_decide_unpack _); vm_compute..| |];
    intros i j r1 r2; [intros H1 H2 _|intros ? H1 H2 _ _]; simpl in H1, H2;
    apply lookup_singleton_Some in H1 as [<- _]; by apply lookup_singleton_Some in H2 as [<- _].
Qed.

Lemma login_db_readable : db_readable login_db.
Proof.
  split; intros id r Hr; simpl in Hr; [done|].
  apply lookup_singleton_Some in Hr as [<- <-]. by eexists.
Qed.

Definition login_world : World := fresh_world login_db (from_secs 1000).

Lemma fresh_dummies_ok `{BcryptLib} db t : dummies_ok (fresh_world db t).
Proof. intros c h Hc. simpl in Hc. by rewrite lookup_empty in Hc. Qed.

(** [login_with_password] on the concrete deployment, and the state after it. *)
Definition demo_login (password : string) : result AuthError LoginResult * World :=
  @login_with_password toy_uuid toy_bcrypt (@PostgresUserRepo toy_uuid) demo_jwt
    demo_settings "jdoe" password login_world.

Definition demo_token : string :=
  match (demo_login "secret").1 with Ok res => lr_refresh_token res | Err _ => EmptyString end.

Definition demo_refresh (w : World) : result AuthError RefreshResult * World :=
  @refresh_token toy_uuid toy_bcrypt (@PostgresUserRepo toy_uuid) demo_jwt demo_settings demo_token w.

Example demo_refresh_ok : is_ok (demo_refresh (demo_login "secret").2).1 = true.
Proof. vm_compute. reflexivity. Qed.

(** ** Properties *)

(** C1. A password login that succeeds was entitled to: the returned user is
    stored under that username and bcrypt accepted the password for its stored
    hash. Exactly one session row was added, active, owned by that user, under a
    fresh id, holding a bcrypt hash of the returned refresh token and expiring
    the configured number of days later; the rest of the database is unchanged,
    whatever database faults happened on the way. *)
Theorem login_sound `{UuidLib, BcryptLib, JwtServiceSpec} settings username password w res w' :
  db_ok (w_db w) → login_with_password settings username password w = (Ok res, w') →
  ∃ h s now t,
    let u := lr_user res in
    db_users (w_db w) !! u_id u = Some (row_of_user u) ∧ u_username u = Some username ∧
    u_password_hash u = Some h ∧ bcrypt_verify password (hash_str h) = Ok true ∧
    issued_session settings w (u_id u) Password (lr_refresh_token res) s ∧
    lr_session_id res = ns_id s ∧
    lr_events res = [EvUserLoggedIn (UserLoggedIn_new now (u_id u) (ns_id s) Password)] ∧
    db_sessions (w_db w) !! ns_id s = None ∧ w_clock w ≤ t ∧
    w_db w' = with_sessions (w_db w) (<[ns_id s := new_session_row t s]> (db_sessions (w_db w))) ∧
    db_ok (w_db w').
Proof.
  intros Hok Hr. destruct (login_cases _ _ _ _ _ _ Hok Hr)
    as [(? & _)|(u & h & s & tp & now & t & Heq & ?)]; [done|].
  injection Heq as ->. exists h, s, now, t. simpl. naive_solver.
Qed.

Lemma login_sound_witness :
  ∃ res w', demo_login "secret" = (Ok res, w') ∧
    ∃ s t, lr_session_id res = ns_id s ∧
      w_db w' = with_sessions login_db (<[ns_id s := new_session_row t s]> ∅).
Proof.
  destruct (demo_login "secret") as [[res|e] w'] eqn:E; [|vm_compute in E; discriminate E].
  exists res, w'. split; [reflexivity|].
  destruct (@login_sound toy_uuid toy_bcrypt demo_jwt demo_jwt_spec demo_settings "jdoe" "secret"
              login_world res w' login_db_ok E) as (h & s & now & t & _ & _ & _ & _ & _ & Hid & _ & _ & _ & Hdb & _).
  exists s, t. split; [exact Hid|exact Hdb].
Defined.

(** A login that does not match is refused without a trace: for an unknown
    username, an account without a password and a wrong password alike, the
    answer is [InvalidCredentials] and the database is unchanged. *)
Theorem login_rejects `{UuidLib, BcryptSpec, JwtService} settings username password w :
  db_ok (w_db w) → db_readable (w_db w) → w_pg w = [] → w_join w = [] → dummies_ok w →
  bcrypt_cost settings ≤ 31 →
  password_matches (find (username_is username) (rows (db_users (w_db w))) ≫= λ r, ok (UserRow_into_user r))
    password = false →
  ∃ w', login_with_password settings username password w = (Err InvalidCredentials, w') ∧
        w_db w' = w_db w.
Proof.
  intros Hok Hrd Hp Hj Hd Hc Hm.
  destruct (find_aggregate_run (select_user (username_is username))
              (find (username_is username) (rows (db_users (w_db w)))) w)
    as (ao & E1 & Hu & _ & _); [done..| |].
  { intros r Hr. by apply find_rows in Hr as [? _]. }
  change (find_aggregate_by_username username w = (Ok ao, w)) in E1.
  destruct (verify_password_run (E := AuthError) (agg_user <$> ao) password (bcrypt_cost settings) w Hd Hc)
    as (w1 & [E2 (Hdb & _)] & _).
  rewrite Hu, Hm in E2. exists w1. split; [|done].
  unfold login_with_password. rewrite (bind_Ok _ _ _ _ _ E1), Hu.
  assert (E2' : run_bounded (verify_password_timing_safe
            (find (username_is username) (rows (db_users (w_db w))) ≫= λ r, ok (UserRow_into_user r))
            password (bcrypt_cost settings)) w = (Ok false, w1)).
  { unfold run_bounded. by rewrite Hj. }
  rewrite (bind_Ok _ _ _ _ _ E2'). done.
Qed.

Lemma login_rejects_witness :
  ∃ w', demo_login "wrong" = (Err InvalidCredentials, w') ∧ w_db w' = login_db.
Proof.
  apply (@login_rejects toy_uuid toy_bcrypt toy_bcrypt_spec demo_jwt demo_settings "jdoe" "wrong" login_world);
    [exact login_db_ok|exact login_db_readable|reflexivity|reflexivity|apply fresh_dummies_ok
    |simpl; lia|vm_compute; reflexivity].
Defined.

(** A correct login succeeds: with the database and the worker pool up, a
    stored user with fewer than 25 active sessions whose hash accepts the
    password gets a session, as long as drawn session ids are unused. *)
Theorem login_succeeds `{UuidLib, BcryptSpec, JwtServiceTotal} {jspec : JwtServiceSpec}
    settings username password w r u :
  db_ok (w_db w) → db_readable (w_db w) → w_pg w = [] → w_join w = [] → dummies_ok w →
  4 ≤ bcrypt_cost settings ≤ 31 →
  find (username_is username) (rows (db_users (w_db w))) = Some r → UserRow_into_user r = Ok u →
  password_matches (Some u) password = true →
  Z.of_nat (length (List.filter sr_is_active (session_rows (of_user (u_id u)) (w_db w)))) < 25 →
  (∀ n, (w_seed w ≤ n)%nat → db_sessions (w_db w) !! uuid_v7 n = None) →
  ∀ o w', login_with_password settings username password w = (o, w') → datable settings w w' →
    ∃ res, o = Ok res ∧ lr_user res = u.
Proof.
  intros Hok Hrd Hp Hj Hd Hc Hrow Hconv Hm Hlim Hfresh o w' Hlogin Hdate.
  destruct (find_aggregate_run (select_user (username_is username)) (Some r) w)
    as (ao & E1 & Hu & Hs & Hcol); [done..| | |].
  { unfold select_user. by rewrite Hrow. }
  { intros ? [= <-]. by apply find_rows in Hrow as [? _]. }
  destruct (Hs (mk_is_Some _ _ eq_refl)) as [a ->]. specialize (Hcol a eq_refl).
  simpl in Hu. rewrite Hconv in Hu. injection Hu as Hu.
  pose proof E1 as E1'. change (find_aggregate_by_username username w = (Ok (Some a), w)) in E1.
  destruct (verify_password_run (E := AuthError) (agg_user <$> Some a) password (bcrypt_cost settings) w Hd)
    as (w1 & [E2 (Hdb & Hpg & Hclk & _ & Hjn & Hseed)] & _); [lia|].
  simpl in E2. rewrite Hu, Hm in E2.
  apply find_aggregate_by_username_Ok in E1' as ((Husr & _) & _); [|done].
  unfold login_with_password in Hlogin. rewrite (bind_Ok _ _ _ _ _ E1) in Hlogin.
  assert (E2' : run_bounded (verify_password_timing_safe (agg_user <$> Some a) password
            (bcrypt_cost settings)) w = (Ok true, w1)).
  { unfold run_bounded. simpl. by rewrite Hj, Hu. }
  rewrite (bind_Ok _ _ _ _ _ E2') in Hlogin. simpl in Hlogin. rewrite bind_run in Hlogin; simpl in Hlogin.
  unfold create_session_tokens in Hlogin. rewrite bind_run in Hlogin.
  destruct (open_session settings Password a w1) as [ro w2] eqn:E3.
  destruct (open_session_total settings Hc Password a w1 ro w2) as [[[sid tp] a'] ->]; try done.
  - congruence.
  - congruence.
  - intros now. eapply Z.le_lt_trans; [|exact Hlim]. rewrite Hu in Hcol. clear -Hcol.
    apply collect_Ok_iff in Hcol. unfold active_count.
    induction Hcol as [|x s xs ss Hx _ IH]; simpl; [lia|]. apply into_session_iff in Hx as [-> _]. simpl.
    destruct (s_is_active s); simpl; [destruct (negb _); simpl; lia|lia].
  - rewrite Hdb. by eexists.
  - rewrite Hdb. by apply Hfresh.
  - destruct Hdate as [Hlo Hhi]. split; [by rewrite Hclk|].
    by destruct ro as [[[? ?] ?]|]; injection Hlogin as _ <-.
  - injection Hlogin as <- <-. eexists. split; [done|]. simpl.
    destruct (open_session_cases settings Password a w1 _ _ ltac:(by rewrite Hdb) E3)
      as [(? & _)|(tp' & s & now & Heq & _)]; [done|]. by injection Heq as _ _ ->.
Qed.

Lemma demo_login_datable : datable demo_settings login_world (demo_login "secret").2.
Proof. split; vm_compute; [discriminate|reflexivity]. Qed.

Lemma login_succeeds_witness :
  ∃ res w', demo_login "secret" = (Ok res, w') ∧ lr_user res = login_user.
Proof.
  pose proof demo_login_datable as Hdate. destruct (demo_login "secret") as [o w'] eqn:E. simpl in Hdate.
  destruct (@login_succeeds toy_uuid toy_bcrypt toy_bcrypt_spec demo_jwt demo_jwt_total demo_jwt_spec
           demo_settings "jdoe" "secret" login_world (row_of_user login_user) login_user) with (o := o) (w' := w')
    as (res & -> & Hu);
    [exact login_db_ok|exact login_db_readable|reflexivity|reflexivity|apply fresh_dummies_ok
    |simpl; lia|vm_compute; reflexivity|vm_compute; reflexivity|vm_compute; reflexivity
    |vm_compute; reflexivity|intros n _; apply lookup_empty|exact E|exact Hdate|].
  exists res, w'. split; [reflexivity|exact Hu].
Defined.

(** C15. A login is decided by the password alone. With the database and the
    worker pool up: for an unknown username, an account without a password and a
    wrong password alike the answer is [InvalidCredentials] and the database is
    unchanged; and a stored user with fewer than 25 active sessions whose hash
    accepts the password gets a session, as long as drawn session ids are
    unused, access and refresh tokens can be signed, and the day on which the
    session would end, [REFRESH_TOKEN_EXPIRY_DAYS] from now, is one that chrono
    and Postgres have (for a lifetime that leads beyond them, which [from_env]
    accepts, the sum of dates panics). *)
Theorem login_decides `{UuidLib, BcryptSpec, JwtServiceTotal} {jspec : JwtServiceSpec}
    settings username password w :
  db_ok (w_db w) → db_readable (w_db w) → w_pg w = [] → w_join w = [] → dummies_ok w →
  4 ≤ bcrypt_cost settings ≤ 31 →
  let account := find (username_is username) (rows (db_users (w_db w))) ≫= λ r, ok (UserRow_into_user r) in
  (password_matches account password = false →
     ∃ w', login_with_password settings username password w = (Err InvalidCredentials, w') ∧ w_db w' = w_db w) ∧
  (∀ u o w', account = Some u → password_matches account password = true →
     Z.of_nat (length (List.filter sr_is_active (session_rows (of_user (u_id u)) (w_db w)))) < 25 →
     (∀ n, (w_seed w ≤ n)%nat → db_sessions (w_db w) !! uuid_v7 n = None) →
     login_with_password settings username password w = (o, w') → datable settings w w' →
     ∃ res, o = Ok res ∧ lr_user res = u).
Proof.
  intros Hok Hrd Hp Hj Hd Hc account. split; [apply login_rejects; done || lia|].
  intros u o w' Hu Hm Hlim Hfresh Hr Hdate. unfold account in *. rewrite Hu in Hm.
  apply bind_Some in Hu as (r & Hrow & Hconv).
  destruct (UserRow_into_user r) as [u'|] eqn:Hrc; [|done]. injection Hconv as ->.
  by eapply login_succeeds.
Qed.

Lemma login_decides_witness :
  (∃ w', demo_login "wrong" = (Err InvalidCredentials, w') ∧ w_db w' = login_db) ∧
  ∃ res w', demo_login "secret" = (Ok res, w') ∧ lr_user res = login_user.
Proof.
  split.
  - refine (proj1 (@login_decides toy_uuid toy_bcrypt toy_bcrypt_spec demo_jwt demo_jwt_total demo_jwt_spec
      demo_settings "jdoe" "wrong" login_world login_db_ok login_db_readable eq_refl eq_refl
      (@fresh_dummies_ok toy_bcrypt _ _) _) _); [simpl; lia|vm_compute; reflexivity].
  - pose proof demo_login_datable as Hdate. destruct (demo_login "secret") as [o w'] eqn:E. simpl in Hdate.
    destruct (proj2 (@login_decides toy_uuid toy_bcrypt toy_bcrypt_spec demo_jwt demo_jwt_total demo_jwt_spec
      demo_settings "jdoe" "secret" login_world login_db_ok login_db_readable eq_refl eq_refl
      (@fresh_dummies_ok toy_bcrypt _ _) ltac:(simpl; lia)) login_user o w') as (res & -> & Hu);
      [vm_compute; reflexivity|vm_compute; reflexivity|vm_compute; reflexivity
      |intros n _; apply lookup_empty|exact E|exact Hdate|].
    exists res, w'. split; [reflexivity|exact Hu].
Defined.

(** C2. A refresh that succeeds is a rotation: the token's session was stored,
    active and unexpired, its hash accepted the presented token, and afterwards
    exactly that session is inactive and exactly one new session exists, owned
    by the same user, with the same auth method and a hash of the new refresh
    token. *)
Theorem refresh_rotates `{UuidLib, BcryptLib, JwtServiceSpec} settings token w res w' :
  db_ok (w_db w) → refresh_token settings token w = (Ok res, w') →
  ∃ claims w1 s0 s now t,
    validate_refresh_token token w = (Ok claims, w1) ∧
    db_sessions (w_db w) !! rc_session_id claims = Some (row_of_session s0) ∧
    s_user_id s0 = rc_sub claims ∧ s_is_active s0 = true ∧
    w_clock w ≤ now ∧ now < s_expires_at s0 ∧
    bcrypt_verify token (hash_str (s_refresh_token_hash s0)) = Ok true ∧
    issued_session settings w (rc_sub claims) (s_auth_method s0) (rf_refresh_token res) s ∧
    rf_user_id res = rc_sub claims ∧ rf_session_id res = ns_id s ∧ rf_auth_method res = s_auth_method s0 ∧
    db_sessions (w_db w) !! ns_id s = None ∧
    w_db w' = with_sessions (w_db w)
      (<[ns_id s := new_session_row t s]>
        (alter row_deactivate (rc_session_id claims) (db_sessions (w_db w)))).
Proof.
  intros Hok Hr. destruct (refresh_Ok_inv _ _ _ _ _ Hok Hr) as (claims & w1 & s0 & s & now & t & Hall).
  exists claims, w1, s0, s, now, t. naive_solver.
Qed.

Lemma demo_login_db_ok : db_ok (w_db (demo_login "secret").2).
Proof.
  destruct (demo_login "secret") as [r w'] eqn:E.
  destruct (login_cases demo_settings "jdoe" "secret" login_world r w' login_db_ok E)
    as [(_ & ? & _)|(? & ? & ? & ? & ? & ? & _ & _ & _ & _ & _ & _ & _ & _ & _ & ?)]; done.
Qed.

Lemma refresh_rotates_witness :
  ∃ res w' claims w1, demo_refresh (demo_login "secret").2 = (Ok res, w') ∧
    @validate_refresh_token demo_jwt demo_token (demo_login "secret").2 = (Ok claims, w1) ∧
    rf_user_id res = rc_sub claims.
Proof.
  destruct (demo_refresh (demo_login "secret").2) as [[res|e] w'] eqn:E.
  2:{ pose proof demo_refresh_ok as Hk. rewrite E in Hk. discriminate Hk. }
  destruct (@refresh_rotates toy_uuid toy_bcrypt demo_jwt demo_jwt_spec demo_settings demo_token
              (demo_login "secret").2 res w' demo_login_db_ok E)
    as (claims & w1 & s0 & s & now & t & Hv & _ & _ & _ & _ & _ & _ & _ & Hu & _).
  exists res, w', claims, w1. split; [reflexivity|]. split; [exact Hv|exact Hu].
Defined.

Lemma demo_login_readable : db_readable (w_db (demo_login "secret").2).
Proof.
  assert (Hu : db_users (w_db (demo_login "secret").2) = db_users login_db) by (vm_compute; reflexivity).
  split; [|rewrite Hu; exact (proj2 login_db_readable)].
  assert (Hs : bool_decide (map_Forall (λ _ r, is_ok (SessionRow_into_session r) = true)
                              (db_sessions (w_db (demo_login "secret").2))) = true)
    by (vm_compute; reflexivity).
  apply bool_decide_eq_true in Hs. intros id r Hr. specialize (Hs _ _ Hr). simpl in Hs.
  destruct (SessionRow_into_session r); [by eexists|done].
Qed.

(** Two requests with the same refresh token, both of which load the aggregate
    before either saves: the [UPDATE] of [save_aggregate] has no [is_active]
    guard, so both rotations succeed and the token yields two live sessions. *)
Definition demo_race : option (RefreshResult * RefreshResult * World) :=
  let load := @refresh_load (@PostgresUserRepo toy_uuid) demo_jwt demo_token in
  let rotate := @refresh_rotate toy_uuid toy_bcrypt (@PostgresUserRepo toy_uuid) demo_jwt demo_settings demo_token in
  match load (demo_login "secret").2 with
  | (Ok (c1, a1), w1) =>
      match load w1 with
      | (Ok (c2, a2), w2) =>
          match rotate c1 a1 w2 with
          | (Ok r1, w3) =>
              match rotate c2 a2 w3 with
              | (Ok r2, w4) => Some (r1, r2, w4)
              | _ => None
              end
          | _ => None
          end
      | _ => None
      end
  | _ => None
  end.

Theorem concurrent_refresh_both_succeed :
  match demo_race with
  | Some (r1, r2, w) =>
      rf_session_id r1 ≠ rf_session_id r2 ∧
      (sr_is_active <$> db_sessions (w_db w) !! rf_session_id r1) = Some true ∧
      (sr_is_active <$> db_sessions (w_db w) !! rf_session_id r2) = Some true
  | None => False
  end.
Proof. vm_compute. split_and!; [discriminate|reflexivity|reflexivity]. Qed.

Lemma find_aggregate_by_id_run uid w :
  w_pg w = [] → db_ok (w_db w) → db_readable (w_db w) →
  match db_users (w_db w) !! uid with
  | None => pg_find_aggregate_by_id uid w = (Ok None, w)
  | Some _ => ∃ a, pg_find_aggregate_by_id uid w = (Ok (Some a), w) ∧ loaded (w_db w) a ∧ agg_wf a ∧
                   u_id (agg_user a) = uid
  end.
Proof.
  intros Hp Hok Hrd. destruct (db_users (w_db w) !! uid) as [r|] eqn:Hr.
  - destruct (find_aggregate_total uid w Hp Hok Hrd (mk_is_Some _ _ Hr)) as [a Ha]. exists a.
    split; [done|]. by apply find_aggregate_by_id_Ok in Ha as (? & ? & _ & ?).
  - destruct (find_aggregate_run (select_user_by_id uid) None w Hp Hrd) as (ao & E & Hu & _); [|done|].
    + unfold select_user_by_id. by rewrite Hr.
    + destruct ao; [done|]. exact E.
Qed.

(** C18. Logout, completely: with the database up, the outcome is decided by the
    stored rows and the clock. An unknown user, a session that does not exist or
    belongs to someone else, an already revoked and an expired session are each
    reported and change nothing; otherwise exactly that session is deactivated
    and one [UserLoggedOut] event is returned. *)
Theorem logout_spec `{UuidLib} uid sid w :
  db_ok (w_db w) → db_readable (w_db w) → w_pg w = [] →
  ∃ r w', logout uid sid w = (r, w') ∧
  match db_users (w_db w) !! uid with
  | None => r = Err UserNotFound ∧ w_db w' = w_db w
  | Some _ =>
      match db_sessions (w_db w) !! sid with
      | Some row =>
          if of_user uid row then
            if sr_is_active row then
              if sr_expires_at row <=? reading w then r = Err SessionExpired ∧ w_db w' = w_db w
              else
                (∃ m, AuthMethod_try_from (sr_auth_method row) = Ok m ∧
                      r = Ok [EvUserLoggedOut (UserLoggedOut_new (reading w) uid sid m)]) ∧
                w_db w' = with_sessions (w_db w) (alter row_deactivate sid (db_sessions (w_db w)))
            else r = Err SessionInvalidated ∧ w_db w' = w_db w
          else r = Err SessionNotFound ∧ w_db w' = w_db w
      | None => r = Err SessionNotFound ∧ w_db w' = w_db w
      end
  end.
Proof.
  intros Hok Hrd Hp. pose proof (find_aggregate_by_id_run uid w Hp Hok Hrd) as Hfind.
  unfold logout. rewrite bind_run.
  change (find_aggregate_by_id uid w) with (pg_find_aggregate_by_id uid w).
  destruct (db_users (w_db w) !! uid) as [ru|] eqn:Hru; [|rewrite Hfind; by eexists _, _].
  destruct Hfind as (a & -> & Hl & Hwf & Hid). simpl. rewrite bind_run; simpl.
  rewrite (bind_Ok _ _ _ _ _ (utc_now_run w)).
  set (w1 := with_time w (reading w) (tail (w_ticks w))).
  unfold invalidate_session. rewrite <- registry_find.
  destruct (registry (agg_sessions a) !! sid) as [s|] eqn:Hs.
  - pose proof Hl as (_ & Hpe & Hreg). pose proof Hs as Hs'. apply Hreg in Hs' as (Hrow & Hne & Hsu).
    rewrite Hrow. unfold of_user; simpl. rewrite Hsu, Hid, !bool_decide_eq_true_2 by done. simpl.
    destruct (s_is_active s) eqn:Hact; simpl; [|by eexists _, _].
    unfold Session_is_expired. destruct (s_expires_at s <=? reading w) eqn:Hexp; [by eexists _, _|].
    rewrite bind_run; simpl. set (a' := agg_push _ _).
    destruct (save_aggregate_total a' [] w1) as (w2 & E2 & _); [done|by constructor|done|].
    pose proof E2 as E2'. change (pg_save_aggregate a' [] w1) with (save_aggregate a' [] w1) in E2'.
    rewrite (bind_Ok _ _ _ _ _ E2').
    apply (save_one_cases a' [] w1 _ _ Hok) in E2 as [_ [(? & _)|(_ & Hsv)]]; [done|].
    eexists _, w2. split; [reflexivity|]. split.
    + exists (s_auth_method s). rewrite AuthMethod_round_trip. split; [done|].
      unfold a'; simpl. by rewrite Hpe, ?Hid.
    + change (invalidated_ids a') with (invalidated_ids (revoked sid a)) in Hsv. by eapply saved_revoke.
  - rewrite bind_run; simpl. eexists _, _. split; [reflexivity|].
    destruct (db_sessions (w_db w) !! sid) as [row|] eqn:Hrow; [|done].
    unfold of_user. case_bool_decide as Hu; [|done].
    destruct (loaded_row _ _ _ _ Hl Hrd Hrow) as (x & _ & Hx); congruence.
Qed.

Lemma logout_spec_witness :
  ∃ r w', @logout (@PostgresUserRepo toy_uuid) 7%N 1%N demo_world = (r, w') ∧
    r = Ok [EvUserLoggedOut (UserLoggedOut_new 100 7%N 1%N Password)].
Proof.
  destruct (@logout_spec toy_uuid 7%N 1%N demo_world demo_db_ok demo_db_readable eq_refl)
    as (r & w' & Hr & Hspec). exists r, w'. split; [exact Hr|].
  vm_compute in Hspec. destruct Hspec as [[m [Hm ->]] _]. injection Hm as <-. reflexivity.
Defined.

(** *** Login with Google *)

(** What the use case relies on of the identity provider port. *)
Class AuthProviderSpec `{AuthProviderPort} : Prop := {
  verify_id_token_framed : ∀ t, framed (verify_id_token t) }.

Lemma create_Ok `{UuidLib} nu w u w' :
  db_ok (w_db w) → pg_create nu w = (Ok u, w') →
  ∃ id now, u_id u = id ∧ row_of_user u = new_user_row id now nu ∧
    (∀ j r, db_users (w_db w) !! j = Some r → ur_email r ≠ email_str (nu_email nu)) ∧
    db_ok (w_db w') ∧ later w w' ∧
    w_db w' = with_users (w_db w) (<[id := new_user_row id now nu]> (db_users (w_db w))).
Proof.
  intros Hok Hr. unfold pg_create, db_call in Hr. run_inv Hr. run_inv Hr. run_inv Hr. run_inv R1.
  apply lift_Ok_inv in Hr as [Hconv Hw]. subst w'.
  pose proof (framed_utc_now _ _ _ R) as F1. pose proof (framed_now_v7 _ _ _ R0) as F2.
  assert (L : later w w1) by (apply frame_later; by etrans).
  pose proof (advancing_exec _ _ _ _ R1) as L2.
  apply exec_Ok_inv in R1 as (db' & Hins & Hdb' & _).
  destruct F1 as (Hdb1 & _), F2 as (Hdb2 & _). rewrite Hdb2, Hdb1 in Hins.
  pose proof Hins as Hins'. apply insert_user_ok in Hins as (-> & Hok' & Heq & _); [|done].
  apply into_user_id in Hconv as [Hid Hrow]. exists v0, v. simpl in Hid, Heq.
  split_and!; try done; [| |by etrans|congruence].
  - intros j r Hj He. unfold insert_user in Hins'. case_bool_decide; [done|].
    destruct (username_taken _ _); [done|]. destruct (email_taken _ _) eqn:Het; [done|].
    pose proof (existsb_rows_false _ _ Het _ _ Hj) as Hf. unfold email_is in Hf. bool_to_prop. done.
  - congruence.
Qed.

(** The two ways [google_aggregate] can succeed. *)
Lemma google_aggregate_Ok `{UuidLib} info w ao a b w' w0 :
  db_ok (w_db w0) → pg_find_aggregate_by_email (gu_email info) w0 = (Ok ao, w) →
  google_aggregate info ao w = (Ok (a, b), w') →
  loaded (w_db w') a ∧ agg_wf a ∧ later w w' ∧ db_ok (w_db w') ∧
  email_str (u_email (agg_user a)) = gu_email info ∧
  (if b
   then (∀ j r, db_users (w_db w0) !! j = Some r → ur_email r ≠ gu_email info) ∧
        u_password_hash (agg_user a) = None ∧ u_auth_provider (agg_user a) = Google ∧
        w_db w' = with_users (w_db w0) (<[u_id (agg_user a) := row_of_user (agg_user a)]> (db_users (w_db w0)))
   else w_db w' = w_db w0).
Proof.
  intros Hok Hfind Hr. destruct find_aggregate_pure as (_ & _ & Hpure).
  pose proof (Hpure (gu_email info) w0) as Hdb. rewrite Hfind in Hdb. simpl in Hdb.
  unfold google_aggregate in Hr. destruct ao as [a0|].
  - injection Hr as <- <- <-. apply find_aggregate_by_email_Ok in Hfind as (Hl & Hwf & _ & He); [|done].
    rewrite Hdb. split_and!; try done.
  - run_inv Hr. run_inv R. destruct (Email_new (gu_email info)) as [e|] eqn:He; [|done]. injection R as <-.
    apply Email_new_Ok in He as [He _].
    run_inv Hr. change (pg_create (NewUser_new_google e (gu_name info)) w = (Ok v, w1)) in R.
    apply create_Ok in R as (id & now & Hid & Hrow & Hno & Hok1 & L1 & Hdb1); [|by rewrite Hdb].
    run_inv Hr. run_inv Hr. run_inv R0. destruct v0 as [a1|]; [|done]. injection R0 as ->.
    injection Hr as -> <- <-. pose proof (find_aggregate_advancing _ _ _ _ R) as L2.
    apply find_aggregate_by_id_Ok in R as (Hl & Hwf & Hdb2 & Huid); [|done].
    assert (Hagg : agg_user a = v).
    { apply row_of_user_inj. destruct Hl as (Hl & _). rewrite Huid, Hdb1, Hid in Hl. simpl in Hl.
      rewrite lookup_insert_eq in Hl. congruence. }
    assert (Hf : ur_email (row_of_user v) = email_str e ∧ ur_password_hash (row_of_user v) = None ∧
                 ur_auth_provider (row_of_user v) = "google"%string) by (rewrite Hrow; done).
    destruct Hf as (Hf1 & Hf2 & Hf3). simpl in Hf1, Hf2, Hf3.
    rewrite Hdb2, Hagg. split_and!; try done; try (by etrans).
    + intros j r Hj. rewrite He. apply (Hno j r). by rewrite Hdb.
    + by destruct (u_password_hash v).
    + by destruct (u_auth_provider v).
    + rewrite Hdb1, Hid, Hrow. congruence.
Qed.

(** Everything a successful Google login did. *)
Lemma google_login_Ok `{UuidLib, BcryptLib, JwtServiceSpec, AuthProviderSpec} settings id_token w res w' :
  db_ok (w_db w) → login_with_google settings id_token w = (Ok res, w') →
  ∃ info w1 s t now now2,
    let u := lg_user res in
    let users' := <[u_id u := row_of_user u]> (db_users (w_db w)) in
    verify_id_token id_token w = (Ok info, w1) ∧ email_str (u_email u) = gu_email info ∧
    issued_session settings w (u_id u) GoogleOAuth (lg_refresh_token res) s ∧
    lg_session_id res = ns_id s ∧ db_sessions (w_db w) !! ns_id s = None ∧ db_ok (w_db w') ∧
    w_db w' = with_sessions (with_users (w_db w) users')
                (<[ns_id s := new_session_row t s]> (db_sessions (w_db w))) ∧
    (if lg_is_new_user res
     then (∀ j r, db_users (w_db w) !! j = Some r → ur_email r ≠ gu_email info) ∧
          u_password_hash u = None ∧ u_auth_provider u = Google
     else db_users (w_db w) !! u_id u = Some (row_of_user u)) ∧
    lg_events res = (if lg_is_new_user res then [EvUserCreated (UserCreated_new now2 (u_id u) Google)] else []) ++
                    [EvUserLoggedIn (UserLoggedIn_new now (u_id u) (ns_id s) GoogleOAuth)].
Proof.
  intros Hok Hr. unfold login_with_google in Hr. run_inv Hr. rename v into info.
  pose proof (verify_id_token_framed _ _ _ _ R) as F1. pose proof F1 as (Hdb1 & _).
  run_inv Hr. change (pg_find_aggregate_by_email (gu_email info) w0 = (Ok v, w1)) in R0.
  pose proof (find_aggregate_advancing _ _ _ _ R0) as L1.
  run_inv Hr. destruct v0 as [a b].
  destruct (google_aggregate_Ok info w1 v a b _ w0 ltac:(by rewrite Hdb1) R0 R1)
    as (Hl & Hwf & L2 & Hok2 & He & Hb).
  run_inv Hr. destruct v0 as [[sid tp] a'].
  destruct (open_session_cases settings GoogleOAuth a _ _ _ Hok2 R2)
    as [(? & _)|(tp' & s & now & Heq & _ & _ & Hiss & Hok3 & Hsv)]; [done|]. injection Heq as -> -> ->.
  simpl in Hr. run_inv Hr. pose proof (framed_utc_now _ _ _ R3) as (Hdb5 & _).
  injection Hr as <- <-. simpl.
  destruct (saved_insert _ _ _ _ _ Hl Hwf Hsv) as (t & Ht & Hf & Hdb4).
  assert (L : later w w2) by (etrans; [by apply frame_later|]; by etrans).
  eexists info, w0, s, t, now, _. rewrite Hdb5. pose proof Hl as (Hu & Hpend & _). rewrite Hpend. destruct b.
  - destruct Hb as (Hno & Hpw & Hpr & Hdb2). rewrite Hdb2, Hdb1 in *. simpl in *.
    split_and!; try done. by eapply issued_session_later.
  - rewrite Hb, Hdb1 in *. split_and!; try done; [by eapply issued_session_later|].
    rewrite Hdb4. by rewrite (insert_id (db_users (w_db w))) by done.
Qed.

(** C19. A Google login that succeeds serves the user with exactly the verified
    email address. If no account has that address, a password-less Google
    account is created first; otherwise the user table is unchanged. Either way
    exactly one Google session is added for that user. *)
Theorem google_login_sound `{UuidLib, BcryptLib, JwtServiceSpec, AuthProviderSpec} settings id_token w res w' :
  db_ok (w_db w) → login_with_google settings id_token w = (Ok res, w') →
  ∃ info w1 s t,
    let u := lg_user res in
    let users' := <[u_id u := row_of_user u]> (db_users (w_db w)) in
    verify_id_token id_token w = (Ok info, w1) ∧ email_str (u_email u) = gu_email info ∧
    issued_session settings w (u_id u) GoogleOAuth (lg_refresh_token res) s ∧
    lg_session_id res = ns_id s ∧ db_sessions (w_db w) !! ns_id s = None ∧ db_ok (w_db w') ∧
    w_db w' = with_sessions (with_users (w_db w) users')
                (<[ns_id s := new_session_row t s]> (db_sessions (w_db w))) ∧
    (if lg_is_new_user res
     then (∀ j r, db_users (w_db w) !! j = Some r → ur_email r ≠ gu_email info) ∧
          u_password_hash u = None ∧ u_auth_provider u = Google
     else db_users (w_db w) !! u_id u = Some (row_of_user u)).
Proof.
  intros Hok Hr. destruct (google_login_Ok _ _ _ _ _ Hok Hr) as (info & w1 & s & t & now & now2 & Hall).
  exists info, w1, s, t. naive_solver.
Qed.

#[local] Instance demo_google : AuthProviderPort := {|
  verify_id_token t := if bool_decide (t = "good"%string)
    then mret (MkGoogleUserInfo "new@example.com" "New") else fail TokenVerificationFailed |}.

#[local] Instance demo_google_spec : AuthProviderSpec.
Proof. split. intros t. simpl. case_bool_decide; auto with svc. Qed.

Lemma google_login_sound_witness :
  ∃ res w', @login_with_google toy_uuid toy_bcrypt (@PostgresUserRepo toy_uuid) demo_jwt demo_google
              demo_settings "good" login_world = (Ok res, w') ∧
            email_str (u_email (lg_user res)) = "new@example.com"%string ∧ lg_is_new_user res = true.
Proof.
  destruct (@login_with_google toy_uuid toy_bcrypt (@PostgresUserRepo toy_uuid) demo_jwt demo_google
              demo_settings "good" login_world) as [[res|e] w'] eqn:E; [|vm_compute in E; discriminate E].
  exists res, w'. split; [reflexivity|].
  destruct (@google_login_sound toy_uuid toy_bcrypt demo_jwt demo_jwt_spec demo_google demo_google_spec
              demo_settings "good" login_world res w' login_db_ok E) as (info & w1 & s & t & Hv & He & _).
  injection Hv as <- _. split; [exact He|]. vm_compute in E. injection E as <- _. reflexivity.
Defined.
