(* ===== verification/Redis.v ===== *)
(** * Redis

    The Redis server as the service uses it: the parameter [RedisLib] with the
    documented effect of each command ([RedisSpec]), and what can happen to a
    round trip ([Net]). *)

From S2P Require Import Prelude RustStr.

(** The commands the service issues, each executed at server time [now]. *)
Class RedisLib : Type := {
  RState : Type;
  r_get : Z → string → RState → option Z;
  r_incr : Z → string → RState → Z * RState;
  r_expire : Z → string → Z → RState → RState;
  r_set_ex : Z → string → Z → RState → RState;
  r_exists : Z → string → RState → bool;
  r_del : string → RState → RState;
  r_view : RState → string → option (Z * option Z) }.

(** A key is visible until its deadline. *)
Definition r_live (now : Z) (v : option (Z * option Z)) : option (Z * option Z) :=
  match v with
  | Some (n, Some d) => if now <? d then v else None
  | _ => v
  end.

(** Documented effect of the commands, on the view of the store as a map from
    keys to a number and an optional deadline. *)
Class RedisSpec `{RedisLib} : Prop := {
  r_get_view : ∀ now k s, r_get now k s = fst <$> r_live now (r_view s k);
  r_incr_view : ∀ now k s,
    let v := r_live now (r_view s k) in
    let n := default 0 (fst <$> v) + 1 in
    (r_incr now k s).1 = n ∧ r_view (r_incr now k s).2 k = Some (n, v ≫= snd) ∧
    (∀ k', k' ≠ k → r_view (r_incr now k s).2 k' = r_view s k');
  r_expire_view : ∀ now k secs s n d, r_view s k = Some (n, d) → 0 < secs →
    r_view (r_expire now k secs s) k = Some (n, Some (now + from_secs secs)) ∧
    (∀ k', k' ≠ k → r_view (r_expire now k secs s) k' = r_view s k');
  r_set_ex_view : ∀ now k secs s, 0 < secs →
    r_view (r_set_ex now k secs s) k = Some (1, Some (now + from_secs secs)) ∧
    (∀ k', k' ≠ k → r_view (r_set_ex now k secs s) k' = r_view s k');
  r_exists_view : ∀ now k s, r_exists now k s = bool_decide (is_Some (r_live now (r_view s k)));
  r_del_view : ∀ k s, r_view (r_del k s) k = None ∧ (∀ k', k' ≠ k → r_view (r_del k s) k' = r_view s k') }.

(** The outcome of a Redis round trip: answered, failed before it took effect, or
    executed with the answer lost (an error or the 250 ms timeout). *)
Inductive Net : Type :=
| NetOk
| NetFail
| NetLost.

#[global] Instance Net_eq_dec : EqDecision Net.
Proof. solve_decision. Defined.

(** The server after a command that may not have reached it. *)
Definition applied `{RedisLib} (net : Net) (s s' : RState) : RState :=
  match net with NetFail => s | _ => s' end.

(** ** Lemmas *)

Lemma append_inj p a b : String.append p a = String.append p b → a = b.
Proof.
  induction p as [|x p IH]; [done|]. intros Heq. apply IH.
  change (String x (String.append p a) = String x (String.append p b)) in Heq. by injection Heq.
Qed.

Lemma r_live_later t t' v : t ≤ t' → r_live t' (r_live t v) = r_live t' v.
Proof.
  intros Hle. destruct v as [[n [d|]]|]; simpl; [|done..]. destruct (t <? d) eqn:E; [done|].
  simpl. destruct (t' <? d) eqn:E'; [|done]. bool_to_prop. lia.
Qed.

(** ** A concrete Redis for the witnesses *)

Definition toy_redis : RedisLib := {|
  RState := gmap string (Z * option Z);
  r_get := λ now k s, fst <$> r_live now (s !! k);
  r_incr := λ now k s,
    let v := r_live now (s !! k) in
    let n := default 0 (fst <$> v) + 1 in (n, <[k := (n, v ≫= snd)]> s);
  r_expire := λ now k secs s,
    match s !! k with Some (n, _) => <[k := (n, Some (now + from_secs secs))]> s | None => s end;
  r_set_ex := λ now k secs s, <[k := (1, Some (now + from_secs secs))]> s;
  r_exists := λ now k s, bool_decide (is_Some (r_live now (s !! k)));
  r_del := λ k s, delete k s;
  r_view := λ s k, s !! k |}.

Lemma toy_redis_spec : @RedisSpec toy_redis.
Proof.
  split; simpl; [done| | | |done|].
  - intros now k s. split_and!; [done|apply lookup_insert_eq|]. intros k' Hk. by rewrite lookup_insert_ne.
  - intros now k secs s n d Hk _. rewrite Hk. split; [apply lookup_insert_eq|].
    intros k' Hne. by rewrite lookup_insert_ne.
  - intros now k secs s _. split; [apply lookup_insert_eq|]. intros k' Hne. by rewrite lookup_insert_ne.
  - intros k s. split; [apply lookup_delete_eq|]. intros k' Hne. by rewrite lookup_delete_ne.
Qed.
