(* ===== verification/RateLimiter.v ===== *)
(** * Rate limiters

    The [RateLimiter] port of [crates/shared/src/ports.rs] and its two
    implementations in [crates/infrastructure/src/rate_limiter]:
    [MemoryRateLimiter] and [RedisRateLimiter] with its in-memory shadow, and the
    selection in [rate_limiter_setup.rs].

    An operation takes the clock readings [t1] and [t2] ([t1 <= t2]) of its two
    [Instant::now()] calls. Redis is the parameter [RedisLib]; what happens to a
    Redis round trip is the argument [net]. The abstract contract is a
    fixed-window counter per address, [spec_try]; both implementations refine it,
    and the request budget is proved once, against the contract. *)

From S2P Require Import Prelude RustStr Redis.

(** ** The port *)

Class RateLimiter (S : Type) : Type := {
  rl_check : Z → Z → IpAddr → S → bool * S;
  rl_record_attempt : Z → Z → IpAddr → S → S;
  rl_try_check_and_record : Z → Z → IpAddr → S → bool * S;
  rl_remaining_attempts : Z → IpAddr → S → Z * S;
  rl_reset : IpAddr → S → S }.

(** ** [MemoryRateLimiter] *)

Definition MAX_ENTRIES : Z := 100000.

Record RateLimitEntry : Type := MkEntry { attempts : Z; window_start : Z }.

Record MemoryRateLimiter : Type := MkMemory {
  max_attempts : Z;
  window_duration : Z;
  entries : gmap IpAddr RateLimitEntry }.

Definition MemoryRateLimiter_new (max_attempts window_seconds : Z) : MemoryRateLimiter :=
  MkMemory max_attempts (from_secs window_seconds) ∅.

Definition with_entries (l : MemoryRateLimiter) (m : gmap IpAddr RateLimitEntry) : MemoryRateLimiter :=
  MkMemory (max_attempts l) (window_duration l) m.

Definition clean_expired (now : Z) (l : MemoryRateLimiter) : MemoryRateLimiter :=
  with_entries l
    (filter (λ p, duration_since now (window_start p.2) < window_duration l) (entries l)).

(** [iter().min_by_key(..)]: the first entry with the smallest start; the order of
    a [HashMap]'s iteration is unspecified. *)
Fixpoint min_by_start (l : list (IpAddr * RateLimitEntry)) : option (IpAddr * RateLimitEntry) :=
  match l with
  | [] => None
  | p :: l' =>
      match min_by_start l' with
      | Some q => if window_start q.2 <? window_start p.2 then Some q else Some p
      | None => Some p
      end
  end.

Definition evict_oldest_if_full (l : MemoryRateLimiter) : MemoryRateLimiter :=
  if Z.of_nat (size (entries l)) <? MAX_ENTRIES then l
  else match min_by_start (map_to_list (entries l)) with
       | Some (oldest_ip, _) => with_entries l (delete oldest_ip (entries l))
       | None => l
       end.

Definition memory_check (t1 t2 : Z) (ip : IpAddr) (l : MemoryRateLimiter) : bool * MemoryRateLimiter :=
  let l := clean_expired t1 l in
  (match entries l !! ip with
   | Some entry =>
       if window_duration l <=? duration_since t2 (window_start entry) then true
       else attempts entry <? max_attempts l
   | None => true
   end, l).

(** The statements [record_attempt] and [try_check_and_record] start with: clean,
    make room for a new address, and find or insert its entry. *)
Definition entry_or_insert (t1 t2 : Z) (ip : IpAddr) (l : MemoryRateLimiter)
    : RateLimitEntry * MemoryRateLimiter :=
  let l := clean_expired t1 l in
  let l := match entries l !! ip with None => evict_oldest_if_full l | Some _ => l end in
  match entries l !! ip with
  | Some e => (e, l)
  | None => (MkEntry 0 t2, with_entries l (<[ip := MkEntry 0 t2]> (entries l)))
  end.

Definition set_entry (ip : IpAddr) (e : RateLimitEntry) (l : MemoryRateLimiter) : MemoryRateLimiter :=
  with_entries l (<[ip := e]> (entries l)).

Definition memory_record_attempt (t1 t2 : Z) (ip : IpAddr) (l : MemoryRateLimiter) : MemoryRateLimiter :=
  let '(entry, l) := entry_or_insert t1 t2 ip l in
  if window_duration l <=? duration_since t2 (window_start entry)
  then set_entry ip (MkEntry 1 t2) l
  else set_entry ip (MkEntry (wrap_u32 (attempts entry + 1)) (window_start entry)) l.

Definition memory_try (t1 t2 : Z) (ip : IpAddr) (l : MemoryRateLimiter) : bool * MemoryRateLimiter :=
  let '(entry, l) := entry_or_insert t1 t2 ip l in
  if window_duration l <=? duration_since t2 (window_start entry)
  then (true, set_entry ip (MkEntry 1 t2) l)
  else if attempts entry <? max_attempts l
  then (true, set_entry ip (MkEntry (wrap_u32 (attempts entry + 1)) (window_start entry)) l)
  else (false, l).

Definition memory_remaining (t : Z) (ip : IpAddr) (l : MemoryRateLimiter) : Z * MemoryRateLimiter :=
  (match entries l !! ip with
   | Some entry =>
       if window_duration l <=? duration_since t (window_start entry) then max_attempts l
       else saturating_sub (max_attempts l) (attempts entry)
   | None => max_attempts l
   end, l).

Definition memory_reset (ip : IpAddr) (l : MemoryRateLimiter) : MemoryRateLimiter :=
  with_entries l (delete ip (entries l)).

#[global] Instance MemoryRateLimiter_port : RateLimiter MemoryRateLimiter := {
  rl_check := memory_check;
  rl_record_attempt := memory_record_attempt;
  rl_try_check_and_record := memory_try;
  rl_remaining_attempts := memory_remaining;
  rl_reset := memory_reset }.

(** ** [RedisRateLimiter] *)

(** [Display] of an address. *)
Class IpDisplay : Type := { ip_to_string : IpAddr → string }.
Class IpDisplaySpec `{IpDisplay} : Prop := { ip_to_string_inj : Inj (=) (=) ip_to_string }.

Section redis.
Context `{RedisLib, IpDisplay}.

Record RedisRateLimiter : Type := MkRedis {
  rrl_server : RState;
  rrl_max_attempts : Z;
  rrl_window_seconds : Z;
  rrl_key_prefix : string;
  rrl_error_count : Z;
  rrl_shadow : MemoryRateLimiter }.

(** [connect], once the server answered the PING. *)
Definition RedisRateLimiter_connect (server : RState) (max_attempts window_seconds : Z)
    (key_prefix : string) : RedisRateLimiter :=
  MkRedis server max_attempts window_seconds key_prefix 0
    (MemoryRateLimiter_new max_attempts window_seconds).

Definition key (l : RedisRateLimiter) (ip : IpAddr) : string :=
  String.append "ratelimit:" (String.append (rrl_key_prefix l) (String.append ":" (ip_to_string ip))).

Definition with_server (l : RedisRateLimiter) (s : RState) : RedisRateLimiter :=
  MkRedis s (rrl_max_attempts l) (rrl_window_seconds l) (rrl_key_prefix l) (rrl_error_count l) (rrl_shadow l).

Definition with_shadow (l : RedisRateLimiter) (m : MemoryRateLimiter) : RedisRateLimiter :=
  MkRedis (rrl_server l) (rrl_max_attempts l) (rrl_window_seconds l) (rrl_key_prefix l) (rrl_error_count l) m.

Definition record_redis_error (l : RedisRateLimiter) : RedisRateLimiter :=
  MkRedis (rrl_server l) (rrl_max_attempts l) (rrl_window_seconds l) (rrl_key_prefix l)
    (wrap_u64 (rrl_error_count l + 1)) (rrl_shadow l).

(** [INCR_WITH_EXPIRE_SCRIPT] *)
Definition INCR_WITH_EXPIRE_SCRIPT (now : Z) (k : string) (argv1 : Z) (s : RState) : Z * RState :=
  let '(current, s) := r_incr now k s in
  let s := if current =? 1 then r_expire now k argv1 s else s in
  (current, s).

(** [TRY_CHECK_AND_RECORD_SCRIPT] *)
Definition TRY_CHECK_AND_RECORD_SCRIPT (now : Z) (k : string) (argv1 argv2 : Z) (s : RState) : Z * RState :=
  let '(current, s) := r_incr now k s in
  let s := if current =? 1 then r_expire now k argv1 s else s in
  (if current <=? argv2 then 1 else 0, s).

(** [conn.get::<_, Option<u32>>]: a counter beyond [u32] does not decode. *)
Definition get_u32 (net : Net) (now : Z) (k : string) (s : RState) : result unit (option Z) :=
  match net with
  | NetOk => match r_get now k s with
             | Some n => if (0 <=? n) && (n <=? U32_MAX) then Ok (Some n) else Err tt
             | None => Ok None
             end
  | _ => Err tt
  end.

Definition redis_check (net : Net) (t1 t2 : Z) (ip : IpAddr) (l : RedisRateLimiter) : bool * RedisRateLimiter :=
  match get_u32 net t1 (key l ip) (rrl_server l) with
  | Ok (Some count) => (count <? rrl_max_attempts l, l)
  | Ok None => (true, l)
  | Err _ =>
      let l := record_redis_error l in
      let '(b, m) := memory_check t1 t2 ip (rrl_shadow l) in (b, with_shadow l m)
  end.

Definition redis_record_attempt (net : Net) (t1 t2 : Z) (ip : IpAddr) (l : RedisRateLimiter) : RedisRateLimiter :=
  let '(_, s') := INCR_WITH_EXPIRE_SCRIPT t1 (key l ip) (rrl_window_seconds l) (rrl_server l) in
  let l := with_server l (applied net (rrl_server l) s') in
  match net with
  | NetOk => l
  | _ => let l := record_redis_error l in
         with_shadow l (memory_record_attempt t1 t2 ip (rrl_shadow l))
  end.

Definition redis_try (net : Net) (t1 t2 : Z) (ip : IpAddr) (l : RedisRateLimiter) : bool * RedisRateLimiter :=
  let '(allowed, s') := TRY_CHECK_AND_RECORD_SCRIPT t1 (key l ip) (rrl_window_seconds l)
                          (rrl_max_attempts l) (rrl_server l) in
  let l := with_server l (applied net (rrl_server l) s') in
  match net with
  | NetOk => (negb (allowed =? 0), l)
  | _ => let l := record_redis_error l in
         let '(b, m) := memory_try t1 t2 ip (rrl_shadow l) in (b, with_shadow l m)
  end.

Definition redis_remaining (net : Net) (t : Z) (ip : IpAddr) (l : RedisRateLimiter) : Z * RedisRateLimiter :=
  match get_u32 net t (key l ip) (rrl_server l) with
  | Ok (Some count) => (saturating_sub (rrl_max_attempts l) count, l)
  | Ok None => (rrl_max_attempts l, l)
  | Err _ =>
      let l := record_redis_error l in
      let '(n, m) := memory_remaining t ip (rrl_shadow l) in (n, with_shadow l m)
  end.

Definition redis_reset (net : Net) (ip : IpAddr) (l : RedisRateLimiter) : RedisRateLimiter :=
  let s' := r_del (key l ip) (rrl_server l) in
  let l := with_server l (applied net (rrl_server l) s') in
  let l := match net with NetOk => l | _ => record_redis_error l end in
  with_shadow l (memory_reset ip (rrl_shadow l)).

(** The port, for a network that behaves as [net]. *)
Definition RedisRateLimiter_port (net : Net) : RateLimiter RedisRateLimiter := {|
  rl_check := redis_check net;
  rl_record_attempt := redis_record_attempt net;
  rl_try_check_and_record := redis_try net;
  rl_remaining_attempts := redis_remaining net;
  rl_reset := redis_reset net |}.

(** ** [build_rate_limiters]

    The limiter pair for login and refresh. [connect url scope] is the outcome of
    reaching Redis for one of them: the server, or the error that aborts
    startup. *)
Inductive AnyLimiter : Type :=
| LMemory (l : MemoryRateLimiter)
| LRedis (l : RedisRateLimiter).

Definition build_rate_limiters (redis_url : option string) (max_attempts window_seconds : Z)
    (connect : string → string → result string RState) : result string (AnyLimiter * AnyLimiter) :=
  match redis_url with
  | Some url =>
      login ← (λ s, RedisRateLimiter_connect s max_attempts window_seconds "login") <$> connect url "login"%string;
      refresh ← (λ s, RedisRateLimiter_connect s max_attempts window_seconds "refresh") <$> connect url "refresh"%string;
      Ok (LRedis login, LRedis refresh)
  | None =>
      Ok (LMemory (MemoryRateLimiter_new max_attempts window_seconds),
          LMemory (MemoryRateLimiter_new max_attempts window_seconds))
  end.

End redis.

(** ** The contract: a fixed-window counter per address

    The first attempt of an address opens a window; within it, an attempt is
    allowed while fewer than [max] were made; once it is over, the next attempt
    opens a new one. *)

Abbreviation SpecState := (gmap IpAddr (Z * Z)).

Definition spec_live (W now : Z) (o : option (Z * Z)) : option (Z * Z) :=
  match o with
  | Some (s, n) => if now - s <? W then o else None
  | None => None
  end.

Definition spec_try (max W now : Z) (ip : IpAddr) (σ : SpecState) : bool * SpecState :=
  match spec_live W now (σ !! ip) with
  | Some (s, n) => (n <? max, <[ip := (s, n + 1)]> σ)
  | None => (true, <[ip := (now, 1)]> σ)
  end.


(** ** Sequences of attempts *)

Record Call : Type := MkCall { c_t1 : Z; c_t2 : Z; c_ip : IpAddr }.

Fixpoint run_tries {S} (try : Z → Z → IpAddr → S → bool * S) (s : S) (cs : list Call) : list bool :=
  match cs with
  | [] => []
  | c :: cs' => let '(b, s') := try (c_t1 c) (c_t2 c) (c_ip c) s in b :: run_tries try s' cs'
  end.

Fixpoint ordered (t0 : Z) (cs : list Call) : Prop :=
  match cs with
  | [] => True
  | c :: cs' => t0 ≤ c_t1 c ∧ c_t1 c ≤ c_t2 c ∧ ordered (c_t2 c) cs'
  end.

Fixpoint roomy {S} (room : IpAddr → S → Prop) (try : Z → Z → IpAddr → S → bool * S) (s : S)
    (cs : list Call) : Prop :=
  match cs with
  | [] => True
  | c :: cs' => room (c_ip c) s ∧ roomy room try (try (c_t1 c) (c_t2 c) (c_ip c) s).2 cs'
  end.




(** ** The budget, from the contract *)


Section budget.
Context {S : Type} (try : Z → Z → IpAddr → S → bool * S) (max W : Z) `{FW : !FixedWindow try max W}.
Hypothesis Hmax : 1 ≤ max.






End budget.




(** ** [MemoryRateLimiter] refines the contract *)

Definition mem_live (W t : Z) (o : option RateLimitEntry) : option RateLimitEntry :=
  match o with
  | Some e => if duration_since t (window_start e) <? W then Some e else None
  | None => None
  end.

Lemma clean_lookup t l ip : entries (clean_expired t l) !! ip = mem_live (window_duration l) t (entries l !! ip).
Proof.
  unfold clean_expired; simpl. destruct (entries l !! ip) as [e|] eqn:He; simpl.
  - destruct (duration_since t (window_start e) <? window_duration l) eqn:Hd; bool_to_prop.
    + by apply map_lookup_filter_Some.
    + apply map_lookup_filter_None. right. intros e' He' Hlt. simplify_eq. simpl in Hlt. lia.
  - apply map_lookup_filter_None. by left.
Qed.

Lemma clean_size t l : (size (entries (clean_expired t l)) ≤ size (entries l))%nat.
Proof. apply map_subseteq_size, map_filter_subseteq. Qed.

(** The entry of an address with [n] attempts in the window opened at [s]. *)
Definition abs_entry (max : Z) (p : Z * Z) : RateLimitEntry := MkEntry (p.2 `min` max) p.1.

Definition mem_rel (max W t : Z) (l : MemoryRateLimiter) (σ : SpecState) : Prop :=
  max_attempts l = max ∧ window_duration l = W ∧
  (∀ ip e, entries l !! ip = Some e → window_start e ≤ t) ∧
  (∀ ip s n, σ !! ip = Some (s, n) → s ≤ t ∧ 1 ≤ n) ∧
  (∀ ip, mem_live W t (entries l !! ip) = abs_entry max <$> spec_live W t (σ !! ip)).

Lemma mem_live_later W t t' o : t ≤ t' → (∀ e, o = Some e → window_start e ≤ t) →
  mem_live W t' (mem_live W t o) = mem_live W t' o.
Proof.
  intros Hle He. destruct o as [e|]; simpl; [|done]. specialize (He e eq_refl).
  destruct (duration_since t (window_start e) <? W) eqn:E; [done|]. simpl.
  destruct (duration_since t' (window_start e) <? W) eqn:E'; [|done].
  unfold duration_since in *. bool_to_prop. lia.
Qed.

Lemma spec_live_later W t t' o : t ≤ t' → spec_live W t' (spec_live W t o) = spec_live W t' o.
Proof.
  intros Hle. destruct o as [[s n]|]; simpl; [|done].
  destruct (t - s <? W) eqn:E; [done|]. simpl. destruct (t' - s <? W) eqn:E'; [|done]. bool_to_prop. lia.
Qed.

Lemma abs_live max W t o :
  (∀ s n, o = Some (s, n) → s ≤ t) →
  mem_live W t (abs_entry max <$> o) = abs_entry max <$> spec_live W t o.
Proof.
  destruct o as [[s n]|]; simpl; [|done]. intros Hs. specialize (Hs s n eq_refl).
  unfold duration_since. rewrite Z.max_r by lia. by destruct (t - s <? W).
Qed.

Lemma mem_rel_later max W t t' l σ : t ≤ t' → mem_rel max W t l σ → mem_rel max W t' l σ.
Proof.
  intros Hle (Hm & Hw & He & Hs & Hl). split_and!; try done.
  - intros ip e Hip. specialize (He _ _ Hip). lia.
  - intros ip s n Hip. specialize (Hs _ _ _ Hip). lia.
  - intros ip. rewrite <- (mem_live_later W t t') by (try done; apply He). rewrite Hl.
    rewrite abs_live.
    + by rewrite spec_live_later.
    + intros s n Hsn. unfold spec_live in Hsn. destruct (σ !! ip) as [[s' n']|] eqn:E; [|done].
      destruct (t - s' <? W); simplify_eq. specialize (Hs _ _ _ E). lia.
Qed.

Definition mem_room (ip : IpAddr) (l : MemoryRateLimiter) : Prop := Z.of_nat (size (entries l)) < MAX_ENTRIES.

(** The state [entry_or_insert] works on, when there is room. *)
Lemma entry_or_insert_room t1 t2 ip l :
  mem_room ip l →
  entry_or_insert t1 t2 ip l =
    match mem_live (window_duration l) t1 (entries l !! ip) with
    | Some e => (e, clean_expired t1 l)
    | None => (MkEntry 0 t2, set_entry ip (MkEntry 0 t2) (clean_expired t1 l))
    end.
Proof.
  intros Hroom. unfold entry_or_insert. rewrite clean_lookup.
  destruct (mem_live _ _ _) as [e|] eqn:E; [by rewrite clean_lookup, E|].
  unfold evict_oldest_if_full. pose proof (clean_size t1 l). unfold mem_room in Hroom.
  rewrite (proj2 (Z.ltb_lt _ _)) by lia. by rewrite clean_lookup, E.
Qed.

(** Writing the entry of [ip] in both states keeps the relation. *)
Lemma mem_rel_set max W t t1 l σ ip s n :
  mem_rel max W t l σ → t1 ≤ t → s ≤ t → 1 ≤ n →
  mem_rel max W t (set_entry ip (abs_entry max (s, n)) (clean_expired t1 l)) (<[ip := (s, n)]> σ).
Proof.
  intros (Hm & Hw & He & Hs & Hl) Ht1 Hst Hn. split_and!; try done.
  - simpl. intros j e [[<- <-]|[_ Hj]]%lookup_insert_Some; [done|].
    apply map_lookup_filter_Some in Hj as [Hj _]. by eapply He.
  - intros j s' n' [[_ [= <- <-]]|[_ Hj]]%lookup_insert_Some; [done|by eapply Hs].
  - intros j. simpl. destruct (decide (j = ip)) as [->|Hne].
    + rewrite !lookup_insert_eq. apply (abs_live max W t (Some (s, n))). naive_solver.
    + rewrite !lookup_insert_ne by done. rewrite <- Hl.
      pose proof (clean_lookup t1 l j) as Hcl. simpl in Hcl. rewrite Hcl, Hw.
      destruct (entries l !! j) as [e|] eqn:Ej; simpl; [|done].
      destruct (duration_since t1 (window_start e) <? W) eqn:E1; simpl; [done|].
      destruct (duration_since t (window_start e) <? W) eqn:E2; [|done].
      unfold duration_since in *. bool_to_prop. lia.
Qed.

Lemma set_entry_twice ip e e' l : set_entry ip e (set_entry ip e' l) = set_entry ip e l.
Proof. unfold set_entry, with_entries; simpl. by rewrite insert_insert_eq. Qed.

Lemma mem_rel_open max W t t1 l σ ip :
  1 ≤ max → mem_rel max W t l σ → t1 ≤ t →
  mem_rel max W t (set_entry ip (MkEntry 1 t) (clean_expired t1 l)) (<[ip := (t, 1)]> σ).
Proof.
  intros Hm Hrel Ht. pose proof (mem_rel_set max W t t1 l σ ip t 1 Hrel Ht) as Hset.
  unfold abs_entry in Hset; simpl in Hset. rewrite Z.min_l in Hset by lia. apply Hset; lia.
Qed.

(** An attempt beyond the budget: the entry stays at [max]. *)
Lemma mem_rel_full max W t t1 l σ ip s n :
  mem_rel max W t l σ → mem_rel max W t1 l σ → t1 ≤ t → σ !! ip = Some (s, n) → t1 - s < W → max ≤ n →
  mem_rel max W t (clean_expired t1 l) (<[ip := (s, n + 1)]> σ).
Proof.
  intros Hrel (_ & Hw & _ & Hs1 & Hl1) Ht Eip Hlive Hn. destruct (Hs1 _ _ _ Eip) as [Hst Hpos].
  pose proof (mem_rel_set max W t t1 l σ ip s (n + 1) Hrel Ht) as Hset.
  unfold abs_entry in Hset; simpl in Hset. rewrite Z.min_r in Hset by lia.
  specialize (Hset ltac:(lia) ltac:(lia)).
  replace (clean_expired t1 l) with (set_entry ip (MkEntry max s) (clean_expired t1 l)); [done|].
  pose proof (clean_lookup t1 l ip) as Hcl. rewrite Hw, Hl1, Eip in Hcl. unfold spec_live in Hcl.
  rewrite (proj2 (Z.ltb_lt (t1 - s) W)) in Hcl by lia. simpl in Hcl. unfold abs_entry in Hcl; simpl in Hcl.
  rewrite Z.min_r in Hcl by lia. unfold set_entry. rewrite insert_id by exact Hcl. done.
Qed.

Lemma memory_try_spec max W t0 t1 t2 ip l σ :
  1 ≤ max ≤ U32_MAX → 0 < W → mem_rel max W t0 l σ → t0 ≤ t1 → t1 ≤ t2 → mem_room ip l →
  (memory_try t1 t2 ip l).1 = (spec_try max W t2 ip σ).1 ∧
  mem_rel max W t2 (memory_try t1 t2 ip l).2 (spec_try max W t2 ip σ).2.
Proof.
  intros Hmax HW Hrel0 Ht0 Ht Hroom.
  assert (Hrel : mem_rel max W t2 l σ) by (eapply mem_rel_later; [|exact Hrel0]; lia).
  assert (Hrel1 : mem_rel max W t1 l σ) by (eapply mem_rel_later; [|exact Hrel0]; lia).
  pose proof Hrel as (Hm & Hw & _). pose proof Hrel1 as (_ & _ & _ & Hs1 & Hl1).
  assert (Hopen : spec_live W t1 (σ !! ip) = None →
    memory_try t1 t2 ip l = (true, set_entry ip (MkEntry 1 t2) (clean_expired t1 l))).
  { intros Hdead. unfold memory_try. rewrite entry_or_insert_room, Hw, Hl1, Hdead by done. simpl.
    rewrite Hw. unfold duration_since. rewrite Z.max_l by lia. rewrite (proj2 (Z.leb_gt W 0)) by lia.
    rewrite Hm, (proj2 (Z.ltb_lt 0 max)) by lia. by rewrite set_entry_twice. }
  unfold spec_try. destruct (σ !! ip) as [[s n]|] eqn:Eip; simpl.
  2:{ rewrite Hopen by done. split; [done|]. apply mem_rel_open; [lia|done..]. }
  destruct (Hs1 _ _ _ Eip) as [Hst Hn]. destruct (t1 - s <? W) eqn:E1; bool_to_prop.
  2:{ rewrite (proj2 (Z.ltb_ge (t2 - s) W)) by lia.
      rewrite Hopen by (simpl; by rewrite (proj2 (Z.ltb_ge (t1 - s) W)) by lia).
      split; [done|]. apply mem_rel_open; [lia|done..]. }
  clear Hopen. unfold memory_try. rewrite entry_or_insert_room, Hw, Hl1, Eip by done. simpl.
  rewrite (proj2 (Z.ltb_lt (t1 - s) W)) by lia. simpl. rewrite Hw. unfold duration_since.
  rewrite Z.max_r by lia. destruct (t2 - s <? W) eqn:E2; bool_to_prop.
  - rewrite (proj2 (Z.leb_gt W (t2 - s))) by lia. rewrite Hm. destruct (n <? max) eqn:En; bool_to_prop.
    + rewrite (proj2 (Z.ltb_lt (n `min` max) max)) by lia. split; [done|]. simpl.
      rewrite Z.min_l by lia. rewrite wrap_u32_id by (unfold in_u32; lia).
      pose proof (mem_rel_set max W t2 t1 l σ ip s (n + 1) Hrel Ht) as Hset.
      unfold abs_entry in Hset; simpl in Hset. rewrite Z.min_l in Hset by lia. apply Hset; lia.
    + rewrite (proj2 (Z.ltb_ge (n `min` max) max)) by lia. split; [done|]. by eapply mem_rel_full.
  - rewrite (proj2 (Z.leb_le W (t2 - s))) by lia. split; [done|]. apply mem_rel_open; [lia|done..].
Qed.


Lemma mem_rel_new max secs t : mem_rel max (from_secs secs) t (MemoryRateLimiter_new max secs) ∅.
Proof. by split_and!. Qed.

(** ** [RedisRateLimiter] refines the contract while Redis answers *)

Section redis_refines.
Context `{RedisSpec, IpDisplaySpec}.

Lemma key_inj l ip ip' : key l ip = key l ip' → ip = ip'.
Proof. unfold key. intros Heq. by apply append_inj, append_inj, append_inj, ip_to_string_inj in Heq. Qed.

(** The counter key of an address with [n] attempts in the window opened at [s]. *)
Definition abs_key (W : Z) (p : Z * Z) : Z * option Z := (p.2, Some (p.1 + W)).

Definition redis_rel (max W t : Z) (l : RedisRateLimiter) (σ : SpecState) : Prop :=
  rrl_max_attempts l = max ∧ from_secs (rrl_window_seconds l) = W ∧
  (∀ ip s n, σ !! ip = Some (s, n) → 1 ≤ n) ∧
  (∀ ip, r_live t (r_view (rrl_server l) (key l ip)) = abs_key W <$> spec_live W t (σ !! ip)).

Lemma abs_key_live W t o : r_live t (abs_key W <$> o) = abs_key W <$> spec_live W t o.
Proof.
  destruct o as [[s n]|]; simpl; [|done].
  assert ((t <? s + W) = (t - s <? W)) as ->; [|by destruct (t - s <? W)].
  destruct (t - s <? W) eqn:E; bool_to_prop; [apply Z.ltb_lt|apply Z.ltb_ge]; lia.
Qed.

Lemma redis_rel_later max W t t' l σ : t ≤ t' → redis_rel max W t l σ → redis_rel max W t' l σ.
Proof.
  intros Hle (Hm & Hw & Hn & Hl). split_and!; try done. intros ip.
  rewrite <- (r_live_later t t') by done. rewrite Hl, abs_key_live. by rewrite spec_live_later.
Qed.

(** Updating the counter key of [ip] in both states keeps the relation. *)
Lemma redis_rel_set max W t l σ ip s n server' :
  redis_rel max W t l σ → 1 ≤ n →
  r_view server' (key l ip) = Some (n, Some (s + W)) →
  (∀ k, k ≠ key l ip → r_view server' k = r_view (rrl_server l) k) →
  redis_rel max W t (with_server l server') (<[ip := (s, n)]> σ).
Proof.
  intros (Hm & Hw & Hpos & Hl) Hn Hk Hother. split_and!; try done.
  - intros j s' n' [[_ [= <- <-]]|[_ Hj]]%lookup_insert_Some; [done|by eapply Hpos].
  - intros j. change (key (with_server l server') j) with (key l j). simpl.
    destruct (decide (j = ip)) as [->|Hne].
    + rewrite lookup_insert_eq, Hk. apply (abs_key_live W t (Some (s, n))).
    + rewrite lookup_insert_ne by done. rewrite Hother by (intros Heq; by apply key_inj in Heq). apply Hl.
Qed.

Lemma redis_try_spec max W t0 t1 t2 ip l σ :
  1 ≤ max → 0 < W → redis_rel max W t0 l σ → t0 ≤ t1 → t1 ≤ t2 →
  (redis_try NetOk t1 t2 ip l).1 = (spec_try max W t1 ip σ).1 ∧
  redis_rel max W t2 (redis_try NetOk t1 t2 ip l).2 (spec_try max W t1 ip σ).2.
Proof.
  intros Hmax HW Hrel0 Ht0 Ht.
  assert (Hrel : redis_rel max W t1 l σ) by (by eapply redis_rel_later).
  pose proof Hrel as (Hm & Hw & Hpos & Hl). specialize (Hl ip).
  destruct (r_incr_view t1 (key l ip) (rrl_server l)) as (Hn & Hv & Ho). rewrite Hl in Hn, Hv.
  unfold redis_try, TRY_CHECK_AND_RECORD_SCRIPT.
  destruct (r_incr t1 (key l ip) (rrl_server l)) as [cur s1]. simpl in Hn, Hv, Ho. unfold spec_try.
  destruct (spec_live W t1 (σ !! ip)) as [[w n]|] eqn:Hsl; simpl in *; subst cur.
  - assert (Hp : 1 ≤ n).
    { unfold spec_live in Hsl. destruct (σ !! ip) as [[w' n']|] eqn:E; [|done].
      destruct (t1 - w' <? W); simplify_eq. by eapply Hpos. }
    rewrite (proj2 (Z.eqb_neq (n + 1) 1)) by lia. rewrite Hm. split.
    + destruct (n <? max) eqn:En; bool_to_prop; [rewrite (proj2 (Z.leb_le _ _)) by lia|
        rewrite (proj2 (Z.leb_gt _ _)) by lia]; done.
    + eapply redis_rel_later; [exact Ht|]. eapply redis_rel_set; [done|lia|done|done].
  - change (0 + 1) with 1 in *. simpl. rewrite Hm, (proj2 (Z.leb_le 1 max)) by lia. split; [done|].
    assert (Hsec : 0 < rrl_window_seconds l) by (unfold from_secs, SECOND in Hw; lia).
    destruct (r_expire_view t1 (key l ip) (rrl_window_seconds l) s1 _ _ Hv Hsec) as [He Heo].
    eapply redis_rel_later; [exact Ht|]. eapply redis_rel_set; [done|lia|by rewrite He, Hw|].
    intros k Hk. by rewrite Heo, Ho.
Qed.


Lemma redis_rel_new max secs t server prefix :
  (∀ ip, r_view server (key (RedisRateLimiter_connect server max secs prefix) ip) = None) →
  redis_rel max (from_secs secs) t (RedisRateLimiter_connect server max secs prefix) ∅.
Proof. intros Hempty. split_and!; try done. intros ip. simpl. by rewrite Hempty. Qed.

End redis_refines.

(** ** Memory bound *)

Lemma min_by_start_Some l p :
  min_by_start l = Some p → p ∈ l ∧ Forall (λ q, window_start p.2 ≤ window_start q.2) l.
Proof.
  revert p; induction l as [|q l IH]; intros p; simpl; [done|].
  destruct (min_by_start l) as [r|] eqn:E.
  - destruct (IH r eq_refl) as [Hin Hall]. destruct (window_start r.2 <? window_start q.2) eqn:Hlt;
      intros [= <-]; bool_to_prop.
    + split; [by right|]. constructor; [lia|done].
    + split; [by left|]. constructor; [lia|]. eapply Forall_impl; [exact Hall|]. simpl. lia.
  - destruct l as [|x l]; [|exfalso; simpl in E; repeat case_match; done].
    intros [= <-]. split; [by left|]. by constructor; [lia|].
Qed.

Lemma min_by_start_None l : min_by_start l = None → l = [].
Proof. destruct l as [|p l]; [done|]. simpl. repeat case_match; done. Qed.

Definition bounded (l : MemoryRateLimiter) : Prop := Z.of_nat (size (entries l)) ≤ MAX_ENTRIES.

Lemma clean_bounded t l : bounded l → bounded (clean_expired t l).
Proof. unfold bounded. pose proof (clean_size t l). lia. Qed.

Lemma evict_makes_room l :
  bounded l → Z.of_nat (size (entries (evict_oldest_if_full l))) < MAX_ENTRIES.
Proof.
  unfold bounded, evict_oldest_if_full. intros Hb.
  destruct (Z.of_nat (size (entries l)) <? MAX_ENTRIES) eqn:E; bool_to_prop; [done|].
  destruct (min_by_start _) as [[ip e]|] eqn:Em.
  - apply min_by_start_Some in Em as [Hin _]. apply elem_of_map_to_list in Hin. simpl.
    rewrite map_size_delete, Hin. unfold MAX_ENTRIES in *. lia.
  - apply min_by_start_None, map_to_list_empty_iff in Em. rewrite Em, map_size_empty in E.
    unfold MAX_ENTRIES in E. lia.
Qed.

(** After [entry_or_insert] the address is tracked and the map is in bounds. *)
Lemma entry_or_insert_bounded t1 t2 ip l e l' :
  bounded l → entry_or_insert t1 t2 ip l = (e, l') →
  bounded l' ∧ entries l' !! ip = Some e ∧ max_attempts l' = max_attempts l ∧
  window_duration l' = window_duration l.
Proof.
  intros Hb. apply (clean_bounded t1) in Hb. unfold entry_or_insert.
  destruct (entries (clean_expired t1 l) !! ip) as [e0|] eqn:E.
  - rewrite E. intros [= <- <-]. done.
  - pose proof (evict_makes_room _ Hb) as Hroom.
    assert (Hpar : max_attempts (evict_oldest_if_full (clean_expired t1 l)) = max_attempts l ∧
                   window_duration (evict_oldest_if_full (clean_expired t1 l)) = window_duration l).
    { unfold evict_oldest_if_full. repeat case_match; done. }
    destruct (entries (evict_oldest_if_full (clean_expired t1 l)) !! ip) as [e1|] eqn:E1;
      intros [= <- <-]; simpl.
    + split_and!; [unfold bounded; lia|done|apply Hpar..].
    + split_and!; [|apply lookup_insert_eq|apply Hpar..]. unfold bounded; simpl.
      rewrite map_size_insert_None by done. lia.
Qed.

Lemma set_entry_bounded ip e e' l : bounded l → entries l !! ip = Some e → bounded (set_entry ip e' l).
Proof. unfold bounded, set_entry; simpl. intros Hb Hip. by rewrite map_size_insert, Hip. Qed.

(** The operations of the port, as steps. *)
Inductive RlOp : Type :=
| RlCheck (t1 t2 : Z) (ip : IpAddr)
| RlRecord (t1 t2 : Z) (ip : IpAddr)
| RlTry (t1 t2 : Z) (ip : IpAddr)
| RlRemaining (t : Z) (ip : IpAddr)
| RlReset (ip : IpAddr).

Definition rl_step {S} `{RateLimiter S} (s : S) (op : RlOp) : S :=
  match op with
  | RlCheck t1 t2 ip => (rl_check t1 t2 ip s).2
  | RlRecord t1 t2 ip => rl_record_attempt t1 t2 ip s
  | RlTry t1 t2 ip => (rl_try_check_and_record t1 t2 ip s).2
  | RlRemaining t ip => (rl_remaining_attempts t ip s).2
  | RlReset ip => rl_reset ip s
  end.

Lemma rl_step_bounded l op : bounded l → bounded (rl_step l op).
Proof.
  intros Hb. destruct op as [t1 t2 ip|t1 t2 ip|t1 t2 ip|t ip|ip]; simpl.
  - by apply clean_bounded.
  - unfold memory_record_attempt. destruct (entry_or_insert t1 t2 ip l) as [e l'] eqn:E.
    apply entry_or_insert_bounded in E as (Hb' & Hip & _); [|done].
    case_match; by eapply set_entry_bounded.
  - unfold memory_try. destruct (entry_or_insert t1 t2 ip l) as [e l'] eqn:E.
    apply entry_or_insert_bounded in E as (Hb' & Hip & _); [|done].
    repeat case_match; simpl; try done; by eapply set_entry_bounded.
  - done.
  - pose proof (map_subseteq_size _ _ (delete_subseteq (entries l) ip)).
    unfold bounded, memory_reset, with_entries in *. cbn [entries]. lia.
Qed.

Lemma memory_try_size t1 t2 ip l :
  mem_room ip l → (size (entries (memory_try t1 t2 ip l).2) ≤ S (size (entries l)))%nat.
Proof.
  intros Hroom. unfold memory_try. rewrite entry_or_insert_room by done.
  assert (Hset : ∀ e, (size (entries (set_entry ip e (clean_expired t1 l))) ≤ S (size (entries l)))%nat).
  { intros e. pose proof (clean_size t1 l) as Hc. unfold set_entry, with_entries. cbn [entries].
    rewrite map_size_insert. case_match; unfold id; lia. }
  pose proof (clean_size t1 l) as Hc.
  destruct (mem_live _ _ _) as [e|]; repeat case_match; cbn [snd]; rewrite ?set_entry_twice;
    first [apply Hset|lia].
Qed.

Lemma memory_roomy cs l :
  Z.of_nat (size (entries l)) + Z.of_nat (length cs) ≤ MAX_ENTRIES → roomy mem_room memory_try l cs.
Proof.
  revert l; induction cs as [|c cs IH]; intros l Hlen; simpl; [done|]. simpl in Hlen.
  assert (Hroom : mem_room (c_ip c) l) by (unfold mem_room; lia). split; [done|].
  apply IH. pose proof (memory_try_size (c_t1 c) (c_t2 c) (c_ip c) l Hroom). lia.
Qed.

(** ** An outage: every round trip fails or loses its answer *)

Fixpoint run_redis `{RedisLib, IpDisplay} (l : RedisRateLimiter) (cs : list (Net * Call)) : list bool * RedisRateLimiter :=
  match cs with
  | [] => ([], l)
  | (net, c) :: cs' =>
      let '(b, l') := redis_try net (c_t1 c) (c_t2 c) (c_ip c) l in
      let '(bs, l'') := run_redis l' cs' in (b :: bs, l'')
  end.

(** ** A concrete address format for the witnesses *)

Fixpoint pos_text (p : positive) : string :=
  match p with
  | xH => EmptyString
  | xO p' => String "0" (pos_text p')
  | xI p' => String "1" (pos_text p')
  end.

Definition toy_display : IpDisplay := {| ip_to_string ip := pos_text (encode ip) |}.

Lemma toy_display_spec : @IpDisplaySpec toy_display.
Proof.
  split. intros a b; simpl. intros Heq. apply (inj encode).
  revert Heq. generalize (encode b). generalize (encode a). clear.
  induction p as [p IH|p IH|]; intros [q|q|]; simpl; intros Heq; simplify_eq; try done; f_equal; auto.
Qed.

Definition demo_calls : list Call :=
  [MkCall 10 10 (V4 1); MkCall 20 20 (V4 1); MkCall 30 30 (V4 2); MkCall 40 40 (V4 1); MkCall 50 50 (V4 1)].

Example demo_calls_memory : run_tries memory_try (MemoryRateLimiter_new 2 60) demo_calls = [true; true; true; false; false].
Proof. vm_compute. reflexivity. Qed.

(** ** Properties *)



(** C30. The two backends are interchangeable: on the same calls at the same
    instants, a fresh in-memory limiter and a Redis limiter on an empty, reachable
    Redis take exactly the same decisions (for at most [MAX_ENTRIES] calls). *)
Theorem limiters_agree `{RedisSpec, IpDisplaySpec} max secs prefix server cs t0 :
  1 ≤ max ≤ U32_MAX → 0 < secs → (∀ k, r_view server k = None) →
  ordered t0 cs → Forall (λ c, c_t1 c = c_t2 c) cs → Z.of_nat (length cs) ≤ MAX_ENTRIES →
  run_tries memory_try (MemoryRateLimiter_new max secs) cs =
  run_tries (redis_try NetOk) (RedisRateLimiter_connect server max secs prefix) cs.
Proof.
  intros Hmax Hsecs Hempty Ho Heq Hlen. set (W := from_secs secs).
  assert (HW : 0 < W) by (unfold W, from_secs, SECOND; lia).
  assert (Hroomy : roomy mem_room memory_try (MemoryRateLimiter_new max secs) cs)
    by (apply memory_roomy; simpl; rewrite map_size_empty; lia).
  pose proof (mem_rel_new max secs t0) as Hm. pose proof (redis_rel_new max secs t0 server prefix ltac:(intros ip; apply Hempty)) as Hr.
  fold W in Hm, Hr. clear Hlen Hempty. revert Hm Hr Hroomy. generalize (∅ : SpecState).
  generalize (MemoryRateLimiter_new max secs). generalize (RedisRateLimiter_connect server max secs prefix).
  revert t0 Ho. induction Heq as [|c cs Hc _ IH]; intros t0 Ho lr lm σ Hm Hr Hroomy; simpl; [done|].
  destruct Ho as (Hge & Hle & Ho). destruct Hroomy as [Hroom Hroomy].
  destruct (memory_try_spec max W t0 _ _ (c_ip c) lm σ Hmax HW Hm Hge Hle Hroom) as [Hbm Hm'].
  destruct (redis_try_spec max W t0 _ _ (c_ip c) lr σ ltac:(lia) HW Hr Hge Hle) as [Hbr Hr'].
  rewrite Hc in Hbr, Hr'. rewrite Hc in Hbm, Hm' at 1. rewrite Hc in Hroomy at 1. rewrite Hc.
  destruct (memory_try (c_t2 c) (c_t2 c) (c_ip c) lm) as [bm lm'].
  destruct (redis_try NetOk (c_t2 c) (c_t2 c) (c_ip c) lr) as [br lr']. simpl in *.
  f_equal; [congruence|]. by eapply IH.
Qed.

Lemma limiters_agree_witness :
  run_tries memory_try (MemoryRateLimiter_new 2 60) demo_calls =
  run_tries (@redis_try toy_redis toy_display NetOk)
    (@RedisRateLimiter_connect toy_redis (∅ : gmap string (Z * option Z)) 2 60 "login") demo_calls.
Proof.
  apply (@limiters_agree toy_redis toy_redis_spec toy_display toy_display_spec 2 60 "login" ∅ demo_calls 0).
  - unfold U32_MAX; lia.
  - lia.
  - intros k. reflexivity.
  - simpl. lia.
  - repeat constructor.
  - vm_compute. discriminate.
Defined.

(** The in-memory limiter never tracks more than 100 000 addresses, however
    its operations are called; and making room drops nothing below the cap, and
    at the cap exactly one entry, one with the earliest window start. *)
Theorem memory_limiter_bounded max secs ops (l : MemoryRateLimiter) :
  Z.of_nat (size (entries (foldl rl_step (MemoryRateLimiter_new max secs) ops))) ≤ MAX_ENTRIES ∧
  (evict_oldest_if_full l = l ∧ Z.of_nat (size (entries l)) < MAX_ENTRIES ∨
   ∃ ip e, entries l !! ip = Some e ∧ evict_oldest_if_full l = with_entries l (delete ip (entries l)) ∧
           map_Forall (λ _ e', window_start e ≤ window_start e') (entries l)).
Proof.
  split.
  - apply (foldl_inv bounded); [done|]. intros s op. apply rl_step_bounded.
  - unfold evict_oldest_if_full. destruct (Z.of_nat (size (entries l)) <? MAX_ENTRIES) eqn:E; bool_to_prop;
      [by left|]. right. destruct (min_by_start _) as [[ip e]|] eqn:Em.
    + apply min_by_start_Some in Em as [Hin Hall]. apply elem_of_map_to_list in Hin. exists ip, e.
      split_and!; [done..|]. intros j e' Hj. rewrite Forall_forall in Hall.
      apply (Hall (j, e')). by apply elem_of_map_to_list.
    + apply min_by_start_None, map_to_list_empty_iff in Em. rewrite Em, map_size_empty in E.
      unfold MAX_ENTRIES in E. simpl in E. lia.
Qed.

(** An outage never switches rate limiting off: while no Redis round trip is
    answered, the decisions are exactly those of the in-memory shadow, and every
    failure is counted in the error counter. *)
Theorem redis_outage_enforces_shadow `{RedisLib, IpDisplay} (l : RedisRateLimiter) (cs : list (Net * Call)) :
  Forall (λ p, p.1 ≠ NetOk) cs → 0 ≤ rrl_error_count l →
  (run_redis l cs).1 = run_tries memory_try (rrl_shadow l) cs.*2 ∧
  wrap_u64 (rrl_error_count (run_redis l cs).2) = wrap_u64 (rrl_error_count l + Z.of_nat (length cs)).
Proof.
  intros Hall. revert l. induction Hall as [|[net c] cs Hne _ IH]; intros l He; simpl.
  { by rewrite Z.add_0_r. }
  unfold redis_try. destruct (TRY_CHECK_AND_RECORD_SCRIPT _ _ _ _ _) as [allowed s'].
  set (l1 := with_server l _). set (l2 := record_redis_error l1).
  destruct (memory_try (c_t1 c) (c_t2 c) (c_ip c) (rrl_shadow l2)) as [b m] eqn:Em.
  assert (Hstep : match net with NetOk => (negb (allowed =? 0), l1) | _ => (b, with_shadow l2 m) end =
                  (b, with_shadow l2 m)) by (by destruct net).
  rewrite Hstep.
  change (rrl_shadow l2) with (rrl_shadow l) in Em. rewrite Em.
  destruct (IH (with_shadow l2 m)) as [IH1 IH2]; [simpl; unfold wrap_u64; apply Z.mod_pos_bound; lia|].
  destruct (run_redis (with_shadow l2 m) cs) as [bs l'']. simpl in *. rewrite IH1. split; [done|].
  rewrite IH2. unfold wrap_u64. rewrite Zplus_mod_idemp_l. f_equal. lia.
Qed.

Lemma redis_outage_enforces_shadow_witness :
  (@run_redis toy_redis toy_display
     (@RedisRateLimiter_connect toy_redis (∅ : gmap string (Z * option Z)) 2 60 "login")
     ((λ c, (NetLost, c)) <$> demo_calls)).1 = [true; true; true; false; false].
Proof.
  destruct (@redis_outage_enforces_shadow toy_redis toy_display
     (@RedisRateLimiter_connect toy_redis (∅ : gmap string (Z * option Z)) 2 60 "login")
     ((λ c, (NetLost, c)) <$> demo_calls)) as [H1 _]; [repeat constructor; done|done|].
  etrans; [exact H1|]. vm_compute. reflexivity.
Defined.
