(* ===== verification/Blacklist.v ===== *)
(** * Access-token revocation

    The [AccessTokenBlacklist] port of [crates/shared/src/ports.rs] and its
    implementations in [crates/infrastructure/src/access_token_blacklist]:
    in-memory, Redis, and the durable decorator that journals revocations in the
    Postgres table [access_token_revocation_outbox] when Redis rejects them.

    Every operation takes the clock reading [t] of the call and an environment
    saying how its round trips end. [BlacklistLaws] is what a backend promises;
    the guarantee that an accepted revocation is never reported as "not revoked"
    is proved against it. *)

From S2P Require Import Prelude RustStr Database Effects Redis.
From stdpp Require Import sorting.
#[local] Open Scope Z_scope.

(** ** The port *)

Inductive BlacklistError : Type := MkBlacklistError.

Class AccessTokenBlacklist (S Env : Type) : Type := {
  bl_revoke : Env → Z → Uuid → Z → S → result BlacklistError unit * S;
  bl_is_revoked : Env → Z → Uuid → S → result BlacklistError bool * S }.

(** ** [MemoryAccessTokenBlacklist] *)

Record RevokedEntry : Type := MkRevokedEntry { revoked_at : Z; ttl : Z }.

Definition entry_valid (now : Z) (e : RevokedEntry) : bool := duration_since now (revoked_at e) <? ttl e.

(** [entries.retain(..)] *)
Definition retain_valid (now : Z) (m : gmap Uuid RevokedEntry) : gmap Uuid RevokedEntry :=
  filter (λ p, entry_valid now p.2 = true) m.

Definition memory_revoke (now : Z) (jti : Uuid) (ttl_secs : Z) (m : gmap Uuid RevokedEntry)
    : result BlacklistError unit * gmap Uuid RevokedEntry :=
  (Ok tt, <[jti := MkRevokedEntry now (from_secs ttl_secs)]> (retain_valid now m)).

(** [is_revoked] under the read lock: [None] falls through to the write lock. *)
Definition is_revoked_fast (now : Z) (jti : Uuid) (m : gmap Uuid RevokedEntry) : option bool :=
  match m !! jti with
  | Some e => if entry_valid now e then Some true else None
  | None => Some false
  end.

(** [is_revoked] under the write lock, on the map as it is by then. *)
Definition is_revoked_slow (now : Z) (jti : Uuid) (m : gmap Uuid RevokedEntry)
    : bool * gmap Uuid RevokedEntry :=
  match m !! jti with
  | Some e => if entry_valid now e then (true, m) else (false, delete jti m)
  | None => (false, m)
  end.

(** With no other task between the two locks. *)
Definition memory_is_revoked (now : Z) (jti : Uuid) (m : gmap Uuid RevokedEntry)
    : result BlacklistError bool * gmap Uuid RevokedEntry :=
  match is_revoked_fast now jti m with
  | Some b => (Ok b, m)
  | None => let '(b, m) := is_revoked_slow now jti m in (Ok b, m)
  end.

Definition entry_count (m : gmap Uuid RevokedEntry) : Z := Z.of_nat (size m).

#[global] Instance MemoryBlacklist_port : AccessTokenBlacklist (gmap Uuid RevokedEntry) unit := {
  bl_revoke := λ _, memory_revoke;
  bl_is_revoked := λ _, memory_is_revoked }.

(** ** [RedisAccessTokenBlacklist] *)

Section redis_blacklist.
Context `{RedisLib, UuidLib}.

Record RedisBlacklist : Type := MkRedisBlacklist { rb_server : RState; rb_error_count : Z }.

Definition revoked_key (jti : Uuid) : string := String.append "acl:revoked:" (uuid_to_string jti).

Definition rb_record_error (b : RedisBlacklist) : RedisBlacklist :=
  MkRedisBlacklist (rb_server b) (wrap_u64 (rb_error_count b + 1)).

Definition redis_revoke (net : Net) (now : Z) (jti : Uuid) (ttl_secs : Z) (b : RedisBlacklist)
    : result BlacklistError unit * RedisBlacklist :=
  if ttl_secs =? 0 then (Ok tt, b)
  else
    let s' := r_set_ex now (revoked_key jti) ttl_secs (rb_server b) in
    let b := MkRedisBlacklist (applied net (rb_server b) s') (rb_error_count b) in
    match net with
    | NetOk => (Ok tt, b)
    | _ => (Err MkBlacklistError, rb_record_error b)
    end.

Definition redis_is_revoked (net : Net) (now : Z) (jti : Uuid) (b : RedisBlacklist)
    : result BlacklistError bool * RedisBlacklist :=
  match net with
  | NetOk => (Ok (r_exists now (revoked_key jti) (rb_server b)), b)
  | _ => (Err MkBlacklistError, rb_record_error b)
  end.

Definition RedisBlacklist_port : AccessTokenBlacklist RedisBlacklist Net := {|
  bl_revoke := redis_revoke;
  bl_is_revoked := redis_is_revoked |}.

End redis_blacklist.

(** ** [DurableRevocationBlacklist] *)

Definition FLUSH_BATCH_SIZE : nat := 500.

Record OutboxRow : Type := MkOutboxRow { ob_ttl_secs : Z; ob_created_at : Z; ob_expires_at : Z }.

Record PendingEntry : Type := MkPendingEntry { added_at : Z; p_ttl : Z }.

Definition pending_valid (now : Z) (e : PendingEntry) : bool := duration_since now (added_at e) <? p_ttl e.

Record Durable (S : Type) : Type := MkDurable {
  du_inner : S;
  du_outbox : gmap Uuid OutboxRow;
  du_pending : gmap Uuid PendingEntry }.
Arguments MkDurable {S}.
Arguments du_inner {S}.
Arguments du_outbox {S}.
Arguments du_pending {S}.

Definition outbox_order (a b : Uuid * OutboxRow) : Prop := ob_created_at a.2 ≤ ob_created_at b.2.

#[global] Instance outbox_order_dec a b : Decision (outbox_order a b).
Proof. unfold outbox_order. apply _. Defined.

Section durable.
Context {S Env : Type} `{AccessTokenBlacklist S Env}.

Definition DurableRevocationBlacklist_new (inner : S) (outbox : gmap Uuid OutboxRow) : Durable S :=
  MkDurable inner outbox ∅.

(** [INSERT .. ON CONFLICT (jti) DO NOTHING], with the table's CHECK. *)
Definition insert_outbox (now : Z) (jti : Uuid) (ttl_secs : Z) (o : gmap Uuid OutboxRow)
    : option (gmap Uuid OutboxRow) :=
  if ttl_secs <? 0 then None
  else match o !! jti with
       | Some _ => Some o
       | None => Some (<[jti := MkOutboxRow ttl_secs now (now + from_secs ttl_secs)]> o)
       end.

(** [journal], and whether the [INSERT] reached the table. *)
Definition journal (pg : Net) (now : Z) (jti : Uuid) (ttl_secs : Z) (d : Durable S)
    : result BlacklistError unit * Durable S :=
  match pg, insert_outbox now jti (wrap_i64 ttl_secs) (du_outbox d) with
  | NetOk, Some o => (Ok tt, MkDurable (du_inner d) o (du_pending d))
  | NetLost, Some o => (Err MkBlacklistError, MkDurable (du_inner d) o (du_pending d))
  | _, _ => (Err MkBlacklistError, d)
  end.

Definition durable_revoke (env : Env * Net) (now : Z) (jti : Uuid) (ttl_secs : Z) (d : Durable S)
    : result BlacklistError unit * Durable S :=
  let '(r, inner) := bl_revoke env.1 now jti ttl_secs (du_inner d) in
  let d := MkDurable inner (du_outbox d) (du_pending d) in
  match r with
  | Ok _ => (Ok tt, d)
  | Err _ =>
      match journal env.2 now jti ttl_secs d with
      | (Err e, d) => (Err e, d)
      | (Ok _, d) =>
          (Ok tt, MkDurable (du_inner d) (du_outbox d)
                    (<[jti := MkPendingEntry now (from_secs ttl_secs)]> (du_pending d)))
      end
  end.

(** The part of [is_revoked] under the [pending] lock: whether an unexpired entry
    answers, and the set after an expired one is dropped. *)
Definition check_pending (now : Z) (jti : Uuid) (p : gmap Uuid PendingEntry)
    : bool * gmap Uuid PendingEntry :=
  match p !! jti with
  | Some e => if pending_valid now e then (true, p) else (false, delete jti p)
  | None => (false, p)
  end.

Definition durable_is_revoked (env : Env) (now : Z) (jti : Uuid) (d : Durable S)
    : result BlacklistError bool * Durable S :=
  let '(hit, p) := check_pending now jti (du_pending d) in
  if hit then (Ok true, MkDurable (du_inner d) (du_outbox d) p)
  else
    let '(r, inner) := bl_is_revoked env now jti (du_inner d) in
    (r, MkDurable inner (du_outbox d) p).

(** [prune_pending] *)
Definition prune_pending (now : Z) (m : gmap Uuid PendingEntry) : gmap Uuid PendingEntry :=
  filter (λ p, pending_valid now p.2 = true) m.

Definition pending_count (now : Z) (d : Durable S) : Z * Durable S :=
  let p := prune_pending now (du_pending d) in
  (Z.of_nat (size p), MkDurable (du_inner d) (du_outbox d) p).

(** The rows a sweep retries: oldest first, at most [FLUSH_BATCH_SIZE]. *)
Definition flush_batch (o : gmap Uuid OutboxRow) : list (Uuid * OutboxRow) :=
  take FLUSH_BATCH_SIZE (merge_sort outbox_order (map_to_list o)).

(** The retry loop: the flushed ids and how many rows remain. [envs] gives the
    outcome of each row's round trip. *)
Fixpoint flush_loop (envs : nat → Env) (now : Z) (rows : list (Uuid * OutboxRow)) (inner : S)
    : list Uuid * Z * S :=
  match rows with
  | [] => ([], 0, inner)
  | (jti, row) :: rows' =>
      let '(r, inner) := bl_revoke (envs 0%nat) now jti (ob_ttl_secs row) inner in
      let '(flushed, remaining, inner) := flush_loop (λ i, envs (Datatypes.S i)) now rows' inner in
      match r with
      | Ok _ => (jti :: flushed, remaining, inner)
      | Err _ => (flushed, remaining + 1, inner)
      end
  end.

Definition delete_all {A} (ids : list Uuid) (m : gmap Uuid A) : gmap Uuid A :=
  filter (λ p, p.1 ∉ ids) m.

(** [DELETE .. WHERE expires_at <= NOW()] *)
Definition unexpired (now : Z) (o : gmap Uuid OutboxRow) : gmap Uuid OutboxRow :=
  filter (λ p, now < ob_expires_at p.2) o.

(** One sweep. [pg1], [pg2], [pg3] are the outcomes of its three statements. *)
Definition flush_pending (pg1 pg2 pg3 : Net) (envs : nat → Env) (now : Z) (d : Durable S)
    : result unit Z * Durable S :=
  let swept := unexpired now (du_outbox d) in
  match pg1 with
  | NetFail => (Err tt, d)
  | NetLost => (Err tt, MkDurable (du_inner d) swept (du_pending d))
  | NetOk =>
      let d := MkDurable (du_inner d) swept (du_pending d) in
      match pg2 with
      | NetOk =>
          let '(flushed, remaining, inner) := flush_loop envs now (flush_batch swept) (du_inner d) in
          let d := MkDurable inner (du_outbox d) (du_pending d) in
          if bool_decide (flushed = []) then (Ok remaining, d)
          else
            let o' := delete_all flushed (du_outbox d) in
            match pg3 with
            | NetFail => (Err tt, d)
            | NetLost => (Err tt, MkDurable (du_inner d) o' (du_pending d))
            | NetOk =>
                (Ok remaining, MkDurable (du_inner d) o'
                                 (delete_all flushed (prune_pending now (du_pending d))))
            end
      | _ => (Err tt, d)
      end
  end.

Definition Durable_port : AccessTokenBlacklist (Durable S) (Env * Net) := {|
  bl_revoke := durable_revoke;
  bl_is_revoked := λ env, durable_is_revoked env.1 |}.

End durable.

(** ** [build_access_token_blacklist]

    [connect url] is [None] when the URL does not parse; an unreachable server
    still connects. *)
Inductive AnyBlacklist `{RedisLib} : Type :=
| BMemory (m : gmap Uuid RevokedEntry)
| BDurable (d : Durable RedisBlacklist).

Definition build_access_token_blacklist `{RedisLib} (redis_url : option string)
    (connect : string → option RState) (outbox : gmap Uuid OutboxRow) : AnyBlacklist :=
  match redis_url with
  | Some url =>
      match connect url with
      | Some server => BDurable (DurableRevocationBlacklist_new (MkRedisBlacklist server 0) outbox)
      | None => BMemory ∅
      end
  | None => BMemory ∅
  end.

(** ** What a backend promises

    [D jti] is the instant from which the token [jti] no longer validates. A
    revocation keeps the contract when its time to live reaches [D jti]; such a
    revocation, once accepted, is [bl_safe] until then. A token nobody revoked is
    [bl_absent]. *)
Class BlacklistLaws {S Env : Type} `{AccessTokenBlacklist S Env} (D : Uuid → Z) : Type := {
  bl_safe : Uuid → S → Prop;
  bl_absent : Uuid → S → Prop;
  bl_revoke_safe : ∀ env t j secs s s', t < D j → D j ≤ t + from_secs secs →
    bl_revoke env t j secs s = (Ok tt, s') → bl_safe j s';
  bl_revoke_keeps : ∀ env t j k secs s r s', t < D j → 0 ≤ secs →
    (j = k → D j ≤ t + from_secs secs) → bl_safe j s →
    bl_revoke env t k secs s = (r, s') → bl_safe j s';
  bl_check_keeps : ∀ env t j k s r s', t < D j → bl_safe j s →
    bl_is_revoked env t k s = (r, s') → bl_safe j s';
  bl_check_safe : ∀ env t j s r s', t < D j → bl_safe j s →
    bl_is_revoked env t j s = (r, s') → r ≠ Ok false;
  bl_revoke_absent : ∀ env t j k secs s r s', j ≠ k → 0 ≤ secs → bl_absent j s →
    bl_revoke env t k secs s = (r, s') → bl_absent j s';
  bl_check_absent : ∀ env t j k s r s', bl_absent j s →
    bl_is_revoked env t k s = (r, s') → bl_absent j s' ∧ (j = k → r ≠ Ok true) }.

Lemma retain_valid_lookup now m j e :
  m !! j = Some e → entry_valid now e = true → retain_valid now m !! j = Some e.
Proof. intros Hj Hv. apply map_lookup_filter_Some. done. Qed.

Lemma entry_valid_until now e d :
  0 < ttl e → d ≤ revoked_at e + ttl e → now < d → entry_valid now e = true.
Proof. unfold entry_valid, duration_since. intros. apply Z.ltb_lt. lia. Qed.

Section memory_laws.
Context (D : Uuid → Z).

Definition memory_safe (j : Uuid) (m : gmap Uuid RevokedEntry) : Prop :=
  ∃ e, m !! j = Some e ∧ 0 < ttl e ∧ D j ≤ revoked_at e + ttl e.

Lemma memory_safe_insert j k e m :
  (j = k → 0 < ttl e ∧ D j ≤ revoked_at e + ttl e) → (j ≠ k → memory_safe j m) →
  memory_safe j (<[k := e]> m).
Proof.
  intros Heq Hne. destruct (decide (j = k)) as [->|Hjk].
  - exists e. rewrite lookup_insert_eq. by destruct (Heq eq_refl).
  - destruct (Hne Hjk) as (e' & He & ?). exists e'. by rewrite lookup_insert_ne.
Qed.

Lemma memory_safe_retain t j m : t < D j → memory_safe j m → memory_safe j (retain_valid t m).
Proof.
  intros Ht (e & He & ? & ?). exists e. split; [|done].
  apply retain_valid_lookup; [done|]. by eapply entry_valid_until.
Qed.

(** A sweep or a lookup of any token leaves a safe entry alone. *)
Lemma memory_safe_slow t j k m :
  t < D j → memory_safe j m → memory_safe j (is_revoked_slow t k m).2.
Proof.
  intros Ht (e & He & Hpos & Hd). unfold is_revoked_slow.
  destruct (m !! k) as [e'|] eqn:Hk; [|by exists e]. case_match eqn:Hv; [by exists e|].
  exists e. split; [|done]. simpl. rewrite lookup_delete_ne; [done|]. intros ->.
  simplify_eq. by rewrite (entry_valid_until _ _ (D j)) in Hv.
Qed.

Lemma memory_safe_fast t j m : t < D j → memory_safe j m → is_revoked_fast t j m = Some true.
Proof.
  intros Ht (e & He & ? & ?). unfold is_revoked_fast. rewrite He.
  by rewrite (entry_valid_until _ _ (D j)).
Qed.

Lemma memory_safe_slow_true t j m : t < D j → memory_safe j m → (is_revoked_slow t j m).1 = true.
Proof.
  intros Ht (e & He & ? & ?). unfold is_revoked_slow. rewrite He.
  by rewrite (entry_valid_until _ _ (D j)).
Qed.

#[global] Instance memory_laws : BlacklistLaws (S := gmap Uuid RevokedEntry) D.
Proof.
  refine {| bl_safe := memory_safe; bl_absent := λ j m, m !! j = None |}; simpl; unfold memory_revoke.
  - intros _ t j secs m m' Ht Hd [= <-]. apply memory_safe_insert; [simpl; lia|done].
  - intros _ t j k secs m r m' Ht _ Hd Hs [= <- <-].
    apply memory_safe_insert; [simpl; intros Heq; specialize (Hd Heq); lia|].
    intros _. by apply memory_safe_retain.
  - intros _ t j k m r m' Ht Hs. unfold memory_is_revoked. case_match; [by intros [= <- <-]|].
    pose proof (memory_safe_slow t j k m Ht Hs). case_match. by intros [= <- <-].
  - intros _ t j m r m' Ht Hs. unfold memory_is_revoked. rewrite memory_safe_fast by done. by intros [= <- <-].
  - intros _ t j k secs m r m' Hne _ Hj [= <- <-]. rewrite lookup_insert_ne by done.
    apply map_lookup_filter_None. by left.
  - intros _ t j k m r m' Hj. unfold memory_is_revoked, is_revoked_fast, is_revoked_slow.
    destruct (m !! k) as [e|] eqn:Hk.
    + assert (j ≠ k) by congruence. destruct (entry_valid t e) eqn:Hv; [by intros [= <- <-]|].
      rewrite ?Hk, ?Hv. intros [= <- <-]. by rewrite lookup_delete_ne.
    + by intros [= <- <-].
Defined.

End memory_laws.

Section redis_laws.
Context `{RedisSpec, UuidSpec} (D : Uuid → Z).

Definition redis_safe (j : Uuid) (b : RedisBlacklist) : Prop :=
  ∃ n d, r_view (rb_server b) (revoked_key j) = Some (n, Some d) ∧ D j ≤ d.

Lemma revoked_key_ne j k : j ≠ k → revoked_key j ≠ revoked_key k.
Proof.
  intros Hne Heq. apply append_inj in Heq. apply Hne.
  apply (f_equal uuid_parse) in Heq. rewrite !uuid_parse_to_string in Heq. by injection Heq.
Qed.

Lemma redis_revoke_other net t j k secs b :
  0 ≤ secs → j ≠ k →
  r_view (rb_server (redis_revoke net t k secs b).2) (revoked_key j) = r_view (rb_server b) (revoked_key j).
Proof.
  intros Hs Hne. unfold redis_revoke. case_match eqn:Hz; [done|]. bool_to_prop.
  destruct (r_set_ex_view t (revoked_key k) secs (rb_server b)) as [_ Hother]; [lia|].
  destruct net; simpl; try done; by apply Hother, revoked_key_ne.
Qed.

Lemma redis_revoke_same net t j secs b :
  0 < secs → net ≠ NetFail →
  r_view (rb_server (redis_revoke net t j secs b).2) (revoked_key j) = Some (1, Some (t + from_secs secs)).
Proof.
  intros Hs Hnet. unfold redis_revoke. case_match eqn:Hz; [bool_to_prop; lia|].
  destruct (r_set_ex_view t (revoked_key j) secs (rb_server b)) as [Hsame _]; [done|].
  by destruct net.
Qed.

Lemma redis_check_server net t k b : rb_server (redis_is_revoked net t k b).2 = rb_server b.
Proof. by destruct net. Qed.

#[global] Instance redis_laws : BlacklistLaws (H := RedisBlacklist_port) D.
Proof.
  refine {| bl_safe := redis_safe;
            bl_absent := λ j b, r_view (rb_server b) (revoked_key j) = None |}; simpl.
  - intros net t j secs b b' Ht Hd Hr.
    pose proof (redis_revoke_same net t j secs b) as Hv. rewrite Hr in Hv. simpl in Hv.
    eexists _, _. split; [apply Hv|done]; [unfold from_secs, SECOND in Hd; lia|].
    intros ->. unfold redis_revoke in Hr. case_match eqn:Hz; [|done]. bool_to_prop. subst.
    unfold from_secs in Hd. lia.
  - intros net t j k secs b r b' Ht Hs Hd (n & d & Hj & Hle) Hr.
    destruct (decide (j = k)) as [->|Hne].
    + specialize (Hd eq_refl). assert (0 < secs) by (unfold from_secs, SECOND in Hd; lia).
      destruct (decide (net = NetFail)) as [->|Hnet].
      * exists n, d. unfold redis_revoke in Hr. case_match; [bool_to_prop; lia|]. by injection Hr as <- <-.
      * pose proof (redis_revoke_same net t k secs b) as Hv. rewrite Hr in Hv. eexists _, _.
        split; [by apply Hv|done].
    + exists n, d. split; [|done]. pose proof (redis_revoke_other net t j k secs b Hs Hne) as Hv.
      rewrite Hr in Hv. simpl in Hv. by rewrite Hv.
  - intros net t j k b r b' Ht (n & d & Hj & Hle) Hr. exists n, d. split; [|done].
    pose proof (redis_check_server net t k b) as Hv. rewrite Hr in Hv. simpl in Hv. by rewrite Hv.
  - intros net t j b r b' Ht (n & d & Hj & Hle) Hr. unfold redis_is_revoked in Hr.
    destruct net; injection Hr as <- _; [|done..]. rewrite r_exists_view, Hj. simpl.
    destruct (t <? d) eqn:E; [by rewrite bool_decide_true|bool_to_prop; lia].
  - intros net t j k secs b r b' Hne Hs Hj Hr.
    pose proof (redis_revoke_other net t j k secs b Hs Hne) as Hv. rewrite Hr in Hv. simpl in Hv.
    by rewrite Hv.
  - intros net t j k b r b' Hj Hr. split.
    + pose proof (redis_check_server net t k b) as Hv. rewrite Hr in Hv. simpl in Hv. by rewrite Hv.
    + intros <-. unfold redis_is_revoked in Hr. destruct net; injection Hr as <- _; [|done..].
      by rewrite r_exists_view, Hj.
Defined.

End redis_laws.
