(* ===== verification/Revocation.v ===== *)
(** * Revocation across instances

    Several instances of the service share one revocation backend and one
    Postgres outbox; each has its own pending set. [durable_revoke],
    [durable_is_revoked] and [flush_pending] (file Blacklist) are cut at their
    await points into the steps of a transition system, so that calls of the same
    and of different instances interleave, lose their answers, are cancelled, and
    instances restart. The theorems hold for every interleaving. *)

From S2P Require Import Prelude RustStr Database Effects Jwt Redis Blacklist.
From stdpp Require Import relations sorting.
#[local] Open Scope Z_scope.

(** ** Calls in flight, by where they are suspended *)

Inductive Task : Type :=
| TJournal (i : nat) (jti : Uuid) (ttl_secs : Z)     (** the inner backend refused *)
| TPending (i : nat) (jti : Uuid) (ttl_secs : Z)     (** journaled *)
| TSelect (i : nat)                                  (** expired rows dropped *)
| TFlush (i : nat) (rows : list (Uuid * OutboxRow)) (flushed : list Uuid)
| TPrune (i : nat) (flushed : list Uuid).            (** flushed rows deleted *)

Definition task_instance (t : Task) : nat :=
  match t with
  | TJournal i _ _ | TPending i _ _ | TSelect i | TFlush i _ _ | TPrune i _ => i
  end.

(** [cl_requested], [cl_accepted] and [cl_local] are ghost: the tokens [revoke]
    was called for, those it answered [Ok] for, and on which instance it did
    since that instance started. *)
Record Cluster (S : Type) : Type := MkCluster {
  cl_now : Z;
  cl_inner : S;
  cl_outbox : gmap Uuid OutboxRow;
  cl_pending : nat → gmap Uuid PendingEntry;
  cl_tasks : list Task;
  cl_requested : gset Uuid;
  cl_accepted : gset Uuid;
  cl_local : gset (nat * Uuid) }.
Arguments MkCluster {S}.
Arguments cl_now {S}.
Arguments cl_inner {S}.
Arguments cl_outbox {S}.
Arguments cl_pending {S}.
Arguments cl_tasks {S}.
Arguments cl_requested {S}.
Arguments cl_accepted {S}.
Arguments cl_local {S}.

(** The shared state as one instance sees it. *)
Definition instance_view {S} (i : nat) (c : Cluster S) : Durable S :=
  MkDurable (cl_inner c) (cl_outbox c) (cl_pending c i).

Definition with_tasks {S} (ts : list Task) (c : Cluster S) : Cluster S :=
  MkCluster (cl_now c) (cl_inner c) (cl_outbox c) (cl_pending c) ts
    (cl_requested c) (cl_accepted c) (cl_local c).

Definition with_inner {S} (s : S) (c : Cluster S) : Cluster S :=
  MkCluster (cl_now c) s (cl_outbox c) (cl_pending c) (cl_tasks c)
    (cl_requested c) (cl_accepted c) (cl_local c).

Definition with_outbox {S} (o : gmap Uuid OutboxRow) (c : Cluster S) : Cluster S :=
  MkCluster (cl_now c) (cl_inner c) o (cl_pending c) (cl_tasks c)
    (cl_requested c) (cl_accepted c) (cl_local c).

Definition with_pending {S} (i : nat) (p : gmap Uuid PendingEntry) (c : Cluster S) : Cluster S :=
  MkCluster (cl_now c) (cl_inner c) (cl_outbox c)
    (λ k, if decide (k = i) then p else cl_pending c k) (cl_tasks c)
    (cl_requested c) (cl_accepted c) (cl_local c).

Definition requesting {S} (j : Uuid) (c : Cluster S) : Cluster S :=
  MkCluster (cl_now c) (cl_inner c) (cl_outbox c) (cl_pending c) (cl_tasks c)
    ({[j]} ∪ cl_requested c) (cl_accepted c) (cl_local c).

(** [revoke] answers [Ok] to its caller on instance [i]. *)
Definition accepting {S} (i : nat) (j : Uuid) (c : Cluster S) : Cluster S :=
  MkCluster (cl_now c) (cl_inner c) (cl_outbox c) (cl_pending c) (cl_tasks c)
    (cl_requested c) ({[j]} ∪ cl_accepted c) ({[(i, j)]} ∪ cl_local c).

Definition at_time {S} (t : Z) (c : Cluster S) : Cluster S :=
  MkCluster t (cl_inner c) (cl_outbox c) (cl_pending c) (cl_tasks c)
    (cl_requested c) (cl_accepted c) (cl_local c).

(** An instance restarts: its memory and its calls in flight are gone. *)
Definition restarted {S} (i : nat) (c : Cluster S) : Cluster S :=
  let c := with_pending i ∅ (with_tasks (filter (λ t, task_instance t ≠ i) (cl_tasks c)) c) in
  MkCluster (cl_now c) (cl_inner c) (cl_outbox c) (cl_pending c) (cl_tasks c)
    (cl_requested c) (cl_accepted c) (filter (λ p, p.1 ≠ i) (cl_local c)).

Definition cluster_start {S} (t : Z) (inner : S) : Cluster S :=
  MkCluster t inner ∅ (λ _, ∅) [] ∅ ∅ ∅.

Section cluster.
Context {S Env : Type} `{AccessTokenBlacklist S Env} (D : Uuid → Z).

(** One step. Callers keep the contract: the time to live reaches [D jti], see
    [revocation_ttl_secs]. *)
Inductive step : Cluster S → Cluster S → Prop :=
| step_tick t c :
    cl_now c ≤ t → step c (at_time t c)
| step_revoke_ok i env jti secs c inner :
    0 ≤ secs < 2 ^ 63 → D jti ≤ cl_now c + from_secs secs →
    bl_revoke env (cl_now c) jti secs (cl_inner c) = (Ok tt, inner) →
    step c (accepting i jti (requesting jti (with_inner inner c)))
| step_revoke_refused i env jti secs c e inner :
    0 ≤ secs < 2 ^ 63 → D jti ≤ cl_now c + from_secs secs →
    bl_revoke env (cl_now c) jti secs (cl_inner c) = (Err e, inner) →
    step c (with_tasks (TJournal i jti secs :: cl_tasks c) (requesting jti (with_inner inner c)))
| step_journal i jti secs c ts o :
    cl_tasks c ≡ₚ TJournal i jti secs :: ts →
    insert_outbox (cl_now c) jti (wrap_i64 secs) (cl_outbox c) = Some o →
    step c (with_tasks (TPending i jti secs :: ts) (with_outbox o c))
| step_pending i jti secs c ts :
    cl_tasks c ≡ₚ TPending i jti secs :: ts →
    step c (accepting i jti (with_tasks ts (with_pending i
              (<[jti := MkPendingEntry (cl_now c) (from_secs secs)]> (cl_pending c i)) c)))
| step_check_pending i jti c :
    step c (with_pending i (check_pending (cl_now c) jti (cl_pending c i)).2 c)
| step_check_inner env jti c r inner :
    bl_is_revoked env (cl_now c) jti (cl_inner c) = (r, inner) →
    step c (with_inner inner c)
| step_count i c :
    step c (with_pending i (prune_pending (cl_now c) (cl_pending c i)) c)
| step_flush_expired i c :
    step c (with_tasks (TSelect i :: cl_tasks c) (with_outbox (unexpired (cl_now c) (cl_outbox c)) c))
| step_flush_select i c ts :
    cl_tasks c ≡ₚ TSelect i :: ts →
    step c (with_tasks (TFlush i (flush_batch (cl_outbox c)) [] :: ts) c)
| step_flush_row i env jti row rows flushed c ts r inner :
    cl_tasks c ≡ₚ TFlush i ((jti, row) :: rows) flushed :: ts →
    bl_revoke env (cl_now c) jti (ob_ttl_secs row) (cl_inner c) = (r, inner) →
    step c (with_tasks (TFlush i rows (if is_ok r then flushed ++ [jti] else flushed) :: ts)
              (with_inner inner c))
| step_flush_delete i flushed c ts :
    cl_tasks c ≡ₚ TFlush i [] flushed :: ts →
    step c (with_tasks (TPrune i flushed :: ts) (with_outbox (delete_all flushed (cl_outbox c)) c))
| step_flush_prune i flushed c ts :
    cl_tasks c ≡ₚ TPrune i flushed :: ts →
    step c (with_tasks ts (with_pending i
              (delete_all flushed (prune_pending (cl_now c) (cl_pending c i))) c))
| step_drop t c ts :
    cl_tasks c ≡ₚ t :: ts → step c (with_tasks ts c)
| step_restart i c :
    step c (restarted i c).

(** ** The invariant *)

(** A row whose time to live, counted from its creation, reaches the token's end. *)
Definition row_ok (now : Z) (j : Uuid) (row : OutboxRow) : Prop :=
  0 ≤ ob_ttl_secs row ∧ ob_created_at row ≤ now ∧
  ob_expires_at row = ob_created_at row + from_secs (ob_ttl_secs row) ∧ D j ≤ ob_expires_at row.

Definition pending_ok (j : Uuid) (e : PendingEntry) : Prop :=
  0 < p_ttl e ∧ D j ≤ added_at e + p_ttl e.

Context `{!BlacklistLaws D}.

Definition landed (j : Uuid) (c : Cluster S) : Prop := cl_now c < D j → bl_safe j (cl_inner c).

Definition durable (j : Uuid) (c : Cluster S) : Prop :=
  cl_now c < D j → bl_safe j (cl_inner c) ∨ is_Some (cl_outbox c !! j).

Definition covered (i : nat) (j : Uuid) (c : Cluster S) : Prop :=
  cl_now c < D j →
  bl_safe j (cl_inner c) ∨ ∃ e, cl_pending c i !! j = Some e ∧ pending_ok j e.

Definition task_ok (c : Cluster S) (t : Task) : Prop :=
  match t with
  | TJournal i j secs => 0 ≤ secs < 2 ^ 63 ∧ D j ≤ cl_now c + from_secs secs
  | TPending i j secs => 0 ≤ secs < 2 ^ 63 ∧ D j ≤ cl_now c + from_secs secs ∧ durable j c
  | TSelect i => True
  | TFlush i rows flushed =>
      Forall (λ p, row_ok (cl_now c) p.1 p.2) rows ∧ Forall (λ j, landed j c) flushed
  | TPrune i flushed => Forall (λ j, landed j c) flushed
  end.

Definition outbox_ok (c : Cluster S) : Prop := map_Forall (row_ok (cl_now c)) (cl_outbox c).

(** The invariant of every reachable state. *)
Record cluster_ok (c : Cluster S) : Prop := {
  ok_outbox : outbox_ok c;
  ok_tasks : Forall (task_ok c) (cl_tasks c);
  ok_accepted : ∀ j, j ∈ cl_accepted c → durable j c;
  ok_local : ∀ i j, (i, j) ∈ cl_local c → covered i j c }.

(** ** Preservation *)

Lemma task_here (c : Cluster S) t ts :
  cluster_ok c → cl_tasks c ≡ₚ t :: ts → task_ok c t ∧ Forall (task_ok c) ts.
Proof.
  intros Hok Hp. pose proof (ok_tasks c Hok) as Ht. rewrite Hp in Ht. by apply Forall_cons in Ht.
Qed.

Lemma row_contract now t j row :
  row_ok now j row → now ≤ t → 0 ≤ ob_ttl_secs row ∧ D j ≤ t + from_secs (ob_ttl_secs row).
Proof. intros (? & ? & Hexp & ?) ?. rewrite Hexp in *. lia. Qed.

Lemma insert_outbox_inv now j secs (o o' : gmap Uuid OutboxRow) :
  insert_outbox now j secs o = Some o' →
  0 ≤ secs ∧ (o' = o ∧ is_Some (o !! j) ∨
              o' = <[j := MkOutboxRow secs now (now + from_secs secs)]> o).
Proof.
  unfold insert_outbox. case_match eqn:Hs; [done|]. bool_to_prop. intros Hi. split; [done|].
  destruct (o !! j) eqn:Hj; simplify_eq; [left; eauto|by right].
Qed.

Lemma delete_all_lookup {A} (ids : list Uuid) (m : gmap Uuid A) j :
  j ∉ ids → delete_all ids m !! j = m !! j.
Proof.
  intros Hj. unfold delete_all. destruct (m !! j) eqn:E.
  - by apply map_lookup_filter_Some.
  - apply map_lookup_filter_None. by left.
Qed.

Lemma unexpired_lookup now (o : gmap Uuid OutboxRow) j row :
  o !! j = Some row → now < ob_expires_at row → unexpired now o !! j = Some row.
Proof. intros ??. by apply map_lookup_filter_Some. Qed.

Lemma step_now (c c' : Cluster S) : step c c' → cl_now c ≤ cl_now c'.
Proof. by destruct 1. Qed.

Lemma step_safe j c c' :
  cluster_ok c → step c c' → cl_now c' < D j → bl_safe j (cl_inner c) → bl_safe j (cl_inner c').
Proof.
  intros Hok Hstep Ht Hc. destruct Hstep; try done; simpl in *.
  - eapply (bl_revoke_keeps _ _ j); [done| | |done|done]; [lia|by intros ->].
  - eapply (bl_revoke_keeps _ _ j); [done| | |done|done]; [lia|by intros ->].
  - by eapply bl_check_keeps.
  - destruct (task_here _ _ _ Hok ltac:(eassumption)) as [[Hrows _] _].
    apply Forall_cons in Hrows as [Hrow _].
    destruct (row_contract _ (cl_now c) _ _ Hrow) as [? ?]; [done|].
    eapply (bl_revoke_keeps _ _ j); [done| | |done|done]; [done|by intros ->].
Qed.

Lemma step_landed j c c' : cluster_ok c → step c c' → landed j c → landed j c'.
Proof.
  intros Hok Hstep Hl Ht. apply (step_safe j c); [done..|]. apply Hl.
  pose proof (step_now _ _ Hstep). lia.
Qed.

(** A step that does not touch the outbox row of [j]. *)
Lemma durable_transfer j c c' :
  cluster_ok c → step c c' → durable j c →
  (cl_now c' < D j → is_Some (cl_outbox c !! j) → bl_safe j (cl_inner c') ∨ is_Some (cl_outbox c' !! j)) →
  durable j c'.
Proof.
  intros Hok Hstep Hd Hrow Ht. pose proof (step_now _ _ Hstep).
  destruct Hd as [Hs|Hr]; [lia| |by apply Hrow]. left. by apply (step_safe j c c').
Qed.

Lemma step_durable j c c' : cluster_ok c → step c c' → durable j c → durable j c'.
Proof.
  intros Hok Hstep Hd. apply (durable_transfer j c c'); [done..|].
  destruct Hstep; simpl; try (by right); intros Ht Hr.
  - match goal with Hi : insert_outbox _ _ _ _ = Some _ |- _ => apply insert_outbox_inv in Hi as [_ [[-> _]| ->]] end; [by right|].
    right. destruct (decide (j = jti)) as [->|?]; [by rewrite lookup_insert_eq|by rewrite lookup_insert_ne].
  - right. destruct Hr as [row Hr]. exists row. apply unexpired_lookup; [done|].
    destruct (ok_outbox c Hok j row Hr) as (_ & _ & _ & ?). lia.
  - destruct (decide (j ∈ flushed)) as [Hj|Hj]; [left|right; by rewrite delete_all_lookup].
    destruct (task_here _ _ _ Hok ltac:(eassumption)) as [[_ Hfl] _].
    rewrite Forall_forall in Hfl. by apply Hfl.
Qed.

Lemma pending_ok_valid now j e : pending_ok j e → now < D j → pending_valid now e = true.
Proof. intros [? ?] ?. unfold pending_valid, duration_since. apply Z.ltb_lt. lia. Qed.

Lemma prune_pending_lookup now j (m : gmap Uuid PendingEntry) e :
  m !! j = Some e → pending_ok j e → now < D j → prune_pending now m !! j = Some e.
Proof. intros ???. apply map_lookup_filter_Some. split; [done|]. by eapply pending_ok_valid. Qed.

Lemma check_pending_lookup now j k (m : gmap Uuid PendingEntry) e :
  m !! j = Some e → pending_ok j e → now < D j → (check_pending now k m).2 !! j = Some e.
Proof.
  intros Hj Hok Ht. unfold check_pending. destruct (m !! k) as [e'|] eqn:Hk; [|done].
  destruct (pending_valid now e') eqn:Hv; [done|]. simpl. rewrite lookup_delete_ne; [done|].
  intros ->. simplify_eq. by rewrite (pending_ok_valid _ j) in Hv.
Qed.

Lemma step_covered i j c c' :
  cluster_ok c → step c c' → (i, j) ∈ cl_local c' → covered i j c → covered i j c'.
Proof.
  intros Hok Hstep Hloc Hc Ht. pose proof (step_now _ _ Hstep).
  destruct Hc as [Hs|(e & He & Hpok)]; [lia| |]; [left; by apply (step_safe j c c')|].
  destruct Hstep; simpl in *; try (right; by exists e).
  - destruct (decide (i = i0)) as [->|?]; [|right; by exists e]. right.
    destruct (decide (j = jti)) as [->|?].
    + eexists. rewrite lookup_insert_eq. split; [done|].
      destruct (task_here _ _ _ Hok ltac:(eassumption)) as [(? & ? & _) _]. split; simpl; lia.
    + exists e. by rewrite lookup_insert_ne.
  - right. exists e. split; [|done]. case_decide; [subst; by apply check_pending_lookup|done].
  - right. exists e. split; [|done]. case_decide; [subst; by apply prune_pending_lookup|done].
  - destruct (decide (j ∈ flushed)) as [Hj|Hj]; [left|right].
    + destruct (task_here _ _ _ Hok ltac:(eassumption)) as [Hfl _].
      simpl in Hfl. rewrite Forall_forall in Hfl. by apply Hfl.
    + exists e. split; [|done]. case_decide; [subst|done].
      rewrite delete_all_lookup by done. by apply prune_pending_lookup.
  - apply elem_of_filter in Hloc as [Hi _]. simpl in Hi. right. exists e. by rewrite decide_False.
Qed.

Lemma row_ok_later now now' j row : now ≤ now' → row_ok now j row → row_ok now' j row.
Proof. intros ? (? & ? & ? & ?). split_and!; try done. lia. Qed.

Lemma step_task c c' t : cluster_ok c → step c c' → task_ok c t → task_ok c' t.
Proof.
  intros Hok Hstep. pose proof (step_now _ _ Hstep). destruct t; simpl.
  - intros []. split; [done|lia].
  - intros (? & ? & ?). split; [done|]. split; [lia|]. by eapply step_durable.
  - done.
  - intros [Hr Hf]. split; (eapply Forall_impl; [done|]); simpl.
    + intros p. by apply row_ok_later.
    + intros j Hj. by eapply step_landed.
  - intros Hf. eapply Forall_impl; [done|]. intros j Hj. by eapply step_landed.
Qed.

Lemma step_outbox_ok c c' : cluster_ok c → step c c' → outbox_ok c'.
Proof.
  intros Hok Hstep. pose proof (step_now _ _ Hstep). pose proof (ok_outbox c Hok) as Hout.
  assert (Hlater : ∀ j row, cl_outbox c !! j = Some row → row_ok (cl_now c') j row).
  { intros j row Hj. eapply row_ok_later; [done|]. by apply Hout. }
  destruct Hstep; try done; intros j row Hj; simpl in *.
  - destruct (task_here _ _ _ Hok ltac:(eassumption)) as [[? ?] _].
    match goal with Hi : insert_outbox _ _ _ _ = Some _ |- _ => apply insert_outbox_inv in Hi as [_ [[-> _]| ->]] end; [by apply Hlater|].
    rewrite wrap_i64_id in Hj by (unfold in_i64, I64_MIN, I64_MAX; lia).
    destruct (decide (j = jti)) as [->|?]; simplify_map_eq; [|by apply Hlater].
    split; simpl; [lia|]. split; [lia|]. done.
  - apply map_lookup_filter_Some in Hj as [Hj _]. by apply Hlater.
  - apply map_lookup_filter_Some in Hj as [Hj _]. by apply Hlater.
Qed.

Lemma flush_batch_elem (o : gmap Uuid OutboxRow) j row :
  (j, row) ∈ flush_batch o → o !! j = Some row.
Proof.
  intros Hj. apply elem_of_take in Hj as (i & Hi & _). apply list_elem_of_lookup_2 in Hi.
  rewrite merge_sort_Permutation in Hi. by apply elem_of_map_to_list in Hi.
Qed.

Lemma step_tasks_ok c c' : cluster_ok c → step c c' → Forall (task_ok c') (cl_tasks c').
Proof.
  intros Hok Hstep.
  assert (Hold : ∀ ts, Forall (task_ok c) ts → Forall (task_ok c') ts).
  { intros ts Hts. eapply Forall_impl; [done|]. intros t. by eapply step_task. }
  pose proof (ok_tasks c Hok) as Hts. pose proof (step_outbox_ok _ _ Hok Hstep) as Hout.
  pose proof Hstep as Hstep'.
  destruct Hstep'; try (by apply Hold);
    try (destruct (task_here _ _ _ Hok ltac:(eassumption)) as [Hhere Hrest]);
    try (apply Forall_cons; split; [|by apply Hold]); try (by apply Hold).
  - done.
  - destruct Hhere as [? ?]. split; [done|]. split; [done|]. intros _. right. simpl.
    match goal with Hi : insert_outbox _ _ _ _ = Some _ |- _ => apply insert_outbox_inv in Hi as [_ [[-> ?]| ->]] end; [done|]. rewrite lookup_insert_eq. done.
  - done.
  - split; [|done]. apply Forall_forall. intros [j row] Hj. apply (ok_outbox c Hok), flush_batch_elem, Hj.
  - destruct Hhere as [Hrows Hfl]. apply Forall_cons in Hrows as [Hrow Hrows]. split; [done|].
    assert (Hfl' : Forall (λ j, landed j (with_tasks (TFlush i rows (if is_ok r then flushed ++ [jti] else flushed) :: ts) (with_inner inner c))) flushed).
    { eapply Forall_impl; [done|]. intros j. by eapply step_landed. }
    destruct r as [[]|]; [|done]. apply Forall_app. split; [done|]. apply Forall_singleton.
    intros Ht. destruct (row_contract _ (cl_now c) _ _ Hrow) as [? ?]; [done|].
    by eapply bl_revoke_safe.
  - destruct Hhere as [_ Hfl]. eapply Forall_impl; [done|]. intros j. by eapply step_landed.
  - apply Hold. apply Forall_forall. intros t Ht. apply list_elem_of_filter in Ht as [_ Ht].
    rewrite Forall_forall in Hts. by apply Hts.
Qed.

Lemma step_ok c c' : cluster_ok c → step c c' → cluster_ok c'.
Proof.
  intros Hok Hstep. split.
  - by eapply step_outbox_ok.
  - by eapply step_tasks_ok.
  - intros j Hj. destruct (decide (j ∈ cl_accepted c)) as [Hin|Hout].
    { eapply step_durable; [done..|]. by apply (ok_accepted c Hok). }
    destruct Hstep; try done; simpl in Hj; apply elem_of_union in Hj as [Hj|Hj]; try done;
      apply elem_of_singleton in Hj as ->; intros Ht.
    + left. simpl in *. by eapply bl_revoke_safe.
    + destruct (task_here _ _ _ Hok ltac:(eassumption)) as [(_ & _ & Hd) _]. by apply Hd.
  - intros i j Hj. destruct (decide ((i, j) ∈ cl_local c)) as [Hin|Hout].
    { eapply step_covered; [done..|]. by apply (ok_local c Hok). }
    destruct Hstep; try done; simpl in Hj.
    + apply elem_of_union in Hj as [Hj|Hj]; [|done]. apply elem_of_singleton in Hj. simplify_eq.
      intros Ht. left. simpl in *. by eapply bl_revoke_safe.
    + apply elem_of_union in Hj as [Hj|Hj]; [|done]. apply elem_of_singleton in Hj. simplify_eq.
      intros Ht. right. eexists. simpl in *. rewrite decide_True, lookup_insert_eq by done.
      split; [done|]. destruct (task_here _ _ _ Hok ltac:(eassumption)) as [(? & ? & _) _]. split; simpl; lia.
    + apply elem_of_filter in Hj as [_ Hj]. done.
Qed.

Lemma cluster_start_ok t inner : cluster_ok (cluster_start t inner).
Proof.
  split; simpl; [apply map_Forall_empty|constructor|set_solver|set_solver].
Qed.

Lemma steps_ok c c' : rtc step c c' → cluster_ok c → cluster_ok c'.
Proof. induction 1; [done|]. intros Hok. eauto using step_ok. Qed.

Lemma steps_now c c' : rtc step c c' → cl_now c ≤ cl_now c'.
Proof. induction 1 as [|? ? ? Hs]; [done|]. apply step_now in Hs. lia. Qed.

Lemma steps_safe j c c' :
  rtc step c c' → cluster_ok c → cl_now c' < D j → bl_safe j (cl_inner c) → bl_safe j (cl_inner c').
Proof.
  induction 1 as [|x y z Hxy Hyz IH]; [done|]. intros Hok Ht Hs. apply IH; [by eapply step_ok|done|].
  apply (step_safe j x); [done..| |done]. pose proof (steps_now _ _ Hyz). lia.
Qed.

(** ** Tokens nobody revoked *)

Definition task_free (j : Uuid) (t : Task) : Prop :=
  match t with
  | TJournal _ k _ | TPending _ k _ => k ≠ j
  | TFlush _ rows _ => j ∉ rows.*1
  | TSelect _ | TPrune _ _ => True
  end.

Record untouched (j : Uuid) (c : Cluster S) : Prop := {
  un_inner : bl_absent j (cl_inner c);
  un_outbox : cl_outbox c !! j = None;
  un_pending : ∀ i, cl_pending c i !! j = None;
  un_tasks : Forall (task_free j) (cl_tasks c) }.

Lemma task_free_here j (c : Cluster S) t ts :
  untouched j c → cl_tasks c ≡ₚ t :: ts → task_free j t ∧ Forall (task_free j) ts.
Proof.
  intros Hun Hp. pose proof (un_tasks j c Hun) as Ht. rewrite Hp in Ht. by apply Forall_cons in Ht.
Qed.

Lemma check_pending_None now j k (m : gmap Uuid PendingEntry) :
  m !! j = None → (check_pending now k m).2 !! j = None.
Proof.
  intros Hj. unfold check_pending. destruct (m !! k); [|done]. case_match; [done|]. simpl.
  rewrite lookup_delete_None. by right.
Qed.

Lemma filter_None {A} (P : Uuid * A → Prop) `{∀ p, Decision (P p)} (m : gmap Uuid A) j :
  m !! j = None → filter P m !! j = None.
Proof. intros Hj. apply map_lookup_filter_None. by left. Qed.

Lemma flush_batch_free j (o : gmap Uuid OutboxRow) : o !! j = None → j ∉ (flush_batch o).*1.
Proof.
  intros Hj Hin. apply list_elem_of_fmap in Hin as ([k row] & -> & Hin).
  apply flush_batch_elem in Hin. simpl in Hj. congruence.
Qed.

Lemma step_untouched j c c' :
  cluster_ok c → step c c' → j ∉ cl_requested c' → untouched j c → untouched j c'.
Proof.
  intros Hok Hstep Hreq Hun. pose proof Hun as [Hin Hout Hpend Htasks].
  destruct Hstep; simpl in *;
    try (destruct (task_here _ _ _ Hok ltac:(eassumption)) as [Hhere _]);
    try (destruct (task_free_here _ _ _ _ Hun ltac:(eassumption)) as [Hfree Hrest]);
    try (assert (jti ≠ j) by set_solver); split; simpl; try done.
  - eapply (bl_revoke_absent _ _ j jti secs); [congruence|lia|done..].
  - eapply (bl_revoke_absent _ _ j jti secs); [congruence|lia|done..].
  - by apply Forall_cons.
  - match goal with Hi : insert_outbox _ _ _ _ = Some _ |- _ =>
      apply insert_outbox_inv in Hi as [_ [[-> _]| ->]] end; [done|]. simpl in Hfree.
    by rewrite lookup_insert_ne.
  - by apply Forall_cons.
  - intros k. case_decide; [|done]. simpl in Hfree. rewrite lookup_insert_ne; done.
  - intros k. case_decide; [subst; by apply check_pending_None|done].
  - by eapply bl_check_absent.
  - intros k. case_decide; [subst; by apply filter_None|done].
  - by apply filter_None.
  - by apply Forall_cons.
  - apply Forall_cons. split; [by apply flush_batch_free|done].
  - destruct Hhere as [Hrows _]. apply Forall_cons in Hrows as [[? _] _].
    eapply (bl_revoke_absent _ _ j jti); [|done..]. simpl in Hfree. set_solver.
  - apply Forall_cons. split; [|done]. simpl in *. set_solver.
  - by apply filter_None.
  - by apply Forall_cons.
  - intros k. case_decide; [subst; by apply filter_None, filter_None|done].
  - intros k. case_decide; [apply lookup_empty|done].
  - apply Forall_forall. intros t Ht. apply list_elem_of_filter in Ht as [_ Ht].
    rewrite Forall_forall in Htasks. by apply Htasks.
Qed.

Lemma step_requested c c' : step c c' → cl_requested c ⊆ cl_requested c'.
Proof. destruct 1; simpl; set_solver. Qed.

Lemma steps_requested c c' : rtc step c c' → cl_requested c ⊆ cl_requested c'.
Proof. induction 1 as [|? ? ? Hs]; [done|]. apply step_requested in Hs. set_solver. Qed.

Lemma steps_untouched j c c' :
  rtc step c c' → cluster_ok c → j ∉ cl_requested c' → untouched j c → untouched j c'.
Proof.
  induction 1 as [|x y z Hxy Hyz IH]; [done|]. intros Hok Hreq Hun.
  apply IH; [by eapply step_ok|done|]. apply (step_untouched j x); [done..| |done].
  apply steps_requested in Hyz. set_solver.
Qed.

Lemma cluster_start_untouched j t inner : bl_absent j inner → untouched j (cluster_start t inner).
Proof. intros Hj. by split. Qed.

(** ** The operations are runs of the system *)

Lemma step_then (c c1 c2 : Cluster S) : step c c1 → rtc step c1 c2 → rtc step c c2.
Proof. apply rtc_l. Qed.

Lemma drop_run t (c : Cluster S) ts : cl_tasks c = t :: ts → rtc step c (with_tasks ts c).
Proof. intros Ht. eapply rtc_once, step_drop. by rewrite Ht. Qed.

Lemma flush_loop_run i envs (c : Cluster S) ts rows flushed fs n inner :
  cl_tasks c = TFlush i rows flushed :: ts →
  flush_loop envs (cl_now c) rows (cl_inner c) = (fs, n, inner) →
  rtc step c (with_tasks (TFlush i [] (flushed ++ fs) :: ts) (with_inner inner c)).
Proof.
  revert c envs flushed fs n inner. induction rows as [|[j row] rows IH]; simpl;
    intros c envs flushed fs n inner Hts Hloop.
  - simplify_eq. rewrite app_nil_r, <- Hts. by destruct c.
  - destruct (bl_revoke (envs 0%nat) (cl_now c) j (ob_ttl_secs row) (cl_inner c)) as [r s1] eqn:Hr.
    destruct (flush_loop _ _ rows s1) as [[fs1 n1] s2] eqn:Hl.
    eapply step_then; [eapply (step_flush_row i _ j row rows flushed c ts); [by rewrite Hts|done]|].
    specialize (IH (with_tasks (TFlush i rows (if is_ok r then flushed ++ [j] else flushed) :: ts)
                      (with_inner s1 c)) _ _ _ _ _ eq_refl Hl).
    destruct r as [[]|]; simplify_eq; simpl in *; [rewrite <- app_assoc in IH|]; apply IH.
Qed.

(** [c'] is what instance [i] sees after a call that ends in [d']. *)
Definition call_ends (i : nat) (c c' : Cluster S) (d' : Durable S) : Prop :=
  rtc step c c' ∧ instance_view i c' = d' ∧ cl_tasks c' = cl_tasks c ∧ cl_now c' = cl_now c.

Lemma revoke_is_run i env jti secs c r d' :
  0 ≤ secs < 2 ^ 63 → D jti ≤ cl_now c + from_secs secs →
  durable_revoke env (cl_now c) jti secs (instance_view i c) = (r, d') →
  ∃ c', call_ends i c c' d' ∧ (r = Ok tt → jti ∈ cl_accepted c' ∧ (i, jti) ∈ cl_local c').
Proof.
  intros Hs Hd. unfold durable_revoke. simpl.
  destruct (bl_revoke env.1 (cl_now c) jti secs (cl_inner c)) as [[[]|e] inner] eqn:Hr.
  { intros [= <- <-]. exists (accepting i jti (requesting jti (with_inner inner c))).
    split; [|simpl; set_solver]. split; [|done]. by eapply rtc_once, step_revoke_ok. }
  set (c1 := with_tasks (TJournal i jti secs :: cl_tasks c) (requesting jti (with_inner inner c))).
  assert (H1 : step c c1) by by eapply step_revoke_refused.
  assert (Hdrop : ∃ c', call_ends i c c' (instance_view i c1)).
  { exists (with_tasks (cl_tasks c) c1). split; [|done].
    eapply step_then; [apply H1|]. eapply drop_run; reflexivity. }
  unfold journal. simpl. destruct (insert_outbox _ _ _ _) as [o|] eqn:Ho.
  - set (c2 := with_tasks (TPending i jti secs :: cl_tasks c) (with_outbox o c1)).
    assert (H2 : step c1 c2) by by eapply step_journal.
    destruct env.2; intros [= <- <-].
    + exists (accepting i jti (with_tasks (cl_tasks c) (with_pending i
                (<[jti := MkPendingEntry (cl_now c) (from_secs secs)]> (cl_pending c i)) c2))).
      split; [split|simpl; set_solver].
      * eapply step_then; [apply H1|]. eapply step_then; [apply H2|]. by apply rtc_once, (step_pending i jti secs c2 (cl_tasks c)).
      * split_and!; [|done..]. unfold instance_view. simpl. by rewrite decide_True.
    + destruct Hdrop as (c' & Hc'). by exists c'.
    + exists (with_tasks (cl_tasks c) c2). split; [split; [|done]|done].
      eapply step_then; [apply H1|]. eapply step_then; [apply H2|]. eapply drop_run; reflexivity.
  - destruct Hdrop as (c' & Hc'). destruct env.2; intros [= <- <-]; by exists c'.
Qed.

Lemma check_is_run i env jti c r d' :
  durable_is_revoked env (cl_now c) jti (instance_view i c) = (r, d') → ∃ c', call_ends i c c' d'.
Proof.
  unfold durable_is_revoked. simpl.
  set (c1 := with_pending i (check_pending (cl_now c) jti (cl_pending c i)).2 c).
  assert (H1 : step c c1) by apply step_check_pending.
  destruct (check_pending _ _ _) as [[] p] eqn:Hp.
  - intros [= <- <-]. exists c1. split; [by apply rtc_once|]. subst c1. unfold instance_view. simpl.
    by rewrite decide_True.
  - destruct (bl_is_revoked env (cl_now c) jti (cl_inner c)) as [r' inner] eqn:Hr. intros [= <- <-].
    exists (with_inner inner c1). split.
    + eapply step_then; [apply H1|]. by eapply rtc_once, step_check_inner.
    + subst c1. unfold instance_view. simpl. by rewrite decide_True.
Qed.

Lemma flush_is_run i pg1 pg2 pg3 envs c r d' :
  flush_pending pg1 pg2 pg3 envs (cl_now c) (instance_view i c) = (r, d') → ∃ c', call_ends i c c' d'.
Proof.
  unfold flush_pending. simpl. set (swept := unexpired (cl_now c) (cl_outbox c)).
  set (c1 := with_tasks (TSelect i :: cl_tasks c) (with_outbox swept c)).
  assert (H1 : step c c1) by apply step_flush_expired.
  assert (Hdrop1 : ∃ c', call_ends i c c' (MkDurable (cl_inner c) swept (cl_pending c i))).
  { exists (with_tasks (cl_tasks c) c1). split; [|done].
    eapply step_then; [apply H1|]. eapply drop_run; reflexivity. }
  destruct pg1; [|intros [= <- <-]; exists c; by split|by intros [= <- <-]].
  destruct pg2; [|by intros [= <- <-]..].
  destruct (flush_loop envs (cl_now c) (flush_batch swept) (cl_inner c)) as [[fs n] inner] eqn:Hl.
  set (c2 := with_tasks (TFlush i (flush_batch swept) [] :: cl_tasks c) c1).
  set (c3 := with_tasks (TFlush i [] fs :: cl_tasks c) (with_inner inner c2)).
  assert (H3 : rtc step c c3).
  { eapply step_then; [apply H1|]. eapply step_then; [apply (step_flush_select i c1 (cl_tasks c)); reflexivity|].
    eapply (flush_loop_run i envs c2 (cl_tasks c) (flush_batch swept) []); [reflexivity|apply Hl]. }
  assert (Hdrop : ∀ c4 t, rtc step c c4 → cl_tasks c4 = t :: cl_tasks c → cl_now c4 = cl_now c →
                          ∃ c', call_ends i c c' (instance_view i c4)).
  { intros c4 t Hrun Hts Hn. exists (with_tasks (cl_tasks c) c4). split; [|done].
    eapply rtc_r; [done|]. eapply step_drop. by rewrite Hts. }
  pose proof (Hdrop c3 _ H3 eq_refl eq_refl) as Hdrop3.
  case_bool_decide; [by intros [= <- <-]|].
  set (c4 := with_tasks (TPrune i fs :: cl_tasks c) (with_outbox (delete_all fs swept) c3)).
  assert (H4 : rtc step c c4) by (eapply rtc_r; [done|]; apply (step_flush_delete i fs c3 (cl_tasks c)); reflexivity).
  destruct pg3; intros [= <- <-].
  - exists (with_tasks (cl_tasks c) (with_pending i
              (delete_all fs (prune_pending (cl_now c) (cl_pending c i))) c4)).
    split; [eapply rtc_r; [apply H4|]; apply (step_flush_prune i fs c4 (cl_tasks c)); reflexivity|].
    unfold instance_view. simpl. by rewrite decide_True.
  - done.
  - apply (Hdrop c4 _ H4 eq_refl eq_refl).
Qed.
End cluster.

(** ** Delivery once the backend is back *)

Section drain.
Context {S Env : Type} `{AccessTokenBlacklist S Env}.

(** The backend accepts every revocation of a sweep. *)
Definition accepts_all (envs : nat → Env) (now : Z) : Prop :=
  ∀ n j secs s, (bl_revoke (envs n) now j secs s).1 = Ok tt.

(** [n] ticks of the flush worker. *)
Fixpoint flush_sweeps (n : nat) (envs : nat → nat → Env) (now : nat → Z) (d : Durable S) : Durable S :=
  match n with
  | O => d
  | Datatypes.S n =>
      flush_sweeps n (λ k, envs (Datatypes.S k)) (λ k, now (Datatypes.S k))
        (flush_pending NetOk NetOk NetOk (envs O) (now O) d).2
  end.

Lemma flush_loop_accepts envs now rows s :
  accepts_all envs now → ∃ s', flush_loop envs now rows s = (rows.*1, 0, s').
Proof.
  revert envs s. induction rows as [|[j row] rows IH]; intros envs s Hall; simpl; [by exists s|].
  destruct (bl_revoke (envs 0%nat) now j (ob_ttl_secs row) s) as [r s1] eqn:Hr.
  specialize (Hall 0%nat j (ob_ttl_secs row) s) as Hok. rewrite Hr in Hok. simpl in Hok. subst r.
  destruct (IH (λ i, envs (Datatypes.S i)) s1) as (s' & ->); [intros n; apply Hall|]. by exists s'.
Qed.

Lemma dom_delete_all {A} ids (m : gmap Uuid A) : dom (delete_all ids m) = dom m ∖ list_to_set ids.
Proof.
  apply set_eq. intros j. rewrite elem_of_difference, elem_of_list_to_set, !elem_of_dom.
  unfold delete_all. split.
  - intros [x Hx]. apply map_lookup_filter_Some in Hx as [Hx Hj]. by split; [exists x|].
  - intros [[x Hx] Hj]. exists x. by apply map_lookup_filter_Some.
Qed.

Lemma flush_batch_size (o : gmap Uuid OutboxRow) : length (flush_batch o) = (FLUSH_BATCH_SIZE `min` size o)%nat.
Proof. unfold flush_batch. by rewrite length_take, merge_sort_Permutation, length_map_to_list. Qed.

Lemma flush_batch_nodup (o : gmap Uuid OutboxRow) : NoDup (flush_batch o).*1.
Proof.
  unfold flush_batch. rewrite fmap_take. eapply sublist_NoDup; [|apply sublist_take].
  rewrite merge_sort_Permutation. apply NoDup_fst_map_to_list.
Qed.

Lemma size_delete_batch (o : gmap Uuid OutboxRow) :
  size (delete_all (flush_batch o).*1 o) = (size o - FLUSH_BATCH_SIZE)%nat.
Proof.
  rewrite <- size_dom, dom_delete_all, size_difference.
  - rewrite size_list_to_set by apply flush_batch_nodup.
    rewrite length_fmap, flush_batch_size, size_dom. lia.
  - intros j Hj. apply elem_of_list_to_set, list_elem_of_fmap in Hj as ([k row] & -> & Hj).
    apply flush_batch_elem in Hj. by apply elem_of_dom.
Qed.

Lemma size_filter_le {A} (P : Uuid * A → Prop) `{∀ p, Decision (P p)} (m : gmap Uuid A) :
  (size (filter P m) ≤ size m)%nat.
Proof. rewrite <- !size_dom. apply subseteq_size, dom_filter_subseteq. Qed.

Lemma flush_pending_accepts envs now (d : Durable S) :
  accepts_all envs now →
  (flush_pending NetOk NetOk NetOk envs now d).1 = Ok 0 ∧
  du_outbox (flush_pending NetOk NetOk NetOk envs now d).2 =
    delete_all (flush_batch (unexpired now (du_outbox d))).*1 (unexpired now (du_outbox d)).
Proof.
  intros Hall. unfold flush_pending. simpl. set (swept := unexpired now (du_outbox d)).
  destruct (flush_loop_accepts envs now (flush_batch swept) (du_inner d) Hall) as (s' & ->).
  case_bool_decide as Hb; [|done]. split; [done|]. simpl. rewrite Hb. unfold delete_all.
  symmetry. apply map_filter_id. simpl. set_solver.
Qed.

End drain.

(** ** Properties *)

Section properties.
Context {S Env : Type} `{BlacklistLaws S Env D}.

(** C10. On every interleaving of the calls of any number of instances — lost
    answers, cancelled calls and restarts included — a revocation that was
    answered [Ok] is, until the token ends, either reported by the shared backend
    or present in the outbox with an expiry that reaches the token's end. *)
Theorem revocation_durable t0 inner c j :
  rtc (step D) (cluster_start t0 inner) c → j ∈ cl_accepted c → cl_now c < D j →
  (∀ env, (bl_is_revoked env (cl_now c) j (cl_inner c)).1 ≠ Ok false) ∨
  ∃ row, cl_outbox c !! j = Some row ∧ row_ok D (cl_now c) j row.
Proof.
  intros Hrun Hj Ht. pose proof (steps_ok D _ _ Hrun (cluster_start_ok D t0 inner)) as Hok.
  destruct (ok_accepted D c Hok j Hj Ht) as [Hs|[row Hr]]; [left|right].
  - intros env. destruct (bl_is_revoked _ _ _ _) as [r s'] eqn:E. by eapply bl_check_safe.
  - exists row. split; [done|]. by apply (ok_outbox D c Hok).
Qed.

(** C11. On the instance that answered the logout, the token is rejected from
    then on: if its pending set does not answer, the shared backend never answers
    "not revoked", also when other calls run between the two checks. *)
Theorem revoked_token_rejected t0 inner c c' i j env :
  rtc (step D) (cluster_start t0 inner) c → (i, j) ∈ cl_local c →
  (check_pending (cl_now c) j (cl_pending c i)).1 = false →
  rtc (step D) c c' → cl_now c' < D j →
  (bl_is_revoked env (cl_now c') j (cl_inner c')).1 ≠ Ok false.
Proof.
  intros Hrun Hj Hmiss Hrun' Ht. pose proof (steps_ok D _ _ Hrun (cluster_start_ok D t0 inner)) as Hok.
  pose proof (steps_now D _ _ Hrun') as Hle.
  destruct (ok_local D c Hok i j Hj) as [Hs|(e & He & Hpok)]; [lia| |].
  - apply (steps_safe D j c c') in Hs; [|done..].
    destruct (bl_is_revoked _ _ _ _) as [r s'] eqn:E. by eapply bl_check_safe.
  - unfold check_pending in Hmiss. rewrite He, (pending_ok_valid D _ j) in Hmiss by (done || lia). done.
Qed.

(** A token nobody asked to revoke is never rejected as revoked, by no
    instance and on no interleaving. *)
Theorem unrevoked_token_accepted t0 inner c i j env :
  rtc (step D) (cluster_start t0 inner) c → bl_absent j inner → j ∉ cl_requested c →
  (check_pending (cl_now c) j (cl_pending c i)).1 = false ∧
  (bl_is_revoked env (cl_now c) j (cl_inner c)).1 ≠ Ok true.
Proof.
  intros Hrun Habs Hreq.
  assert (Hun : untouched D j c).
  { eapply steps_untouched; [done|apply cluster_start_ok|done|by apply cluster_start_untouched]. }
  split; [unfold check_pending; by rewrite (un_pending D j c Hun)|].
  destruct (bl_is_revoked _ _ _ _) as [r s'] eqn:E. simpl.
  by eapply (bl_check_absent env (cl_now c) j j); [apply (un_inner D j c Hun)| |].
Qed.

(** C31. The calls as the code writes them are runs of that system, from any state
    and with any outcome of their round trips; a [revoke] answered [Ok] is
    recorded as accepted on its instance. *)
Theorem durable_calls_are_runs i c :
  (∀ env jti secs r d', 0 ≤ secs < 2 ^ 63 → D jti ≤ cl_now c + from_secs secs →
     durable_revoke env (cl_now c) jti secs (instance_view i c) = (r, d') →
     ∃ c', call_ends D i c c' d' ∧ (r = Ok tt → jti ∈ cl_accepted c' ∧ (i, jti) ∈ cl_local c')) ∧
  (∀ env jti r d',
     durable_is_revoked env (cl_now c) jti (instance_view i c) = (r, d') → ∃ c', call_ends D i c c' d') ∧
  (∀ pg1 pg2 pg3 envs r d',
     flush_pending pg1 pg2 pg3 envs (cl_now c) (instance_view i c) = (r, d') → ∃ c', call_ends D i c c' d').
Proof.
  split; [|split].
  - intros env jti secs r d' Hs Hd. by apply revoke_is_run.
  - intros env jti r d'. apply check_is_run.
  - intros pg1 pg2 pg3 envs r d'. apply flush_is_run.
Qed.

End properties.

(** C32. Once the backend accepts revocations again, each sweep answers that
    nothing remains of its batch, and [n] sweeps empty an outbox of at most
    [500 n] rows. *)
Theorem flush_drains {S Env} `{AccessTokenBlacklist S Env} n envs now (d : Durable S) :
  (∀ k, accepts_all (envs k) (now k)) →
  (size (du_outbox d) ≤ n * FLUSH_BATCH_SIZE)%nat →
  (flush_pending NetOk NetOk NetOk (envs 0%nat) (now 0%nat) d).1 = Ok 0 ∧
  du_outbox (flush_sweeps n envs now d) = ∅.
Proof.
  intros Hall Hsize. split; [by apply flush_pending_accepts|].
  revert envs now d Hall Hsize. induction n as [|n IH]; intros envs now d Hall Hsize.
  - apply map_size_empty_inv. simpl in *. lia.
  - apply IH; [intros k; apply Hall|].
    destruct (flush_pending_accepts (envs 0%nat) (now 0%nat) d (Hall 0%nat)) as [_ ->].
    rewrite size_delete_batch.
    pose proof (size_filter_le (λ p, now 0%nat < ob_expires_at p.2) (du_outbox d)) as Hle.
    unfold unexpired. lia.
Qed.

(** The critical sections of [MemoryAccessTokenBlacklist]. *)
Inductive MemOp : Type :=
| MRevoke (jti : Uuid) (ttl_secs : Z)
| MFast (jti : Uuid)
| MSlow (jti : Uuid).

Definition mem_step (m : gmap Uuid RevokedEntry) (e : Z * MemOp) : gmap Uuid RevokedEntry :=
  match e.2 with
  | MRevoke j secs => (memory_revoke e.1 j secs m).2
  | MFast j => m
  | MSlow j => (is_revoked_slow e.1 j m).2
  end.

(** Sections run before the token ends and re-revoke it with the contract. *)
Definition mem_contract (D : Uuid → Z) (j : Uuid) (e : Z * MemOp) : Prop :=
  e.1 < D j ∧ match e.2 with MRevoke k secs => k = j → D j ≤ e.1 + from_secs secs | _ => True end.

(** In the in-memory backend, whatever critical sections of other calls run
    after a revocation, in any order and also between the two locks of
    [is_revoked], both locks answer "revoked" until the token ends: the slow path
    never removes an entry that was refreshed in between. *)
Theorem memory_revocation_survives D j t0 secs m events t :
  t0 < D j → D j ≤ t0 + from_secs secs → Forall (mem_contract D j) events → t < D j →
  let m' := foldl mem_step (memory_revoke t0 j secs m).2 events in
  is_revoked_fast t j m' = Some true ∧ (is_revoked_slow t j m').1 = true.
Proof.
  intros Ht0 Hd Hev Ht m'. assert (Hs : memory_safe D j m').
  { subst m'. assert (Hs : memory_safe D j (memory_revoke t0 j secs m).2).
    { apply memory_safe_insert; [simpl; lia|done]. }
    revert Hs. generalize (memory_revoke t0 j secs m).2. clear -Hev.
    induction Hev as [|[t op] events [Hlt Hop] _ IH]; intros m Hs; simpl; [done|].
    apply IH. destruct op as [k secs|k|k]; simpl in *; [|done|by apply memory_safe_slow].
    unfold mem_step. simpl. apply memory_safe_insert; [simpl|].
    - intros ->. specialize (Hop eq_refl). lia.
    - intros _. by apply memory_safe_retain. }
  split; [by eapply memory_safe_fast|by eapply memory_safe_slow_true].
Qed.

(** ** Witnesses *)

Definition demo_end : Uuid → Z := λ _, from_secs 1060.

Definition demo_port : AccessTokenBlacklist (@RedisBlacklist toy_redis) Net :=
  @RedisBlacklist_port toy_redis toy_uuid.

Definition demo_inner : @RedisBlacklist toy_redis := @MkRedisBlacklist toy_redis (∅ : gmap string (Z * option Z)) 0.

Definition demo_laws : @BlacklistLaws _ _ demo_port demo_end :=
  @redis_laws toy_redis toy_redis_spec toy_uuid toy_uuid_spec demo_end.

(** A logout whose revocation reaches Redis. *)
Definition demo_revoked : Cluster (@RedisBlacklist toy_redis) :=
  accepting 0 7%N (requesting 7%N
    (with_inner (@redis_revoke toy_redis toy_uuid NetOk 0 7%N 1060 demo_inner).2
       (cluster_start 0 demo_inner))).

(** A logout while Redis is down. *)
Definition demo_refused : Cluster (@RedisBlacklist toy_redis) :=
  with_tasks [TJournal 0 7%N 1060] (requesting 7%N
    (with_inner (@redis_revoke toy_redis toy_uuid NetFail 0 7%N 1060 demo_inner).2
       (cluster_start 0 demo_inner))).

Definition demo_journaled : Cluster (@RedisBlacklist toy_redis) :=
  with_tasks [TPending 0 7%N 1060]
    (with_outbox {[7%N := MkOutboxRow 1060 0 (from_secs 1060)]} demo_refused).

Definition demo_accepted : Cluster (@RedisBlacklist toy_redis) :=
  accepting 0 7%N (with_tasks [] (with_pending 0
    (<[7%N := MkPendingEntry 0 (from_secs 1060)]> (cl_pending demo_journaled 0%nat)) demo_journaled)).

Lemma demo_revoked_run : rtc (@step _ _ demo_port demo_end) (cluster_start 0 demo_inner) demo_revoked.
Proof.
  apply rtc_once, (step_revoke_ok _ 0 NetOk 7%N 1060 (cluster_start 0 demo_inner)); [lia|done|reflexivity].
Qed.

Lemma demo_accepted_run : rtc (@step _ _ demo_port demo_end) (cluster_start 0 demo_inner) demo_accepted.
Proof.
  eapply rtc_l; [|eapply rtc_l; [|apply rtc_once]].
  - apply (step_revoke_refused _ 0 NetFail 7%N 1060 (cluster_start 0 demo_inner) MkBlacklistError); [lia|done|reflexivity].
  - by apply (step_journal _ 0 7%N 1060 demo_refused [] {[7%N := MkOutboxRow 1060 0 (from_secs 1060)]}).
  - by apply (step_pending _ 0 7%N 1060 demo_journaled []).
Qed.

Lemma revocation_durable_witness :
  (∀ env, (@bl_is_revoked _ _ demo_port env 0 7%N (cl_inner demo_accepted)).1 ≠ Ok false) ∨
  ∃ row, cl_outbox demo_accepted !! 7%N = Some row ∧ row_ok demo_end 0 7%N row.
Proof.
  apply (@revocation_durable _ _ demo_port demo_end demo_laws 0 demo_inner demo_accepted 7%N);
    [apply demo_accepted_run|set_solver|done].
Defined.

Lemma revoked_token_rejected_witness :
  (@bl_is_revoked _ _ demo_port NetOk 0 7%N (cl_inner demo_revoked)).1 ≠ Ok false.
Proof.
  apply (@revoked_token_rejected _ _ demo_port demo_end demo_laws 0 demo_inner demo_revoked demo_revoked 0%nat);
    [apply demo_revoked_run|set_solver|reflexivity|apply rtc_refl|done].
Defined.

Lemma unrevoked_token_accepted_witness :
  (check_pending 0 8%N (cl_pending demo_accepted 0%nat)).1 = false ∧
  (@bl_is_revoked _ _ demo_port NetOk 0 8%N (cl_inner demo_accepted)).1 ≠ Ok true.
Proof.
  apply (@unrevoked_token_accepted _ _ demo_port demo_end demo_laws 0 demo_inner demo_accepted 0%nat);
    [apply demo_accepted_run|reflexivity|set_solver].
Defined.

Lemma durable_calls_are_runs_witness :
  ∃ c', @call_ends _ _ demo_port demo_end 0 (cluster_start 0 demo_inner) c'
          (@durable_revoke _ _ demo_port (NetFail, NetOk) 0 7%N 1060
             (instance_view 0 (cluster_start 0 demo_inner))).2 ∧
        (Ok (E := BlacklistError) tt = Ok tt → 7%N ∈ cl_accepted c' ∧ (0%nat, 7%N) ∈ cl_local c').
Proof.
  apply (proj1 (@durable_calls_are_runs _ _ demo_port demo_end 0 (cluster_start 0 demo_inner))
           (NetFail, NetOk) 7%N 1060); [lia|done|reflexivity].
Defined.

Definition demo_backlog : Durable (gmap Uuid RevokedEntry) :=
  MkDurable ∅ {[7%N := MkOutboxRow 1060 0 (from_secs 1060); 8%N := MkOutboxRow 10 0 (from_secs 10)]} ∅.

Lemma flush_drains_witness :
  (flush_pending NetOk NetOk NetOk (λ _, tt) (from_secs 20) demo_backlog).1 = Ok 0 ∧
  du_outbox (flush_sweeps 1 (λ _ _, tt) (λ _, from_secs 20) demo_backlog) = ∅.
Proof. apply (flush_drains 1 (λ _ _, tt) (λ _, from_secs 20)); [done|vm_compute; lia]. Defined.

Lemma memory_revocation_survives_witness :
  let m' := foldl mem_step (memory_revoke 0 7%N 1060 ∅).2
              [(from_secs 5, MRevoke 7%N 2000); (from_secs 6, MSlow 7%N); (from_secs 7, MRevoke 9%N 1)] in
  is_revoked_fast (from_secs 1059) 7%N m' = Some true ∧ (is_revoked_slow (from_secs 1059) 7%N m').1 = true.
Proof.
  apply (memory_revocation_survives demo_end); [done|done| |done].
  repeat constructor; try done; vm_compute; discriminate.
Defined.
