(* ===== verification/Net.v ===== *)
(** * Client addresses

    [resolve_client_ip] of [crates/shared/src/net.rs], used by the rate-limited
    handlers, and the [/metrics] allowlist of
    [crates/infrastructure/src/metrics_guard.rs] built on it. *)

From S2P Require Import Prelude RustStr.

(** ** [resolve_client_ip] *)

Definition contains_ip (l : list IpAddr) (ip : IpAddr) : bool := existsb (λ t, bool_decide (ip = t)) l.

(** The [for candidate in ..] loop: the first candidate that parses and is not a
    trusted proxy. *)
Fixpoint first_untrusted (trusted_proxies : list IpAddr) (candidates : list string) : option IpAddr :=
  match candidates with
  | [] => None
  | candidate :: rest =>
      match parse_ip (trim candidate) with
      | Some ip => if contains_ip trusted_proxies ip then first_untrusted trusted_proxies rest else Some ip
      | None => first_untrusted trusted_proxies rest
      end
  end.

(** [value.split(',').rev()] *)
Definition forwarded_for (trusted_proxies : list IpAddr) (value : string) : option IpAddr :=
  first_untrusted trusted_proxies (rev (split "," value)).

(** [headers.get(name).and_then(|v| v.to_str().ok())] *)
Definition header_str (name : string) (headers : HeaderMap) : option string :=
  v ← header_get name headers; to_str v.

Definition resolve_client_ip (peer_ip : IpAddr) (headers : HeaderMap) (trusted_proxies : list IpAddr) : IpAddr :=
  if negb (contains_ip trusted_proxies peer_ip) then peer_ip
  else
    match header_str "x-forwarded-for" headers ≫= forwarded_for trusted_proxies with
    | Some ip => ip
    | None =>
        match header_str "x-real-ip" headers ≫= parse_ip with
        | Some value => value
        | None => peer_ip
        end
    end.

(** ** The metrics guard *)

Record MetricsGuardConfig : Type := MkMetricsGuardConfig {
  allowed_ips : list IpAddr;
  mg_trusted_proxy_ips : list IpAddr }.

Definition is_metrics_access_allowed (ip : IpAddr) (allowed_ips : list IpAddr) : bool :=
  if bool_decide (allowed_ips = []) then true
  else if is_loopback ip then true
  else contains_ip allowed_ips ip.

(** The middleware: [Some] of the inner handler's response, [None] for 403. *)
Definition metrics_ip_allowlist {R} (config : MetricsGuardConfig) (peer : IpAddr) (headers : HeaderMap)
    (next : R) : option R :=
  let ip := resolve_client_ip peer headers (mg_trusted_proxy_ips config) in
  if is_metrics_access_allowed ip (allowed_ips config) then Some next else None.

(** ** Lemmas *)

Lemma contains_ip_spec l ip : contains_ip l ip = true ↔ ip ∈ l.
Proof.
  unfold contains_ip. rewrite existsb_exists. setoid_rewrite bool_decide_eq_true.
  setoid_rewrite <- list_elem_of_In. split; [by intros (? & ? & ->)|by exists ip].
Qed.

Lemma first_untrusted_app tr l1 l2 :
  first_untrusted tr (l1 ++ l2) =
    match first_untrusted tr l1 with Some ip => Some ip | None => first_untrusted tr l2 end.
Proof. induction l1 as [|c l1 IH]; simpl; [done|]. rewrite IH. destruct (parse_ip _); [|done]. by destruct (contains_ip _ _). Qed.

Lemma first_untrusted_Some tr l ip :
  first_untrusted tr l = Some ip →
  ip ∉ tr ∧ ∃ c, c ∈ l ∧ parse_ip (trim c) = Some ip.
Proof.
  induction l as [|c l IH]; simpl; [done|]. destruct (parse_ip (trim c)) as [ip'|] eqn:Hp.
  - destruct (contains_ip tr ip') eqn:Hc.
    + intros (? & c' & ? & ?)%IH. split; [done|]. exists c'. split; [by right|done].
    + intros [= ->]. split; [|exists c; split; [left|done]]. intros Hin%contains_ip_spec. congruence.
  - intros (? & c' & ? & ?)%IH. split; [done|]. exists c'. split; [by right|done].
Qed.

(** What stands left of a comma only counts if nothing right of it does. *)
Lemma forwarded_for_app tr p s :
  forwarded_for tr (String.append p (String "," s)) =
    match forwarded_for tr s with Some ip => Some ip | None => forwarded_for tr p end.
Proof. unfold forwarded_for. by rewrite split_app, rev_app_distr, first_untrusted_app. Qed.

Lemma forwarded_for_entry tr c :
  contains_char "," c = false →
  forwarded_for tr c = (ip ← parse_ip (trim c); if contains_ip tr ip then None else Some ip).
Proof.
  intros Hc. unfold forwarded_for. rewrite (split_no_sep _ _ Hc). simpl.
  by destruct (parse_ip (trim c)).
Qed.

(** A proxy appends the address it saw to the header it received. *)
Definition append_hop (value hop : string) : string := String.append value (String "," hop).

Lemma forwarded_for_hops tr value hops :
  Forall (λ h, contains_char "," h = false ∧ ∃ t, parse_ip (trim h) = Some t ∧ t ∈ tr) hops →
  forwarded_for tr (foldl append_hop value hops) = forwarded_for tr value.
Proof.
  revert value. induction hops as [|h hops IH]; intros value Hh; simpl; [done|].
  apply Forall_cons in Hh as [(Hc & t & Hp & Ht) Hh]. rewrite (IH _ Hh). unfold append_hop.
  rewrite forwarded_for_app, forwarded_for_entry, Hp by done. simpl.
  apply contains_ip_spec in Ht. by rewrite Ht.
Qed.

(** ** Properties *)

(** C34. The resolved address cannot be forged past the trusted proxies, as far
    as they leave one readable [X-Forwarded-For] line. A peer that is not a
    trusted proxy is itself the client, whatever it sends. Behind them, if the
    first line of that header is visible ASCII, and in it the outermost proxy
    appended the client's address and the others each a trusted one, that
    address is the answer, whatever text the line held before: only the line as
    a whole being unreadable, or the proxies starting a line of their own below
    the client's, escapes this. Without a readable line, and with a line that
    names trusted addresses only, a readable [X-Real-IP] decides, and the peer
    itself without one. *)
Theorem client_ip_unforgeable peer headers tr :
  (peer ∉ tr → resolve_client_ip peer headers tr = peer) ∧
  (∀ (sent : option string) client ip hops line,
     peer ∈ tr → contains_char "," client = false → parse_ip (trim client) = Some ip → ip ∉ tr →
     Forall (λ h, contains_char "," h = false ∧ ∃ t, parse_ip (trim h) = Some t ∧ t ∈ tr) hops →
     header_get "x-forwarded-for" headers = Some line → to_str line = Some line →
     line = foldl append_hop (match sent with Some p => append_hop p client | None => client end) hops →
     resolve_client_ip peer headers tr = ip) ∧
  (peer ∈ tr → header_str "x-forwarded-for" headers ≫= forwarded_for tr = None →
     resolve_client_ip peer headers tr = default peer (header_str "x-real-ip" headers ≫= parse_ip)).
Proof.
  unfold resolve_client_ip. split; [|split].
  - intros Hp. destruct (contains_ip tr peer) eqn:E; [by apply contains_ip_spec in E|done].
  - intros sent client ip hops line Hp Hc Hparse Htr Hhops Hline Hstr ->.
    unfold header_str at 1. rewrite Hline. simpl. rewrite Hstr. apply contains_ip_spec in Hp. rewrite Hp. simpl.
    assert (Hcl : forwarded_for tr client = Some ip).
    { rewrite forwarded_for_entry, Hparse by done. simpl.
      destruct (contains_ip tr ip) eqn:E; [by apply contains_ip_spec in E|done]. }
    rewrite forwarded_for_hops by done. destruct sent as [p|]; [|by rewrite Hcl].
    unfold append_hop. by rewrite forwarded_for_app, Hcl.
  - intros Hp Hnone. apply contains_ip_spec in Hp. rewrite Hp, Hnone. simpl.
    by destruct (header_str "x-real-ip" headers ≫= parse_ip).
Qed.

Definition demo_proxy : IpAddr := V4 167772161.

Lemma client_ip_unforgeable_witness :
  resolve_client_ip demo_proxy [("x-forwarded-for", "1.1.1.1, 203.0.113.7,10.0.0.1")]%string [demo_proxy]
  = V4 3405803783.
Proof.
  apply (proj1 (proj2 (client_ip_unforgeable demo_proxy _ [demo_proxy])) (Some "1.1.1.1"%string) " 203.0.113.7"
           (V4 3405803783) ["10.0.0.1"%string] "1.1.1.1, 203.0.113.7,10.0.0.1"); try reflexivity.
  - by left.
  - intros Hin%list_elem_of_singleton. discriminate.
  - repeat constructor. exists demo_proxy. split; [reflexivity|by left].
Defined.

(** A byte outside visible ASCII anywhere in the value, the client's part
    included, makes the whole header unreadable and [X-Real-IP] decide. *)
Theorem opaque_forwarded_for_is_ignored :
  resolve_client_ip demo_proxy
    [("x-forwarded-for", String.append (byte_str [255]) ", 203.0.113.7"); ("x-real-ip", "9.9.9.9")]%string
    [demo_proxy] = V4 151587081.
Proof. reflexivity. Qed.

(** Only the first [X-Forwarded-For] line is read. *)
Theorem second_forwarded_for_line_is_ignored :
  resolve_client_ip demo_proxy
    [("x-forwarded-for", "9.9.9.9"); ("x-forwarded-for", "203.0.113.7")]%string [demo_proxy] = V4 151587081.
Proof. reflexivity. Qed.

(** With an allowlist, [/metrics] answers a peer that is not a trusted proxy
    exactly when it is loopback or listed, whatever headers it sends; behind a
    trusted proxy the decision is about the resolved client; without an
    allowlist everyone is served. *)
Theorem metrics_guard_decides {R} config peer headers (next : R) :
  let served := metrics_ip_allowlist config peer headers next = Some next in
  (allowed_ips config = [] → served) ∧
  (allowed_ips config ≠ [] → peer ∉ mg_trusted_proxy_ips config →
     (served ↔ is_loopback peer = true ∨ peer ∈ allowed_ips config)) ∧
  (allowed_ips config ≠ [] →
     let ip := resolve_client_ip peer headers (mg_trusted_proxy_ips config) in
     (served ↔ is_loopback ip = true ∨ ip ∈ allowed_ips config)).
Proof.
  simpl. unfold metrics_ip_allowlist, is_metrics_access_allowed.
  assert (Hiff : ∀ ip, (if if is_loopback ip then true else contains_ip (allowed_ips config) ip
                        then Some next else None) = Some next
                       ↔ is_loopback ip = true ∨ ip ∈ allowed_ips config).
  { intros ip. rewrite <- contains_ip_spec. destruct (is_loopback ip), (contains_ip _ ip); naive_solver. }
  split_and!.
  - intros ->. done.
  - intros Hne Hp. rewrite bool_decide_false by done.
    assert (resolve_client_ip peer headers (mg_trusted_proxy_ips config) = peer) as ->; [|apply Hiff].
    unfold resolve_client_ip. destruct (contains_ip _ peer) eqn:E; [by apply contains_ip_spec in E|done].
  - intros Hne. rewrite bool_decide_false by done. apply Hiff.
Qed.
