(* ===== verification/Http.v ===== *)
(** * Requests, responses and authentication

    What the HTTP handlers of every context share: the server state they run on,
    the response bodies, and the [AuthenticatedUser] extractor of
    [crates/shared/src/auth.rs]. *)

From S2P Require Import Prelude RustStr ValueObjects Database Effects Jwt Net RateLimiter Blacklist.

(** ** Responses *)

(** [UserResponse] of the admin context. *)
Record UserView : Type := MkUserView {
  uv_id : string;
  uv_username : option string;
  uv_email : string;
  uv_display_name : string;
  uv_role : string;
  uv_auth_provider : string;
  uv_created_at : string;
  uv_updated_at : string }.

Inductive Body : Type :=
| ErrorResponse (error : string)
| AuthTokensResponse (status user_id access_token refresh_token : string)
| GoogleAuthResponse (status user_id access_token refresh_token : string) (is_new_user : bool)
| RefreshResponse (access_token refresh_token : string)
| StatusResponse (status : string)
| HealthResponse (status version : string)
| UserResponse (user : UserView)
| UsersResponse (items : list UserView) (page per_page total : Z)
| ProfileResponse (user_id : string) (avatar_url bio : option string) (updated_at : string).

(** The chrono crate: [DateTime::to_rfc3339], of a time in nanoseconds, and the
    digits of a reading of the clock below the microsecond, which the clock of
    the world leaves out. *)
Class ChronoLib : Type := {
  to_rfc3339 : Z → string;
  below_micro : Z → Z }.

(** sqlx writes a [DateTime] as whole microseconds from the year 2000, rounding
    towards it, and reads it back as such. *)
Definition PG_EPOCH : Z := from_secs 946684800.

Definition to_timestamptz (nanos : Z) : Z := PG_EPOCH + (nanos - PG_EPOCH * 1000) ÷ 1000.

Definition of_timestamptz (micros : Z) : Z := micros * 1000.

Lemma timestamptz_round_trip micros : to_timestamptz (of_timestamptz micros) = micros.
Proof.
  unfold to_timestamptz, of_timestamptz. rewrite <- Z.mul_sub_distr_r, Z.quot_mul by done. lia.
Qed.

(** [Utc::now()], to the nanosecond. *)
Definition utc_now_nanos `{ChronoLib} {E} : M E Z :=
  t ← utc_now;
  mret (of_timestamptz t + below_micro t mod 1000).

Lemma framed_utc_now_nanos `{ChronoLib} {E} : framed (E := E) utc_now_nanos.
Proof. apply framed_bind; auto with svc. Qed.

Lemma utc_now_nanos_pure `{ChronoLib} {E} : db_pure (E := E) utc_now_nanos.
Proof. apply db_pure_bind; auto with svc. Qed.

#[export] Hint Resolve framed_utc_now_nanos utc_now_nanos_pure : svc.

Record Response (B : Type) : Type := MkResponse { rs_status : Z; rs_body : B }.
Arguments MkResponse {B}.
Arguments rs_status {B}.
Arguments rs_body {B}.

(** ** The server

    [L] and [B] are the states of the configured rate limiter and revocation
    list; [sv_bus] is the list of events published so far. *)
Record Srv (L B : Type) : Type := MkSrv {
  sv_world : World;
  sv_login_limiter : L;
  sv_refresh_limiter : L;
  sv_bus : list Event;
  sv_blacklist : B }.
Arguments MkSrv {L B}.
Arguments sv_world {L B}.
Arguments sv_login_limiter {L B}.
Arguments sv_refresh_limiter {L B}.
Arguments sv_bus {L B}.
Arguments sv_blacklist {L B}.

(** Handlers cannot fail: they answer and leave a state. *)
Definition H (L B A : Type) : Type := Srv L B → A * Srv L B.

#[global] Instance H_ret L B : MRet (H L B) := λ A a s, (a, s).

#[global] Instance H_bind L B : MBind (H L B) := λ A C f m s, let '(a, s') := m s in f a s'.

Section server.
Context {L B : Type}.

(** An effectful call of the application layer, with its result. *)
Definition call {E A} (m : M E A) : H L B (result E A) := λ s,
  let '(r, w) := m (sv_world s) in
  (r, MkSrv w (sv_login_limiter s) (sv_refresh_limiter s) (sv_bus s) (sv_blacklist s)).

Definition now : H L B Z := λ s,
  let '(_, w) := @utc_now unit (sv_world s) in
  (reading (sv_world s), MkSrv w (sv_login_limiter s) (sv_refresh_limiter s) (sv_bus s) (sv_blacklist s)).

Definition on_login_limiter {A} (f : L → A * L) : H L B A := λ s,
  let '(a, l) := f (sv_login_limiter s) in
  (a, MkSrv (sv_world s) l (sv_refresh_limiter s) (sv_bus s) (sv_blacklist s)).

Definition on_refresh_limiter {A} (f : L → A * L) : H L B A := λ s,
  let '(a, l) := f (sv_refresh_limiter s) in
  (a, MkSrv (sv_world s) (sv_login_limiter s) l (sv_bus s) (sv_blacklist s)).

Definition on_blacklist {A} (f : B → A * B) : H L B A := λ s,
  let '(a, b) := f (sv_blacklist s) in
  (a, MkSrv (sv_world s) (sv_login_limiter s) (sv_refresh_limiter s) (sv_bus s) b).

(** [for event in &events { bus.publish(event.clone()) }] *)
Definition publish_all (events : list Event) : H L B unit := λ s,
  (tt, MkSrv (sv_world s) (sv_login_limiter s) (sv_refresh_limiter s) (sv_bus s ++ events) (sv_blacklist s)).

End server.

(** ** [AuthenticatedUser] *)

Record AuthenticatedUser : Type := MkAuthenticatedUser { au_user_id : Uuid; au_jti : Uuid; au_exp : Z }.

Inductive AuthRejection : Type := MkAuthRejection.

Definition AuthRejection_into_response : Response Body := MkResponse 401 (ErrorResponse "Unauthorized").

(** The token of an [Authorization: Bearer ..] header. *)
Definition bearer_token (headers : HeaderMap) : option string :=
  header_str "authorization" headers ≫= strip_prefix "Bearer ".

Section extractor.
Context {L B Env : Type} `{UuidLib, JwtLib, AccessTokenBlacklist B Env}.

(** [ext_verification] and [ext_blacklist] say whether the two [Extension] layers
    are installed; [env] is the outcome of the blacklist round trip. *)
Definition from_request_parts (env : Env) (ext_verification : option JwtVerification)
    (ext_blacklist : bool) (headers : HeaderMap) : H L B (result AuthRejection AuthenticatedUser) :=
  match bearer_token headers, ext_verification, ext_blacklist with
  | Some token, Some verification, true =>
      c ← call (E := AuthRejection) (decode request_of_json verification token);
      match c with
      | Ok (Some claims) =>
          t ← now;
          r ← on_blacklist (bl_is_revoked env t (qc_jti claims));
          match r with
          | Ok true => mret (Err MkAuthRejection)
          | Ok false | Err _ =>
              mret (Ok (MkAuthenticatedUser (qc_sub claims) (qc_jti claims) (qc_exp claims)))
          end
      | _ => mret (Err MkAuthRejection)
      end
  | _, _, _ => mret (Err MkAuthRejection)
  end.

(** A handler that takes an [AuthenticatedUser]: the rejection answers first. *)
Definition authenticated (env : Env) (ext_verification : option JwtVerification) (ext_blacklist : bool)
    (headers : HeaderMap) (handler : AuthenticatedUser → H L B (Response Body)) : H L B (Response Body) :=
  r ← from_request_parts env ext_verification ext_blacklist headers;
  match r with
  | Ok auth_user => handler auth_user
  | Err _ => mret AuthRejection_into_response
  end.

End extractor.
