(* ===== verification/Telemetry.v ===== *)
(** * Telemetry

    The set-up of logging and of the metrics recorder ([logging.rs],
    [metrics.rs]), and [crates/infrastructure/src/telemetry/pollers.rs]: the task that mirrors the
    Redis error counters of the rate limiters and of the revocation list into
    the metrics recorder, the one that samples the connection pool, and the one
    that flushes the revocation outbox and publishes what is left; with the
    counter handles of [rate_limiter_setup.rs] and
    [access_token_blacklist_setup.rs]. The metrics crate is a parameter. *)

From S2P Require Import Prelude RustStr Effects AuthSettings Jwt Net Redis RateLimiter Blacklist Revocation.

(** ** Set-up

    The tracing-subscriber crate: [filter_parse] parses filter directives,
    [filter_new] is [EnvFilter::new], which skips those it cannot read. *)
Class TracingLib : Type := {
  EnvFilter : Type;
  filter_parse : string → option EnvFilter;
  filter_new : string → EnvFilter }.

(** [EnvFilter::try_from_default_env()] *)
Definition try_from_default_env `{TracingLib} (env : Env) : option EnvFilter :=
  ok (env "RUST_LOG"%string) ≫= filter_parse.

(** [init_logging]: the filter of the subscriber; [init] is its installation,
    which panics where it fails. *)
Definition init_logging `{TracingLib} (env : Env) (init : EnvFilter → result string unit) : result string EnvFilter :=
  let filter := default (filter_new "info") (try_from_default_env env) in
  _ ← init filter;
  Ok filter.

(** [install_prometheus_recorder]: what [install_recorder] returns, or the panic. *)
Definition install_prometheus_recorder {R} (install_recorder : result string R) : result string R :=
  map_err (String.append "failed to install Prometheus metrics recorder: ") install_recorder.

(** ** The metrics recorder *)

(** A metric's name with its labels. *)
Abbreviation MetricKey := (string * list (string * string))%type.

Class MetricsLib : Type := {
  Recorder : Type;
  gauge_set : MetricKey → Z → Recorder → Recorder;
  counter_absolute : MetricKey → Z → Recorder → Recorder;
  metric_value : MetricKey → Recorder → option Z }.

(** Documented: a gauge takes the value it is set to, [absolute] raises a counter
    to the value and never lowers it, and metrics are independent. *)
Class MetricsSpec `{MetricsLib} : Prop := {
  gauge_set_value : ∀ k v r, metric_value k (gauge_set k v r) = Some v;
  gauge_set_other : ∀ k k' v r, k ≠ k' → metric_value k' (gauge_set k v r) = metric_value k' r;
  counter_absolute_value : ∀ k v r,
    metric_value k (counter_absolute k v r) = Some (Z.max (default 0 (metric_value k r)) v);
  counter_absolute_other : ∀ k k' v r, k ≠ k' →
    metric_value k' (counter_absolute k v r) = metric_value k' r }.

(** ** The error counters *)

(** The [Arc<AtomicU64>] of a component; [load] reads it. *)
Inductive CounterHandle : Type :=
| HLogin
| HRefresh
| HBlacklist.

Record RateLimiterErrorCounters : Type := MkRateLimiterErrorCounters {
  login : option CounterHandle;
  refresh : option CounterHandle }.

Record AccessTokenBlacklistErrorCounter : Type := MkBlacklistErrorCounter { redis : option CounterHandle }.

Section counters.
Context `{RedisLib, IpDisplay, UuidLib}.

(** The components the counters belong to. *)
Record Sources : Type := MkSources {
  src_login : AnyLimiter;
  src_refresh : AnyLimiter;
  src_blacklist : AnyBlacklist }.

(** The third component of [build_rate_limiters]' answer. *)
Definition limiter_error_counters (l : AnyLimiter * AnyLimiter) : RateLimiterErrorCounters :=
  match l with
  | (LRedis _, LRedis _) => MkRateLimiterErrorCounters (Some HLogin) (Some HRefresh)
  | _ => MkRateLimiterErrorCounters None None
  end.

(** The second and third components of [build_access_token_blacklist]'s. *)
Definition blacklist_error_counter (b : AnyBlacklist) : AccessTokenBlacklistErrorCounter :=
  match b with
  | BDurable _ => MkBlacklistErrorCounter (Some HBlacklist)
  | BMemory _ => MkBlacklistErrorCounter None
  end.

Definition revocation_flusher (b : AnyBlacklist) : option (Durable RedisBlacklist) :=
  match b with
  | BDurable d => Some d
  | BMemory _ => None
  end.

Definition limiter_errors (l : AnyLimiter) : Z :=
  match l with LRedis l => rrl_error_count l | LMemory _ => 0 end.

Definition blacklist_errors (b : AnyBlacklist) : Z :=
  match b with BDurable d => rb_error_count (du_inner d) | BMemory _ => 0 end.

(** [source.load(Ordering::Relaxed)] *)
Definition load (s : Sources) (h : CounterHandle) : Z :=
  match h with
  | HLogin => limiter_errors (src_login s)
  | HRefresh => limiter_errors (src_refresh s)
  | HBlacklist => blacklist_errors (src_blacklist s)
  end.

End counters.

(** ** The pollers *)

Definition POLL_INTERVAL : Z := from_secs 15.

Definition mirror (o : option CounterHandle) (k : MetricKey) : list (MetricKey * CounterHandle) :=
  match o with Some source => [(k, source)] | None => [] end.

Definition error_counter_mirrors (rate_limiters : RateLimiterErrorCounters)
    (blacklist : AccessTokenBlacklistErrorCounter) : list (MetricKey * CounterHandle) :=
  mirror (login rate_limiters) ("rate_limiter_redis_errors_total", [("scope", "login")])%string ++
  mirror (refresh rate_limiters) ("rate_limiter_redis_errors_total", [("scope", "refresh")])%string ++
  mirror (redis blacklist) ("access_token_blacklist_redis_errors_total", [])%string.

(** The mirrors of the task that is spawned, if one is. *)
Definition spawn_backend_error_counter_poller (rate_limiters : RateLimiterErrorCounters)
    (blacklist : AccessTokenBlacklistErrorCounter) : option (list (MetricKey * CounterHandle)) :=
  let mirrors := error_counter_mirrors rate_limiters blacklist in
  if bool_decide (mirrors = []) then None else Some mirrors.

(** [interval_secs.max(1)] *)
Definition flush_period (interval_secs : Z) : Z := from_secs (Z.max interval_secs 1).

Definition PENDING_GAUGE : MetricKey := ("access_token_revocation_outbox_pending"%string, []).

Section ticks.
Context `{MetricsLib}.

(** One tick of the counter poller. *)
Definition mirror_tick `{RedisLib} (mirrors : list (MetricKey * CounterHandle))
    (s : Sources) (r : Recorder) : Recorder :=
  foldl (λ r m, counter_absolute m.1 (load s m.2) r) r mirrors.

(** One tick of the pool poller. *)
Definition db_pool_tick (size num_idle : Z) (r : Recorder) : Recorder :=
  gauge_set ("db_pool_idle"%string, []) num_idle (gauge_set ("db_pool_size"%string, []) size r).

(** One tick of the flush worker: a failed sweep leaves the gauge. *)
Definition flusher_tick {S Env} `{AccessTokenBlacklist S Env} (pg1 pg2 pg3 : Net) (envs : nat → Env) (now : Z)
    (d : Durable S) (r : Recorder) : Durable S * Recorder :=
  match flush_pending pg1 pg2 pg3 envs now d with
  | (Ok remaining, d') => (d', gauge_set PENDING_GAUGE remaining r)
  | (Err _, d') => (d', r)
  end.

End ticks.

(** ** What is exported *)

Section exported.
Context `{MetricsSpec, RedisLib, IpDisplay, UuidLib}.

(** A call of a rate limiter, whatever happens on the network. *)
Inductive limiter_call : AnyLimiter → AnyLimiter → Prop :=
| lc_check net t1 t2 ip l : limiter_call (LRedis l) (LRedis (redis_check net t1 t2 ip l).2)
| lc_record net t1 t2 ip l : limiter_call (LRedis l) (LRedis (redis_record_attempt net t1 t2 ip l))
| lc_try net t1 t2 ip l : limiter_call (LRedis l) (LRedis (redis_try net t1 t2 ip l).2)
| lc_remaining net t ip l : limiter_call (LRedis l) (LRedis (redis_remaining net t ip l).2)
| lc_reset net ip l : limiter_call (LRedis l) (LRedis (redis_reset net ip l))
| lc_memory l l' : limiter_call (LMemory l) (LMemory l').

(** A call of the revocation list, or a sweep of its outbox. *)
Inductive blacklist_call : AnyBlacklist → AnyBlacklist → Prop :=
| bc_revoke env now jti ttl d :
    blacklist_call (BDurable d) (BDurable (@durable_revoke _ _ RedisBlacklist_port env now jti ttl d).2)
| bc_is_revoked net now jti d :
    blacklist_call (BDurable d) (BDurable (@durable_is_revoked _ _ RedisBlacklist_port net now jti d).2)
| bc_flush pg1 pg2 pg3 nets now d :
    blacklist_call (BDurable d) (BDurable (@flush_pending _ _ RedisBlacklist_port pg1 pg2 pg3 nets now d).2)
| bc_memory m m' : blacklist_call (BMemory m) (BMemory m').

(** At most [n] increments of an [AtomicU64]. *)
Fixpoint incremented (n : nat) (a b : Z) : Prop :=
  match n with
  | O => b = a
  | S n => b = a ∨ incremented n (wrap_u64 (a + 1)) b
  end.

Lemma incremented_refl n a : incremented n a a.
Proof. destruct n; [done|by left]. Qed.

Lemma incremented_le n m a b : (n ≤ m)%nat → incremented n a b → incremented m a b.
Proof.
  revert m a. induction n as [|n IH]; intros m a Hle; [intros ->; apply incremented_refl|].
  destruct m as [|m]; [lia|]. intros [->|Hi]; [by left|right]. apply IH; [lia|done].
Qed.

Lemma incremented_trans n m a b c : incremented n a b → incremented m b c → incremented (n + m) a c.
Proof.
  revert a. induction n as [|n IH]; intros a; simpl; [by intros ->|].
  intros [->|Hi] Hm; [|right; by eapply IH].
  change (incremented (S (n + m)) a c). eapply incremented_le; [|exact Hm]. lia.
Qed.

Lemma incremented_once a : incremented 1 a (wrap_u64 (a + 1)).
Proof. by right. Qed.

Lemma incremented_ge n a b : 0 ≤ a → a + Z.of_nat n ≤ U64_MAX → incremented n a b → a ≤ b.
Proof.
  revert a. induction n as [|n IH]; intros a Ha Hn; [by intros ->|]. intros [->|Hi]; [done|].
  rewrite wrap_u64_id in Hi by (unfold in_u64; lia). apply IH in Hi; lia.
Qed.

Lemma limiter_call_errors l l' : limiter_call l l' → incremented 1 (limiter_errors l) (limiter_errors l').
Proof.
  destruct 1 as [net t1 t2 ip l|net t1 t2 ip l|net t1 t2 ip l|net t ip l|net ip l|]; simpl; [..|by left].
  - unfold redis_check. destruct (get_u32 _ _ _ _) as [[n|]|]; [by left..|].
    destruct (memory_check _ _ _ _). apply incremented_once.
  - unfold redis_record_attempt. destruct (INCR_WITH_EXPIRE_SCRIPT _ _ _ _).
    destruct net; [by left|apply incremented_once..].
  - unfold redis_try. destruct (TRY_CHECK_AND_RECORD_SCRIPT _ _ _ _ _).
    destruct net; [by left|destruct (memory_try _ _ _ _); apply incremented_once..].
  - unfold redis_remaining. destruct (get_u32 _ _ _ _) as [[n|]|]; [by left..|].
    destruct (memory_remaining _ _ _). apply incremented_once.
  - unfold redis_reset. destruct net; [by left|apply incremented_once..].
Qed.

Lemma redis_revoke_errors net now jti ttl b :
  incremented 1 (rb_error_count b) (rb_error_count (redis_revoke net now jti ttl b).2).
Proof. unfold redis_revoke. destruct (ttl =? 0); [by left|]. destruct net; [by left|apply incremented_once..]. Qed.

Lemma flush_loop_errors nets now rows b :
  incremented (length rows) (rb_error_count b)
    (rb_error_count (@flush_loop _ _ RedisBlacklist_port nets now rows b).2).
Proof.
  revert nets b. induction rows as [|[j row] rows IH]; intros nets b; [done|]. simpl.
  destruct (redis_revoke (nets 0%nat) now j (ob_ttl_secs row) b) as [r b1] eqn:Hr.
  specialize (IH (λ i, nets (S i)) b1). destruct (flush_loop _ _ _ _) as [[fl rem] b2].
  assert (Hb1 : incremented 1 (rb_error_count b) (rb_error_count b1)).
  { replace b1 with (redis_revoke (nets 0%nat) now j (ob_ttl_secs row) b).2 by by rewrite Hr. apply redis_revoke_errors. }
  cbn [snd] in IH. pose proof (incremented_trans 1 _ _ _ _ Hb1 IH) as Hall. by destruct r.
Qed.

Lemma flush_batch_le (o : gmap Uuid OutboxRow) : (length (flush_batch o) ≤ FLUSH_BATCH_SIZE)%nat.
Proof. unfold flush_batch. rewrite length_take. lia. Qed.

Lemma journal_inner {S} pg now jti ttl (d : Durable S) : du_inner (journal pg now jti ttl d).2 = du_inner d.
Proof. unfold journal. destruct (insert_outbox now jti (wrap_i64 ttl) (du_outbox d)); by destruct pg. Qed.

Lemma blacklist_call_errors b b' :
  blacklist_call b b' → incremented FLUSH_BATCH_SIZE (blacklist_errors b) (blacklist_errors b').
Proof.
  assert (Hone : ∀ a b, incremented 1 a b → incremented FLUSH_BATCH_SIZE a b).
  { intros a c. apply incremented_le. unfold FLUSH_BATCH_SIZE. lia. }
  destruct 1 as [env now jti ttl d|net now jti d|pg1 pg2 pg3 nets now d|]; cbn [blacklist_errors];
    [..|apply incremented_refl].
  - apply Hone. unfold durable_revoke. simpl. pose proof (redis_revoke_errors env.1 now jti ttl (du_inner d)) as Hr.
    destruct (redis_revoke _ _ _ _ _) as [[] b1]; [exact Hr|].
    pose proof (journal_inner env.2 now jti ttl (MkDurable b1 (du_outbox d) (du_pending d))) as Hj.
    destruct (journal _ _ _ _ _) as [[] d1]; simpl in *; by rewrite Hj.
  - apply Hone. unfold durable_is_revoked. destruct (check_pending _ _ _) as [[] p]; [by left|]. simpl.
    destruct net; [by left|apply incremented_once..].
  - unfold flush_pending. destruct pg1; [|apply incremented_refl..]. cbn [du_inner du_outbox du_pending].
    destruct pg2; [|apply incremented_refl..].
    pose proof (flush_loop_errors nets now (flush_batch (unexpired now (du_outbox d))) (du_inner d)) as Hf.
    destruct (flush_loop _ _ _ _) as [[fl rem] b]. cbn [snd] in Hf.
    eapply incremented_le; [apply (flush_batch_le (unexpired now (du_outbox d)))|].
    case_bool_decide; [exact Hf|]. by destruct pg3.
Qed.

(** *** The exported counters *)

Record Monitored : Type := MkMonitored { mo_sources : Sources; mo_recorder : Recorder }.

(** No counter is within a sweep of wrapping round. *)
Definition counter_room (s : Sources) : Prop :=
  ∀ h, load s h + Z.of_nat FLUSH_BATCH_SIZE ≤ U64_MAX.

(** The service at work, and the three tasks. *)
Inductive mo_step (mirrors : list (MetricKey * CounterHandle)) : Monitored → Monitored → Prop :=
| mo_login s l' r : counter_room s → limiter_call (src_login s) l' →
    mo_step mirrors (MkMonitored s r) (MkMonitored (MkSources l' (src_refresh s) (src_blacklist s)) r)
| mo_refresh s l' r : counter_room s → limiter_call (src_refresh s) l' →
    mo_step mirrors (MkMonitored s r) (MkMonitored (MkSources (src_login s) l' (src_blacklist s)) r)
| mo_blacklist s b' r : counter_room s → blacklist_call (src_blacklist s) b' →
    mo_step mirrors (MkMonitored s r) (MkMonitored (MkSources (src_login s) (src_refresh s) b') r)
| mo_mirror s r : mo_step mirrors (MkMonitored s r) (MkMonitored s (mirror_tick mirrors s r))
| mo_pool s r size idle : mo_step mirrors (MkMonitored s r) (MkMonitored s (db_pool_tick size idle r))
| mo_pending s r remaining :
    mo_step mirrors (MkMonitored s r) (MkMonitored s (gauge_set PENDING_GAUGE remaining r)).

(** A metric trails its source. *)
Definition trailing (m : Monitored) (p : MetricKey * CounterHandle) : Prop :=
  0 ≤ load (mo_sources m) p.2 ∧ default 0 (metric_value p.1 (mo_recorder m)) ≤ load (mo_sources m) p.2.

(** The metrics the README documents, by the counter each exports. *)
Definition documented_metric (h : CounterHandle) : MetricKey :=
  match h with
  | HLogin => ("rate_limiter_redis_errors_total", [("scope", "login")])%string
  | HRefresh => ("rate_limiter_redis_errors_total", [("scope", "refresh")])%string
  | HBlacklist => ("access_token_blacklist_redis_errors_total", [])%string
  end.

(** The components that run on Redis. *)
Definition on_redis (s : Sources) (h : CounterHandle) : bool :=
  match h with
  | HLogin | HRefresh =>
      match src_login s, src_refresh s with LRedis _, LRedis _ => true | _, _ => false end
  | HBlacklist => match src_blacklist s with BDurable _ => true | BMemory _ => false end
  end.

Lemma mirrors_documented s k h :
  (k, h) ∈ error_counter_mirrors (limiter_error_counters (src_login s, src_refresh s))
             (blacklist_error_counter (src_blacklist s)) ↔
  k = documented_metric h ∧ on_redis s h = true.
Proof.
  unfold error_counter_mirrors.
  destruct h, (src_login s) eqn:Hl, (src_refresh s) eqn:Hr, (src_blacklist s) eqn:Hb; simpl;
    rewrite ?Hl, ?Hr, ?Hb; set_solver.
Qed.

Lemma mirror_tick_other mirrors s r k :
  k ∉ mirrors.*1 → metric_value k (mirror_tick mirrors s r) = metric_value k r.
Proof.
  unfold mirror_tick. revert r. induction mirrors as [|[k' h] l IH]; intros r Hk; [done|]. simpl in *.
  apply not_elem_of_cons in Hk as [Hne Hk]. rewrite IH by done. by apply counter_absolute_other.
Qed.

Lemma mirror_tick_value mirrors s r k h :
  NoDup mirrors.*1 → (k, h) ∈ mirrors →
  metric_value k (mirror_tick mirrors s r) = Some (Z.max (default 0 (metric_value k r)) (load s h)).
Proof.
  revert r. induction mirrors as [|[k' h'] l IH]; intros r Hnd Hin; [by apply not_elem_of_nil in Hin|].
  simpl in Hnd. apply NoDup_cons in Hnd as [Hk' Hnd].
  change (mirror_tick ((k', h') :: l) s r) with (mirror_tick l s (counter_absolute k' (load s h') r)).
  apply elem_of_cons in Hin as [[= <- <-]|Hin].
  - rewrite mirror_tick_other by done. apply counter_absolute_value.
  - rewrite (IH _ Hnd Hin), counter_absolute_other; [done|]. intros ->. apply Hk'.
    apply list_elem_of_fmap. by exists (k, h).
Qed.

Lemma error_counter_mirrors_nodup rl bl : NoDup (error_counter_mirrors rl bl).*1.
Proof.
  unfold error_counter_mirrors. destruct (login rl), (refresh rl), (redis bl); simpl;
    repeat (apply NoDup_cons; split; [set_solver|]); apply NoDup_nil_2.
Qed.

(** The gauges are not mirrored. *)
Lemma error_counter_mirrors_keys rl bl k h :
  (k, h) ∈ error_counter_mirrors rl bl →
  k ≠ PENDING_GAUGE ∧ k ≠ ("db_pool_size"%string, []) ∧ k ≠ ("db_pool_idle"%string, []).
Proof.
  unfold error_counter_mirrors, PENDING_GAUGE. destruct (login rl), (refresh rl), (redis bl); simpl; set_solver.
Qed.

Lemma trailing_grows s s' r p :
  trailing (MkMonitored s r) p → load s p.2 ≤ load s' p.2 → trailing (MkMonitored s' r) p.
Proof. unfold trailing. simpl. lia. Qed.

Lemma mo_step_trailing rl bl m m' p :
  let mirrors := error_counter_mirrors rl bl in
  mo_step mirrors m m' → p ∈ mirrors → trailing m p → trailing m' p.
Proof.
  intros mirrors Hstep Hp Ht. destruct p as [k h]. pose proof Ht as [Hge Hle]. simpl in Hge, Hle.
  destruct (error_counter_mirrors_keys _ _ _ _ Hp) as (Hk1 & Hk2 & Hk3).
  destruct Hstep as [s l' r Hroom Hc|s l' r Hroom Hc|s b' r Hroom Hc|s r|s r size idle|s r remaining]; simpl in *.
  - apply (trailing_grows s); [done|]. specialize (Hroom HLogin). apply limiter_call_errors in Hc.
    destruct h; simpl in *; [|done..]. apply (incremented_ge 1); [done| |exact Hc]. unfold FLUSH_BATCH_SIZE in Hroom. lia.
  - apply (trailing_grows s); [done|]. specialize (Hroom HRefresh). apply limiter_call_errors in Hc.
    destruct h; simpl in *; [done| |done]. apply (incremented_ge 1); [done| |exact Hc]. unfold FLUSH_BATCH_SIZE in Hroom. lia.
  - apply (trailing_grows s); [done|]. specialize (Hroom HBlacklist). apply blacklist_call_errors in Hc.
    destruct h; simpl in *; [done..|]. eapply incremented_ge; [done|exact Hroom|exact Hc].
  - split; simpl; [done|]. rewrite (mirror_tick_value _ _ _ _ h); [simpl; lia| |done].
    apply error_counter_mirrors_nodup.
  - split; simpl; [done|]. unfold db_pool_tick. by rewrite !gauge_set_other by done.
  - split; simpl; [done|]. by rewrite gauge_set_other by done.
Qed.

Lemma mo_steps_trailing rl bl m m' p :
  rtc (mo_step (error_counter_mirrors rl bl)) m m' → p ∈ error_counter_mirrors rl bl → trailing m p → trailing m' p.
Proof. induction 1; eauto using mo_step_trailing. Qed.

End exported.

(** The exported error counters are right: on every interleaving of rate
    limiter calls, revocation calls, outbox sweeps and ticks of the metrics
    tasks, from the limiters and the list that were built and an empty recorder,
    each component that runs on Redis is exported under its own documented
    metric; that metric never exceeds the number of Redis errors the component
    has counted, and each tick of the poller makes it equal to it; nothing else
    is exported, and the poller is spawned exactly when some component runs on
    Redis. *)
Theorem error_metrics_exact `{MetricsSpec, RedisLib, IpDisplay, UuidLib} s0 r0 s r :
  let limiters := limiter_error_counters (src_login s0, src_refresh s0) in
  let blacklist := blacklist_error_counter (src_blacklist s0) in
  let mirrors := error_counter_mirrors limiters blacklist in
  (∀ h, load s0 h = 0) → (∀ k, metric_value k r0 = None) →
  rtc (mo_step mirrors) (MkMonitored s0 r0) (MkMonitored s r) →
  (∀ h, on_redis s0 h = true →
     default 0 (metric_value (documented_metric h) r) ≤ load s h ∧
     metric_value (documented_metric h) (mirror_tick mirrors s r) = Some (load s h)) ∧
  (∀ k, (∀ h, on_redis s0 h = true → k ≠ documented_metric h) →
     metric_value k (mirror_tick mirrors s r) = metric_value k r) ∧
  (spawn_backend_error_counter_poller limiters blacklist = None ↔ ∀ h, on_redis s0 h = false).
Proof.
  intros limiters blacklist mirrors Hzero Hfresh Hsteps.
  assert (Hdoc : ∀ k h, (k, h) ∈ mirrors ↔ k = documented_metric h ∧ on_redis s0 h = true) by apply mirrors_documented.
  split_and!.
  - intros h Hin. assert (Hm : (documented_metric h, h) ∈ mirrors) by by apply Hdoc.
    destruct (mo_steps_trailing _ _ _ _ _ Hsteps Hm) as [_ Hle].
    { split; simpl; rewrite Hzero; [done|]. by rewrite Hfresh. }
    split; [done|]. rewrite (mirror_tick_value _ _ _ _ h); [|apply error_counter_mirrors_nodup|done].
    f_equal. simpl in Hle. lia.
  - intros k Hk. apply mirror_tick_other. intros Hin. apply list_elem_of_fmap in Hin as ([k' h] & -> & Hin).
    apply Hdoc in Hin as [-> Hon]. by apply (Hk h).
  - unfold spawn_backend_error_counter_poller. fold mirrors. case_bool_decide as He.
    + split; [|done]. intros _ h. apply not_true_is_false. intros Hon.
      assert (Hm : (documented_metric h, h) ∈ mirrors) by by apply Hdoc. rewrite He in Hm. by apply not_elem_of_nil in Hm.
    + split; [done|]. intros Hno. destruct mirrors as [|[k h] l]; [done|].
      assert (Hm : (k, h) ∈ (k, h) :: l) by left. apply Hdoc in Hm as [_ Hon]. by rewrite Hno in Hon.
Qed.

(** ** The backlog gauge *)

Section backlog.
Context `{MetricsSpec} {S Env : Type} `{AccessTokenBlacklist S Env}.

Lemma flush_loop_counts envs now rows (s : S) :
  let '(flushed, remaining, _) := flush_loop envs now rows s in
  Z.of_nat (length flushed) + remaining = Z.of_nat (length rows) ∧ 0 ≤ remaining ∧ flushed `sublist_of` rows.*1.
Proof.
  revert envs s. induction rows as [|[j row] rows IH]; intros envs s; simpl; [done|].
  destruct (bl_revoke _ _ _ _ _) as [r s1]. specialize (IH (λ i, envs (Datatypes.S i)) s1).
  destruct (flush_loop _ _ _ _) as [[fl rem] s2]. destruct IH as (Hn & Hr & Hsub).
  destruct r; simpl; (split_and!; [lia|lia|]); [by apply sublist_skip|by apply sublist_cons].
Qed.

Lemma flush_batch_incl (o : gmap Uuid OutboxRow) j : j ∈ (flush_batch o).*1 → j ∈ dom o.
Proof.
  intros Hj. apply list_elem_of_fmap in Hj as ([k row] & -> & Hj). apply flush_batch_elem in Hj.
  by apply elem_of_dom.
Qed.

Lemma size_delete_all (ids : list Uuid) (o : gmap Uuid OutboxRow) :
  NoDup ids → (∀ j, j ∈ ids → j ∈ dom o) → size (delete_all ids o) = (size o - length ids)%nat.
Proof.
  intros Hnd Hin. rewrite <- size_dom, dom_delete_all, size_difference.
  - by rewrite size_list_to_set, size_dom by done.
  - intros j Hj. apply Hin. by apply elem_of_list_to_set in Hj.
Qed.

(** What a sweep that succeeds leaves in the outbox. *)
Lemma flush_pending_left pg1 pg2 pg3 envs now (d d' : Durable S) remaining :
  flush_pending pg1 pg2 pg3 envs now d = (Ok remaining, d') →
  0 ≤ remaining ≤ Z.of_nat FLUSH_BATCH_SIZE ∧
  Z.of_nat (size (du_outbox d')) =
    remaining + Z.of_nat (size (unexpired now (du_outbox d)) - FLUSH_BATCH_SIZE).
Proof.
  unfold flush_pending. destruct pg1, pg2; try done.
  cbn [du_inner du_outbox du_pending]. set (o := unexpired now (du_outbox d)).
  pose proof (flush_loop_counts envs now (flush_batch o) (du_inner d)) as Hc.
  pose proof (flush_batch_size o) as Hsize.
  destruct (flush_loop _ _ _ _) as [[fl rem] s']. destruct Hc as (Hn & Hge & Hsub).
  assert (Hrem : 0 ≤ rem ≤ Z.of_nat FLUSH_BATCH_SIZE).
  { split; [done|]. pose proof (flush_batch_le o). lia. }
  case_bool_decide as Hfl; [|destruct pg3; try done]; intros [= <- <-]; (split; [done|]); simpl.
  - subst fl. simpl in Hn. lia.
  - rewrite size_delete_all.
    + apply sublist_length in Hsub. rewrite length_fmap in Hsub. lia.
    + eapply sublist_NoDup; [apply flush_batch_nodup|done].
    + intros j Hj. apply flush_batch_incl. eapply elem_of_submseteq; [exact Hj|by apply sublist_submseteq].
Qed.

(** What the backlog gauge says: after a sweep that succeeds it counts the
    revocations of the batch that could not be flushed, so the rows left in the
    outbox are that many and those beyond the batch of 500 — the gauge is the
    backlog exactly when the unexpired outbox fits a batch, and never more than
    it; a sweep that fails at any statement leaves the gauge as it was. *)
Theorem pending_gauge_sound pg1 pg2 pg3 envs now (d : Durable S) r :
  let out := flusher_tick pg1 pg2 pg3 envs now d r in
  let before := unexpired now (du_outbox d) in
  let left := Z.of_nat (size (du_outbox out.1)) in
  (is_ok (flush_pending pg1 pg2 pg3 envs now d).1 = true →
     ∃ n, metric_value PENDING_GAUGE out.2 = Some n ∧ 0 ≤ n ≤ Z.of_nat FLUSH_BATCH_SIZE ∧
          left = n + Z.of_nat (size before - FLUSH_BATCH_SIZE) ∧
          ((size before ≤ FLUSH_BATCH_SIZE)%nat → n = left)) ∧
  (is_ok (flush_pending pg1 pg2 pg3 envs now d).1 = false → out.2 = r) ∧
  (pg1 ≠ NetOk ∨ pg2 ≠ NetOk → out.2 = r).
Proof.
  intros out before left. unfold out, flusher_tick in *. split_and!.
  - intros Hok. unfold left, out, flusher_tick.
    destruct (flush_pending pg1 pg2 pg3 envs now d) as [[n|] d'] eqn:Hf; [|done]. simpl.
    destruct (flush_pending_left _ _ _ _ _ _ _ _ Hf) as [Hn Hleft]. exists n.
    split; [by apply gauge_set_value|]. fold before in Hleft. split_and!; [lia|lia|lia|intros; lia].
  - by destruct (flush_pending _ _ _ _ _ _) as [[] d'].
  - intros [?|?]; unfold flush_pending; by destruct pg1, pg2.
Qed.

End backlog.

(** ** A concrete recorder *)

Definition toy_metrics : MetricsLib := {|
  Recorder := gmap MetricKey Z;
  gauge_set k v r := <[k := v]> r;
  counter_absolute k v r := <[k := Z.max (default 0 (r !! k)) v]> r;
  metric_value k r := r !! k |}.

Lemma toy_metrics_spec : @MetricsSpec toy_metrics.
Proof.
  split; simpl.
  - intros. by rewrite lookup_insert_eq.
  - intros. by rewrite lookup_insert_ne.
  - intros. by rewrite lookup_insert_eq.
  - intros. by rewrite lookup_insert_ne.
Qed.

(** With 501 revocations waiting and a backend that takes them all, one sweep
    leaves a row in the outbox and publishes a backlog of 0. *)
Definition backlog_501 : Durable (gmap Uuid RevokedEntry) :=
  MkDurable ∅ (list_to_map ((λ n, (N.of_nat n, MkOutboxRow 900 (Z.of_nat n) (from_secs 900))) <$> seq 0 501)) ∅.

Definition backlog_sweep : Durable (gmap Uuid RevokedEntry) * gmap MetricKey Z :=
  @flusher_tick toy_metrics _ _ MemoryBlacklist_port NetOk NetOk NetOk (λ _, tt) 1000 backlog_501 ∅.

Theorem backlog_gauge_underreports :
  backlog_sweep.2 !! PENDING_GAUGE = Some 0 ∧ size (du_outbox backlog_sweep.1) = 1%nat.
Proof. split; vm_compute; reflexivity. Qed.

Lemma pending_gauge_sound_witness :
  ∃ n, backlog_sweep.2 !! PENDING_GAUGE = Some n ∧
       Z.of_nat (size (du_outbox backlog_sweep.1)) = n + 1.
Proof.
  destruct (@pending_gauge_sound toy_metrics toy_metrics_spec _ _ MemoryBlacklist_port NetOk NetOk NetOk
    (λ _, tt) 1000 backlog_501 ∅) as (Hok & _).
  destruct Hok as (n & Hn & _ & Hleft & _); [vm_compute; reflexivity|]. exists n. split; [exact Hn|].
  assert (Hb : (size (unexpired 1000 (du_outbox backlog_501)) - FLUSH_BATCH_SIZE)%nat = 1%nat)
    by (vm_compute; reflexivity).
  rewrite Hb in Hleft. exact Hleft.
Defined.

(** A failed call of the login limiter, then a tick. *)
Definition demo_limiter (prefix : string) : @RedisRateLimiter toy_redis :=
  @RedisRateLimiter_connect toy_redis (∅ : gmap string (Z * option Z)) 2 60 prefix.

Definition demo_sources : @Sources toy_redis :=
  @MkSources toy_redis (@LRedis toy_redis (demo_limiter "login")) (@LRedis toy_redis (demo_limiter "refresh"))
    (@BMemory toy_redis ∅).

Definition demo_sources' : @Sources toy_redis :=
  @MkSources toy_redis
    (@LRedis toy_redis (@redis_try toy_redis toy_display NetFail 0 0 (V4 1) (demo_limiter "login")).2)
    (@LRedis toy_redis (demo_limiter "refresh")) (@BMemory toy_redis ∅).

Lemma error_metrics_exact_witness :
  let mirrors := error_counter_mirrors (MkRateLimiterErrorCounters (Some HLogin) (Some HRefresh))
                   (MkBlacklistErrorCounter None) in
  @metric_value toy_metrics (documented_metric HLogin) (@mirror_tick toy_metrics toy_redis mirrors demo_sources' ∅) = Some 1.
Proof.
  assert (Hstep : rtc (@mo_step toy_metrics toy_redis toy_display toy_uuid
    (error_counter_mirrors (MkRateLimiterErrorCounters (Some HLogin) (Some HRefresh)) (MkBlacklistErrorCounter None)))
    (@MkMonitored toy_metrics toy_redis demo_sources ∅) (@MkMonitored toy_metrics toy_redis demo_sources' ∅)).
  { apply rtc_once. apply (@mo_login toy_metrics toy_redis toy_display toy_uuid).
    - intros []; vm_compute; discriminate.
    - apply (@lc_try toy_redis toy_display NetFail 0 0 (V4 1)). }
  destruct (@error_metrics_exact toy_metrics toy_metrics_spec toy_redis toy_display toy_uuid
    demo_sources ∅ demo_sources' ∅) as (Hall & _).
  - intros []; vm_compute; reflexivity.
  - intros k. exact (lookup_empty (A := Z) k).
  - exact Hstep.
  - destruct (Hall HLogin) as [_ Htick]; [reflexivity|]. exact Htick.
Defined.
