(* ===== verification/Admin.v ===== *)
(** * The admin context

    [crates/admin]: roles, the [AdminRepository] port with its Postgres
    implementation over the [UserDirectory] port, the use cases and the three
    [/api/admin] handlers. *)

From S2P Require Import Prelude RustStr ValueObjects Database Effects UserRepo Http.
From stdpp Require Import sorting.
#[local] Open Scope Z_scope.

(** ** Domain *)

Inductive Role : Type :=
| RoleUser
| RoleAdmin.

#[global] Instance Role_eq_dec : EqDecision Role.
Proof. solve_decision. Defined.

Definition Role_as_str (r : Role) : string :=
  match r with
  | RoleUser => "user"
  | RoleAdmin => "admin"
  end.

Definition Role_is_admin (r : Role) : bool := match r with RoleAdmin => true | RoleUser => false end.

Definition Role_try_from (value : string) : result string Role :=
  if bool_decide (value = "user"%string) then Ok RoleUser
  else if bool_decide (value = "admin"%string) then Ok RoleAdmin
  else Err (String.append "Invalid role: " value).

Inductive AdminError : Type :=
| AdminNotFound (id : Uuid)
| AdminUnauthorized
| CannotChangeOwnRole
| AdminInvalidValue (s : string)
| AdminInternalError (s : string).

Record AdminUser : Type := MkAdminUser {
  ad_id : Uuid;
  ad_username : option string;
  ad_email : string;
  ad_display_name : string;
  ad_role : Role;
  ad_auth_provider : string;
  ad_created_at : Z;
  ad_updated_at : Z }.

Definition AdminUser_new (id : Uuid) (username : option string) (email display_name : string) (role : Role)
    (auth_provider : string) (created_at updated_at : Z) : AdminUser :=
  MkAdminUser id username email display_name role auth_provider created_at updated_at.

Definition AdminUser_is_admin (self : AdminUser) : bool := Role_is_admin (ad_role self).

Record ListUsersResult : Type := MkListUsersResult { lu_users : list AdminUser; lu_total : Z }.

(** ** Ports *)

Class UserDirectory : Type := {
  ud_get_user_summary : Uuid → M DomainError (option UserSummary);
  ud_list_user_summaries : Z → Z → M DomainError (list UserSummary);
  ud_count_users : M DomainError Z }.

#[global] Instance PostgresUserDirectory : UserDirectory := {
  ud_get_user_summary := get_user_summary;
  ud_list_user_summaries := list_user_summaries;
  ud_count_users := count_users }.

Class AdminRepository : Type := {
  ar_list_users : Z → Z → M AdminError ListUsersResult;
  ar_get_user : Uuid → M AdminError AdminUser;
  ar_is_admin : Uuid → M AdminError bool;
  ar_update_role : Uuid → Role → M AdminError AdminUser }.

(** ** Statements on [user_roles] *)

Definition select_role (user_id : Uuid) : Stmt (option string) := λ db,
  Ok (rr_role <$> db_roles db !! user_id, db).

(** [WHERE user_id = ANY($1)] *)
Definition select_roles (user_ids : list Uuid) : Stmt (list (Uuid * string)) := λ db,
  Ok ((λ p : Uuid * RoleRow, (p.1, rr_role p.2)) <$>
        List.filter (λ p, bool_decide (p.1 ∈ user_ids)) (map_to_list (db_roles db)), db).

(** [INSERT .. ON CONFLICT (user_id) DO UPDATE], with the foreign key. *)
Definition upsert_role (now : Z) (user_id : Uuid) (role : string) : Stmt unit := λ db,
  if bool_decide (db_users db !! user_id = None) then Err "user_roles_user_id_fkey"%string
  else Ok (tt, with_roles db (<[user_id := MkRoleRow role now]> (db_roles db))).

(** ** [PostgresAdminRepo] *)

Section postgres.
Context `{UserDirectory}.

Definition role_for (user_id : Uuid) : M AdminError Role :=
  role_str ← with_err AdminInternalError (exec (select_role user_id));
  match role_str with
  | Some s => lift (map_err AdminInternalError (Role_try_from s))
  | None => mret RoleUser
  end.

Definition assigned_roles_for (user_ids : list Uuid) : M AdminError (gmap Uuid Role) :=
  if bool_decide (user_ids = []) then mret ∅
  else
    rows ← with_err AdminInternalError (exec (select_roles user_ids));
    roles ← lift (collect (λ p : Uuid * string,
              pair p.1 <$> map_err AdminInternalError (Role_try_from p.2)) rows);
    mret (list_to_map roles).

Definition admin_user_of (s : UserSummary) (role : Role) : AdminUser :=
  AdminUser_new (us_id s) (us_username s) (us_email s) (us_display_name s) role
    (us_auth_provider s) (us_created_at s) (us_updated_at s).

(** [tokio::join!] runs both queries to the end before either error is looked at;
    here the page first. *)
Definition pg_list_users (page per_page : Z) : M AdminError ListUsersResult :=
  let offset := saturating_sub page 1 * per_page in
  summaries ← attempt (ud_list_user_summaries per_page offset);
  total ← attempt ud_count_users;
  summaries ← lift (map_err (λ e, AdminInternalError (DomainError_to_string e)) summaries);
  total ← lift (map_err (λ e, AdminInternalError (DomainError_to_string e)) total);
  assigned_roles ← assigned_roles_for (us_id <$> summaries);
  mret (MkListUsersResult
          ((λ s, admin_user_of s (default RoleUser (assigned_roles !! us_id s))) <$> summaries) total).

Definition get_summary (user_id : Uuid) : M AdminError (option UserSummary) :=
  with_err (λ e, AdminInternalError (DomainError_to_string e)) (ud_get_user_summary user_id).

Definition pg_get_user (user_id : Uuid) : M AdminError AdminUser :=
  o ← get_summary user_id;
  summary ← lift (ok_or o (AdminNotFound user_id));
  role ← role_for user_id;
  mret (admin_user_of summary role).

Definition pg_is_admin (user_id : Uuid) : M AdminError bool :=
  o ← get_summary user_id;
  if bool_decide (is_Some o) then
    role ← role_for user_id; mret (Role_is_admin role)
  else fail (AdminNotFound user_id).

Definition pg_update_role (user_id : Uuid) (role : Role) : M AdminError AdminUser :=
  now ← utc_now;
  _ ← with_err AdminInternalError (exec (upsert_role now user_id (Role_as_str role)));
  pg_get_user user_id.

#[global] Instance PostgresAdminRepo : AdminRepository := {
  ar_list_users := pg_list_users;
  ar_get_user := pg_get_user;
  ar_is_admin := pg_is_admin;
  ar_update_role := pg_update_role }.

End postgres.

(** ** Use cases *)

Definition DEFAULT_PAGE_SIZE : Z := 100.
Definition MAX_PAGE_SIZE : Z := 500.

Section use_cases.
Context `{AdminRepository}.

Definition list_users (page per_page : Z) : M AdminError ListUsersResult := ar_list_users page per_page.

Definition get_user (user_id : Uuid) : M AdminError AdminUser := ar_get_user user_id.

Definition update_user_role (actor_id user_id : Uuid) (new_role : string) : M AdminError AdminUser :=
  if bool_decide (actor_id = user_id) then fail CannotChangeOwnRole
  else
    role ← lift (map_err (λ _, AdminInvalidValue "role must be 'user' or 'admin'") (Role_try_from new_role));
    _ ← ar_get_user user_id;
    ar_update_role user_id role.

End use_cases.

(** ** Handlers *)

Definition normalize_per_page (raw : option Z) : Z := clamp (default DEFAULT_PAGE_SIZE raw) 1 MAX_PAGE_SIZE.

Definition normalize_page (raw : option Z) : result unit Z :=
  let p := default 1 raw in if p =? 0 then Err tt else Ok p.

Definition internal_error : Response Body := MkResponse 500 (ErrorResponse "Internal server error").

Definition admin_guard : Response Body :=
  MkResponse 403 (ErrorResponse "Forbidden: admin access required").

Section handlers.
Context `{UuidLib, ChronoLib, AdminRepository} {L B : Type}.

Definition user_to_response (user : AdminUser) : UserView :=
  MkUserView (uuid_to_string (ad_id user)) (ad_username user) (ad_email user) (ad_display_name user)
    (Role_as_str (ad_role user)) (ad_auth_provider user) (to_rfc3339 (of_timestamptz (ad_created_at user)))
    (to_rfc3339 (of_timestamptz (ad_updated_at user))).

(** The [repo.is_admin(auth_user.user_id)] prologue of the three handlers. *)
Definition require_admin (user_id : Uuid) (rest : H L B (Response Body)) : H L B (Response Body) :=
  r ← call (ar_is_admin user_id);
  match r with
  | Ok true => rest
  | Ok false => mret admin_guard
  | Err _ => mret internal_error
  end.

Definition list_users_handler (page per_page : option Z) (auth_user : AuthenticatedUser)
    : H L B (Response Body) :=
  require_admin (au_user_id auth_user)
    (match normalize_page page with
     | Err _ => mret (MkResponse 400 (ErrorResponse "page must be >= 1"))
     | Ok page =>
         let per_page := normalize_per_page per_page in
         r ← call (list_users page per_page);
         match r with
         | Ok result =>
             mret (MkResponse 200 (UsersResponse (user_to_response <$> lu_users result) page per_page
                                     (lu_total result)))
         | Err _ => mret internal_error
         end
     end).

Definition get_user_handler (user_id : Uuid) (auth_user : AuthenticatedUser) : H L B (Response Body) :=
  require_admin (au_user_id auth_user)
    (r ← call (get_user user_id);
     match r with
     | Ok user => mret (MkResponse 200 (UserResponse (user_to_response user)))
     | Err (AdminNotFound _) => mret (MkResponse 404 (ErrorResponse "User not found"))
     | Err _ => mret internal_error
     end).

(** The [match] arms of [update_user_role_handler]. *)
Definition update_role_response (r : result AdminError AdminUser) : Response Body :=
  match r with
  | Ok user => MkResponse 200 (UserResponse (user_to_response user))
  | Err (AdminNotFound _) => MkResponse 404 (ErrorResponse "User not found")
  | Err CannotChangeOwnRole => MkResponse 403 (ErrorResponse "Cannot change your own role")
  | Err (AdminInvalidValue msg) => MkResponse 400 (ErrorResponse msg)
  | Err _ => internal_error
  end.

Definition update_user_role_handler (user_id : Uuid) (role : string) (auth_user : AuthenticatedUser)
    : H L B (Response Body) :=
  require_admin (au_user_id auth_user)
    (r ← call (update_user_role (au_user_id auth_user) user_id role);
     mret (update_role_response r)).

End handlers.

(** ** Lemmas *)

Definition is_admin_in (db : Db) (user_id : Uuid) : Prop :=
  is_Some (db_users db !! user_id) ∧
  ∃ row, db_roles db !! user_id = Some row ∧ rr_role row = "admin"%string.

Lemma Role_roundtrip r : Role_try_from (Role_as_str r) = Ok r.
Proof. by destruct r. Qed.

Lemma Role_try_from_Ok s r : Role_try_from s = Ok r → s = Role_as_str r.
Proof. unfold Role_try_from. repeat case_bool_decide; naive_solver. Qed.

Lemma select_role_read_only id : read_only (select_role id).
Proof. by intros db a db' [= _ <-]. Qed.

Lemma select_roles_read_only ids : read_only (select_roles ids).
Proof. by intros db a db' [= _ <-]. Qed.

Lemma select_user_by_id_read_only id : read_only (select_user_by_id id).
Proof. by intros db a db' [= _ <-]. Qed.

Lemma select_users_page_read_only l o : read_only (select_users_page l o).
Proof. by intros db a db' [= _ <-]. Qed.

Lemma count_users_read_only : read_only count_users_stmt.
Proof. by intros db a db' [= _ <-]. Qed.

#[export] Hint Resolve select_role_read_only select_roles_read_only select_user_by_id_read_only
  select_users_page_read_only count_users_read_only : svc.

Lemma role_for_pure id : db_pure (role_for id).
Proof. unfold role_for. apply db_pure_bind; [auto with svc|]. intros [s|]; auto with svc. Qed.

Lemma get_summary_pure id : db_pure (get_summary id).
Proof. apply db_pure_with_err, db_pure_bind; auto with svc. Qed.

#[export] Hint Resolve role_for_pure get_summary_pure : svc.

Lemma pg_get_user_pure id : db_pure (pg_get_user id).
Proof. unfold pg_get_user. auto 8 with svc. Qed.

Lemma pg_is_admin_pure id : db_pure (pg_is_admin id).
Proof. unfold pg_is_admin. apply db_pure_bind; [auto with svc|]. intros o. case_bool_decide; auto with svc. Qed.

Lemma pg_list_users_pure page per_page : db_pure (pg_list_users page per_page).
Proof.
  unfold pg_list_users. apply db_pure_bind.
  - apply db_pure_attempt, db_pure_bind; [apply db_pure_lift|]. auto with svc.
  - intros r. apply db_pure_bind; [apply db_pure_attempt, db_pure_with_err; auto with svc|].
    intros t. apply db_pure_bind; [auto with svc|]. intros ss. apply db_pure_bind; [auto with svc|].
    intros n. apply db_pure_bind; [|auto with svc]. unfold assigned_roles_for.
    case_bool_decide; auto 8 with svc.
Qed.

Lemma get_summary_Ok id w o w' :
  get_summary id w = (Ok o, w') → o = into_summary <$> db_users (w_db w) !! id ∧ w_db w' = w_db w.
Proof.
  intros Hr. pose proof (get_summary_pure id w) as Hp. rewrite Hr in Hp. split; [|done].
  unfold get_summary in Hr. run_inv Hr. unfold ud_get_user_summary, PostgresUserDirectory, get_user_summary in Hr.
  run_inv Hr. run_inv R. apply exec_Ok_inv in R as (db' & Hst & _). injection Hst as <- _.
  by injection Hr as <- _.
Qed.

Lemma role_for_Ok id w r w' :
  role_for id w = (Ok r, w') →
  Role_try_from (default "user"%string (rr_role <$> db_roles (w_db w) !! id)) = Ok r.
Proof.
  unfold role_for. intros Hr. run_inv Hr. run_inv R.
  apply exec_Ok_inv in R as (db' & Hst & _). injection Hst as <- _.
  destruct (db_roles (w_db w) !! id); simpl in *; [|by injection Hr as <- _].
  run_inv Hr. by destruct (Role_try_from _); simplify_eq/=.
Qed.

Lemma pg_is_admin_true id w w' : pg_is_admin id w = (Ok true, w') → is_admin_in (w_db w) id.
Proof.
  unfold pg_is_admin. intros Hr. run_inv Hr. apply get_summary_Ok in R as [-> Hdb].
  case_bool_decide as Hs; [|done]. run_inv Hr. injection Hr as Hr _. apply role_for_Ok in R.
  rewrite Hdb in R. destruct v; [done|]. apply Role_try_from_Ok in R.
  split; [by apply fmap_is_Some in Hs|]. destruct (db_roles (w_db w) !! id) as [row|]; [|done]. by exists row.
Qed.

(** With the database up, the check answers the stored role. *)
Lemma exec_db {A} (st : Stmt A) w :
  w_db (exec st w).2 = w_db w ∨ ∃ a, st (w_db w) = Ok (a, w_db (exec st w).2).
Proof.
  unfold exec, next_outcome. destruct (w_pg w) as [|[] l]; simpl;
    destruct (st (w_db w)) as [[a db']|] eqn:E; simpl; eauto.
Qed.

(** Whatever happens on the way, the tables after [update_user_role]. *)
Lemma update_user_role_db actor target role w :
  let db' := w_db (update_user_role actor target role w).2 in
  db' = w_db w ∨
  actor ≠ target ∧ (∃ r, Role_try_from role = Ok r) ∧ is_Some (db_users (w_db w) !! target) ∧
  ∃ now, db' = with_roles (w_db w) (<[target := MkRoleRow role now]> (db_roles (w_db w))).
Proof.
  unfold update_user_role. simpl. case_bool_decide; [by left|]. rewrite bind_run. unfold lift.
  destruct (Role_try_from role) as [r|] eqn:Hrole; simpl; [|by left]. rewrite bind_run. simpl.
  pose proof (pg_get_user_pure target w) as H1. destruct (pg_get_user target w) as [[u|e] w1]; simpl in *; [|by left].
  unfold pg_update_role. rewrite bind_run, utc_now_run. set (w2 := with_time _ _ _).
  rewrite bind_run. unfold with_err.
  pose proof (exec_db (upsert_role (reading w1) target (Role_as_str r)) w2) as Hex.
  destruct (exec _ w2) as [r3 w3]. simpl in Hex.
  assert (Hw3 : w_db w3 = w_db w ∨ is_Some (db_users (w_db w) !! target) ∧ w_db w3 =
      with_roles (w_db w) (<[target := MkRoleRow role (reading w1)]> (db_roles (w_db w)))).
  { destruct Hex as [->|[a Hst]]; [by left|right]. unfold upsert_role in Hst. simpl in Hst. rewrite H1 in Hst.
    case_bool_decide as Hu; [done|]. injection Hst as _ <-. apply Role_try_from_Ok in Hrole as <-.
    split; [|done]. destruct (db_users (w_db w) !! target); [done|by destruct Hu]. }
  assert (Hfin : w_db (match map_err AdminInternalError r3 with
                       | Ok _ => pg_get_user target w3 | Err e => (Err e, w3) end).2 = w_db w3).
  { destruct r3; simpl; [apply pg_get_user_pure|done]. }
  destruct r3; simpl in *; [rewrite Hfin|]; (destruct Hw3 as [->|[? ->]]; [by left|right]); eauto 10.
Qed.

(** ** Pages *)

(** The table's CHECK constraint. *)
Definition roles_ok (db : Db) : Prop :=
  map_Forall (λ _ row, rr_role row = "user"%string ∨ rr_role row = "admin"%string) (db_roles db).

Definition role_in (db : Db) (user_id : Uuid) : Role :=
  match db_roles db !! user_id with
  | Some row => if bool_decide (rr_role row = "admin"%string) then RoleAdmin else RoleUser
  | None => RoleUser
  end.

Definition admin_view (db : Db) (r : UserRow) : AdminUser :=
  admin_user_of (into_summary r) (role_in db (ur_id r)).

Lemma roles_ok_try db id row :
  roles_ok db → db_roles db !! id = Some row → Role_try_from (rr_role row) = Ok (role_in db id).
Proof. intros Hok Hrow. unfold role_in. rewrite Hrow. by destruct (Hok id row Hrow) as [->| ->]. Qed.

Lemma assigned_roles_run ids w :
  roles_ok (w_db w) → w_pg w = [] →
  ∃ m, assigned_roles_for ids w = (Ok m, w) ∧
       ∀ id, id ∈ ids → default RoleUser (m !! id) = role_in (w_db w) id.
Proof.
  intros Hok Hp. unfold assigned_roles_for. case_bool_decide as Hids.
  { exists ∅. split; [done|]. subst. intros id Hid. by apply not_elem_of_nil in Hid. }
  set (l := List.filter (λ p : Uuid * RoleRow, bool_decide (p.1 ∈ ids)) (map_to_list (db_roles (w_db w)))).
  assert (Hl : ∀ k row, (k, row) ∈ l ↔ k ∈ ids ∧ db_roles (w_db w) !! k = Some row).
  { intros k row. unfold l. rewrite list_elem_of_In, filter_In, <- list_elem_of_In, elem_of_map_to_list.
    simpl. rewrite bool_decide_eq_true. tauto. }
  assert (Hw : with_db w (w_db w) = w) by by destruct w.
  rewrite bind_run. unfold with_err. rewrite (exec_no_fault (select_roles ids) w _ (w_db w) Hp eq_refl), Hw.
  simpl. rewrite bind_run. unfold lift.
  rewrite (collect_total _ (λ p, (p.1, role_in (w_db w) p.1))).
  2: { intros [k s] Hin. apply list_elem_of_fmap in Hin as ([k' row] & [= -> ->] & Hin).
       apply Hl in Hin as [_ Hrow]. simpl. by rewrite (roles_ok_try _ _ _ Hok Hrow). }
  eexists. split; [done|]. intros id Hid. rewrite <- list_fmap_compose. simpl.
  destruct (db_roles (w_db w) !! id) as [row|] eqn:Hrow.
  - erewrite elem_of_list_to_map_1'; [done| |].
    + intros y Hy. apply list_elem_of_fmap in Hy as ([k ?] & [= -> ->] & _). done.
    + apply list_elem_of_fmap. exists (id, row). split; [done|]. by apply Hl.
  - rewrite not_elem_of_list_to_map_1; [by unfold role_in; rewrite Hrow|].
    intros Hin. apply list_elem_of_fmap in Hin as ([k y] & -> & Hy). simpl in *.
    apply list_elem_of_fmap in Hy as ([k' row] & [= -> ->] & Hy). apply Hl in Hy as [_ Hy]. simpl in *. congruence.
Qed.

Lemma pg_list_users_run page per_page w :
  roles_ok (w_db w) → w_pg w = [] → 1 ≤ page → 0 ≤ per_page → (page - 1) * per_page ≤ I64_MAX →
  pg_list_users page per_page w =
    (Ok (MkListUsersResult
       (admin_view (w_db w) <$> take (Z.to_nat per_page) (drop (Z.to_nat ((page - 1) * per_page)) (users_by_recency (w_db w))))
       (Z.of_nat (size (db_users (w_db w))))), w).
Proof.
  intros Hok Hp Hpage Hper Hoff. unfold pg_list_users.
  assert (saturating_sub page 1 = page - 1) as -> by (unfold saturating_sub; lia).
  set (rows := take _ _). assert (Hw : with_db w (w_db w) = w) by by destruct w.
  assert (H1 : ud_list_user_summaries per_page ((page - 1) * per_page) w = (Ok (into_summary <$> rows), w)).
  { simpl. unfold list_user_summaries. rewrite (proj2 (Z.leb_le _ _)) by done. rewrite bind_run. simpl.
    rewrite bind_run. unfold with_err. by rewrite (exec_no_fault _ w rows (w_db w) Hp eq_refl), Hw. }
  rewrite bind_run. unfold attempt. rewrite H1. rewrite bind_run.
  assert (H2 : ud_count_users w = (Ok (Z.of_nat (size (db_users (w_db w)))), w)).
  { simpl. unfold count_users, with_err. by rewrite (exec_no_fault _ w _ (w_db w) Hp eq_refl), Hw. }
  rewrite H2. rewrite bind_run. simpl. rewrite bind_run. simpl.
  destruct (assigned_roles_run (us_id <$> (into_summary <$> rows)) w Hok Hp) as (m & Hm & Hroles).
  rewrite bind_run, Hm. unfold mret, M_ret. do 3 f_equal. rewrite <- list_fmap_compose.
  apply list_fmap_ext. intros i r Hr. simpl. unfold admin_view. f_equal. apply Hroles.
  rewrite <- list_fmap_compose. apply list_elem_of_fmap. exists r. split; [done|]. by eapply list_elem_of_lookup_2.
Qed.

(** Consecutive slices make up the list. *)
Lemma concat_slices {A} k n (l : list A) :
  (length l ≤ n * k)%nat → concat ((λ i, take k (drop (i * k) l)) <$> seq 0 n) = l.
Proof.
  revert l. induction n as [|n IH]; intros l Hl.
  - destruct l; [done|simpl in Hl; lia].
  - rewrite <- cons_seq, fmap_cons, <- fmap_S_seq, <- list_fmap_compose. simpl.
    rewrite drop_0. transitivity (take k l ++ drop k l); [|apply take_drop]. f_equal.
    etrans; [|apply IH; rewrite length_drop; lia]. f_equal. apply list_fmap_ext. intros i j _. simpl.
    by rewrite drop_drop.
Qed.

(** ** Properties *)

(** C21. Only an administrator reads users or changes roles, and nobody changes
    their own: whatever the database does, a 200 answer of the listing and lookup
    handlers means the caller is stored as an administrator, and the role
    handler leaves the tables alone unless the caller is one, the target is
    another, existing user and the role is valid — and then it sets exactly that
    user's role. *)
Theorem admin_access_control `{UuidLib, ChronoLib} {L B} (actor : AuthenticatedUser) (s : Srv L B) :
  let db := w_db (sv_world s) in
  (∀ page per_page, rs_status (list_users_handler page per_page actor s).1 = 200 →
     is_admin_in db (au_user_id actor)) ∧
  (∀ id, rs_status (get_user_handler id actor s).1 = 200 → is_admin_in db (au_user_id actor)) ∧
  (∀ target role,
     let out := update_user_role_handler target role actor s in
     let db' := w_db (sv_world out.2) in
     (rs_status out.1 = 200 → is_admin_in db (au_user_id actor)) ∧
     (db' = db ∨
      is_admin_in db (au_user_id actor) ∧ au_user_id actor ≠ target ∧ (∃ r, Role_try_from role = Ok r) ∧
      is_Some (db_users db !! target) ∧
      ∃ now, db' = with_roles db (<[target := MkRoleRow role now]> (db_roles db)))).
Proof.
  simpl.
  assert (Hreq : ∀ rest : H L B (Response Body),
    rs_status (require_admin (au_user_id actor) rest s).1 = 200 → is_admin_in (w_db (sv_world s)) (au_user_id actor)).
  { intros rest. unfold require_admin, mbind, H_bind, call. simpl.
    destruct (pg_is_admin (au_user_id actor) (sv_world s)) as [[[]|e] w1] eqn:E; [|done..].
    intros _. by eapply pg_is_admin_true. }
  split; [|split]; [intros page per_page; apply Hreq|intros id; apply Hreq|].
  intros target role. split; [apply Hreq|].
  unfold update_user_role_handler, require_admin, mbind, H_bind, call. simpl.
  pose proof (pg_is_admin_pure (au_user_id actor) (sv_world s)) as Hp.
  destruct (pg_is_admin (au_user_id actor) (sv_world s)) as [[[]|e] w1] eqn:E; simpl in *; [|by left..].
  apply pg_is_admin_true in E.
  pose proof (update_user_role_db (au_user_id actor) target role w1) as Hu. simpl in Hu. rewrite Hp in Hu.
  destruct (update_user_role _ _ _ w1) as [r w2]. simpl in Hu.
  unfold mret, H_ret. simpl. destruct Hu as [->|Hu]; [by left|by right].
Qed.

(** The pages of the user listing partition the users: with the database up,
    the first [n] pages, when they have room for everyone, are lists of at most
    [per_page] entries whose concatenation is every user exactly once, most
    recent first, each with the role stored for them; every page reports the
    total. *)
Theorem user_pages_partition w n per_page :
  roles_ok (w_db w) → w_pg w = [] → 1 ≤ per_page → Z.of_nat n * per_page ≤ I64_MAX →
  Z.of_nat (size (db_users (w_db w))) ≤ Z.of_nat n * per_page →
  ∃ pages : list (list AdminUser), length pages = n ∧
    (∀ i us, pages !! i = Some us → Z.of_nat (length us) ≤ per_page ∧
       list_users (Z.of_nat i + 1) per_page w =
         (Ok (MkListUsersResult us (Z.of_nat (size (db_users (w_db w))))), w)) ∧
    concat pages = admin_view (w_db w) <$> users_by_recency (w_db w) ∧
    users_by_recency (w_db w) ≡ₚ rows (db_users (w_db w)).
Proof.
  intros Hok Hp Hper Hmax Hsize. set (l := users_by_recency (w_db w)).
  assert (Hl : l ≡ₚ rows (db_users (w_db w))) by apply merge_sort_Permutation.
  set (k := Z.to_nat per_page).
  exists ((λ i, admin_view (w_db w) <$> take k (drop (i * k) l)) <$> seq 0 n).
  split; [by rewrite length_fmap, length_seq|]. split; [|split; [|done]].
  - intros i us Hi. apply list_lookup_fmap_Some in Hi as (i' & -> & Hi).
    apply lookup_seq in Hi as [-> Hi]. simpl. split.
    + rewrite length_fmap, length_take. subst k. lia.
    + unfold list_users, ar_list_users, PostgresAdminRepo. rewrite pg_list_users_run; [|done|done|lia|lia|nia].
      do 4 f_equal. f_equal. subst k. f_equal. lia.
  - transitivity (admin_view (w_db w) <$> concat ((λ i, take k (drop (i * k) l)) <$> seq 0 n)).
    + clear. induction (seq 0 n) as [|i idx IH]; [done|]. by rewrite !fmap_cons, !concat_cons, fmap_app, <- IH.
    + rewrite concat_slices; [done|].
      rewrite Hl. unfold rows. rewrite length_fmap, length_map_to_list. subst k. nia.
Qed.

(** *** Witness *)

Definition admin_db : Db :=
  MkDb {[1%N := MkUserRow 1%N (Some "root"%string) "root@x" "Root" None "local" 5 5;
         2%N := MkUserRow 2%N None "g@x" "G" None "google" 7 7;
         3%N := MkUserRow 3%N None "h@x" "H" None "google" 7 7]}
       ∅ ∅ {[1%N := MkRoleRow "admin" 6]} ∅.

Lemma user_pages_partition_witness :
  ∃ pages : list (list AdminUser), length pages = 2%nat ∧ (ad_id <$> concat pages) = [3%N; 2%N; 1%N].
Proof.
  destruct (user_pages_partition (fresh_world admin_db 10) 2 2) as (pages & Hn & _ & Hc & _).
  - apply map_Forall_singleton. by right.
  - done.
  - lia.
  - vm_compute; discriminate.
  - vm_compute; discriminate.
  - exists pages. split; [exact Hn|]. rewrite Hc. vm_compute. reflexivity.
Defined.
