(* ===== verification/Profiles.v ===== *)
(** * The profiles context

    [crates/profiles]: the [Bio] and [AvatarUrl] value objects, [UserProfile], the
    repository with its Postgres implementation, the two use cases and the two
    [/api/profile] handlers. *)

From S2P Require Import Prelude RustStr Database Effects Http.

(** ** Domain *)

Definition MAX_BIO_LEN : Z := 2000.
Definition MAX_URL_LEN : Z := 500.

Record Bio : Type := MkBio { bio_str : string }.

#[global] Instance Bio_eq_dec : EqDecision Bio.
Proof. solve_decision. Defined.

Definition Bio_new (s : string) : result string Bio :=
  let trimmed := trim s in
  if is_empty trimmed then Err "Bio must not be empty"%string
  else if MAX_BIO_LEN <? str_len trimmed then Err "Bio must not exceed 2000 characters"%string
  else Ok (MkBio trimmed).

Record AvatarUrl : Type := MkAvatarUrl { avatar_str : string }.

#[global] Instance AvatarUrl_eq_dec : EqDecision AvatarUrl.
Proof. solve_decision. Defined.

Definition AvatarUrl_new (s : string) : result string AvatarUrl :=
  let trimmed := trim s in
  if is_empty trimmed then Err "Avatar URL must not be empty"%string
  else if MAX_URL_LEN <? str_len trimmed then Err "Avatar URL must not exceed 500 characters"%string
  else Ok (MkAvatarUrl trimmed).

(** [up_updated_at] is in nanoseconds. *)
Record UserProfile : Type := MkUserProfile {
  up_user_id : Uuid;
  up_avatar_url : option AvatarUrl;
  up_bio : option Bio;
  up_updated_at : Z }.

Inductive ProfileError : Type :=
| ProfileNotFound (id : Uuid)
| ProfileInvalidValue (s : string)
| ProfileInternalError (s : string).

(** ** The repository *)

Class ProfileRepository : Type := {
  find_by_user_id : Uuid → M ProfileError (option UserProfile);
  upsert : UserProfile → M ProfileError unit }.

Definition select_profile (user_id : Uuid) : Stmt (option ProfileRow) := λ db,
  Ok (db_profiles db !! user_id, db).

(** [INSERT .. ON CONFLICT (user_id) DO UPDATE], with the foreign key. *)
Definition upsert_profile (r : ProfileRow) : Stmt unit := λ db,
  if bool_decide (db_users db !! pr_user_id r = None) then Err "user_profiles_user_id_fkey"%string
  else Ok (tt, with_profiles db (<[pr_user_id r := r]> (db_profiles db))).

(** [.filter(|s| !s.is_empty()).and_then(|s| T::new(s).ok())] *)
Definition stored {T} (new : string → result string T) (column : option string) : option T :=
  s ← column;
  if is_empty s then None else ok (new s).

Definition profile_of_row (r : ProfileRow) : UserProfile :=
  MkUserProfile (pr_user_id r) (stored AvatarUrl_new (pr_avatar_url r)) (stored Bio_new (pr_bio r))
    (of_timestamptz (pr_updated_at r)).

Definition pg_find_by_user_id (user_id : Uuid) : M ProfileError (option UserProfile) :=
  row ← with_err ProfileInternalError (exec (select_profile user_id));
  mret (profile_of_row <$> row).

Definition pg_upsert (profile : UserProfile) : M ProfileError unit :=
  with_err ProfileInternalError (exec (upsert_profile
    (MkProfileRow (up_user_id profile) (avatar_str <$> up_avatar_url profile)
       (bio_str <$> up_bio profile) (to_timestamptz (up_updated_at profile))))).

#[global] Instance PostgresProfileRepo : ProfileRepository := {
  find_by_user_id := pg_find_by_user_id;
  upsert := pg_upsert }.

(** ** Use cases *)

(** A field of the request: absent keeps the stored value, empty clears it, and
    anything else has to be valid. *)
Definition new_field {T} (new : string → result string T) (invalid : string)
    (requested : option string) (existing : option T) : result ProfileError (option T) :=
  match requested with
  | Some val =>
      if is_empty val then Ok None
      else Some <$> map_err (λ e, ProfileInvalidValue (String.append invalid e)) (new val)
  | None => Ok existing
  end.

Section use_cases.
Context `{ChronoLib, ProfileRepository}.

Definition get_profile (user_id : Uuid) : M ProfileError UserProfile :=
  o ← find_by_user_id user_id;
  lift (ok_or o (ProfileNotFound user_id)).

Definition update_profile (user_id : Uuid) (avatar_url bio : option string) : M ProfileError UserProfile :=
  if bool_decide (avatar_url = None) && bool_decide (bio = None)
  then fail (ProfileInvalidValue "At least one field must be provided")
  else
    existing ← find_by_user_id user_id;
    avatar_url ← lift (new_field AvatarUrl_new "Invalid avatar_url: " avatar_url (existing ≫= up_avatar_url));
    bio ← lift (new_field Bio_new "Invalid bio: " bio (existing ≫= up_bio));
    now ← utc_now_nanos;
    let profile := MkUserProfile user_id avatar_url bio now in
    _ ← upsert profile;
    mret profile.

End use_cases.

(** ** Handlers *)

Section handlers.
Context `{UuidLib, ChronoLib, ProfileRepository} {L B : Type}.

Definition profile_view (p : UserProfile) : Body :=
  ProfileResponse (uuid_to_string (up_user_id p)) (avatar_str <$> up_avatar_url p) (bio_str <$> up_bio p)
    (to_rfc3339 (up_updated_at p)).

Definition get_profile_response (r : result ProfileError UserProfile) : Response Body :=
  match r with
  | Ok profile => MkResponse 200 (profile_view profile)
  | Err (ProfileNotFound _) => MkResponse 404 (ErrorResponse "Profile not found")
  | Err _ => MkResponse 500 (ErrorResponse "Internal server error")
  end.

Definition get_profile_handler (auth_user : AuthenticatedUser) : H L B (Response Body) :=
  r ← call (get_profile (au_user_id auth_user));
  mret (get_profile_response r).

Definition update_profile_response (r : result ProfileError UserProfile) : Response Body :=
  match r with
  | Ok profile => MkResponse 200 (profile_view profile)
  | Err (ProfileInvalidValue msg) => MkResponse 400 (ErrorResponse msg)
  | Err _ => MkResponse 500 (ErrorResponse "Internal server error")
  end.

Definition update_profile_handler (auth_user : AuthenticatedUser) (avatar_url bio : option string)
    : H L B (Response Body) :=
  r ← call (update_profile (au_user_id auth_user) avatar_url bio);
  mret (update_profile_response r).

End handlers.

(** ** Lemmas *)

(** Values are trimmed, not empty and within their bound. *)
Definition text_ok (max : Z) (s : string) : Prop := s ≠ EmptyString ∧ trim s = s ∧ str_len s ≤ max.

Definition profile_ok (p : UserProfile) : Prop :=
  (∀ a, up_avatar_url p = Some a → text_ok MAX_URL_LEN (avatar_str a)) ∧
  (∀ b, up_bio p = Some b → text_ok MAX_BIO_LEN (bio_str b)).

Lemma text_checks max s :
  is_empty (trim s) = false → (max <? str_len (trim s)) = false → text_ok max (trim s).
Proof.
  intros He Hl. split_and!; [|apply trim_idempotent|by apply Z.ltb_ge].
  intros Hs. rewrite Hs in He. done.
Qed.

Lemma Bio_new_ok s b : Bio_new s = Ok b → text_ok MAX_BIO_LEN (bio_str b) ∧ bio_str b = trim s.
Proof.
  unfold Bio_new. destruct (is_empty (trim s)) eqn:E1; [done|].
  destruct (_ <? _) eqn:E2; [done|]. intros [= <-]. split; [by apply text_checks|done].
Qed.

Lemma AvatarUrl_new_ok s a : AvatarUrl_new s = Ok a → text_ok MAX_URL_LEN (avatar_str a) ∧ avatar_str a = trim s.
Proof.
  unfold AvatarUrl_new. destruct (is_empty (trim s)) eqn:E1; [done|].
  destruct (_ <? _) eqn:E2; [done|]. intros [= <-]. split; [by apply text_checks|done].
Qed.

Lemma text_ok_nonempty max s : text_ok max s → is_empty s = false.
Proof. intros (Hne & _). destruct (is_empty s) eqn:E; [by apply is_empty_spec in E|done]. Qed.

Lemma Bio_stored b : text_ok MAX_BIO_LEN (bio_str b) → stored Bio_new (Some (bio_str b)) = Some b.
Proof.
  intros Hok. unfold stored. simpl. rewrite (text_ok_nonempty _ _ Hok). unfold Bio_new.
  pose proof Hok as (_ & Ht & Hl). rewrite Ht, (text_ok_nonempty _ _ Hok), (proj2 (Z.ltb_ge _ _)) by done.
  by destruct b.
Qed.

Lemma AvatarUrl_stored a : text_ok MAX_URL_LEN (avatar_str a) → stored AvatarUrl_new (Some (avatar_str a)) = Some a.
Proof.
  intros Hok. unfold stored. simpl. rewrite (text_ok_nonempty _ _ Hok). unfold AvatarUrl_new.
  pose proof Hok as (_ & Ht & Hl). rewrite Ht, (text_ok_nonempty _ _ Hok), (proj2 (Z.ltb_ge _ _)) by done.
  by destruct a.
Qed.

(** Whatever the row holds, what is read is valid. *)
Lemma profile_of_row_ok r : profile_ok (profile_of_row r).
Proof.
  split; simpl; unfold stored; intros x Hx; apply bind_Some in Hx as (s & _ & Hx);
    destruct (is_empty s); try done; unfold ok in Hx.
  - destruct (AvatarUrl_new s) eqn:E; simplify_eq. by eapply AvatarUrl_new_ok.
  - destruct (Bio_new s) eqn:E; simplify_eq. by eapply Bio_new_ok.
Qed.

(** What the table keeps of a profile: its time to the microsecond. *)
Definition as_stored (p : UserProfile) : UserProfile :=
  MkUserProfile (up_user_id p) (up_avatar_url p) (up_bio p) (of_timestamptz (to_timestamptz (up_updated_at p))).

(** A valid profile survives being written and read, but for the last digits of
    its time. *)
Lemma profile_row_round_trip p :
  profile_ok p →
  profile_of_row (MkProfileRow (up_user_id p) (avatar_str <$> up_avatar_url p) (bio_str <$> up_bio p)
                    (to_timestamptz (up_updated_at p))) = as_stored p.
Proof.
  intros [Ha Hb]. destruct p as [u av bi t]; simpl in *.
  assert (H1 : stored AvatarUrl_new (avatar_str <$> av) = av).
  { destruct av as [a|]; [apply AvatarUrl_stored, Ha; done|done]. }
  assert (H2 : stored Bio_new (bio_str <$> bi) = bi).
  { destruct bi as [b|]; [apply Bio_stored, Hb; done|done]. }
  unfold profile_of_row, as_stored. simpl. by rewrite H1, H2.
Qed.

Lemma new_field_ok {T} (new : string → result string T) invalid req (old : option T) o (P : T → Prop) :
  (∀ s x, new s = Ok x → P x) → (∀ x, old = Some x → P x) →
  new_field new invalid req old = Ok o → ∀ x, o = Some x → P x.
Proof.
  intros Hnew Hold. unfold new_field. destruct req as [val|]; [|intros [= <-]; done].
  destruct (is_empty val); [by intros [= <-]|]. destruct (new val) eqn:E; [|done].
  intros [= <-] x [= <-]. by eapply Hnew.
Qed.

(** What a successful update asked for, field by field. *)
Definition field_result {T} (requested : option string) (before after : option T) (text : T → string) : Prop :=
  match requested with
  | None => after = before
  | Some val => if is_empty val then after = None else text <$> after = Some (trim val)
  end.

Lemma new_field_result {T} (new : string → result string T) invalid req (old : option T) o text :
  (∀ s x, new s = Ok x → text x = trim s) →
  new_field new invalid req old = Ok o → field_result req old o text.
Proof.
  intros Hnew. unfold new_field, field_result. destruct req as [val|]; [|by intros [= <-]].
  destruct (is_empty val); [by intros [= <-]|]. destruct (new val) eqn:E; [|done].
  intros [= <-]. simpl. f_equal. by apply Hnew.
Qed.

Lemma select_profile_read_only id : read_only (select_profile id).
Proof. by intros db a db' [= _ <-]. Qed.

Lemma find_profile_Ok id w o w' :
  pg_find_by_user_id id w = (Ok o, w') →
  o = profile_of_row <$> db_profiles (w_db w) !! id ∧ w_db w' = w_db w.
Proof.
  unfold pg_find_by_user_id. intros Hr. run_inv Hr. run_inv R.
  apply exec_Ok_inv in R as (db' & Hst & Hdb & _). injection Hst as <- <-. by injection Hr as <- <-.
Qed.

(** ** Properties *)

Definition profile_in (db : Db) (id : Uuid) : option UserProfile := profile_of_row <$> db_profiles db !! id.

(** C40. A profile update that succeeds is what was asked for: an absent field
    keeps its value, an empty one is cleared, any other holds the trimmed text,
    within its length bound; no other row of any table changes; and while the
    tables stay as they are, a read with the database up returns the same
    profile, except that its [updated_at] is cut to the microseconds the column
    keeps. *)
Theorem update_profile_read_back `{ChronoLib} id avatar bio w p w' :
  update_profile id avatar bio w = (Ok p, w') →
  let old := profile_in (w_db w) id in
  up_user_id p = id ∧ profile_ok p ∧
  field_result avatar (old ≫= up_avatar_url) (up_avatar_url p) avatar_str ∧
  field_result bio (old ≫= up_bio) (up_bio p) bio_str ∧
  (∃ row, w_db w' = with_profiles (w_db w) (<[id := row]> (db_profiles (w_db w)))) ∧
  (∀ w2, w_db w2 = w_db w' → w_pg w2 = [] → (get_profile id w2).1 = Ok (as_stored p)).
Proof.
  unfold update_profile. destruct (_ && _); [done|]. intros Hr. simpl.
  run_inv Hr. apply find_profile_Ok in R as [-> Hdb]. fold (profile_in (w_db w) id) in Hr.
  assert (Hold : ∀ q, profile_in (w_db w) id = Some q → profile_ok q).
  { unfold profile_in. intros q. destruct (_ !! _); [|done]. intros [= <-]. apply profile_of_row_ok. }
  run_inv Hr. run_inv R. run_inv Hr. run_inv R0. run_inv Hr. unfold utc_now_nanos in R1. rewrite bind_run, utc_now_run in R1. injection R1 as <- <-.
  run_inv Hr. simpl in R1. unfold pg_upsert in R1. run_inv R1. apply exec_Ok_inv in R1 as (db' & Hst & Hdb' & _).
  unfold upsert_profile in Hst. case_bool_decide as Hu; [done|]. simpl in *. rewrite Hdb in Hst.
  injection Hst as _ Hst. injection Hr as <- <-. simpl.
  set (p := MkUserProfile id v v0 _).
  assert (Hp : profile_ok p).
  { split; simpl; intros x Hx.
    - eapply (new_field_ok AvatarUrl_new _ _ _ _ (λ a, text_ok MAX_URL_LEN (avatar_str a))); [| |apply R|done].
      + intros s y Hy. by eapply AvatarUrl_new_ok.
      + intros y Hy. apply bind_Some in Hy as (q & Hq & Hy). by apply (Hold q Hq).
    - eapply (new_field_ok Bio_new _ _ _ _ (λ b, text_ok MAX_BIO_LEN (bio_str b))); [| |apply R0|done].
      + intros s y Hy. by eapply Bio_new_ok.
      + intros y Hy. apply bind_Some in Hy as (q & Hq & Hy). by apply (Hold q Hq). }
  split; [done|]. split; [done|]. split; [|split; [|split]].
  - eapply new_field_result; [|apply R]. intros s y Hy. by eapply AvatarUrl_new_ok.
  - eapply new_field_result; [|apply R0]. intros s y Hy. by eapply Bio_new_ok.
  - eexists. by rewrite Hdb', <- Hst.
  - intros w2 Hw2 Hpg. unfold get_profile. rewrite bind_run. simpl. unfold pg_find_by_user_id.
    rewrite bind_run. unfold with_err.
    rewrite (exec_no_fault (select_profile id) w2 _ (w_db w2) Hpg eq_refl). simpl.
    rewrite Hw2, Hdb', <- Hst. simpl. rewrite lookup_insert_eq. simpl.
    f_equal. apply (profile_row_round_trip p Hp).
Qed.

Definition profile_db : Db :=
  MkDb {[1%N := MkUserRow 1%N None "a@x" "A" None "google" 5 5]} ∅ ∅ ∅
    {[1%N := MkProfileRow 1%N (Some "http://x/a.png"%string) (Some "old"%string) 5]}.

Definition exact_chrono : ChronoLib := {| to_rfc3339 t := EmptyString; below_micro t := 7 |}.

Definition demo_update : result ProfileError UserProfile * World :=
  @update_profile exact_chrono PostgresProfileRepo 1%N None (Some " new bio "%string)
    (fresh_world profile_db (from_secs 1000000000)).

Lemma update_profile_read_back_witness :
  ∃ p w', demo_update = (Ok p, w') ∧
    up_avatar_url p = Some (MkAvatarUrl "http://x/a.png") ∧ bio_str <$> up_bio p = Some "new bio"%string ∧
    (get_profile 1%N (fresh_world (w_db w') 10)).1 = Ok (as_stored p).
Proof.
  destruct demo_update as [[p|e] w'] eqn:E; [|vm_compute in E; discriminate].
  destruct (@update_profile_read_back exact_chrono _ _ _ _ _ _ E) as (_ & _ & Ha & Hb & _ & Hget).
  exists p, w'. split; [done|]. split; [exact Ha|]. split; [exact Hb|]. by apply Hget.
Defined.

(** The answer to the update and the next read show different times. *)
Theorem update_answers_unstored_time :
  up_updated_at <$> ok demo_update.1 = Some 1000000000000000007 ∧
  up_updated_at <$> ok (get_profile 1%N (fresh_world (w_db demo_update.2) 10)).1 = Some 1000000000000000000.
Proof. vm_compute. split; reflexivity. Qed.
