(* ===== verification/Schema.v ===== *)
(** * The database schema

    [migrations/] as data: the DDL statements of the twelve files in order, what
    each does to a catalog of tables with rows, indexes and constraints, and the
    schema they build. Against it are checked the statements that the Rust code
    issues, given by the columns they name, the Rust types they bind and the
    fields of the structs they read, and the tables of [Database.v]. The
    migrations that move data, 008 and 010, are run on tables with any rows. *)

From S2P Require Import Prelude RustStr ValueObjects Entities Database Effects UserRepo Admin Profiles.

(** ** Values, columns and tables *)

Inductive Value : Type :=
| VNull
| VUuid (u : Uuid)
| VText (s : string)
| VBool (b : bool)
| VTime (t : Z)
| VInt (n : Z).

#[global] Instance Value_eq_dec : EqDecision Value.
Proof. solve_decision. Defined.

Inductive SqlType : Type := UUID | VARCHAR (n : Z) | TEXT | BOOLEAN | TIMESTAMPTZ | BIGINT.

#[global] Instance SqlType_eq_dec : EqDecision SqlType.
Proof. solve_decision. Defined.

(** [gen_random_uuid()], [NOW()] and literals. *)
Inductive DefaultExpr : Type := GenRandomUuid | Now | Literal (v : Value).

Inductive OnDelete : Type := NoAction | Cascade | SetNull.

Inductive CheckExpr : Type := OneOf (texts : list string) | NonNegative.

(** A column of a table; [c_unique] is set for the primary key too. *)
Record Column : Type := MkColumn {
  c_name : string;
  c_type : SqlType;
  c_primary : bool;
  c_not_null : bool;
  c_unique : bool;
  c_default : option DefaultExpr;
  c_references : option (string * OnDelete);
  c_check : option CheckExpr }.

(** Column constraints as they are written after the type. *)
Inductive Constraint : Type :=
| PrimaryKey
| NotNull
| Unique
| Default_ (e : DefaultExpr)
| References (table : string) (d : OnDelete)
| Check_ (e : CheckExpr).

Definition constrain (c : Column) (k : Constraint) : Column :=
  match k with
  | PrimaryKey => MkColumn (c_name c) (c_type c) true true true (c_default c) (c_references c) (c_check c)
  | NotNull => MkColumn (c_name c) (c_type c) (c_primary c) true (c_unique c) (c_default c) (c_references c) (c_check c)
  | Unique => MkColumn (c_name c) (c_type c) (c_primary c) (c_not_null c) true (c_default c) (c_references c) (c_check c)
  | Default_ e => MkColumn (c_name c) (c_type c) (c_primary c) (c_not_null c) (c_unique c) (Some e) (c_references c) (c_check c)
  | References t d => MkColumn (c_name c) (c_type c) (c_primary c) (c_not_null c) (c_unique c) (c_default c) (Some (t, d)) (c_check c)
  | Check_ e => MkColumn (c_name c) (c_type c) (c_primary c) (c_not_null c) (c_unique c) (c_default c) (c_references c) (Some e)
  end.

Definition column (name : string) (t : SqlType) (ks : list Constraint) : Column :=
  foldl constrain (MkColumn name t false false false None None None) ks.

(** A row lists its cells in column order. *)
Definition Row : Type := list (string * Value).

Definition cell (name : string) (r : Row) : Value :=
  match find (λ p, String.eqb p.1 name) r with
  | Some p => p.2
  | None => VNull
  end.

Record Table : Type := MkTable { t_columns : list Column; t_rows : list Row }.

Definition find_column (name : string) (cs : list Column) : option Column :=
  find (λ c, String.eqb (c_name c) name) cs.

(** An index can be left invalid by a build that was interrupted. *)
Record Index : Type := MkIndex { ix_table : string; ix_column : string; ix_valid : bool }.

Record Catalog : Type := MkCatalog { cat_tables : gmap string Table; cat_indexes : gmap string Index }.

Definition empty_catalog : Catalog := MkCatalog ∅ ∅.

(** ** Constraints on rows *)

Definition is_null (v : Value) : bool := match v with VNull => true | _ => false end.

(** [VARCHAR(n)] counts characters. *)
Definition fits (n : Z) (s : string) : bool := Z.of_nat (length (chars s)) <=? n.

Definition has_type (t : SqlType) (v : Value) : bool :=
  match t, v with
  | _, VNull | UUID, VUuid _ | TEXT, VText _ | BOOLEAN, VBool _ | TIMESTAMPTZ, VTime _ | BIGINT, VInt _ => true
  | VARCHAR n, VText s => fits n s
  | _, _ => false
  end.

(** A [CHECK] on NULL is not violated. *)
Definition check_holds (e : CheckExpr) (v : Value) : bool :=
  match e, v with
  | OneOf texts, VText s => bool_decide (s ∈ texts)
  | NonNegative, VInt n => 0 <=? n
  | _, _ => true
  end.

Definition cell_ok (c : Column) (v : Value) : bool :=
  has_type (c_type c) v && (negb (c_not_null c) || negb (is_null v)) &&
  match c_check c with Some e => check_holds e v | None => true end.

Definition row_ok (cs : list Column) (r : Row) : bool := forallb (λ c, cell_ok c (cell (c_name c) r)) cs.

(** The values of a column that a [UNIQUE] constraint compares. *)
Definition non_null (v : Value) : option Value := if is_null v then None else Some v.

Definition column_values (name : string) (rs : list Row) : list Value := omap (λ r, non_null (cell name r)) rs.

Definition unique_ok (c : Column) (rs : list Row) : bool :=
  negb (c_unique c) || bool_decide (NoDup (column_values (c_name c) rs)).

Definition primary_of (cs : list Column) : option string := c_name <$> find c_primary cs.

(** The values a foreign key into the table may take. *)
Definition key_values (t : Table) : list Value :=
  match primary_of (t_columns t) with Some k => column_values k (t_rows t) | None => [] end.

Definition references_ok (ts : gmap string Table) (c : Column) (rs : list Row) : bool :=
  match c_references c with
  | None => true
  | Some (target, _) =>
      match ts !! target with
      | None => false
      | Some t => bool_decide (Forall (λ v, v ∈ key_values t) (column_values (c_name c) rs))
      end
  end.

Definition table_ok (ts : gmap string Table) (t : Table) : bool :=
  forallb (row_ok (t_columns t)) (t_rows t) &&
  forallb (λ c, unique_ok c (t_rows t) && references_ok ts c (t_rows t)) (t_columns t).

(** Every constraint the catalog declares holds. *)
Definition catalog_ok (c : Catalog) : bool :=
  bool_decide (map_Forall (λ _ t, table_ok (cat_tables c) t = true) (cat_tables c)).

(** ** DDL *)

Inductive Ddl : Type :=
| CreateTable (if_not_exists : bool) (name : string) (cs : list Column)
| AddColumn (if_not_exists : bool) (table : string) (c : Column)
| DropColumn (table name : string)
| SetNotNull (table name : string)
| CreateIndex (if_not_exists : bool) (name table col : string)
| DropIndexIfExists (name : string)
(** [INSERT INTO into (cols) SELECT sources FROM from WHERE p] *)
| InsertSelect (into : string) (cols : list (string * string)) (from : string) (p : Row → bool)
(** [UPDATE table SET col = e WHERE p] *)
| UpdateWhere (table col : string) (e : Row → Value) (p : Row → bool)
(** The block of migration 012, for an index and the names of its leftovers. *)
| RepairIndex (name : string) (leftover : string → bool).

Definition set_table (name : string) (t : Table) (c : Catalog) : Catalog :=
  MkCatalog (<[name := t]> (cat_tables c)) (cat_indexes c).

Definition set_indexes (ix : gmap string Index) (c : Catalog) : Catalog := MkCatalog (cat_tables c) ix.

(** The value a new row or column gets. [gen_random_uuid()] differs from row to
    row; no migration evaluates it. *)
Definition default_of (now : Z) (c : Column) : option Value :=
  match c_default c with
  | None => Some VNull
  | Some Now => Some (VTime now)
  | Some (Literal v) => Some v
  | Some GenRandomUuid => None
  end.

Definition set_cell (name : string) (v : Value) (r : Row) : Row :=
  (λ p, if String.eqb p.1 name then (p.1, v) else p) <$> r.

Definition drop_cell (name : string) (r : Row) : Row := List.filter (λ p, negb (String.eqb p.1 name)) r.

(** A changed table is accepted when its constraints hold. *)
Definition checked (name : string) (t : Table) (c : Catalog) : option Catalog :=
  let c' := set_table name t c in
  if table_ok (cat_tables c') t then Some c' else None.

Definition add_column (now : Z) (table : string) (col : Column) (t : Table) (c : Catalog) : option Catalog :=
  match t_rows t with
  | [] => checked table (MkTable (t_columns t ++ [col]) []) c
  | rs => v ← default_of now col;
          checked table (MkTable (t_columns t ++ [col]) ((λ r, r ++ [(c_name col, v)]) <$> rs)) c
  end.

(** The row that [INSERT] stores: the given cells, defaults elsewhere. *)
Definition insert_row (now : Z) (cs : list Column) (given : Row) : option Row :=
  mapM (λ c, match find (λ p, String.eqb p.1 (c_name c)) given with
             | Some p => Some (c_name c, p.2)
             | None => v ← default_of now c; Some (c_name c, v)
             end) cs.

Definition exec_ddl (now : Z) (d : Ddl) (c : Catalog) : option Catalog :=
  match d with
  | CreateTable ine name cs =>
      match cat_tables c !! name with
      | Some _ => if ine then Some c else None
      | None => checked name (MkTable cs []) c
      end
  | AddColumn ine table col =>
      t ← cat_tables c !! table;
      match find_column (c_name col) (t_columns t) with
      | Some _ => if ine then Some c else None
      | None => add_column now table col t c
      end
  | DropColumn table name =>
      t ← cat_tables c !! table;
      _ ← find_column name (t_columns t);
      Some (set_indexes
        (filter (λ p, negb (String.eqb (ix_table p.2) table && String.eqb (ix_column p.2) name)) (cat_indexes c))
        (set_table table (MkTable (List.filter (λ k, negb (String.eqb (c_name k) name)) (t_columns t))
                            (drop_cell name <$> t_rows t)) c))
  | SetNotNull table name =>
      t ← cat_tables c !! table;
      _ ← find_column name (t_columns t);
      checked table (MkTable ((λ k, if String.eqb (c_name k) name then constrain k NotNull else k) <$> t_columns t)
                       (t_rows t)) c
  | CreateIndex ine name table col =>
      t ← cat_tables c !! table;
      _ ← find_column col (t_columns t);
      match cat_indexes c !! name with
      | Some _ => if ine then Some c else None
      | None => Some (set_indexes (<[name := MkIndex table col true]> (cat_indexes c)) c)
      end
  | DropIndexIfExists name => Some (set_indexes (delete name (cat_indexes c)) c)
  | InsertSelect into cols from p =>
      src ← cat_tables c !! from;
      t ← cat_tables c !! into;
      new ← mapM (λ r, insert_row now (t_columns t) ((λ k, (k.1, cell k.2 r)) <$> cols)) (List.filter p (t_rows src));
      checked into (MkTable (t_columns t) (t_rows t ++ new)) c
  | UpdateWhere table col e p =>
      t ← cat_tables c !! table;
      checked table (MkTable (t_columns t) ((λ r, if p r then set_cell col (e r) r else r) <$> t_rows t)) c
  | RepairIndex name leftover =>
      let ix := filter (λ p, negb (leftover p.1 && negb (ix_valid p.2))) (cat_indexes c) in
      Some (set_indexes (alter (λ i, MkIndex (ix_table i) (ix_column i) true) name ix) c)
  end.

(** A migration file: [None] when one of its statements fails. *)
Definition exec_all (now : Z) (ds : list Ddl) (c : Catalog) : option Catalog :=
  foldl (λ oc d, c ← oc; exec_ddl now d c) (Some c) ds.

Definition migrate (now : Z) (ms : list (list Ddl)) (c : Catalog) : option Catalog := exec_all now (concat ms) c.

(** ** The migrations *)

Definition uuid_key : Column := column "id" UUID [PrimaryKey; Default_ GenRandomUuid].
Definition timestamp_now (name : string) : Column := column name TIMESTAMPTZ [NotNull; Default_ Now].
Definition text_default (name : string) (n : Z) (s : string) : Column :=
  column name (VARCHAR n) [NotNull; Default_ (Literal (VText s))].

Definition migration_001 : list Ddl := [
  CreateTable false "users" [
    uuid_key;
    column "username" (VARCHAR 255) [Unique];
    column "email" (VARCHAR 255) [Unique; NotNull];
    column "display_name" (VARCHAR 255) [NotNull];
    column "password_hash" (VARCHAR 255) [];
    text_default "auth_provider" 50 "local";
    timestamp_now "created_at";
    timestamp_now "updated_at"];
  CreateIndex false "idx_users_email" "users" "email";
  CreateIndex false "idx_users_auth_provider" "users" "auth_provider"].

Definition migration_002 : list Ddl := [
  CreateTable false "user_actions" [
    uuid_key;
    column "user_id" UUID [NotNull; References "users" NoAction];
    column "auth_method" (VARCHAR 50) [NotNull];
    timestamp_now "created_at"];
  CreateIndex false "idx_user_actions_user_id" "user_actions" "user_id";
  CreateIndex false "idx_user_actions_created_at" "user_actions" "created_at"].

(** The predicate of the partial index [idx_sessions_active] is left out: an index
    changes no answer. *)
Definition migration_003 : list Ddl := [
  CreateTable true "sessions" [
    uuid_key;
    column "user_id" UUID [NotNull; References "users" Cascade];
    column "refresh_token_hash" (VARCHAR 255) [NotNull];
    column "expires_at" TIMESTAMPTZ [NotNull];
    column "is_active" BOOLEAN [NotNull; Default_ (Literal (VBool true))];
    timestamp_now "created_at"];
  CreateIndex true "idx_sessions_user_id" "sessions" "user_id";
  CreateIndex true "idx_sessions_expires_at" "sessions" "expires_at";
  CreateIndex true "idx_sessions_active" "sessions" "is_active"].

Definition migration_004 : list Ddl := [
  AddColumn true "user_actions" (column "session_id" UUID [References "sessions" SetNull]);
  AddColumn true "user_actions" (text_default "event_type" 20 "login");
  CreateIndex true "idx_user_actions_session_id" "user_actions" "session_id";
  CreateIndex true "idx_user_actions_event_type" "user_actions" "event_type"].

Definition migration_005 : list Ddl := [
  AddColumn true "sessions" (text_default "auth_method" 20 "password");
  CreateIndex true "idx_sessions_auth_method" "sessions" "auth_method"].

Definition migration_006 : list Ddl := [
  CreateTable true "user_profiles" [
    column "user_id" UUID [PrimaryKey; References "users" Cascade];
    column "avatar_url" (VARCHAR 500) [];
    column "bio" TEXT [];
    timestamp_now "updated_at"];
  CreateIndex true "idx_user_profiles_user_id" "user_profiles" "user_id"].

Definition migration_007 : list Ddl := [
  AddColumn false "users" (text_default "role" 20 "user");
  CreateIndex false "idx_users_role" "users" "role"].

Definition migration_008 : list Ddl := [
  CreateTable true "user_roles" [
    column "user_id" UUID [PrimaryKey; References "users" Cascade];
    column "role" (VARCHAR 20) [NotNull; Default_ (Literal (VText "user")); Check_ (OneOf ["user"; "admin"]%string)];
    timestamp_now "updated_at"];
  InsertSelect "user_roles" [("user_id", "id"); ("role", "role")]%string "users"
    (λ r, negb (bool_decide (cell "role" r = VText "user")));
  DropColumn "users" "role"].

Definition outbox : string := "access_token_revocation_outbox".

Definition migration_009 : list Ddl := [
  CreateTable true outbox [
    column "jti" UUID [PrimaryKey];
    column "ttl_secs" BIGINT [NotNull; Check_ NonNegative];
    timestamp_now "created_at"];
  CreateIndex true "access_token_revocation_outbox_created_at_idx" outbox "created_at"].

(** [created_at + (ttl_secs * INTERVAL '1 second')], in microseconds. *)
Definition expiry_of (r : Row) : Value :=
  match cell "created_at" r, cell "ttl_secs" r with
  | VTime t, VInt n => VTime (t + n * 1000000)
  | _, _ => VNull
  end.

Definition expires_at_idx : string := "access_token_revocation_outbox_expires_at_idx".

Definition migration_010 : list Ddl := [
  DropIndexIfExists expires_at_idx;
  AddColumn true outbox (column "expires_at" TIMESTAMPTZ []);
  UpdateWhere outbox "expires_at" expiry_of (λ r, is_null (cell "expires_at" r));
  SetNotNull outbox "expires_at"].

Definition migration_011 : list Ddl := [CreateIndex true expires_at_idx outbox "expires_at"].

(** ['^access_token_revocation_outbox_expires_at_idx_cc(new|old)[0-9]*$'] *)
Definition is_leftover (name : string) : bool :=
  match strip_prefix (String.append expires_at_idx "_cc") name with
  | Some s => match strip_prefix "new" s, strip_prefix "old" s with
              | Some d, _ | None, Some d => forallb is_ascii_digit (bytes d)
              | None, None => false
              end
  | None => false
  end.

Definition migration_012 : list Ddl := [RepairIndex expires_at_idx is_leftover].

Definition migrations : list (list Ddl) :=
  [migration_001; migration_002; migration_003; migration_004; migration_005; migration_006;
   migration_007; migration_008; migration_009; migration_010; migration_011; migration_012].

(** The columns of each table once every migration has run. *)
Definition schema : gmap string (list Column) :=
  match migrate 0 migrations empty_catalog with
  | Some c => t_columns <$> cat_tables c
  | None => ∅
  end.

Example migrations_apply : is_Some (migrate 0 migrations empty_catalog).
Proof. eexists. vm_compute. reflexivity. Qed.

Definition columns_of (table : string) : list Column := default [] (schema !! table).

(** The names Postgres gives to the constraints of a table. *)
Definition constraint_names (table : string) : list string :=
  let sub (s : string) (suffix : string) := String.append table (String.append "_" (String.append s suffix)) in
  c ← columns_of table;
  (if c_primary c then [String.append table "_pkey"] else if c_unique c then [sub (c_name c) "_key"] else []) ++
  match c_references c with Some _ => [sub (c_name c) "_fkey"] | None => [] end.

(** ** The statements of the Rust code *)

Inductive RustType : Type := RustUuid | RustString | RustBool | RustDateTime | RustI64.

(** A struct field or a bound argument: its column, its type and whether it is an
    [Option]. *)
Record Field : Type := MkField { f_column : string; f_type : RustType; f_optional : bool }.

Definition req (name : string) (t : RustType) : Field := MkField name t false.
Definition opt (name : string) (t : RustType) : Field := MkField name t true.

(** What an [INSERT] or [UPDATE] writes: an argument, the text of an enum, or an
    expression of the statement itself. *)
Inductive Written : Type :=
| Argument (f : Field)
| EnumText (name : string) (texts : list string)
| Constant (name : string) (v : Value)
| Timestamp (name : string).

Definition written_column (x : Written) : string :=
  match x with Argument f => f_column f | EnumText n _ | Constant n _ | Timestamp n => n end.

Inductive Sql : Type :=
| Select (table : string) (cols : list string) (fields conditions order : list Field)
| Insert (table : string) (ws : list Written) (conflict : option string) (returning : list string) (fields : list Field)
| Update (table : string) (ws : list Written) (conditions : list Field)
| Delete (table : string) (conditions : list Field).

(** *** Well-typed statements *)

Definition decodes (t : SqlType) (r : RustType) : bool :=
  match t, r with
  | UUID, RustUuid | VARCHAR _, RustString | TEXT, RustString | BOOLEAN, RustBool | TIMESTAMPTZ, RustDateTime
  | BIGINT, RustI64 => true
  | _, _ => false
  end.

Definition on_column (cs : list Column) (name : string) (p : Column → bool) : bool :=
  match find_column name cs with Some c => p c | None => false end.

Definition names_column (cs : list Column) (name : string) : bool := on_column cs name (λ _, true).

(** A column is read into a field: NULL needs an [Option]. *)
Definition field_ok (cs : list Column) (cols : list string) (f : Field) : bool :=
  bool_decide (f_column f ∈ cols) &&
  on_column cs (f_column f) (λ c, decodes (c_type c) (f_type f) && (c_not_null c || f_optional f)).

Definition condition_ok (cs : list Column) (f : Field) : bool :=
  on_column cs (f_column f) (λ c, decodes (c_type c) (f_type f) && negb (f_optional f)).

Definition written_ok (cs : list Column) (x : Written) : bool :=
  on_column cs (written_column x) (λ c,
    match x with
    | Argument f => decodes (c_type c) (f_type f) && (negb (f_optional f) || negb (c_not_null c))
    | EnumText _ texts => forallb (λ s, cell_ok c (VText s)) texts
    | Constant _ v => cell_ok c v
    | Timestamp _ => bool_decide (c_type c = TIMESTAMPTZ)
    end).

(** Columns left out of an [INSERT] have a default or may be NULL. *)
Definition covered (ws : list Written) (c : Column) : bool :=
  bool_decide (c_name c ∈ written_column <$> ws) || negb (c_not_null c) || bool_decide (is_Some (c_default c)).

Definition referenced (table : string) : bool :=
  existsb (λ p, existsb (λ c, bool_decide (fst <$> c_references c = Some table)) p.2) (map_to_list schema).

Definition sql_ok (s : Sql) : bool :=
  match s with
  | Select table cols fields conditions order =>
      let cs := columns_of table in
      forallb (names_column cs) cols && forallb (field_ok cs cols) fields && forallb (condition_ok cs) conditions &&
      forallb (condition_ok cs) order
  | Insert table ws conflict returning fields =>
      let cs := columns_of table in
      forallb (written_ok cs) ws && bool_decide (NoDup (written_column <$> ws)) && forallb (covered ws) cs &&
      match conflict with Some name => on_column cs name c_unique | None => true end &&
      forallb (names_column cs) returning && forallb (field_ok cs returning) fields
  | Update table ws conditions =>
      let cs := columns_of table in
      forallb (written_ok cs) ws && forallb (condition_ok cs) conditions
  | Delete table conditions =>
      negb (referenced table) && forallb (condition_ok (columns_of table)) conditions
  end.

(** *** The rows they read *)

Definition UserRow_fields : list Field := [
  req "id" RustUuid; opt "username" RustString; req "email" RustString; req "display_name" RustString;
  opt "password_hash" RustString; req "auth_provider" RustString; req "created_at" RustDateTime;
  req "updated_at" RustDateTime].

Definition SessionRow_fields : list Field := [
  req "id" RustUuid; req "user_id" RustUuid; req "refresh_token_hash" RustString; req "expires_at" RustDateTime;
  req "is_active" RustBool; req "created_at" RustDateTime; req "auth_method" RustString].

Definition UserActionRow_fields : list Field := [
  req "id" RustUuid; req "user_id" RustUuid; opt "session_id" RustUuid; req "event_type" RustString;
  req "auth_method" RustString; req "created_at" RustDateTime].

Definition UserSummaryRow_fields : list Field := [
  req "id" RustUuid; opt "username" RustString; req "email" RustString; req "display_name" RustString;
  req "auth_provider" RustString; req "created_at" RustDateTime; req "updated_at" RustDateTime].

Definition ProfileRow_fields : list Field := [
  req "user_id" RustUuid; opt "avatar_url" RustString; opt "bio" RustString; req "updated_at" RustDateTime].

(** *** The statements *)

Definition user_columns : list string :=
  ["id"; "username"; "email"; "display_name"; "password_hash"; "auth_provider"; "created_at"; "updated_at"]%string.

Definition session_columns : list string :=
  ["id"; "user_id"; "refresh_token_hash"; "expires_at"; "is_active"; "created_at"; "auth_method"]%string.

Definition action_columns : list string :=
  ["id"; "user_id"; "session_id"; "event_type"; "auth_method"; "created_at"]%string.

Definition auth_method_texts : list string := AuthMethod_as_str <$> [Password; GoogleOAuth].

Definition sql_find_user (by_ : Field) : Sql := Select "users" user_columns UserRow_fields [by_] [].

Definition sql_create_user : Sql :=
  Insert "users" [
    Argument (req "id" RustUuid); Argument (opt "username" RustString); Argument (req "email" RustString);
    Argument (req "display_name" RustString); Argument (opt "password_hash" RustString);
    EnumText "auth_provider" (AuthProvider_as_str <$> [Local; Google]);
    Argument (req "created_at" RustDateTime); Argument (req "updated_at" RustDateTime)]
    None user_columns UserRow_fields.

Definition action_arguments : list Written := [
  Argument (req "id" RustUuid); Argument (req "user_id" RustUuid); Argument (opt "session_id" RustUuid);
  EnumText "event_type" (EventType_as_str <$> [Login; Logout; Refresh]); EnumText "auth_method" auth_method_texts;
  Argument (req "created_at" RustDateTime)].

Definition sql_create_user_action : Sql :=
  Insert "user_actions" action_arguments None action_columns UserActionRow_fields.

Definition sql_load_sessions : Sql :=
  Select "sessions" session_columns SessionRow_fields [req "user_id" RustUuid] [req "created_at" RustDateTime].

Definition session_arguments : list Written := [
  Argument (req "id" RustUuid); Argument (req "user_id" RustUuid); Argument (req "refresh_token_hash" RustString);
  Argument (req "expires_at" RustDateTime); Argument (req "is_active" RustBool);
  Argument (req "created_at" RustDateTime); EnumText "auth_method" auth_method_texts].

Definition sql_insert_session : Sql := Insert "sessions" session_arguments None [] [].

Definition sql_invalidate_session : Sql :=
  Update "sessions" [Constant "is_active" (VBool false)] [req "id" RustUuid].

Definition user_repo_statements : list Sql :=
  (sql_find_user <$> [req "username" RustString; req "email" RustString; req "id" RustUuid]) ++
  [sql_create_user; sql_create_user_action; sql_load_sessions; sql_insert_session; sql_invalidate_session].

Definition session_repo_statements : list Sql := [
  Insert "sessions" session_arguments None session_columns SessionRow_fields;
  Select "sessions" session_columns SessionRow_fields [req "id" RustUuid] [];
  Select "sessions" session_columns SessionRow_fields
    [req "user_id" RustUuid; req "is_active" RustBool; req "expires_at" RustDateTime] [req "created_at" RustDateTime];
  sql_invalidate_session;
  sql_load_sessions;
  Update "sessions" [Constant "is_active" (VBool false)] [req "user_id" RustUuid; req "is_active" RustBool]].

Definition summary_columns : list string :=
  ["id"; "username"; "email"; "display_name"; "auth_provider"; "created_at"; "updated_at"]%string.

Definition user_directory_statements : list Sql := [
  Select "users" summary_columns UserSummaryRow_fields [req "id" RustUuid] [];
  Select "users" summary_columns UserSummaryRow_fields [] [req "created_at" RustDateTime; req "id" RustUuid];
  Select "users" [] [] [] []].

Definition audit_statement : Sql := Insert "user_actions" action_arguments None [] [].

Definition profile_repo_statements : list Sql :=
  let all := f_column <$> ProfileRow_fields in
  [Select "user_profiles" all ProfileRow_fields [req "user_id" RustUuid] [];
   Insert "user_profiles" [
     Argument (req "user_id" RustUuid); Argument (opt "avatar_url" RustString); Argument (opt "bio" RustString);
     Argument (req "updated_at" RustDateTime)] (Some "user_id"%string) [] [];
   Update "user_profiles" [
     Argument (opt "avatar_url" RustString); Argument (opt "bio" RustString);
     Argument (req "updated_at" RustDateTime)] [req "user_id" RustUuid]].

Definition role_texts : list string := Role_as_str <$> [RoleUser; RoleAdmin].

(** The [ON CONFLICT (user_id) DO UPDATE] of an upsert is listed as an [Update] of
    its own. *)
Definition admin_repo_statements : list Sql := [
  Select "user_roles" ["role"%string] [req "role" RustString] [req "user_id" RustUuid] [];
  Select "user_roles" ["user_id"; "role"]%string [req "user_id" RustUuid; req "role" RustString]
    [req "user_id" RustUuid] [];
  Insert "user_roles" [Argument (req "user_id" RustUuid); EnumText "role" role_texts; Timestamp "updated_at"]
    (Some "user_id"%string) [] [];
  Update "user_roles" [EnumText "role" role_texts; Timestamp "updated_at"] [req "user_id" RustUuid]].

Definition outbox_statements : list Sql := [
  Insert outbox [Argument (req "jti" RustUuid); Argument (req "ttl_secs" RustI64); Timestamp "expires_at"]
    (Some "jti"%string) [] [];
  Delete outbox [req "expires_at" RustDateTime];
  Select outbox ["jti"; "ttl_secs"]%string [req "jti" RustUuid; req "ttl_secs" RustI64] [] [req "created_at" RustDateTime];
  Delete outbox [req "jti" RustUuid]].

Definition seed_statements : list Sql := [
  Select "users" [] [] [req "auth_provider" RustString] [];
  Insert "users" [
    Argument (req "id" RustUuid); Argument (req "username" RustString); Argument (req "email" RustString);
    Constant "display_name" (VText "Administrator"); Argument (req "password_hash" RustString);
    Constant "auth_provider" (VText "local"); Argument (req "created_at" RustDateTime);
    Argument (req "updated_at" RustDateTime)] (Some "username"%string) [] []].

Definition statements : list Sql :=
  user_repo_statements ++ session_repo_statements ++ user_directory_statements ++ [audit_statement] ++
  profile_repo_statements ++ admin_repo_statements ++ outbox_statements ++ seed_statements.

(** *** The tables of [Database.v] as rows of the catalog *)

Definition of_option {A} (f : A → Value) (o : option A) : Value := match o with Some a => f a | None => VNull end.

Definition encode_user (r : UserRow) : Row := [
  ("id", VUuid (ur_id r)); ("username", of_option VText (ur_username r)); ("email", VText (ur_email r));
  ("display_name", VText (ur_display_name r)); ("password_hash", of_option VText (ur_password_hash r));
  ("auth_provider", VText (ur_auth_provider r)); ("created_at", VTime (ur_created_at r));
  ("updated_at", VTime (ur_updated_at r))]%string.

Definition encode_session (r : SessionRow) : Row := [
  ("id", VUuid (sr_id r)); ("user_id", VUuid (sr_user_id r)); ("refresh_token_hash", VText (sr_refresh_token_hash r));
  ("expires_at", VTime (sr_expires_at r)); ("is_active", VBool (sr_is_active r)); ("created_at", VTime (sr_created_at r));
  ("auth_method", VText (sr_auth_method r))]%string.

Definition encode_action (r : UserActionRow) : Row := [
  ("id", VUuid (ar_id r)); ("user_id", VUuid (ar_user_id r)); ("auth_method", VText (ar_auth_method r));
  ("created_at", VTime (ar_created_at r)); ("session_id", of_option VUuid (ar_session_id r));
  ("event_type", VText (ar_event_type r))]%string.

Definition encode_profile (r : ProfileRow) : Row := [
  ("user_id", VUuid (pr_user_id r)); ("avatar_url", of_option VText (pr_avatar_url r));
  ("bio", of_option VText (pr_bio r)); ("updated_at", VTime (pr_updated_at r))]%string.

Definition encode_role (p : Uuid * RoleRow) : Row := [
  ("user_id", VUuid p.1); ("role", VText (rr_role p.2)); ("updated_at", VTime (rr_updated_at p.2))]%string.

(** The columns of the tables, evaluated once. *)
Definition users_columns : list Column := Eval vm_compute in columns_of "users".
Definition sessions_columns : list Column := Eval vm_compute in columns_of "sessions".
Definition user_actions_columns : list Column := Eval vm_compute in columns_of "user_actions".
Definition user_profiles_columns : list Column := Eval vm_compute in columns_of "user_profiles".
Definition user_roles_columns : list Column := Eval vm_compute in columns_of "user_roles".

(** The catalog that the tables of the model stand for; the outbox is in
    [Blacklist.v]. *)
Definition encode (db : Db) : Catalog :=
  MkCatalog (list_to_map [
    ("users", MkTable users_columns (encode_user <$> rows (db_users db)));
    ("sessions", MkTable sessions_columns (encode_session <$> rows (db_sessions db)));
    ("user_actions", MkTable user_actions_columns (encode_action <$> rows (db_actions db)));
    ("user_profiles", MkTable user_profiles_columns (encode_profile <$> rows (db_profiles db)));
    ("user_roles", MkTable user_roles_columns (encode_role <$> map_to_list (db_roles db)))]%string) ∅.

(** What the schema asks of the tables beyond [db_ok] and [roles_ok]: the other
    foreign keys, and the widths of the texts. *)
Definition opt_fits (n : Z) (o : option string) : bool := match o with Some s => fits n s | None => true end.

Definition user_fits (r : UserRow) : bool :=
  opt_fits 255 (ur_username r) && fits 255 (ur_email r) && fits 255 (ur_display_name r) &&
  opt_fits 255 (ur_password_hash r) && fits 50 (ur_auth_provider r).

Definition session_fits (r : SessionRow) : bool := fits 255 (sr_refresh_token_hash r) && fits 20 (sr_auth_method r).

Definition action_fits (r : UserActionRow) : bool := fits 50 (ar_auth_method r) && fits 20 (ar_event_type r).

Definition profile_fits (r : ProfileRow) : bool := opt_fits 500 (pr_avatar_url r).

Definition db_fits (db : Db) : Prop :=
  map_Forall (λ _ r, user_fits r = true) (db_users db) ∧ map_Forall (λ _ r, session_fits r = true) (db_sessions db) ∧
  map_Forall (λ _ r, action_fits r = true) (db_actions db) ∧ map_Forall (λ _ r, profile_fits r = true) (db_profiles db).

Definition refers_ok (db : Db) : Prop :=
  map_Forall (λ _ r, is_Some (db_users db !! ar_user_id r) ∧
                     ∀ sid, ar_session_id r = Some sid → is_Some (db_sessions db !! sid)) (db_actions db) ∧
  map_Forall (λ _ r, is_Some (db_users db !! pr_user_id r)) (db_profiles db) ∧
  map_Forall (λ id _, is_Some (db_users db !! id)) (db_roles db).

(** Rows are stored under their own identifier. *)
Definition keyed (db : Db) : Prop :=
  map_Forall (λ id r, ur_id r = id) (db_users db) ∧ map_Forall (λ id r, sr_id r = id) (db_sessions db) ∧
  map_Forall (λ id r, ar_id r = id) (db_actions db) ∧ map_Forall (λ id r, pr_user_id r = id) (db_profiles db).

(** ** Lemmas *)

(** *** Columns of encoded rows *)

Lemma column_values_fmap {A} name (enc : A → Row) (f : A → option Value) (l : list A) :
  (∀ a, non_null (cell name (enc a)) = f a) → column_values name (enc <$> l) = omap f l.
Proof. intros Hf. unfold column_values. induction l as [|a l IH]; csimpl; [done|]. rewrite Hf. destruct (f a); by rewrite IH. Qed.

Lemma row_ok_fmap {A} (cs : list Column) (enc : A → Row) (p : A → bool) (l : list A) :
  (∀ a, row_ok cs (enc a) = p a) → forallb (row_ok cs) (enc <$> l) = true ↔ Forall (λ a, p a = true) l.
Proof.
  intros Hp. induction l as [|a l IH]; simpl; [by split|]. rewrite andb_true_iff, IH, Hp, Forall_cons. done.
Qed.

Lemma Forall_map {R} (P : Uuid → R → Prop) (m : gmap Uuid R) :
  Forall (λ p, P p.1 p.2) (map_to_list m) ↔ map_Forall P m.
Proof. rewrite map_Forall_to_list. apply Forall_iff. by intros []. Qed.

Lemma Forall_rows {R} (P : R → Prop) (m : gmap Uuid R) : Forall P (rows m) ↔ map_Forall (λ _, P) m.
Proof. unfold rows. rewrite Forall_fmap, <- Forall_map. done. Qed.

(** A column of a table holds no value twice. *)
Definition separates {R} (f : Uuid * R → option Value) (m : gmap Uuid R) : Prop :=
  ∀ i j r1 r2 v, m !! i = Some r1 → m !! j = Some r2 → f (i, r1) = Some v → f (j, r2) = Some v → i = j.

Lemma NoDup_omap_pairs {R} (f : Uuid * R → option Value) (l : list (Uuid * R)) :
  NoDup l.*1 → NoDup (omap f l) ↔ ∀ p q v, p ∈ l → q ∈ l → f p = Some v → f q = Some v → p.1 = q.1.
Proof.
  induction l as [|p l IH]; csimpl; intros Hnd; [split; [by intros _ ? ? ? ?%not_elem_of_nil|intros _; constructor]|].
  apply NoDup_cons in Hnd as [Hp Hnd]. specialize (IH Hnd).
  assert (Hrest : (∀ p' q v, p' ∈ p :: l → q ∈ p :: l → f p' = Some v → f q = Some v → p'.1 = q.1) ↔
    (∀ q v, q ∈ l → f p = Some v → f q ≠ Some v) ∧ NoDup (omap f l)).
  { rewrite IH. split.
    - intros Hall. split; [|intros p' q v ? ?; apply Hall; by right].
      intros q v Hq Hv Hv'. apply Hp. rewrite (Hall p q v) by (done || by left || by right). by apply list_elem_of_fmap_2.
    - intros [Hfst Hall] p' q v [->|Hp']%elem_of_cons [->|Hq]%elem_of_cons Hv Hv'; [done| | |by eapply Hall].
      + by destruct (Hfst q v).
      + by destruct (Hfst p' v). }
  rewrite Hrest. destruct (f p) as [v|] eqn:Hv.
  - rewrite NoDup_cons, list_elem_of_omap. split; intros [Hno Hn]; (split; [|done]).
    + intros q v' Hq [= <-] Hv'. apply Hno. by exists q.
    + intros (q & Hq & Hv'). by eapply Hno.
  - split; [intros Hn; by split|by intros [_ ?]].
Qed.

Lemma NoDup_column {R} (f : Uuid * R → option Value) (m : gmap Uuid R) :
  NoDup (omap f (map_to_list m)) ↔ separates f m.
Proof.
  rewrite NoDup_omap_pairs by apply NoDup_fst_map_to_list. unfold separates. split.
  - intros Hall i j r1 r2 v H1 H2 Hf1 Hf2. apply elem_of_map_to_list in H1, H2. by apply (Hall _ _ _ H1 H2 Hf1 Hf2).
  - intros Hall [i r1] [j r2] v H1%elem_of_map_to_list H2%elem_of_map_to_list. by apply Hall.
Qed.

Lemma omap_rows {R} (f : R → option Value) (m : gmap Uuid R) : omap f (rows m) = omap (f ∘ snd) (map_to_list m).
Proof. unfold rows. induction (map_to_list m) as [|p l IH]; csimpl; [done|]. by rewrite IH. Qed.

(** The primary key of rows stored under it. *)
Lemma key_separates {R} (f : Uuid * R → option Value) (m : gmap Uuid R) :
  (∀ i r, m !! i = Some r → f (i, r) = Some (VUuid i)) → separates f m.
Proof. intros Hf i j r1 r2 v H1 H2. rewrite (Hf _ _ H1), (Hf _ _ H2). congruence. Qed.

Lemma elem_of_keys {R} (f : R → Uuid) (m : gmap Uuid R) u :
  map_Forall (λ id r, f r = id) m →
  VUuid u ∈ omap (λ r, Some (VUuid (f r))) (rows m) ↔ is_Some (m !! u).
Proof.
  intros Hk. rewrite list_elem_of_omap. split.
  - intros (r & (id & Hr)%elem_of_rows & [= Hu]). rewrite <- Hu, (Hk _ _ Hr). by eexists.
  - intros [r Hr]. exists r. split; [apply elem_of_rows; by eexists|]. by rewrite (Hk _ _ Hr).
Qed.

(** *** One table at a time *)

Lemma columns_computed :
  columns_of "users" = users_columns ∧ columns_of "sessions" = sessions_columns ∧
  columns_of "user_actions" = user_actions_columns ∧ columns_of "user_profiles" = user_profiles_columns ∧
  columns_of "user_roles" = user_roles_columns.
Proof. split_and!; vm_compute; reflexivity. Qed.

Ltac row_cells := unfold row_ok; cbn; unfold cell_ok; cbn; rewrite ?andb_true_r, ?andb_assoc; try done.

Lemma encode_user_row_ok r : row_ok users_columns (encode_user r) = user_fits r.
Proof. unfold user_fits. destruct r as [? [] ? ? [] ? ? ?]; row_cells. Qed.

Lemma encode_session_row_ok r : row_ok sessions_columns (encode_session r) = session_fits r.
Proof. unfold session_fits. row_cells. Qed.

Lemma encode_action_row_ok r : row_ok user_actions_columns (encode_action r) = action_fits r.
Proof. unfold action_fits. destruct r as [? ? [] ? ? ?]; row_cells. Qed.

Lemma encode_profile_row_ok r : row_ok user_profiles_columns (encode_profile r) = profile_fits r.
Proof. unfold profile_fits. destruct r as [? [] [] ?]; row_cells. Qed.

Definition role_known (r : RoleRow) : bool := bool_decide (rr_role r ∈ ["user"; "admin"]%string).

Lemma encode_role_row_ok p : row_ok user_roles_columns (encode_role p) = role_known p.2.
Proof.
  unfold role_known. destruct p as [u [s t]]. row_cells. simpl. case_bool_decide as Hin; [|by rewrite andb_false_r].
  rewrite andb_true_r. apply elem_of_cons in Hin as [->|[->|Hin%not_elem_of_nil]%elem_of_cons]; done.
Qed.

Lemma encode_tables db :
  cat_tables (encode db) !! "users"%string = Some (MkTable users_columns (encode_user <$> rows (db_users db))) ∧
  cat_tables (encode db) !! "sessions"%string = Some (MkTable sessions_columns (encode_session <$> rows (db_sessions db))).
Proof. unfold encode. simpl. split; by simplify_map_eq. Qed.

(** A foreign key into a table of rows stored under their identifier. *)
Lemma references_keyed {T R} (key : T → Uuid) (target : gmap Uuid T) (f : Uuid * R → option Uuid) (m : gmap Uuid R) :
  map_Forall (λ id r, key r = id) target →
  Forall (λ v, v ∈ omap (λ r, Some (VUuid (key r))) (rows target)) (omap (λ p, VUuid <$> f p) (map_to_list m)) ↔
  map_Forall (λ id r, ∀ u, f (id, r) = Some u → is_Some (target !! u)) m.
Proof.
  intros Hk. rewrite <- Forall_map, !Forall_forall. split.
  - intros Hall p Hp u Hu. apply (elem_of_keys key); [done|]. apply Hall, list_elem_of_omap. exists p.
    split; [done|]. destruct p. simpl in Hu. by rewrite Hu.
  - intros Hall v (p & Hp & Hv)%list_elem_of_omap. destruct (f p) as [u|] eqn:Hu; [|done]. injection Hv as <-.
    apply elem_of_keys; [done|]. apply (Hall p Hp). by destruct p.
Qed.

Lemma key_values_users db :
  key_values (MkTable users_columns (encode_user <$> rows (db_users db))) = omap (λ r, Some (VUuid (ur_id r))) (rows (db_users db)).
Proof. unfold key_values. simpl. by rewrite (column_values_fmap _ _ (λ r, Some (VUuid (ur_id r)))). Qed.

Lemma key_values_sessions db :
  key_values (MkTable sessions_columns (encode_session <$> rows (db_sessions db))) =
  omap (λ r, Some (VUuid (sr_id r))) (rows (db_sessions db)).
Proof. unfold key_values. simpl. by rewrite (column_values_fmap _ _ (λ r, Some (VUuid (sr_id r)))). Qed.

(** *** One column at a time *)

Lemma unique_ok_pairs {R} c (enc : Uuid * R → Row) (f : Uuid * R → option Value) (m : gmap Uuid R) :
  c_unique c = true → (∀ a, non_null (cell (c_name c) (enc a)) = f a) →
  unique_ok c (enc <$> map_to_list m) = true ↔ separates f m.
Proof.
  intros Hc Hf. unfold unique_ok. rewrite Hc. simpl. rewrite bool_decide_eq_true, (column_values_fmap _ _ f) by done.
  apply NoDup_column.
Qed.

Lemma rows_pairs {R} (enc : R → Row) (m : gmap Uuid R) : enc <$> rows m = (enc ∘ snd) <$> map_to_list m.
Proof. unfold rows. by rewrite <- list_fmap_compose. Qed.

Lemma unique_ok_rows {R} c (enc : R → Row) (f : R → option Value) (m : gmap Uuid R) :
  c_unique c = true → (∀ a, non_null (cell (c_name c) (enc a)) = f a) →
  unique_ok c (enc <$> rows m) = true ↔ separates (f ∘ snd) m.
Proof. intros Hc Hf. rewrite rows_pairs. apply (unique_ok_pairs c (enc ∘ snd) (f ∘ snd) m Hc). intros []. apply Hf. Qed.

Lemma references_pairs {R T} ts c target d t (enc : Uuid * R → Row) (f : Uuid * R → option Uuid) (m : gmap Uuid R)
    (key : T → Uuid) (tm : gmap Uuid T) :
  c_references c = Some (target, d) → ts !! target = Some t →
  key_values t = omap (λ r, Some (VUuid (key r))) (rows tm) → map_Forall (λ id r, key r = id) tm →
  (∀ a, non_null (cell (c_name c) (enc a)) = VUuid <$> f a) →
  references_ok ts c (enc <$> map_to_list m) = true ↔
  map_Forall (λ id r, ∀ u, f (id, r) = Some u → is_Some (tm !! u)) m.
Proof.
  intros Hc Ht Hkv Hkey Hf. unfold references_ok. rewrite Hc, Ht, bool_decide_eq_true, Hkv.
  rewrite (column_values_fmap _ _ (λ a, VUuid <$> f a)) by done. by apply references_keyed.
Qed.

(** A column without a foreign key. *)
Ltac no_references :=
  repeat match goal with
  | |- context [references_ok ?ts ?c ?rs] =>
      match eval cbn in (c_references c) with None => change (references_ok ts c rs) with true end
  end.

Section tables.
Context (db : Db) (Hk : keyed db) (ts : gmap string Table).
Context (Htu : ts !! "users"%string = Some (MkTable users_columns (encode_user <$> rows (db_users db)))).
Context (Hts : ts !! "sessions"%string = Some (MkTable sessions_columns (encode_session <$> rows (db_sessions db)))).

Lemma references_users {R} c d (enc : Uuid * R → Row) (f : Uuid * R → option Uuid) (m : gmap Uuid R) :
  c_references c = Some ("users"%string, d) → (∀ a, non_null (cell (c_name c) (enc a)) = VUuid <$> f a) →
  references_ok ts c (enc <$> map_to_list m) = true ↔
  map_Forall (λ id r, ∀ u, f (id, r) = Some u → is_Some (db_users db !! u)) m.
Proof. intros Hc Hf. by apply (references_pairs _ _ _ _ _ _ _ _ ur_id _ Hc Htu (key_values_users db) (proj1 Hk)). Qed.

Lemma references_sessions {R} c d (enc : Uuid * R → Row) (f : Uuid * R → option Uuid) (m : gmap Uuid R) :
  c_references c = Some ("sessions"%string, d) → (∀ a, non_null (cell (c_name c) (enc a)) = VUuid <$> f a) →
  references_ok ts c (enc <$> map_to_list m) = true ↔
  map_Forall (λ id r, ∀ u, f (id, r) = Some u → is_Some (db_sessions db !! u)) m.
Proof. intros Hc Hf. by apply (references_pairs _ _ _ _ _ _ _ _ sr_id _ Hc Hts (key_values_sessions db) (proj1 (proj2 Hk))). Qed.

Lemma users_table_ok :
  table_ok ts (MkTable users_columns (encode_user <$> rows (db_users db))) = true ↔
  map_Forall (λ _ r, user_fits r = true) (db_users db) ∧
  (∀ i j r1 r2, db_users db !! i = Some r1 → db_users db !! j = Some r2 → ur_email r1 = ur_email r2 → i = j) ∧
  (∀ i j r1 r2 u, db_users db !! i = Some r1 → db_users db !! j = Some r2 →
     ur_username r1 = Some u → ur_username r2 = Some u → i = j).
Proof.
  destruct Hk as (Hku & _). unfold table_ok. rewrite andb_true_iff. simpl t_rows. simpl t_columns.
  rewrite (row_ok_fmap _ _ user_fits) by apply encode_user_row_ok. rewrite Forall_rows. apply and_iff_compat_l.
  simpl forallb. no_references. rewrite !andb_true_iff.
  rewrite (unique_ok_rows _ _ (λ r, Some (VUuid (ur_id r)))) by done.
  rewrite (unique_ok_rows _ _ (λ r, VText <$> ur_username r)) by (done || by intros [? [] ? ? ? ? ? ?]).
  rewrite (unique_ok_rows _ _ (λ r, Some (VText (ur_email r)))) by done.
  assert (Hid : separates ((λ r, Some (VUuid (ur_id r))) ∘ snd) (db_users db)).
  { apply key_separates. intros i r Hr. simpl. by rewrite (Hku _ _ Hr). }
  unfold separates; simpl. split.
  - intros (_ & [Hn _] & [He _] & _). split.
    + intros i j r1 r2 H1 H2 Heq. eapply (He i j r1 r2); try done. by rewrite Heq.
    + intros i j r1 r2 u H1 H2 Hu1 Hu2. eapply (Hn i j r1 r2); try done; simpl; by rewrite ?Hu1, ?Hu2.
  - intros [He Hn]. split_and!; try done.
    + intros i j r1 r2 v H1 H2 Hv1 Hv2. destruct (ur_username r1) as [u1|] eqn:E1, (ur_username r2) as [u2|] eqn:E2; try done.
      simpl in *. apply (Hn i j r1 r2 u1); try done. congruence.
    + intros i j r1 r2 v H1 H2 [= <-] [= Hv2]. by apply (He i j r1 r2).
Qed.

Lemma sessions_table_ok :
  table_ok ts (MkTable sessions_columns (encode_session <$> rows (db_sessions db))) = true ↔
  map_Forall (λ _ r, session_fits r = true) (db_sessions db) ∧
  map_Forall (λ _ r, is_Some (db_users db !! sr_user_id r)) (db_sessions db).
Proof.
  destruct Hk as (Hku & Hks & _). unfold table_ok. rewrite andb_true_iff. simpl t_rows. simpl t_columns.
  rewrite (row_ok_fmap _ _ session_fits) by apply encode_session_row_ok. rewrite Forall_rows. apply and_iff_compat_l.
  simpl forallb. no_references. rewrite !andb_true_iff, !rows_pairs.
  rewrite (unique_ok_pairs _ _ (λ p, Some (VUuid (sr_id p.2)))) by done.
  rewrite (references_users _ _ _ (λ p, Some (sr_user_id p.2))) by done.
  split.
  - intros ((_ & _) & Hr & _) i r Hi. exact (Hr i r Hi _ eq_refl).
  - intros Hr. split_and!; try done.
    + apply key_separates. intros i r Hi. simpl. by rewrite (Hks _ _ Hi).
    + intros i r Hi u [= <-]. by apply (Hr i r).
Qed.

Lemma actions_table_ok :
  table_ok ts (MkTable user_actions_columns (encode_action <$> rows (db_actions db))) = true ↔
  map_Forall (λ _ r, action_fits r = true) (db_actions db) ∧
  map_Forall (λ _ r, is_Some (db_users db !! ar_user_id r) ∧
                     ∀ sid, ar_session_id r = Some sid → is_Some (db_sessions db !! sid)) (db_actions db).
Proof.
  destruct Hk as (Hku & Hks & Hka & _). unfold table_ok. rewrite andb_true_iff.
  simpl t_rows. simpl t_columns.
  rewrite (row_ok_fmap _ _ action_fits) by apply encode_action_row_ok. rewrite Forall_rows. apply and_iff_compat_l.
  simpl forallb. no_references. rewrite !andb_true_iff, !rows_pairs.
  rewrite (unique_ok_pairs _ _ (λ p, Some (VUuid (ar_id p.2)))) by done.
  rewrite (references_users _ _ _ (λ p, Some (ar_user_id p.2))) by done.
  rewrite (references_sessions _ _ _ (λ p, ar_session_id p.2)) by (done || by intros [? [? ? [] ? ? ?]]).
  split.
  - intros ((_ & _) & Hr & Hs & _) i r Hi. split; [exact (Hr i r Hi _ eq_refl)|exact (Hs i r Hi)].
  - intros Hr. split_and!; try done.
    + apply key_separates. intros i r Hi. simpl. by rewrite (Hka _ _ Hi).
    + intros i r Hi u [= <-]. by apply (Hr i r).
    + intros i r Hi. by apply (Hr i r).
Qed.

Lemma profiles_table_ok :
  table_ok ts (MkTable user_profiles_columns (encode_profile <$> rows (db_profiles db))) = true ↔
  map_Forall (λ _ r, profile_fits r = true) (db_profiles db) ∧
  map_Forall (λ _ r, is_Some (db_users db !! pr_user_id r)) (db_profiles db).
Proof.
  destruct Hk as (Hku & _ & _ & Hkp). unfold table_ok. rewrite andb_true_iff. simpl t_rows. simpl t_columns.
  rewrite (row_ok_fmap _ _ profile_fits) by apply encode_profile_row_ok. rewrite Forall_rows. apply and_iff_compat_l.
  simpl forallb. no_references. rewrite !andb_true_iff, !rows_pairs.
  rewrite (unique_ok_pairs _ _ (λ p, Some (VUuid (pr_user_id p.2)))) by done.
  rewrite (references_users _ _ _ (λ p, Some (pr_user_id p.2))) by done.
  split.
  - intros ((_ & Hr) & _) i r Hi. exact (Hr i r Hi _ eq_refl).
  - intros Hr. split_and!; try done.
    + apply key_separates. intros i r Hi. simpl. by rewrite (Hkp _ _ Hi).
    + intros i r Hi u [= <-]. by apply (Hr i r).
Qed.

Lemma roles_table_ok :
  table_ok ts (MkTable user_roles_columns (encode_role <$> map_to_list (db_roles db))) = true ↔
  roles_ok db ∧ map_Forall (λ id _, is_Some (db_users db !! id)) (db_roles db).
Proof.
  destruct Hk as (Hku & _). unfold table_ok. rewrite andb_true_iff. simpl t_rows. simpl t_columns.
  rewrite (row_ok_fmap _ _ (λ p, role_known p.2)) by apply encode_role_row_ok.
  rewrite (Forall_map (λ _ r, role_known r = true)).
  assert (map_Forall (λ _ r, role_known r = true) (db_roles db) ↔ roles_ok db) as ->.
  { unfold roles_ok. split; intros Hall i r Hi; specialize (Hall i r Hi); unfold role_known in *; simpl in *;
      rewrite bool_decide_eq_true, !elem_of_cons, elem_of_nil in *; naive_solver. }
  apply and_iff_compat_l. simpl forallb. no_references. rewrite !andb_true_iff.
  rewrite (unique_ok_pairs _ _ (λ p, Some (VUuid p.1))) by done.
  rewrite (references_users _ _ _ (λ p, Some p.1)) by done.
  split.
  - intros ((_ & Hr) & _) i r Hi. exact (Hr i r Hi _ eq_refl).
  - intros Hr. split_and!; try done.
    + by apply key_separates.
    + intros i r Hi u [= <-]. by apply (Hr i r).
Qed.

End tables.

(** ** Properties *)

(** C36. The constraints that the migrations declare are the integrity invariants
    of the model: for tables whose rows are stored under their identifiers, every
    NOT NULL, UNIQUE, CHECK and foreign key constraint, and every column type and
    width, holds exactly when [db_ok] and [roles_ok] hold, every action, profile
    and role refers to a user (an action also to its session, if any), and the
    texts fit their columns. *)
Theorem schema_enforces_invariants db :
  keyed db → catalog_ok (encode db) = true ↔ db_ok db ∧ roles_ok db ∧ refers_ok db ∧ db_fits db.
Proof.
  intros Hk. unfold catalog_ok. rewrite bool_decide_eq_true. destruct (encode_tables db) as [Htu Hts].
  set (ts := cat_tables (encode db)) in *.
  assert (Hall : map_Forall (λ _ t, table_ok ts t = true) ts ↔
    table_ok ts (MkTable users_columns (encode_user <$> rows (db_users db))) = true ∧
    table_ok ts (MkTable sessions_columns (encode_session <$> rows (db_sessions db))) = true ∧
    table_ok ts (MkTable user_actions_columns (encode_action <$> rows (db_actions db))) = true ∧
    table_ok ts (MkTable user_profiles_columns (encode_profile <$> rows (db_profiles db))) = true ∧
    table_ok ts (MkTable user_roles_columns (encode_role <$> map_to_list (db_roles db))) = true).
  { unfold ts at 2, encode. simpl. rewrite !map_Forall_insert by (by simplify_map_eq).
    pose proof (map_Forall_empty (λ (_ : string) t, table_ok ts t = true)). tauto. }
  rewrite Hall, users_table_ok, sessions_table_ok, actions_table_ok, profiles_table_ok, roles_table_ok by done.
  destruct Hk as (? & ? & _). unfold db_ok, refers_ok, db_fits. tauto.
Qed.

(** C35. The code agrees with the migrations. The twelve files run on an empty
    database; every statement the Rust code sends names columns that exist, reads
    each into a field whose type decodes it (an [Option] where NULL is possible),
    writes arguments of the column's type and, where the text is an enum's or a
    constant, a text the column admits, leaves out only columns with a default or
    that may be NULL, names a unique column in [ON CONFLICT], and deletes from no
    table that a foreign key refers to; and the violations that the model's
    inserts report are constraints of the table. *)
Theorem statements_match_schema :
  (∃ c, migrate 0 migrations empty_catalog = Some c ∧ catalog_ok c = true) ∧
  Forall (λ s, sql_ok s = true) statements ∧
  (∀ r db e, insert_user r db = Err e → e ∈ constraint_names "users") ∧
  (∀ r db e, insert_session_row r db = Err e → e ∈ constraint_names "sessions") ∧
  (∀ r db e, insert_user_action r db = Err e → e ∈ constraint_names "user_actions").
Proof.
  assert (constraint_names "users" = ["users_pkey"; "users_username_key"; "users_email_key"]%string) as -> by (vm_compute; reflexivity).
  assert (constraint_names "sessions" = ["sessions_pkey"; "sessions_user_id_fkey"]%string) as -> by (vm_compute; reflexivity).
  assert (constraint_names "user_actions" =
    ["user_actions_pkey"; "user_actions_user_id_fkey"; "user_actions_session_id_fkey"]%string) as -> by (vm_compute; reflexivity).
  split_and!.
  - destruct migrations_apply as [c Hc]. exists c. split; [exact Hc|].
    assert (catalog_ok <$> migrate 0 migrations empty_catalog = Some true) as Hok by (vm_compute; reflexivity).
    rewrite Hc in Hok. by injection Hok.
  - apply Forall_forall. intros s Hs. assert (forallb sql_ok statements = true) as Hok by (vm_compute; reflexivity).
    rewrite forallb_forall in Hok. by apply Hok, list_elem_of_In.
  - intros r db e. unfold insert_user. repeat case_match; intros [= <-]; set_solver.
  - intros r db e. unfold insert_session_row. repeat case_match; intros [= <-]; set_solver.
  - intros r db e. unfold insert_user_action. repeat case_match; intros [= <-]; set_solver.
Qed.

(** *** Data that the migrations move *)

(** [users] as it is after migration 007: each user with its role. *)
Definition users_007 (us : list (UserRow * string)) : Table :=
  MkTable (users_columns ++ [text_default "role" 20 "user"])
    ((λ p, encode_user p.1 ++ [("role"%string, VText p.2)]) <$> us).

(** The role of a user in [user_roles]: no row means ['user']. *)
Definition role_of (t : Table) (id : Uuid) : Value :=
  match find (λ r, bool_decide (cell "user_id" r = VUuid id)) (t_rows t) with
  | Some r => cell "role" r
  | None => VText "user"
  end.

Definition promoted (us : list (UserRow * string)) : list (UserRow * string) :=
  List.filter (λ p, negb (bool_decide (VText p.2 = VText "user"))) us.

Definition role_row (now : Z) (p : UserRow * string) : Row := encode_role (ur_id p.1, MkRoleRow p.2 now).

Lemma filter_fmap {A} (enc : A → Row) (p : Row → bool) l : List.filter p (enc <$> l) = enc <$> List.filter (λ a, p (enc a)) l.
Proof. induction l as [|a l IH]; csimpl; [done|]. destruct (p (enc a)); csimpl; by rewrite IH. Qed.

Lemma mapM_total {A B} (f : A → option B) (g : A → B) l : (∀ x, f x = Some (g x)) → mapM f l = Some (g <$> l).
Proof. intros Hf. induction l as [|x l IH]; simpl; [done|]. rewrite Hf. simpl. by rewrite IH. Qed.

Lemma mapM_fmap {A B C} (f : B → option C) (g : A → B) l : mapM f (g <$> l) = mapM (λ a, f (g a)) l.
Proof. induction l as [|x l IH]; simpl; [done|]. destruct (f (g x)); simpl; [|done]. by rewrite <- IH. Qed.

Lemma promoted_elem us p : p ∈ promoted us ↔ p ∈ us ∧ p.2 ≠ "user"%string.
Proof.
  unfold promoted. rewrite list_elem_of_In, filter_In, <- list_elem_of_In, negb_true_iff, bool_decide_eq_false.
  split; intros [? Hx]; (split; [done|]); intros Heq; apply Hx; congruence.
Qed.

Lemma filter_sublist {A} (p : A → bool) l : List.filter p l `sublist_of` l.
Proof. induction l as [|a l IH]; simpl; [done|]. destruct (p a); by constructor. Qed.

(** The rows of 008's backfill satisfy the constraints of [user_roles] when the
    roles are known. *)
Lemma backfill_table_ok now us (ts : gmap string Table) :
  ts !! "users"%string = Some (users_007 us) → NoDup ((λ p, ur_id p.1) <$> us) →
  table_ok ts (MkTable user_roles_columns (role_row now <$> promoted us)) =
  forallb (λ p, role_known (MkRoleRow p.2 now)) (promoted us).
Proof.
  intros Hts Hnd. apply eq_true_iff_eq. unfold table_ok. simpl t_rows. simpl t_columns.
  assert (forallb (λ c, unique_ok c (role_row now <$> promoted us) && references_ok ts c (role_row now <$> promoted us))
    user_roles_columns = true) as ->.
  2:{ rewrite andb_true_r, (row_ok_fmap _ _ (λ p, role_known (MkRoleRow p.2 now))) by (intros; apply encode_role_row_ok).
      by rewrite forallb_forall, <- List.Forall_forall. }
  simpl forallb. no_references. rewrite !andb_true_iff. split_and!; try done.
  - unfold unique_ok. simpl. rewrite bool_decide_eq_true, (column_values_fmap _ _ (λ p, Some (VUuid (ur_id p.1)))) by done.
    assert (omap (λ p, Some (VUuid (ur_id p.1))) (promoted us) = VUuid <$> ((λ p, ur_id p.1) <$> promoted us)) as ->
      by (induction (promoted us) as [|p l IH]; csimpl; congruence).
    apply NoDup_fmap_2; [by intros ? ? [= ->]|]. eapply sublist_NoDup; [exact Hnd|]. apply fmap_sublist. apply filter_sublist.
  - unfold references_ok. simpl. rewrite Hts, bool_decide_eq_true, Forall_forall.
    rewrite (column_values_fmap _ _ (λ p, Some (VUuid (ur_id p.1)))) by done. unfold key_values, users_007. simpl.
    rewrite (column_values_fmap _ _ (λ p, Some (VUuid (ur_id p.1)))) by done.
    intros v (p & Hp & Hv)%list_elem_of_omap. apply list_elem_of_omap. exists p. split; [|done]. by apply promoted_elem in Hp as [? _].
Qed.

Lemma exec_create_roles now us c :
  cat_tables c !! "users"%string = Some (users_007 us) → cat_tables c !! "user_roles"%string = None →
  exec_ddl now (CreateTable true "user_roles" user_roles_columns) c =
    Some (set_table "user_roles" (MkTable user_roles_columns []) c).
Proof.
  intros Hu Hr. simpl. rewrite Hr. unfold checked. set (t := MkTable user_roles_columns []).
  assert (table_ok (cat_tables (set_table "user_roles" t c)) t = true) as ->; [|done].
  unfold table_ok. simpl. unfold references_ok. simpl. by rewrite lookup_insert_ne, Hu.
Qed.

Lemma exec_backfill now us c :
  cat_tables c !! "users"%string = Some (users_007 us) →
  cat_tables c !! "user_roles"%string = Some (MkTable user_roles_columns []) → NoDup ((λ p, ur_id p.1) <$> us) →
  exec_ddl now (InsertSelect "user_roles" [("user_id", "id"); ("role", "role")]%string "users"
      (λ r, negb (bool_decide (cell "role" r = VText "user")))) c =
    if forallb (λ p, role_known (MkRoleRow p.2 now)) (promoted us)
    then Some (set_table "user_roles" (MkTable user_roles_columns (role_row now <$> promoted us)) c) else None.
Proof.
  intros Hu Hr Hnd. simpl. rewrite Hu. simpl. rewrite Hr. simpl. rewrite filter_fmap, mapM_fmap.
  rewrite (mapM_total _ (role_row now)) by done. simpl. unfold checked. fold (promoted us).
  rewrite (backfill_table_ok now us) by (simpl; by rewrite ?lookup_insert_ne). done.
Qed.

Lemma exec_drop_role now us c :
  cat_tables c !! "users"%string = Some (users_007 us) →
  ∃ c', exec_ddl now (DropColumn "users" "role") c = Some c' ∧
    cat_tables c' = <["users"%string := MkTable users_columns ((λ p, encode_user p.1) <$> us)]> (cat_tables c).
Proof.
  intros Hu. simpl. rewrite Hu. simpl. eexists. split; [done|]. simpl. do 2 f_equal.
  rewrite <- list_fmap_compose. by apply list_fmap_ext.
Qed.

Lemma NoDup_key_inj {A B} (f : A → B) l p q : NoDup (f <$> l) → p ∈ l → q ∈ l → f p = f q → p = q.
Proof.
  induction l as [|x l IH]; intros Hnd Hp Hq Heq; [by apply not_elem_of_nil in Hp|].
  apply NoDup_cons in Hnd as [Hx Hnd]. apply elem_of_cons in Hp as [->|Hp], Hq as [->|Hq]; [done| | |by apply IH].
  - destruct Hx. rewrite Heq. by apply list_elem_of_fmap_2.
  - destruct Hx. rewrite <- Heq. by apply list_elem_of_fmap_2.
Qed.

Lemma role_of_promoted now us p :
  NoDup ((λ p, ur_id p.1) <$> us) → p ∈ us →
  role_of (MkTable user_roles_columns (role_row now <$> promoted us)) (ur_id p.1) = VText p.2.
Proof.
  intros Hnd Hp. unfold role_of. simpl t_rows. destruct (find _ _) as [r|] eqn:Hf.
  - apply find_some in Hf as [Hin Hid]. apply list_elem_of_In, list_elem_of_fmap in Hin as (q & -> & Hq).
    apply bool_decide_eq_true in Hid. simpl in Hid. injection Hid as Hid. apply promoted_elem in Hq as [Hq _].
    by rewrite (NoDup_key_inj _ _ _ _ Hnd Hq Hp Hid).
  - destruct (decide (p.2 = "user"%string)) as [->|Hne]; [done|]. exfalso.
    assert (Hq : In (role_row now p) (role_row now <$> promoted us)) by by apply list_elem_of_In, list_elem_of_fmap_2, promoted_elem.
    apply (find_none _ _ Hf) in Hq. by apply bool_decide_eq_false in Hq.
Qed.

(** Migration 008 moves the roles out of [users] and loses none: run on any users
    with any of the two roles, it succeeds, [users] is left with its rows less
    the column, and the role the application reads for each user is the one the
    column held. A role that is neither stops it, and the file's transaction
    with it. *)
Theorem migration_008_keeps_roles now us c :
  cat_tables c !! "users"%string = Some (users_007 us) → cat_tables c !! "user_roles"%string = None →
  NoDup ((λ p, ur_id p.1) <$> us) →
  if forallb (λ p, role_known (MkRoleRow p.2 now)) us
  then ∃ c' t, exec_all now migration_008 c = Some c' ∧
    cat_tables c' !! "users"%string = Some (MkTable users_columns ((λ p, encode_user p.1) <$> us)) ∧
    cat_tables c' !! "user_roles"%string = Some t ∧
    Forall (λ p, role_of t (ur_id p.1) = VText p.2) us
  else exec_all now migration_008 c = None.
Proof.
  intros Hu Hr Hnd. pose proof (exec_create_roles now us c Hu Hr) as E1.
  set (c1 := set_table "user_roles" (MkTable user_roles_columns []) c) in E1.
  assert (Hu1 : cat_tables c1 !! "users"%string = Some (users_007 us)) by (unfold c1; simpl; by rewrite lookup_insert_ne).
  pose proof (exec_backfill now us c1 Hu1 ltac:(unfold c1; simpl; by rewrite lookup_insert_eq) Hnd) as E2.
  set (c2 := set_table "user_roles" (MkTable user_roles_columns (role_row now <$> promoted us)) c1) in E2.
  assert (Hu2 : cat_tables c2 !! "users"%string = Some (users_007 us)) by (unfold c2; simpl; by rewrite lookup_insert_ne).
  destruct (exec_drop_role now us c2 Hu2) as (c3 & E3 & Hc3).
  assert (Hsame : forallb (λ p, role_known (MkRoleRow p.2 now)) (promoted us) = forallb (λ p, role_known (MkRoleRow p.2 now)) us).
  { apply eq_true_iff_eq. rewrite !forallb_forall. split; intros Hall p Hp.
    - destruct (decide (p.2 = "user"%string)) as [->|Hne]; [done|]. apply Hall. apply list_elem_of_In, promoted_elem.
      by split; [apply list_elem_of_In|].
    - apply Hall. apply list_elem_of_In in Hp. apply promoted_elem in Hp as [Hp _]. by apply list_elem_of_In. }
  rewrite Hsame in E2.
  assert (exec_all now migration_008 c =
    (c2 ← (c1 ← exec_ddl now (CreateTable true "user_roles" user_roles_columns) c;
           exec_ddl now (InsertSelect "user_roles" [("user_id", "id"); ("role", "role")]%string "users"
             (λ r, negb (bool_decide (cell "role" r = VText "user")))) c1);
     exec_ddl now (DropColumn "users" "role") c2)) as -> by reflexivity.
  rewrite E1. unfold mbind, option_bind. rewrite E2. destruct (forallb _ us); [|done]. rewrite E3.
  exists c3, (MkTable user_roles_columns (role_row now <$> promoted us)). rewrite Hc3. split_and!; [done| | |].
  - by rewrite lookup_insert_eq.
  - rewrite lookup_insert_ne by done. unfold c2. simpl. by rewrite lookup_insert_eq.
  - apply Forall_forall. intros p Hp. by apply role_of_promoted.
Qed.

(** *** The outbox: 010 computes the expiries, 011 and 012 leave a valid index *)

Definition outbox_columns_009 : list Column :=
  Eval vm_compute in [column "jti" UUID [PrimaryKey]; column "ttl_secs" BIGINT [NotNull; Check_ NonNegative]; timestamp_now "created_at"].

Definition outbox_columns : list Column := Eval vm_compute in columns_of outbox.

(** A journaled revocation: the token, its lifetime and when it was journaled. *)
Record Journaled : Type := MkJournaled { j_jti : Uuid; j_ttl_secs : Z; j_created_at : Z }.

Definition outbox_row_009 (o : Journaled) : Row :=
  [("jti", VUuid (j_jti o)); ("ttl_secs", VInt (j_ttl_secs o)); ("created_at", VTime (j_created_at o))]%string.

Definition outbox_row (o : Journaled) : Row :=
  outbox_row_009 o ++ [("expires_at"%string, VTime (j_created_at o + j_ttl_secs o * 1000000))].

Lemma outbox_table_ok ts (cs : list Column) (enc : Journaled → Row) os :
  (∀ o, row_ok cs (enc o) = (0 <=? j_ttl_secs o)) → (∀ o, cell "jti" (enc o) = VUuid (j_jti o)) →
  Forall (λ c, (c_unique c = true → c_name c = "jti"%string) ∧ c_references c = None) cs →
  Forall (λ o, 0 ≤ j_ttl_secs o) os → NoDup (j_jti <$> os) → table_ok ts (MkTable cs (enc <$> os)) = true.
Proof.
  intros Hrow Hjti Hcs Httl Hnd. unfold table_ok. rewrite andb_true_iff. simpl t_rows. simpl t_columns. split.
  - apply (row_ok_fmap _ _ _ _ Hrow). eapply Forall_impl; [exact Httl|]. intros o. simpl. lia.
  - apply forallb_forall. intros c Hc. rewrite Forall_forall in Hcs. destruct (Hcs c) as [Hu Hr]; [by apply list_elem_of_In|].
    unfold references_ok. rewrite Hr, andb_true_r. unfold unique_ok. destruct (c_unique c); simpl; [|done].
    rewrite bool_decide_eq_true, Hu, (column_values_fmap _ _ (λ o, Some (VUuid (j_jti o)))) by (done || by intros o; rewrite Hjti).
    assert (omap (λ o, Some (VUuid (j_jti o))) os = VUuid <$> (j_jti <$> os)) as -> by (clear; induction os; csimpl; congruence).
    apply NoDup_fmap_2; [by intros ? ? [= ->]|done].
Qed.

Lemma add_column_nullable now name col t c :
  c_default col = None →
  add_column now name col t c =
    checked name (MkTable (t_columns t ++ [col]) ((λ r, r ++ [(c_name col, VNull)]) <$> t_rows t)) c.
Proof. intros Hd. unfold add_column, default_of. rewrite Hd. by destruct (t_rows t). Qed.

Definition expires_at : Column := column "expires_at" TIMESTAMPTZ [].
Definition outbox_columns_010 : list Column := outbox_columns_009 ++ [expires_at].
Definition outbox_row_010 (o : Journaled) : Row := outbox_row_009 o ++ [("expires_at"%string, VNull)].

Lemma outbox_stages_ok ts os t :
  Forall (λ o, 0 ≤ j_ttl_secs o) os → NoDup (j_jti <$> os) →
  t = MkTable outbox_columns_010 (outbox_row_010 <$> os) ∨ t = MkTable outbox_columns_010 (outbox_row <$> os) ∨
  t = MkTable outbox_columns (outbox_row <$> os) → table_ok ts t = true.
Proof.
  intros Httl Hnd [->|[->| ->]]; apply outbox_table_ok; try done;
    try (intros o; unfold outbox_row_010, outbox_row, outbox_row_009; by row_cells); by repeat constructor.
Qed.

Lemma checked_ok name t c :
  table_ok (<[name := t]> (cat_tables c)) t = true → checked name t c = Some (set_table name t c).
Proof. intros Hok. unfold checked, set_table. simpl. by rewrite Hok. Qed.

Lemma exec_add_expires now os c :
  cat_tables c !! outbox = Some (MkTable outbox_columns_009 (outbox_row_009 <$> os)) →
  exec_ddl now (AddColumn true outbox expires_at) c = checked outbox (MkTable outbox_columns_010 (outbox_row_010 <$> os)) c.
Proof.
  intros Ho. unfold exec_ddl. rewrite Ho. etrans; [by apply (add_column_nullable _ _ _ (MkTable _ _))|].
  simpl t_rows. by rewrite <- list_fmap_compose.
Qed.

Lemma exec_fill_expires now os c :
  cat_tables c !! outbox = Some (MkTable outbox_columns_010 (outbox_row_010 <$> os)) →
  exec_ddl now (UpdateWhere outbox "expires_at" expiry_of (λ r, is_null (cell "expires_at" r))) c =
    checked outbox (MkTable outbox_columns_010 (outbox_row <$> os)) c.
Proof.
  intros Ho. unfold exec_ddl. rewrite Ho. unfold mbind, option_bind. simpl t_rows. by rewrite <- list_fmap_compose.
Qed.

Lemma exec_require_expires now os c :
  cat_tables c !! outbox = Some (MkTable outbox_columns_010 (outbox_row <$> os)) →
  exec_ddl now (SetNotNull outbox "expires_at") c = checked outbox (MkTable outbox_columns (outbox_row <$> os)) c.
Proof. intros Ho. unfold exec_ddl. by rewrite Ho. Qed.

(** Migration 010 gives every journaled revocation the expiry [created_at + ttl_secs]
    and then requires one. *)
Theorem migration_010_computes_expiries now os c :
  cat_tables c !! outbox = Some (MkTable outbox_columns_009 (outbox_row_009 <$> os)) →
  Forall (λ o, 0 ≤ j_ttl_secs o) os → NoDup (j_jti <$> os) →
  ∃ c', exec_all now migration_010 c = Some c' ∧
    cat_tables c' = <[outbox := MkTable outbox_columns (outbox_row <$> os)]> (cat_tables c).
Proof.
  intros Ho Httl Hnd. set (c0 := set_indexes (delete expires_at_idx (cat_indexes c)) c).
  assert (exec_all now migration_010 c =
    (c3 ← (c2 ← exec_ddl now (AddColumn true outbox expires_at) c0;
           exec_ddl now (UpdateWhere outbox "expires_at" expiry_of (λ r, is_null (cell "expires_at" r))) c2);
     exec_ddl now (SetNotNull outbox "expires_at") c3)) as -> by reflexivity.
  assert (Hset : ∀ t c', t = MkTable outbox_columns_010 (outbox_row_010 <$> os) ∨
    t = MkTable outbox_columns_010 (outbox_row <$> os) ∨ t = MkTable outbox_columns (outbox_row <$> os) →
    checked outbox t c' = Some (set_table outbox t c')) by (intros t c' Ht; by eapply checked_ok, outbox_stages_ok).
  rewrite (exec_add_expires now os c0 Ho), Hset by auto. unfold mbind, option_bind.
  rewrite (exec_fill_expires now os), Hset by (auto || by apply lookup_insert_eq).
  rewrite (exec_require_expires now os), Hset by (auto || by apply lookup_insert_eq).
  eexists. split; [done|]. simpl. by rewrite !insert_insert_eq.
Qed.

(** Migrations 011 and 012 end with a valid index on [expires_at], also when an
    interrupted build had left it invalid, and with no invalid leftovers of a
    rebuild; the tables are untouched. *)
Theorem outbox_index_repaired now c t :
  cat_tables c !! outbox = Some t → names_column (t_columns t) "expires_at" = true →
  ∃ c', exec_all now (migration_011 ++ migration_012) c = Some c' ∧ cat_tables c' = cat_tables c ∧
    (∃ i, cat_indexes c' !! expires_at_idx = Some i ∧ ix_valid i = true) ∧
    (∀ name i, is_leftover name = true → cat_indexes c' !! name = Some i → ix_valid i = true).
Proof.
  intros Ho Hn. unfold names_column, on_column in Hn. destruct (find_column _ _) as [col|] eqn:Hcol; [|done].
  assert (Hidx : is_leftover expires_at_idx = false) by (vm_compute; reflexivity).
  assert (∃ c1, exec_ddl now (CreateIndex true expires_at_idx outbox "expires_at") c = Some c1 ∧
    cat_tables c1 = cat_tables c ∧ is_Some (cat_indexes c1 !! expires_at_idx)) as (c1 & E1 & Ht & [i Hi]).
  { simpl. rewrite Ho. simpl. rewrite Hcol. simpl. destruct (cat_indexes c !! expires_at_idx) eqn:Hi.
    - by exists c.
    - eexists. split; [done|]. simpl. rewrite lookup_insert_eq. by split; [|eexists]. }
  assert (exec_all now (migration_011 ++ migration_012) c =
    (c1 ← exec_ddl now (CreateIndex true expires_at_idx outbox "expires_at") c;
     exec_ddl now (RepairIndex expires_at_idx is_leftover) c1)) as -> by reflexivity.
  rewrite E1. eexists. split; [reflexivity|]. simpl cat_tables. simpl cat_indexes. split_and!; [done| |].
  - rewrite lookup_alter_eq. exists (MkIndex (ix_table i) (ix_column i) true). split; [|done].
    rewrite (proj2 (map_lookup_filter_Some _ _ _ i)); [done|]. split; [done|]. simpl fst. by rewrite Hidx.
  - intros name j Hl. rewrite lookup_alter_ne by (intros <-; congruence).
    intros [_ Hv]%map_lookup_filter_Some. simpl in Hv. rewrite Hl in Hv. by destruct (ix_valid j).
Qed.

(** *** Witnesses and examples *)

Definition example_user : UserRow :=
  MkUserRow 1%N (Some "admin"%string) "admin@example.com" "Administrator" (Some "$2b$12$hash"%string) "local" 0 0.

Definition example_db : Db :=
  MkDb {[1%N := example_user]} {[2%N := MkSessionRow 2%N 1%N "$2b$12$token" 10 true 0 "password"]}
    {[3%N := MkUserActionRow 3%N 1%N (Some 2%N) "login" "password" 0]} {[1%N := MkRoleRow "admin" 0]}
    {[1%N := MkProfileRow 1%N None (Some "bio"%string) 0]}.

Lemma schema_enforces_invariants_witness : db_ok example_db ∧ roles_ok example_db ∧ db_fits example_db.
Proof.
  destruct (schema_enforces_invariants example_db) as [Hto _].
  - split_and!; apply map_Forall_singleton; reflexivity.
  - destruct Hto as (Hok & Hroles & _ & Hfits); [vm_compute; reflexivity|]. split; [exact Hok|]. split; [exact Hroles|exact Hfits].
Defined.

(** A session of a user who does not exist is refused. *)
Example orphan_session_refused :
  catalog_ok (encode (with_sessions example_db {[2%N := MkSessionRow 2%N 9%N "$2b$12$token" 10 true 0 "password"]})) = false.
Proof. vm_compute. reflexivity. Qed.

(** A user promoted under migration 007 is still an administrator after 008; a
    role that 007 admitted and 008 does not stops the migration. *)
Definition catalog_007 (us : list (UserRow * string)) : option Catalog :=
  set_table "users" (users_007 us) <$> migrate 0
    [migration_001; migration_002; migration_003; migration_004; migration_005; migration_006; migration_007] empty_catalog.

Example promoted_user_stays_admin :
  (c ← catalog_007 [(example_user, "admin"%string)]; c' ← exec_all 5 migration_008 c;
   t ← cat_tables c' !! "user_roles"%string; Some (role_of t 1%N)) = Some (VText "admin").
Proof. vm_compute. reflexivity. Qed.

Example unknown_role_stops_migration :
  (c ← catalog_007 [(example_user, "owner"%string)]; exec_all 5 migration_008 c) = None.
Proof. vm_compute. reflexivity. Qed.

(** The tables that the last migration leaves are those of the statements. *)
Example users_007_is_migrated :
  (t ← (c ← migrate 0 [migration_001; migration_002; migration_003; migration_004; migration_005; migration_006;
         migration_007] empty_catalog; cat_tables c !! "users"%string); Some (t_columns t)) =
  Some (t_columns (users_007 [])).
Proof. vm_compute. reflexivity. Qed.
