(* ===== verification/EventBus.v ===== *)
(** * The event bus and the audit consumer

    [crates/shared/src/event_bus.rs] and the consumer task spawned in
    [src/main.rs]. The channel behind the bus is tokio's [broadcast], a library:
    [BroadcastLib] has its operations as the program uses them (any number of
    senders, one receiver) and [BroadcastSpec] what its documentation promises,
    in terms of the events the receiver has still to see and of how many it has
    missed. [bounded_buffer] is an implementation of it. *)

From S2P Require Import Prelude RustStr ValueObjects Entities Database Effects UserRepo.

(** What [Receiver::recv] resolves to. *)
Inductive Received : Type :=
| Received_event (event : Event)
| Lagged (skipped : nat)
| Closed.

Class BroadcastLib : Type := {
  Chan : Type;
  bc_channel : nat → Chan;
  bc_send : Event → Chan → Chan;
  (** The last [Sender] is dropped. *)
  bc_close : Chan → Chan;
  (** [None]: the future is pending. *)
  bc_recv : Chan → option Received * Chan }.

(** The receiver's view of the channel: how many events it has missed since it
    was last told, the events it can still get, and whether senders remain. *)
Record ChanView : Type := MkChanView { cv_missed : nat; cv_queue : list Event; cv_closed : bool }.

(** A full buffer drops its oldest event. *)
Definition push (capacity : nat) (e : Event) (v : ChanView) : ChanView :=
  if bool_decide (length (cv_queue v) < capacity)%nat
  then MkChanView (cv_missed v) (cv_queue v ++ [e]) (cv_closed v)
  else MkChanView (S (cv_missed v)) (tail (cv_queue v) ++ [e]) (cv_closed v).

Definition pop (v : ChanView) : option Received * ChanView :=
  match cv_missed v, cv_queue v with
  | S n, q => (Some (Lagged (S n)), MkChanView 0 q (cv_closed v))
  | O, e :: q => (Some (Received_event e), MkChanView 0 q (cv_closed v))
  | O, [] => (if cv_closed v then Some Closed else None, v)
  end.

(** Documented: a channel holds at least the requested number of events for a
    receiver; when it is full, sending drops the oldest; the receiver is then
    told once how many it missed, and goes on with the oldest one left. *)
Class BroadcastSpec `{BroadcastLib} : Type := {
  bc_view : Chan → ChanView;
  bc_capacity : Chan → nat;
  bc_channel_view : ∀ n, (0 < n)%nat → bc_view (bc_channel n) = MkChanView 0 [] false;
  bc_channel_capacity : ∀ n, (n ≤ bc_capacity (bc_channel n))%nat;
  bc_send_view : ∀ e c, bc_view (bc_send e c) = push (bc_capacity c) e (bc_view c);
  bc_send_capacity : ∀ e c, bc_capacity (bc_send e c) = bc_capacity c;
  bc_close_view : ∀ c, bc_view (bc_close c) = MkChanView (cv_missed (bc_view c)) (cv_queue (bc_view c)) true;
  bc_close_capacity : ∀ c, bc_capacity (bc_close c) = bc_capacity c;
  bc_recv_view : ∀ c, (bc_recv c).1 = (pop (bc_view c)).1 ∧ bc_view (bc_recv c).2 = (pop (bc_view c)).2;
  bc_recv_capacity : ∀ c, bc_capacity (bc_recv c).2 = bc_capacity c }.

(** ** [EventBus] *)

Section bus.
Context `{BroadcastLib}.

(** [EventBus::new]: the bus and its receiver are the two ends of one channel. *)
Definition EventBus_new (capacity : nat) : Chan := bc_channel capacity.

(** [let _ = self.tx.send(event)] *)
Definition publish (event : Event) (bus : Chan) : Chan := bc_send event bus.

Definition publish_events (events : list Event) (bus : Chan) : Chan := foldl (λ b e, publish e b) bus events.

(** The capacity [main] asks for. *)
Definition BUS_CAPACITY : nat := 256.

(** *** The audit task

    One round of the loop: what it received, and whether it goes on. *)
Definition audit_round `{UuidLib} (received : Received) : M AuthError bool :=
  match received with
  | Received_event event => _ ← audit_handle event; mret true
  | Closed => mret false
  | Lagged _ => mret true
  end.

End bus.

(** ** Accounting

    [published] is everything sent on the channel, [taken] the events the
    receiver got and [skipped] the sum of the gaps it was told about. *)

Record accounted (capacity : nat) (published taken : list Event) (skipped : nat) (v : ChanView) : Prop := {
  acc_order : taken ++ cv_queue v `sublist_of` published;
  acc_total : (length published = length taken + skipped + cv_missed v + length (cv_queue v))%nat;
  acc_bounded : (length (cv_queue v) ≤ capacity)%nat }.

Lemma accounted_new capacity : accounted capacity [] [] 0 (MkChanView 0 [] false).
Proof. split; simpl; [done..|lia]. Qed.

Lemma accounted_push capacity published taken skipped v e :
  (0 < capacity)%nat → accounted capacity published taken skipped v →
  accounted capacity (published ++ [e]) taken skipped (push capacity e v).
Proof.
  intros Hcap [Hord Htot Hb]. unfold push. case_bool_decide as Hroom.
  - split; simpl; [|rewrite !length_app; simpl; lia..].
    rewrite app_assoc. by apply sublist_app.
  - destruct (cv_queue v) as [|x q] eqn:Hq; simpl in *; [lia|].
    split; simpl; [|rewrite !length_app; simpl; lia..].
    rewrite app_assoc. apply sublist_app; [|done]. etrans; [|exact Hord].
    apply sublist_app; [done|]. by apply sublist_cons.
Qed.

Definition taken_of (r : option Received) : list Event :=
  match r with Some (Received_event e) => [e] | _ => [] end.

Definition skipped_of (r : option Received) : nat :=
  match r with Some (Lagged n) => n | _ => 0%nat end.

Lemma accounted_pop capacity published taken skipped v :
  accounted capacity published taken skipped v →
  accounted capacity published (taken ++ taken_of (pop v).1) (skipped + skipped_of (pop v).1) (pop v).2.
Proof.
  intros [Hord Htot Hb]. unfold pop. destruct v as [[|m] [|e q] closed]; simpl in *.
  - destruct closed; split; simpl; rewrite ?app_nil_r in *; try done; lia.
  - split; simpl; rewrite ?length_app, <- ?app_assoc; simpl; [done|lia..].
  - split; simpl; rewrite ?app_nil_r in *; [done|lia..].
  - split; simpl; rewrite ?app_nil_r in *; [done|simpl in *; lia..].
Qed.

Lemma sublist_same_length {A} (l k : list A) : l `sublist_of` k → (length k ≤ length l)%nat → l = k.
Proof.
  induction 1 as [|x l k Hs IH|x l k Hs IH]; simpl; intros Hl; [done| |].
  - f_equal. apply IH. lia.
  - apply sublist_length in Hs. lia.
Qed.

(** Nothing was lost exactly when no gap was counted. *)
Lemma accounted_lossless capacity published taken v :
  accounted capacity published taken 0 v → cv_missed v = 0%nat → published = taken ++ cv_queue v.
Proof.
  intros [Hord Htot _] Hm. symmetry. apply sublist_same_length; [done|]. rewrite length_app. lia.
Qed.

Lemma push_room capacity e v :
  (length (cv_queue v) < capacity)%nat → cv_missed (push capacity e v) = cv_missed v.
Proof. intros Hl. unfold push. by rewrite bool_decide_true. Qed.

(** A whole batch of events. *)
Lemma publish_events_accounted `{BroadcastSpec} evs c published taken skipped :
  (0 < bc_capacity c)%nat → accounted (bc_capacity c) published taken skipped (bc_view c) →
  bc_capacity (publish_events evs c) = bc_capacity c ∧
  accounted (bc_capacity c) (published ++ evs) taken skipped (bc_view (publish_events evs c)).
Proof.
  revert c published. induction evs as [|e evs IH]; intros c published Hcap Hacc; simpl.
  { by rewrite app_nil_r. }
  assert (He : bc_capacity (publish e c) = bc_capacity c) by apply bc_send_capacity.
  destruct (IH (publish e c) (published ++ [e])) as [Hc Ha].
  - by rewrite He.
  - rewrite He. unfold publish. rewrite bc_send_view. by apply accounted_push.
  - rewrite He in *. rewrite <- app_assoc in Ha. done.
Qed.

Lemma publish_events_room `{BroadcastSpec} evs c :
  (length (cv_queue (bc_view c)) + length evs ≤ bc_capacity c)%nat →
  cv_missed (bc_view (publish_events evs c)) = cv_missed (bc_view c).
Proof.
  revert c. induction evs as [|e evs IH]; intros c Hl; simpl in *; [done|].
  change (publish_events (e :: evs) c) with (publish_events evs (publish e c)).
  rewrite IH; unfold publish; rewrite bc_send_view, ?bc_send_capacity.
  - apply push_room. lia.
  - unfold push. rewrite bool_decide_true by lia. simpl. rewrite length_app. simpl. lia.
Qed.

(** ** A bounded buffer is such a channel *)

Definition bounded_buffer : BroadcastLib := {|
  Chan := nat * ChanView;
  bc_channel n := (n, MkChanView 0 [] false);
  bc_send e c := (c.1, push c.1 e c.2);
  bc_close c := (c.1, MkChanView (cv_missed c.2) (cv_queue c.2) true);
  bc_recv c := ((pop c.2).1, (c.1, (pop c.2).2)) |}.

Definition bounded_buffer_spec : @BroadcastSpec bounded_buffer.
Proof. by refine (@Build_BroadcastSpec bounded_buffer snd fst _ _ _ _ _ _ _ _). Defined.
