(* ===== verification/Evolution.v ===== *)
(** * How the database evolves

    The invariant of the tables across the whole application, and the only ways
    in which a use case can change them, with any database fault on the way:
    user rows and audit rows are never changed or removed, and a session row is
    at most deactivated. [keeps] is the triple the use cases are proved with,
    against contracts of the repositories that hold also when other processes
    work between their calls ([Interference.v]); [System.v] lifts the triple to
    requests and to whole histories. *)

From S2P Require Import Prelude RustStr ValueObjects Entities Aggregate Database Effects UserRepo.
From S2P Require Import Bcrypt AuthSettings Jwt UseCases Http Admin Profiles.

(** Rows are stored under their key and refer to each other correctly, every
    user and session row converts back to its entity, and roles are known. *)
Definition good (db : Db) : Prop := db_ok db ∧ db_readable db ∧ roles_ok db.

Definition session_evolves (m m' : gmap Uuid SessionRow) : Prop :=
  ∀ id r, m !! id = Some r → m' !! id = Some r ∨ m' !! id = Some (row_deactivate r).

Record evolves (db db' : Db) : Prop := {
  evolves_users : db_users db ⊆ db_users db';
  evolves_actions : db_actions db ⊆ db_actions db';
  evolves_sessions : session_evolves (db_sessions db) (db_sessions db') }.

#[global] Instance session_evolves_preorder : PreOrder session_evolves.
Proof.
  split; [by intros m id r; left|]. intros m1 m2 m3 H12 H23 id r Hr.
  destruct (H12 _ _ Hr) as [H2|H2]; destruct (H23 _ _ H2) as [H3|H3]; auto.
Qed.

#[global] Instance evolves_preorder : PreOrder evolves.
Proof.
  split; [by intros db; split|]. intros db1 db2 db3 [? ? ?] [? ? ?]. split; by etrans.
Qed.

(** From a good database, [m] always leaves a good one that evolved from it, and
    when it succeeds its value satisfies [P]. *)
Definition keeps {E A} (m : M E A) (P : A → Prop) : Prop := ∀ w r w',
  m w = (r, w') → good (w_db w) →
  good (w_db w') ∧ evolves (w_db w) (w_db w') ∧ match r with Ok a => P a | Err _ => True end.

Definition keeping {E A} (m : M E A) : Prop := keeps m (λ _, True).

Lemma keeps_bind {E A B} (m : M E A) (k : A → M E B) P Q :
  keeps m P → (∀ a, P a → keeps (k a) Q) → keeps (m ≫= k) Q.
Proof.
  intros Hm Hk w r w'. rewrite bind_run. destruct (m w) as [[a|e] w1] eqn:E1; intros Hr Hg.
  - destruct (Hm _ _ _ E1 Hg) as (Hg1 & He1 & Ha). destruct (Hk a Ha _ _ _ Hr Hg1) as (? & ? & ?).
    split_and!; try done. by etrans.
  - injection Hr as <- <-. destruct (Hm _ _ _ E1 Hg) as (? & ? & _). done.
Qed.

Lemma keeps_weaken {E A} (m : M E A) (P Q : A → Prop) : keeps m P → (∀ a, P a → Q a) → keeps m Q.
Proof. intros Hm HPQ w r w' Hr Hg. destruct (Hm _ _ _ Hr Hg) as (? & ? & Hp). split_and!; try done. destruct r; auto. Qed.

Lemma keeps_keeping {E A} (m : M E A) P : keeps m P → keeping m.
Proof. intros Hm. by eapply keeps_weaken. Qed.

Lemma keeping_bind {E A B} (m : M E A) (k : A → M E B) :
  keeping m → (∀ a, keeping (k a)) → keeping (m ≫= k).
Proof. intros Hm Hk. eapply keeps_bind; [exact Hm|]. intros a _. apply Hk. Qed.

Lemma keeping_pure {E A} (m : M E A) : db_pure m → keeping m.
Proof. intros Hm w r w' Hr Hg. specialize (Hm w). rewrite Hr in Hm. simpl in Hm. rewrite Hm. split_and!; [done..|]. by destruct r. Qed.

Lemma keeping_framed {E A} (m : M E A) : framed m → keeping m.
Proof. intros Hm. apply keeping_pure. intros w. destruct (m w) as [r w'] eqn:Hr. apply (Hm _ _ _ Hr). Qed.

Lemma keeps_lift {E A} (r : result E A) : keeps (lift r) (λ a, r = Ok a).
Proof. intros w r' w' [= <- <-] Hg. split_and!; [done..|]. by destruct r. Qed.

Lemma keeping_with_err {E E' A} (f : E → E') (m : M E A) : keeping m → keeping (with_err f m).
Proof.
  intros Hm w r w'. unfold with_err. destruct (m w) as [r0 w0] eqn:E0. intros [= <- <-] Hg.
  destruct (Hm _ _ _ E0 Hg) as (? & ? & _). split_and!; [done..|]. by destruct (map_err f r0).
Qed.

Lemma keeping_attempt {E E' A} (m : M E A) : keeping m → keeping (E := E') (attempt m).
Proof.
  intros Hm w r w'. unfold attempt. destruct (m w) as [r0 w0] eqn:E0. intros [= <- <-] Hg.
  destruct (Hm _ _ _ E0 Hg) as (? & ? & _). done.
Qed.

(** A statement keeps the invariant if each of its successful runs does. *)
Lemma keeping_exec {A} (st : Stmt A) :
  (∀ db a db', st db = Ok (a, db') → good db → good db' ∧ evolves db db') → keeping (exec st).
Proof.
  intros Hst w r w' Hr Hg. pose proof (exec_db st w) as Hdb. rewrite Hr in Hdb. simpl in Hdb.
  destruct Hdb as [->|[a Ha]]; [split_and!; try done; by destruct r|].
  destruct (Hst _ _ _ Ha Hg). split_and!; try done. by destruct r.
Qed.

Create HintDb evo.
#[export] Hint Resolve keeping_bind keeping_pure keeping_with_err keeping_attempt : evo.

(** ** The writers *)

Lemma insert_user_good r db r' db' :
  insert_user r db = Ok (r', db') → (∃ u, UserRow_into_user r = Ok u) → good db →
  good db' ∧ evolves db db'.
Proof.
  intros Hi Hconv (Hok & [Hrs Hru] & Hroles).
  destruct (insert_user_ok _ _ _ _ Hi Hok) as (-> & Hok' & -> & Hnew). split.
  - split_and!; [done| |done]. split; [done|]. simpl. by apply map_Forall_insert_2.
  - split; simpl; [by apply insert_subseteq|done|]. intros id s Hs. by left.
Qed.

Lemma saved_evolves t0 ids ns db db' : saved t0 ids ns db db' → evolves db db'.
Proof.
  intros (m' & -> & Hold & Hnew). split; simpl; [done..|]. intros id r Hr.
  destruct (decide (id ∈ ns_id <$> ns)) as [Hin|Hni].
  - exfalso. apply list_elem_of_fmap in Hin as (s & -> & Hs). rewrite Forall_forall in Hnew.
    destruct (Hnew s Hs) as [Hn _]. congruence.
  - rewrite (Hold _ Hni), Hr. simpl. unfold deactivate_if. case_bool_decide; auto.
Qed.

Lemma keeping_save a ns : Forall hash_nonempty ns → keeping (pg_save_aggregate a ns).
Proof.
  intros Hns w r w' Hr (Hok & Hrd & Hroles).
  destruct (save_aggregate_cases _ _ _ _ _ Hok Hr) as [[-> _]|[Hok' Hsv]];
    (split_and!; [ | |by destruct r]); try done; [|by eapply saved_evolves].
  - pose proof (saved_readable _ _ _ _ _ Hsv Hns Hrd) as Hrd'. split_and!; [done..|].
    by destruct Hsv as (m' & -> & _).
Qed.

Lemma new_user_row_converts id now u :
  Email_new (email_str (nu_email u)) = Ok (nu_email u) → nu_password_hash u = None →
  ∃ user, UserRow_into_user (new_user_row id now u) = Ok user.
Proof.
  intros He Hp. unfold UserRow_into_user, new_user_row. simpl. rewrite He, Hp. simpl.
  rewrite AuthProvider_round_trip. simpl. eauto.
Qed.

Lemma keeping_create `{UuidLib} u :
  Email_new (email_str (nu_email u)) = Ok (nu_email u) → nu_password_hash u = None →
  keeping (pg_create u).
Proof.
  intros He Hp. unfold pg_create, db_call. apply keeping_bind; [auto with evo svc|]. intros now.
  apply keeping_bind; [auto with evo svc|]. intros id. apply keeping_bind; [|auto with evo svc].
  apply keeping_with_err, keeping_exec. intros db a db' Hi Hg.
  eapply insert_user_good; [exact Hi|by apply new_user_row_converts|done].
Qed.

Lemma keeping_insert_action `{UuidLib} uid sid t m : keeping (insert_action uid sid t m).
Proof.
  unfold insert_action. apply keeping_bind; [auto with evo svc|]. intros id.
  apply keeping_bind; [auto with evo svc|]. intros now. apply keeping_bind; [|auto with evo svc].
  apply keeping_exec. unfold insert_user_action. intros db a db' Hi (Hok & Hrd & Hroles).
  case_bool_decide as Hid; [done|]. case_bool_decide; [done|]. simpl in Hi.
  assert (Hdb : db' = with_actions db (<[id := MkUserActionRow id uid sid (EventType_as_str t) (AuthMethod_as_str m) now]> (db_actions db))).
  { destruct sid as [k|]; [case_bool_decide; [done|]|]; by injection Hi as _ <-. }
  subst db'. split; [done|]. split; simpl; [done| |by intros k s Hs; left].
  apply insert_subseteq. simpl in Hid. by apply eq_None_not_Some.
Qed.

Lemma keeping_upsert_role now id r : keeping (exec (upsert_role now id (Role_as_str r))).
Proof.
  apply keeping_exec. unfold upsert_role. intros db a db' Hi (Hok & Hrd & Hroles).
  case_bool_decide; [done|]. injection Hi as _ <-. split; [|split; simpl; [done..|by intros k s Hs; left]].
  split_and!; [done..|]. apply map_Forall_insert_2; [|done]. destruct r; auto.
Qed.

Lemma keeping_upsert_profile r : keeping (exec (upsert_profile r)).
Proof.
  apply keeping_exec. unfold upsert_profile. intros db a db' Hi Hg.
  case_bool_decide; [done|]. injection Hi as _ <-. split; [exact Hg|]. split; simpl; [done..|by intros k s Hs; left].
Qed.

#[export] Hint Resolve keeping_upsert_role keeping_upsert_profile : evo.

(** ** What the use cases rely on of the repositories

    The contracts say what a caller knows of the tables when a call returns,
    even if other processes changed them, in the way of [evolves], while it
    was under way. *)

(** The row of the session [s] is there, revoked since it was read or not. *)
Definition session_seen (db : Db) (id : Uuid) (s : Session) : Prop :=
  db_sessions db !! id = Some (row_of_session s) ∨
  db_sessions db !! id = Some (row_deactivate (row_of_session s)).

(** [a] was loaded by a call that began on [db] and returned on [db']. *)
Record observed (db db' : Db) (a : UserAggregate) : Prop := {
  ob_wf : agg_wf a;
  ob_pending : agg_pending_events a = [];
  ob_user : db_users db' !! u_id (agg_user a) = Some (row_of_user (agg_user a));
  ob_sound : ∀ id s, registry (agg_sessions a) !! id = Some s →
    session_seen db' id s ∧ s_user_id s = u_id (agg_user a);
  ob_complete : ∀ id r, db_sessions db !! id = Some r → sr_user_id r = u_id (agg_user a) →
    ∃ s, registry (agg_sessions a) !! id = Some s ∧ (row_of_session s = r ∨ row_of_session s = row_deactivate r) }.

(** A save of [ns] that deactivated [ids] returned on [db']; it began on [db] at
    the time [t0]. *)
Record stored_in (t0 : Z) (ids : list Uuid) (ns : list NewSession) (db db' : Db) : Prop := {
  st_new : Forall (λ s, db_sessions db !! ns_id s = None ∧
    ∃ t, t0 ≤ t ∧ db_sessions db' !! ns_id s = Some (deactivate_if ids (ns_id s) (new_session_row t s))) ns;
  st_revoked : ∀ id r, id ∈ ids → db_sessions db' !! id = Some r → sr_is_active r = false }.

Class UserRepositoryContract `{UserRepository} : Prop := {
  uc_find_keeping :
    (∀ id, keeping (find_aggregate_by_id id)) ∧ (∀ name, keeping (find_aggregate_by_username name)) ∧
    (∀ email, keeping (find_aggregate_by_email email));
  uc_find_by_id : ∀ id w a w', good (w_db w) → find_aggregate_by_id id w = (Ok (Some a), w') →
    observed (w_db w) (w_db w') a ∧ u_id (agg_user a) = id;
  uc_find_by_username : ∀ name w a w', good (w_db w) → find_aggregate_by_username name w = (Ok (Some a), w') →
    observed (w_db w) (w_db w') a ∧ u_username (agg_user a) = Some name;
  uc_find_by_email : ∀ email w a w', good (w_db w) → find_aggregate_by_email email w = (Ok (Some a), w') →
    observed (w_db w) (w_db w') a ∧ email_str (u_email (agg_user a)) = email;
  uc_find_advancing :
    (∀ id, advancing (find_aggregate_by_id id)) ∧ (∀ name, advancing (find_aggregate_by_username name)) ∧
    (∀ email, advancing (find_aggregate_by_email email));
  uc_create_keeping : ∀ u, Email_new (email_str (nu_email u)) = Ok (nu_email u) → nu_password_hash u = None →
    keeping (create u);
  uc_create_advancing : ∀ u, advancing (create u);
  uc_create : ∀ nu w u w', good (w_db w) → create nu w = (Ok u, w') →
    db_users (w_db w') !! u_id u = Some (row_of_user u) ∧ u_email u = nu_email nu;
  uc_find_errors : ∀ id w e w', find_aggregate_by_id id w = (Err e, w') → ∃ msg, e = InternalError msg;
  uc_save_errors : ∀ a ns w e w', save_aggregate a ns w = (Err e, w') → ∃ msg, e = InternalError msg;
  uc_save_keeping : ∀ a ns, Forall hash_nonempty ns → keeping (save_aggregate a ns);
  uc_save : ∀ a ns w w', good (w_db w) → save_aggregate a ns w = (Ok tt, w') →
    stored_in (w_clock w) (invalidated_ids a) ns (w_db w) (w_db w') }.

Class UserDirectoryContract `{UserDirectory} : Prop := {
  dc_get_keeping : ∀ id, keeping (ud_get_user_summary id);
  dc_list_keeping : ∀ limit offset, keeping (ud_list_user_summaries limit offset);
  dc_count_keeping : keeping ud_count_users }.

Class AdminRepositoryContract `{AdminRepository} : Prop := {
  ac_list_keeping : ∀ page per_page, keeping (ar_list_users page per_page);
  ac_get_keeping : ∀ id, keeping (ar_get_user id);
  ac_is_admin_keeping : ∀ id, keeping (ar_is_admin id);
  ac_update_keeping : ∀ id r, keeping (ar_update_role id r) }.

Class ProfileRepositoryContract `{ProfileRepository} : Prop := {
  pc_find_keeping : ∀ id, keeping (find_by_user_id id);
  pc_upsert_keeping : ∀ p, keeping (upsert p) }.

#[export] Hint Resolve dc_get_keeping dc_list_keeping dc_count_keeping ac_list_keeping ac_get_keeping ac_is_admin_keeping ac_update_keeping
  pc_find_keeping pc_upsert_keeping : evo.

(** *** The Postgres repositories meet them *)

Lemma loaded_observed db a : good db → loaded db a → agg_wf a → observed db db a.
Proof.
  intros (Hok & Hrd & _) Hl Hwf. pose proof Hl as (Hu & Hpe & Hreg). split; try done.
  - intros id s Hs. apply Hreg in Hs as (Hr & _ & Hown). split; [by left|done].
  - intros id r Hr Hown. destruct (loaded_row _ _ _ _ Hl Hrd Hr Hown) as (s & -> & Hs). exists s. auto.
Qed.

Lemma saved_stored t0 ids ns db db' : saved t0 ids ns db db' → stored_in t0 ids ns db db'.
Proof.
  intros Hsv. pose proof Hsv as (m' & -> & Hold & Hnew). split; [done|].
  intros id r Hin Hr. simpl in Hr.
  assert (Hd : ∀ r0, deactivate_if ids id r0 = row_deactivate r0) by (intros; unfold deactivate_if; by rewrite bool_decide_true).
  destruct (saved_cases _ _ _ _ _ _ _ Hsv Hr) as [(s & t & _ & _ & _ & ->)|(_ & r0 & _ & ->)]; by rewrite Hd.
Qed.

Lemma save_Ok_stored a ns w w' :
  good (w_db w) → pg_save_aggregate a ns w = (Ok tt, w') →
  stored_in (w_clock w) (invalidated_ids a) ns (w_db w) (w_db w').
Proof.
  intros (Hok & _) Hr. destruct (save_aggregate_cases _ _ _ _ _ Hok Hr) as [[_ ?]|[_ Hsv]]; [done|].
  by apply saved_stored.
Qed.

Lemma find_aggregate_errors (find : M AuthError (option User)) (load : User → M AuthError UserAggregate) w e w' :
  (∀ w e w', find w = (Err e, w') → ∃ msg, e = InternalError msg) →
  (∀ u w e w', load u w = (Err e, w') → ∃ msg, e = InternalError msg) →
  (find ≫= λ user_opt, match user_opt with
                       | Some user => a ← load user; mret (Some a)
                       | None => mret None
                       end : M AuthError (option UserAggregate)) w = (Err e, w') → ∃ msg : string, e = InternalError msg.
Proof.
  intros Hf Hl Hr. apply bind_Err_inv in Hr as [Hr|([u|] & w1 & _ & Hr)]; [by eapply Hf| |done].
  apply bind_Err_inv in Hr as [Hr|(a & w2 & _ & Hr)]; [by eapply Hl|done].
Qed.

Lemma db_call_errors {A} (m : M string A) w e w' : db_call m w = (Err e, w') → ∃ msg, e = InternalError msg.
Proof. intros (msg & _ & ->)%with_err_Err_inv. by exists msg. Qed.

Lemma read_user_errors st w e w' : read_user st w = (Err e, w') → ∃ msg, e = InternalError msg.
Proof.
  intros Hr. apply bind_Err_inv in Hr as [Hr|(o & w1 & _ & [Hr _]%lift_Err_inv)]; [by eapply db_call_errors|].
  destruct o as [r|]; simpl in Hr; [|done]. unfold UserRow_into_user in Hr.
  destruct (Email_new _); simpl in Hr; [|injection Hr as <-; by eexists].
  destruct (AuthProvider_try_from _); simpl in Hr; [|injection Hr as <-; by eexists].
  destruct (transpose _); simpl in Hr; [done|injection Hr as <-; by eexists].
Qed.

Lemma load_aggregate_errors u w e w' : load_aggregate u w = (Err e, w') → ∃ msg, e = InternalError msg.
Proof.
  intros Hr. apply bind_Err_inv in Hr as [Hr|(rs & w1 & _ & Hr)]; [by eapply db_call_errors|].
  apply bind_Err_inv in Hr as [[Hr _]%lift_Err_inv|(ss & w2 & _ & Hr)]; [|done].
  induction rs as [|r rs IH]; simpl in Hr; [done|]. unfold SessionRow_into_session in Hr at 1.
  destruct (HashedPassword_new _); simpl in Hr; [|injection Hr as <-; by eexists].
  destruct (AuthMethod_try_from _); simpl in Hr; [|injection Hr as <-; by eexists].
  destruct (collect _ rs); simpl in Hr; [done|injection Hr as <-; by apply IH].
Qed.

Lemma create_Ok_row `{UuidLib} nu w u w' :
  good (w_db w) → pg_create nu w = (Ok u, w') →
  db_users (w_db w') !! u_id u = Some (row_of_user u) ∧ u_email u = nu_email nu.
Proof.
  intros (Hok & _) Hr. destruct (create_Ok _ _ _ _ Hok Hr) as (id & now & -> & Hrow & _ & _ & _ & ->).
  simpl. rewrite lookup_insert_eq, Hrow. split; [done|]. injection Hrow as _ _ He _ _ _ _ _.
  destruct (u_email u), (nu_email nu). simpl in He. by subst.
Qed.

#[global] Instance postgres_user_contract `{UuidLib} : UserRepositoryContract.
Proof.
  destruct find_aggregate_pure as (H1 & H2 & H3).
  split; simpl; try (split_and!; intros; by apply keeping_pure || apply find_aggregate_advancing).
  - intros id w a w' Hg Hr. pose proof Hg as (Hok & _).
    apply find_aggregate_by_id_Ok in Hr as (Hl & Hwf & -> & Hid); [|done]. split; [by apply loaded_observed|done].
  - intros name w a w' Hg Hr. pose proof Hg as (Hok & _).
    apply find_aggregate_by_username_Ok in Hr as (Hl & Hwf & -> & Hn); [|done]. split; [by apply loaded_observed|done].
  - intros email w a w' Hg Hr. pose proof Hg as (Hok & _).
    apply find_aggregate_by_email_Ok in Hr as (Hl & Hwf & -> & He); [|done]. split; [by apply loaded_observed|done].
  - intros u He Hp. by apply keeping_create.
  - intros u. unfold pg_create, db_call. auto 10 with svc.
  - intros nu w u w' Hg Hr. exact (create_Ok_row nu w u w' Hg Hr).
  - intros id w e w'. apply find_aggregate_errors; [apply read_user_errors|apply load_aggregate_errors].
  - intros a ns w e w' Hr. by eapply db_call_errors.
  - intros a ns Hns. by apply keeping_save.
  - intros a ns w w' Hg Hr. by apply save_Ok_stored.
Qed.

#[global] Instance postgres_directory_contract : @UserDirectoryContract Admin.PostgresUserDirectory.
Proof. split; simpl; intros; apply keeping_pure; unfold get_user_summary, list_user_summaries, count_users; auto with svc. Qed.

Lemma keeping_role_for id : keeping (role_for id).
Proof. apply keeping_pure, role_for_pure. Qed.

Lemma keeping_assigned_roles ids : keeping (assigned_roles_for ids).
Proof. apply keeping_pure. unfold assigned_roles_for. case_bool_decide; auto 8 with svc. Qed.

#[export] Hint Resolve keeping_role_for keeping_assigned_roles : evo.

(** [PostgresAdminRepo] keeps whatever its directory keeps. *)
#[global] Instance postgres_admin_contract `{UserDirectoryContract} : @AdminRepositoryContract PostgresAdminRepo.
Proof.
  assert (Hget : ∀ id, keeping (pg_get_user id)) by (intros id; unfold pg_get_user, get_summary; auto 8 with evo svc).
  split; simpl; intros; [| |unfold pg_is_admin, get_summary|unfold pg_update_role]; auto 8 with evo svc.
  - unfold pg_list_users. auto 10 with evo svc.
  - apply keeping_bind; [auto with evo|]. intros o. case_bool_decide; auto with evo svc.
Qed.

#[global] Instance postgres_profile_contract : ProfileRepositoryContract.
Proof.
  split; simpl; intros; [apply keeping_pure; unfold pg_find_by_user_id; auto with svc|unfold pg_upsert; auto with evo].
  apply db_pure_bind; auto with svc. apply db_pure_with_err, db_pure_exec, select_profile_read_only.
Qed.

(** ** The use cases *)

Section use_cases.
Context `{UuidLib, BcryptLib, UserRepositoryContract, AdminRepositoryContract, ProfileRepositoryContract,
          JwtServiceSpec, AuthProviderSpec}.
Variable settings : AuthSettings.

Lemma keeping_run_bounded {A} (f : M AuthError A) : framed f → keeping (run_bounded f).
Proof. intros. by apply keeping_framed, framed_run_bounded. Qed.

Lemma keeps_hash_refresh_token t :
  keeps (hash_refresh_token settings t) (λ h, hash_str h ≠ EmptyString).
Proof.
  intros w r w' Hr Hg. destruct (keeping_framed _ (hash_refresh_token_framed settings t) _ _ _ Hr Hg) as (? & ? & _).
  split_and!; try done. destruct r as [h|]; [|done]. by apply hash_refresh_token_Ok in Hr as (n & _ & Hne).
Qed.

Lemma add_session_hash now id h exp m a ns a' :
  add_session now id h exp m a = (Ok ns, a') → ns_refresh_token_hash ns = h.
Proof. unfold add_session. destruct (_ <=? _); [done|]. by intros [= <- _]. Qed.

Lemma rotate_session_hash now id tm nid h exp a ns a' :
  rotate_session now id tm nid h exp a = (Ok ns, a') → ns_refresh_token_hash ns = h.
Proof.
  unfold rotate_session. destruct (find _ _) as [s|]; [|done]. destruct (s_is_active s); [|done].
  simpl. destruct (Session_is_expired now s); [done|]. destruct tm; [|done]. by intros [= <- _].
Qed.

Lemma keeping_open_session m a : keeping (open_session settings m a).
Proof.
  unfold open_session. apply keeping_bind; [auto with evo svc|]. intros sid.
  apply keeping_bind; [apply keeping_framed, generate_framed|]. intros tp.
  apply keeping_bind; [auto with evo svc|]. intros t.
  apply keeping_bind; [apply keeping_framed, framed_expiry|]. intros end_.
  eapply keeps_bind; [apply keeps_hash_refresh_token|]. intros h Hh.
  apply keeping_bind; [auto with evo svc|]. intros now.
  destruct (add_session _ _ _ _ _ _) as [r a'] eqn:Hadd.
  eapply keeps_bind; [apply keeps_lift|]. intros ns ->. apply add_session_hash in Hadd.
  apply keeping_bind; [|auto with evo svc]. apply uc_save_keeping.
  apply Forall_singleton. unfold hash_nonempty. by rewrite Hadd.
Qed.

Lemma keeping_login username password : keeping (login_with_password settings username password).
Proof.
  destruct uc_find_keeping as (_ & Hfind & _). unfold login_with_password.
  apply keeping_bind; [apply Hfind|]. intros ao.
  apply keeping_bind; [apply keeping_run_bounded, framed_verify_password|]. intros ok.
  destruct (negb ok); [auto with evo svc|]. apply keeping_bind; [auto with evo svc|]. intros a.
  unfold create_session_tokens. apply keeping_bind; [apply keeping_open_session|].
  intros [[sid tp] a']. simpl. auto with evo svc.
Qed.

Lemma keeping_google_aggregate info ao : keeping (google_aggregate info ao).
Proof.
  unfold google_aggregate. destruct ao as [a|]; [auto with evo svc|].
  eapply keeps_bind; [apply keeps_lift|]. intros e He.
  apply keeping_bind.
  { apply uc_create_keeping; [|done]. simpl. destruct (Email_new (gu_email info)) as [e'|] eqn:Hn; [|done].
    injection He as ->. pose proof Hn as [He _]%Email_new_Ok. by rewrite <- He. }
  intros u. destruct uc_find_keeping as (Hfind & _).
  apply keeping_bind; [apply Hfind|]. intros found.
  apply keeping_bind; auto with evo svc.
Qed.

Lemma keeping_google_login id_token : keeping (login_with_google settings id_token).
Proof.
  destruct uc_find_keeping as (_ & _ & Hfind). unfold login_with_google.
  apply keeping_bind; [apply keeping_framed, verify_id_token_framed|]. intros info.
  apply keeping_bind; [apply Hfind|]. intros ao.
  apply keeping_bind; [apply keeping_google_aggregate|]. intros [a new].
  apply keeping_bind; [apply keeping_open_session|]. intros [[sid tp] a']. simpl.
  apply keeping_bind; auto with evo svc.
Qed.

Lemma keeping_logout uid sid : keeping (logout uid sid).
Proof.
  destruct uc_find_keeping as (Hfind & _). unfold logout.
  apply keeping_bind; [apply Hfind|]. intros ao.
  apply keeping_bind; [auto with evo svc|]. intros a. apply keeping_bind; [auto with evo svc|]. intros now.
  destruct (invalidate_session _ _ _) as [r a']. apply keeping_bind; [auto with evo svc|]. intros m.
  apply keeping_bind; [by apply uc_save_keeping|auto with evo svc].
Qed.

Lemma keeping_refresh token : keeping (refresh_token settings token).
Proof.
  destruct uc_find_keeping as (Hfind & _). unfold refresh_token, refresh_load.
  apply keeping_bind.
  { apply keeping_bind; [apply keeping_framed, validate_refresh_framed|]. intros c.
    apply keeping_bind; [apply Hfind|]. intros ao. apply keeping_bind; auto with evo svc. }
  intros [c a]. unfold refresh_rotate. apply keeping_bind; [auto with evo svc|]. intros sid.
  apply keeping_bind; [apply keeping_framed, generate_framed|]. intros tp.
  apply keeping_bind; [auto with evo svc|]. intros t.
  apply keeping_bind; [apply keeping_framed, framed_expiry|]. intros end_.
  eapply keeps_bind; [apply keeps_hash_refresh_token|]. intros h Hh.
  apply keeping_bind; [apply keeping_framed, token_matches_framed|]. intros tm.
  apply keeping_bind; [auto with evo svc|]. intros now.
  destruct (rotate_session _ _ _ _ _ _ _) as [[ns|e] a'] eqn:Hrot.
  - apply rotate_session_hash in Hrot. apply keeping_bind; [|auto with evo svc].
    apply uc_save_keeping, Forall_singleton. unfold hash_nonempty. by rewrite Hrot.
  - destruct e; auto with evo svc. apply keeping_bind; [auto with evo svc|]. intros now2.
    apply keeping_bind; [by apply uc_save_keeping|auto with evo svc].
Qed.

Lemma keeping_update_role actor target role : keeping (update_user_role actor target role).
Proof. unfold update_user_role. case_bool_decide; auto 8 with evo svc. Qed.

Lemma keeping_update_profile `{ChronoLib} id avatar bio : keeping (update_profile id avatar bio).
Proof. unfold update_profile. destruct (_ && _); auto 10 with evo svc. Qed.

Lemma keeping_audit ev : keeping (audit_handle ev).
Proof.
  unfold audit_handle. apply keeping_bind; [|auto with evo svc]. apply keeping_attempt.
  destruct ev; auto with evo svc; apply keeping_insert_action.
Qed.

End use_cases.
