(* ===== verification/Interference.v ===== *)
(** * Other processes at work

    Several processes share the database, so the tables may change between two
    statements of a request. [Others] is what the others did before a statement
    that is about to run, [meanwhile] lets them go first, and the interleaved
    repositories are those of [UserRepo.v], [Admin.v] and [Profiles.v] with the
    others in front of every statement. The others are only bound by
    [OthersSpec]: what they do is what requests of this program can do
    ([System.v] shows that they keep to it). A transaction is one step, at its
    commit: its inserts and updates by key do not read the tables, and the rows
    they need are never removed. What the use cases guarantee on these
    repositories is in [Concurrency.v]. *)

From S2P Require Import Prelude RustStr ValueObjects Entities Aggregate Database Effects UserRepo.
From S2P Require Import Bcrypt AuthSettings Jwt UseCases Http Admin Profiles Evolution.

Class Others : Type := { others : World → Db }.

Class OthersSpec `{Others} : Prop := {
  others_good : ∀ w, good (w_db w) → good (others w);
  others_evolve : ∀ w, good (w_db w) → evolves (w_db w) (others w) }.

(** The others, then [m]. *)
Definition meanwhile `{Others} {E A} (m : M E A) : M E A := λ w, m (with_db w (others w)).

(** [m], then the others. *)
Definition and_then_others `{Others} {E A} (m : M E A) : M E A := λ w,
  let '(r, w') := m w in (r, with_db w' (others w')).

(** ** The interleaved repositories *)

Section interleaved.
Context `{UuidLib, Others}.

(** [find_aggregate_by_*]: the user's row, then the session rows. *)
Definition il_with_aggregate (find : M AuthError (option User)) : M AuthError (option UserAggregate) :=
  user_opt ← meanwhile find;
  match user_opt with
  | Some user => a ← meanwhile (load_aggregate user); mret (Some a)
  | None => mret None
  end.

Definition InterleavedUserRepo : UserRepository := {|
  find_by_username name := meanwhile (pg_find_by_username name);
  find_by_email email := meanwhile (pg_find_by_email email);
  find_by_id id := meanwhile (pg_find_by_id id);
  create u := meanwhile (pg_create u);
  create_user_action a := meanwhile (pg_create_user_action a);
  find_aggregate_by_id id := il_with_aggregate (pg_find_by_id id);
  find_aggregate_by_username name := il_with_aggregate (pg_find_by_username name);
  find_aggregate_by_email email := il_with_aggregate (pg_find_by_email email);
  save_aggregate a ns := meanwhile (pg_save_aggregate a ns) |}.

(** The directory's statements; the others follow them too, ahead of the
    [user_roles] statements of [PostgresAdminRepo]. *)
Definition InterleavedDirectory : UserDirectory := {|
  ud_get_user_summary id := and_then_others (meanwhile (get_user_summary id));
  ud_list_user_summaries limit offset := and_then_others (meanwhile (list_user_summaries limit offset));
  ud_count_users := and_then_others (meanwhile count_users) |}.

Definition InterleavedAdminRepo : AdminRepository :=
  let repo := @PostgresAdminRepo InterleavedDirectory in {|
  ar_list_users page per_page := meanwhile (@ar_list_users repo page per_page);
  ar_get_user id := meanwhile (@ar_get_user repo id);
  ar_is_admin id := meanwhile (@ar_is_admin repo id);
  ar_update_role id r := meanwhile (@ar_update_role repo id r) |}.

Definition InterleavedProfileRepo : ProfileRepository := {|
  find_by_user_id id := meanwhile (pg_find_by_user_id id);
  upsert p := meanwhile (pg_upsert p) |}.

End interleaved.

(** ** They meet the contracts *)

Lemma meanwhile_advancing `{Others} {E A} (m : M E A) : advancing m → advancing (meanwhile m).
Proof. intros Hm w r w' Hr. by apply Hm in Hr. Qed.

Section contracts.
Context `{UuidLib, OthersSpec}.

Lemma keeping_meanwhile {E A} (m : M E A) : keeping m → keeping (meanwhile m).
Proof.
  intros Hm w r w' Hr Hg. destruct (Hm _ _ _ Hr (others_good w Hg)) as (Hg' & He & ?). split_and!; try done.
  etrans; [by apply others_evolve|exact He].
Qed.

Lemma keeping_and_then_others {E A} (m : M E A) : keeping m → keeping (and_then_others m).
Proof.
  intros Hm w r w'. unfold and_then_others. destruct (m w) as [r0 w0] eqn:E0. intros [= <- <-] Hg.
  destruct (Hm _ _ _ E0 Hg) as (Hg0 & He0 & ?). split_and!; simpl; [by apply others_good| |by destruct r0].
  etrans; [exact He0|by apply others_evolve].
Qed.

#[local] Hint Resolve keeping_meanwhile keeping_and_then_others : evo.

Lemma session_seen_evolves db db' id s : evolves db db' → session_seen db id s → session_seen db' id s.
Proof.
  intros [_ _ Hev] [Hr|Hr]; destruct (Hev _ _ Hr) as [Hr'|Hr']; unfold session_seen; auto.
Qed.

Lemma user_row_evolves db db' id r : evolves db db' → db_users db !! id = Some r → db_users db' !! id = Some r.
Proof. intros [Hu _ _] Hr. by eapply lookup_weaken. Qed.

Lemma observed_earlier db0 db db' a : evolves db0 db → observed db db' a → observed db0 db' a.
Proof.
  intros [_ _ Hev] Ho. split; try apply Ho. intros id r Hr Hown.
  destruct (Hev _ _ Hr) as [Hr'|Hr']; destruct (ob_complete _ _ _ Ho _ _ Hr' Hown) as (s & Hs & Heq);
    exists s; split; try done; destruct Heq as [->| ->]; auto.
Qed.

(** A user read on one state of the tables and its sessions on a later one. *)
Lemma il_with_aggregate_Ok st w a w' :
  (∀ db o db', st db = Ok (o, db') → ∀ r, o = Some r → ∃ id, db_users db !! id = Some r) →
  read_only st → good (w_db w) → il_with_aggregate (read_user st) w = (Ok (Some a), w') →
  observed (w_db w) (w_db w') a ∧
  ∃ db db', good db ∧ st db = Ok (Some (row_of_user (agg_user a)), db').
Proof.
  intros Hst Hro Hg Hr. unfold il_with_aggregate in Hr. run_inv Hr. unfold meanwhile in R.
  pose proof (others_good w Hg) as Hg1. pose proof (others_evolve w Hg) as He1. set (w1 := with_db w (others w)) in R.
  pose proof (read_user_pure st Hro w1) as Hp1. rewrite R in Hp1. simpl in Hp1.
  destruct v as [u|]; [|by injection Hr]. run_inv Hr. run_inv Hr.
  pose proof Hg1 as (Hok1 & _). destruct (read_user_Ok _ w1 _ _ Hst Hok1 R) as [Hu Hrun]. simpl in Hu, Hrun.
  assert (Hgx : good (w_db w0)) by by rewrite Hp1.
  pose proof (others_good w0 Hgx) as Hg2. pose proof (others_evolve w0 Hgx) as He2. rewrite Hp1 in He2.
  pose proof (load_aggregate_pure u (with_db w0 (others w0))) as Hp2. unfold meanwhile in R0. rewrite R0 in Hp2. simpl in Hp2.
  apply load_aggregate_Ok in R0 as (Hl & Hwf & Hau);
    [|by destruct Hg2|by apply (user_row_evolves _ _ _ _ He2)].
  simpl in Hl. split.
  - rewrite Hp2. eapply observed_earlier; [etrans; [exact He1|exact He2]|]. by apply loaded_observed.
  - rewrite Hau. by exists (others w), (w_db w0).
Qed.

Lemma il_with_aggregate_keeping find : db_pure find → keeping (il_with_aggregate find).
Proof.
  intros Hf. unfold il_with_aggregate. apply keeping_bind; [auto with evo|]. intros [u|]; [|auto with evo svc].
  apply keeping_bind; [apply keeping_meanwhile, keeping_pure, load_aggregate_pure|auto with evo svc].
Qed.

Lemma il_with_aggregate_advancing st : advancing (il_with_aggregate (read_user st)).
Proof.
  unfold il_with_aggregate. apply advancing_bind.
  - apply meanwhile_advancing. unfold read_user, db_call. apply advancing_bind; auto with svc.
  - intros [u|]; [|auto with svc]. apply advancing_bind; [|auto with svc]. apply meanwhile_advancing.
    unfold load_aggregate, db_call. apply advancing_bind; [auto with svc|]. intros rs. apply advancing_bind; auto with svc.
Qed.

#[global] Instance interleaved_user_contract : @UserRepositoryContract InterleavedUserRepo.
Proof.
  destruct select_read_only as (Hu & Hi & _).
  split; simpl; try (split_and!; intros; (by apply il_with_aggregate_keeping, read_user_pure) || apply il_with_aggregate_advancing).
  - intros id w a w' Hg Hr. apply il_with_aggregate_Ok in Hr as (Ho & db & db' & ((Hk & _) & _) & Hst);
      [|apply select_user_by_id_Some|auto|done]. split; [done|]. unfold select_user_by_id in Hst. injection Hst as Hst _.
    by pose proof (Hk _ _ Hst).
  - intros name w a w' Hg Hr. apply il_with_aggregate_Ok in Hr as (Ho & db & db' & _ & Hst);
      [|apply select_user_Some|auto|done]. split; [done|]. unfold select_user in Hst. injection Hst as Hst _.
    apply find_rows in Hst as [_ Hst]. by apply bool_decide_eq_true in Hst.
  - intros email w a w' Hg Hr. apply il_with_aggregate_Ok in Hr as (Ho & db & db' & _ & Hst);
      [|apply select_user_Some|auto|done]. split; [done|]. unfold select_user in Hst. injection Hst as Hst _.
    apply find_rows in Hst as [_ Hst]. by apply bool_decide_eq_true in Hst.
  - intros u He Hp. by apply keeping_meanwhile, keeping_create.
  - intros u. apply meanwhile_advancing. unfold pg_create, db_call. auto 10 with svc.
  - intros nu w u w' Hg Hr. exact (create_Ok_row nu (with_db w (others w)) u w' (others_good w Hg) Hr).
  - intros id w e w'. apply find_aggregate_errors; intros *; [apply read_user_errors|apply load_aggregate_errors].
  - intros a ns w e w' Hr. by eapply db_call_errors.
  - intros a ns Hns. by apply keeping_meanwhile, keeping_save.
  - intros a ns w w' Hg Hr. unfold meanwhile in Hr.
    destruct (save_Ok_stored _ _ (with_db w (others w)) _ (others_good w Hg) Hr) as [Hnew Hrev]. split; [|done].
    eapply Forall_impl; [exact Hnew|]. simpl. intros s (Hn & Hs). split; [|done].
    destruct (db_sessions (w_db w) !! ns_id s) as [r|] eqn:Hr0; [|done]. exfalso.
    destruct (others_evolve w Hg) as [_ _ Hev]. destruct (Hev _ _ Hr0); congruence.
Qed.

#[global] Instance interleaved_directory_contract : @UserDirectoryContract InterleavedDirectory.
Proof.
  split; simpl; intros; apply keeping_and_then_others, keeping_meanwhile; apply postgres_directory_contract.
Qed.

#[global] Instance interleaved_admin_contract : @AdminRepositoryContract InterleavedAdminRepo.
Proof.
  assert (Ha : @AdminRepositoryContract (@PostgresAdminRepo InterleavedDirectory)) by apply postgres_admin_contract.
  split; simpl; intros; apply keeping_meanwhile; apply Ha.
Qed.

#[global] Instance interleaved_profile_contract : @ProfileRepositoryContract InterleavedProfileRepo.
Proof. split; simpl; intros; apply keeping_meanwhile; apply postgres_profile_contract. Qed.

End contracts.
