(* ===== verification/Concurrency.v ===== *)
(** * Log-in, refresh and log-out beside other processes

    What the use cases guarantee when other processes change the database
    between any two of their statements: the lemmas are against the contract of
    the user repository, the theorems on the interleaved one. *)

From S2P Require Import Prelude RustStr ValueObjects Entities Aggregate Database Effects UserRepo.
From S2P Require Import Bcrypt AuthSettings Jwt UseCases Http Admin Profiles Evolution Interference.

(** What a process knows of the tables from an aggregate it loaded earlier. *)
Record aware (db : Db) (a : UserAggregate) : Prop := {
  aw_wf : agg_wf a;
  aw_pending : agg_pending_events a = [];
  aw_user : db_users db !! u_id (agg_user a) = Some (row_of_user (agg_user a));
  aw_sessions : ∀ id s, registry (agg_sessions a) !! id = Some s →
    session_seen db id s ∧ s_user_id s = u_id (agg_user a) }.

Lemma observed_aware db db' a : observed db db' a → aware db' a.
Proof. intros [? ? ? ? ?]. by split. Qed.

Lemma aware_evolves db db' a : evolves db db' → aware db a → aware db' a.
Proof.
  intros He [? ? Hu Hs]. split; [done..|by eapply user_row_evolves|]. intros id s Hid.
  destruct (Hs _ _ Hid). split; [by eapply session_seen_evolves|done].
Qed.

Lemma evolves_fresh db db' id : evolves db db' → db_sessions db' !! id = None → db_sessions db !! id = None.
Proof.
  intros [_ _ Hev] Hn. destruct (db_sessions db !! id) as [r|] eqn:Hr; [|done]. destruct (Hev _ _ Hr); congruence.
Qed.

Lemma seen_inactive (db : Db) id s r :
  session_seen db id s → db_sessions db !! id = Some r → sr_is_active r = false → r = row_deactivate (row_of_session s).
Proof.
  unfold session_seen, row_deactivate, row_of_session. intros [-> | ->] [= <-]; simpl; [|done]. by intros ->.
Qed.

(** [m] never fails with [SessionInvalidated]: in a refresh only the rejection of
    a revoked session does. *)
Definition not_invalidating {A} (m : M AuthError A) : Prop := ∀ w w', m w ≠ (Err SessionInvalidated, w').

Class JwtServiceErrors `{JwtService} : Prop := {
  generate_not_invalidating : ∀ uid sid, not_invalidating (generate_token_pair uid sid);
  validate_refresh_not_invalidating : ∀ t, not_invalidating (validate_refresh_token t) }.

Lemma not_invalidating_bind {A B} (m : M AuthError A) (k : A → M AuthError B) :
  not_invalidating m → (∀ a, not_invalidating (k a)) → not_invalidating (m ≫= k).
Proof. intros Hm Hk w w' [Hr|(a & w1 & _ & Hr)]%bind_Err_inv; [by eapply Hm|by eapply Hk]. Qed.

Lemma not_invalidating_lift {A} (r : result AuthError A) : r ≠ Err SessionInvalidated → not_invalidating (lift r).
Proof. intros Hr w w' [-> _]%lift_Err_inv. done. Qed.

Lemma not_invalidating_map_err {A E} (f : E → AuthError) (r : result E A) :
  (∀ e, f e ≠ SessionInvalidated) → not_invalidating (lift (map_err f r)).
Proof. intros Hf. apply not_invalidating_lift. destruct r; simpl; [done|]. intros [= He]. by apply (Hf e). Qed.

Lemma not_invalidating_ok_or {A} (o : option A) e : e ≠ SessionInvalidated → not_invalidating (lift (ok_or o e)).
Proof. intros He. apply not_invalidating_lift. destruct o; simpl; congruence. Qed.

Lemma not_invalidating_ret {A} (a : A) : not_invalidating (mret a).
Proof. done. Qed.

Lemma not_invalidating_fail {A} (e : AuthError) : e ≠ SessionInvalidated → not_invalidating (fail (A := A) e).
Proof. intros He w w' [= ? _]. congruence. Qed.

Lemma not_invalidating_utc_now : not_invalidating utc_now.
Proof. by intros w w' Hr%(f_equal fst). Qed.

Lemma not_invalidating_now_v7 `{UuidLib} : not_invalidating now_v7.
Proof. by intros w w' Hr%(f_equal fst). Qed.

Lemma not_invalidating_run_bounded {A} (f : M AuthError A) : not_invalidating f → not_invalidating (run_bounded f).
Proof. intros Hf w w'. unfold run_bounded. destruct (w_join w) as [|[e|] l]; [apply Hf|done|apply Hf]. Qed.

#[local] Hint Resolve not_invalidating_bind not_invalidating_lift not_invalidating_map_err not_invalidating_ok_or
  not_invalidating_ret not_invalidating_fail not_invalidating_utc_now not_invalidating_now_v7
  not_invalidating_run_bounded generate_not_invalidating validate_refresh_not_invalidating : evo.

#[global] Instance JwtServiceImpl_errors `{UuidLib, JwtLib} self : @JwtServiceErrors (JwtServiceImpl_service self).
Proof.
  split; simpl; intros.
  - unfold jwt_generate. auto 10 with evo.
  - unfold jwt_validate_refresh, decode. auto 10 with evo.
Qed.

Section guarantees.
Context `{UuidLib, BcryptLib, UserRepositoryContract}.
Context {js : JwtService} {jspec : JwtServiceSpec} {ap : AuthProviderPort} {apspec : AuthProviderSpec}.
Variable settings : AuthSettings.

(** A new session of [uid], for the refresh token [rt], is in the table at the
    end, exactly as inserted, and no session had its id at the start. *)
Definition session_opened (w w' : World) (uid : Uuid) (m : AuthMethod) (rt : string) (sid : Uuid) : Prop :=
  ∃ s t, issued_session settings w uid m rt s ∧ ns_id s = sid ∧ w_clock w ≤ t ∧
    db_sessions (w_db w) !! sid = None ∧ db_sessions (w_db w') !! sid = Some (new_session_row t s).

Lemma session_opened_earlier w w0 w' uid m rt sid :
  later w w0 → evolves (w_db w) (w_db w0) → session_opened w0 w' uid m rt sid → session_opened w w' uid m rt sid.
Proof.
  intros Hl He (s & t & Hi & Hid & Ht & Hf & Hr). exists s, t. split_and!; try done.
  - by eapply issued_session_later.
  - destruct Hl as [Hl _]. lia.
  - by eapply evolves_fresh.
Qed.

Lemma session_opened_frame w w' w'' uid m rt sid :
  frame w' w'' → session_opened w w' uid m rt sid → session_opened w w'' uid m rt sid.
Proof. intros (Hdb & _) (s & t & Hall). exists s, t. by rewrite Hdb. Qed.

(** What an [open_session] or a rotation stores. *)
Lemma save_opened a sid m w w3 tp h t exp w' :
  good (w_db w) → frame w w3 → sid = uuid_v7 (w_seed w) → w_clock w ≤ t →
  exp = t + days (refresh_token_expiry_days settings) →
  (∃ n, bcrypt_hash n (tp_refresh_token tp) (bcrypt_cost settings) = Ok (hash_str h)) → hash_str h ≠ EmptyString →
  (∀ id, id ∈ invalidated_ids a → is_Some (db_sessions (w_db w) !! id)) →
  save_aggregate a [MkNewSession sid (u_id (agg_user a)) h exp m] w3 = (Ok tt, w') →
  session_opened w w' (u_id (agg_user a)) m (tp_refresh_token tp) sid ∧
  (∀ id r, id ∈ invalidated_ids a → db_sessions (w_db w') !! id = Some r → sr_is_active r = false) ∧
  good (w_db w') ∧ evolves (w_db w) (w_db w').
Proof.
  intros Hg (Hdb & _ & Hck & _) -> Ht -> Hn Hne Hids Hr. set (s := MkNewSession _ _ _ _ _) in *.
  assert (Hgx : good (w_db w3)) by by rewrite Hdb.
  destruct (uc_save_keeping a [s] ltac:(by apply Forall_singleton) _ _ _ Hr Hgx) as (Hg' & He & _).
  apply (uc_save _ _ _ _ Hgx) in Hr as [Hnew Hrev]. apply Forall_singleton in Hnew as (Hfresh & t1 & Hle & Hrow).
  rewrite Hdb in Hfresh, He. split_and!; try done. exists s, t1. split_and!; try done; [|lia|].
  - split_and!; simpl; try done; [by exists t|by exists (w_seed w)].
  - etrans; [exact Hrow|]. unfold deactivate_if. rewrite bool_decide_eq_false_2; [done|].
    intros [r Hin]%Hids. by rewrite Hfresh in Hin.
Qed.

Lemma aware_ids db a id : aware db a → id ∈ invalidated_ids a → is_Some (db_sessions db !! id).
Proof.
  intros Ha [s Hs]%invalidated_ids_registry. destruct (aw_sessions _ _ Ha _ _ Hs) as [[Hr|Hr] _]; by eexists.
Qed.

Lemma open_session_guarantee m a w sid tp a' w' :
  good (w_db w) → aware (w_db w) a → open_session settings m a w = (Ok (sid, tp, a'), w') →
  session_opened w w' (u_id (agg_user a)) m (tp_refresh_token tp) sid ∧ evolves (w_db w) (w_db w') ∧ good (w_db w') ∧
  ∃ now, a' = agg_push a (EvUserLoggedIn (UserLoggedIn_new now (u_id (agg_user a)) sid m)).
Proof.
  intros Hg Ha Hr. unfold open_session in Hr.
  run_inv Hr. pose proof (framed_now_v7 _ _ _ R) as F1. rewrite now_v7_run in R. injection R as <- <-.
  run_inv Hr. pose proof (generate_framed _ _ _ _ _ R) as F2.
  run_inv Hr. pose proof (framed_utc_now _ _ _ R0) as F3. apply utc_now_Ok in R0 as (Ht & _).
  run_inv Hr. apply expiry_Ok in R0 as [-> ->].
  run_inv Hr. pose proof (hash_refresh_token_framed _ _ _ _ _ R0) as F4.
  apply hash_refresh_token_Ok in R0 as (n & Hn & Hne).
  run_inv Hr. pose proof (framed_utc_now _ _ _ R0) as F5.
  destruct (add_session _ _ _ _ _ a) as [r a1] eqn:Hadd. run_inv Hr. apply lift_Ok_inv in R1 as [-> ->].
  run_inv Hr. injection Hr as <- <- <- <-. unfold add_session in Hadd. destruct (_ <=? _); [done|].
  injection Hadd as <- <-. destruct v4.
  assert (F0 : frame w w0) by by etrans. assert (F : frame w w3) by (do 3 (etrans; [eassumption|]); done).
  destruct F0 as (_ & _ & Hc0 & _).
  destruct (save_opened (agg_push a _) _ m w w3 _ _ v0 _ _ Hg F eq_refl ltac:(lia) eq_refl ltac:(by eexists) Hne
    ltac:(intros id; apply (aware_ids _ _ _ Ha)) R1) as (Hopen & _ & Hg' & He).
  split_and!; try done. by eexists.
Qed.

Lemma login_guarantee username password w res w' :
  good (w_db w) → login_with_password settings username password w = (Ok res, w') →
  let u := lr_user res in
  ∃ h now,
    db_users (w_db w') !! u_id u = Some (row_of_user u) ∧ u_username u = Some username ∧
    u_password_hash u = Some h ∧ bcrypt_verify password (hash_str h) = Ok true ∧
    session_opened w w' (u_id u) Password (lr_refresh_token res) (lr_session_id res) ∧
    lr_events res = [EvUserLoggedIn (UserLoggedIn_new now (u_id u) (lr_session_id res) Password)] ∧
    good (w_db w') ∧ evolves (w_db w) (w_db w').
Proof.
  intros Hg Hr. unfold login_with_password in Hr. run_inv Hr.
  destruct uc_find_keeping as (_ & Hk & _). destruct (Hk _ _ _ _ R Hg) as (Hg1 & He1 & _).
  destruct uc_find_advancing as (_ & Had & _). pose proof (Had _ _ _ _ R) as L1.
  run_inv Hr. pose proof (framed_run_bounded _ (framed_verify_password _ _ _) _ _ _ R0) as F2.
  destruct v0; simpl in Hr; [|done]. run_inv Hr. run_inv R1. destruct v as [a|]; [|done]. injection R1 as ->.
  apply (uc_find_by_username _ _ _ _ Hg) in R as [Ho Hname].
  apply run_bounded_Ok in R0 as (wv & R0 & _). apply verify_password_true in R0 as (u & h & Hu & Hh & Hv).
  injection Hu as <-. unfold create_session_tokens in Hr. run_inv Hr. destruct v as [[sid tp] a'].
  pose proof F2 as (Hdb & _). apply observed_aware in Ho. rewrite <- Hdb in Ho, He1, Hg1.
  destruct (open_session_guarantee _ _ _ _ _ _ _ Hg1 Ho R) as (Hopen & He2 & Hg' & now & ->).
  injection Hr as <- <-. exists h, now. simpl. rewrite (aw_pending _ _ Ho). split_and!; try done.
  - eapply user_row_evolves; [exact He2|]. apply Ho.
  - eapply session_opened_earlier; [|exact He1|exact Hopen]. etrans; [exact L1|by apply frame_later].
  - by etrans.
Qed.

Lemma google_aggregate_guarantee info ao w0 w a b w' :
  good (w_db w0) → good (w_db w) →
  (∀ a, ao = Some a → observed (w_db w0) (w_db w) a ∧ email_str (u_email (agg_user a)) = gu_email info) →
  google_aggregate info ao w = (Ok (a, b), w') →
  aware (w_db w') a ∧ email_str (u_email (agg_user a)) = gu_email info ∧ later w w' ∧
  good (w_db w') ∧ evolves (w_db w) (w_db w').
Proof.
  intros Hg0 Hg Ho Hr. destruct (keeping_google_aggregate info ao _ _ _ Hr Hg) as (Hg' & He & _).
  destruct ao as [a0|]; simpl in Hr.
  - injection Hr as -> <- <-. destruct (Ho _ eq_refl) as [Ha Hem]. apply observed_aware in Ha. by split_and!.
  - run_inv Hr. run_inv R. run_inv Hr. pose proof (uc_create_advancing _ _ _ _ R0) as L1.
    assert (Hv : email_str v = gu_email info).
    { destruct (Email_new (gu_email info)) as [e'|] eqn:Hn; [|done]. injection R as ->. by apply Email_new_Ok in Hn as [? _]. }
    assert (Hnew : Email_new (email_str v) = Ok v).
    { rewrite Hv. destruct (Email_new (gu_email info)) as [e'|] eqn:Hn; [|done]. by injection R as ->. }
    destruct (uc_create_keeping (NewUser_new_google v (gu_name info)) Hnew eq_refl _ _ _ R0 Hg) as (Hg1 & _ & _).
    apply (uc_create _ _ _ _ Hg) in R0 as [Hrow Hem]. run_inv Hr.
    destruct uc_find_advancing as (Had & _). pose proof (Had _ _ _ _ R0) as L2.
    destruct uc_find_keeping as (Hk & _). destruct (Hk _ _ _ _ R0 Hg1) as (_ & He1 & _).
    run_inv Hr. run_inv R1. destruct v1 as [a1|]; [|done]. injection R1 as ->. injection Hr as -> <- <-.
    apply (uc_find_by_id _ _ _ _ Hg1) in R0 as [Hob Hid]. pose proof (observed_aware _ _ _ Hob) as Ha.
    split_and!; try done; [|by etrans].
    apply (user_row_evolves _ _ _ _ He1) in Hrow. rewrite <- Hid, (aw_user _ _ Ha) in Hrow.
    assert (agg_user a = v0) as -> by (apply row_of_user_inj; congruence). by rewrite Hem.
Qed.

Lemma google_guarantee id_token w res w' :
  good (w_db w) → login_with_google settings id_token w = (Ok res, w') →
  let u := lg_user res in
  ∃ info w1 now now2,
    verify_id_token id_token w = (Ok info, w1) ∧ email_str (u_email u) = gu_email info ∧
    db_users (w_db w') !! u_id u = Some (row_of_user u) ∧
    session_opened w w' (u_id u) GoogleOAuth (lg_refresh_token res) (lg_session_id res) ∧
    lg_events res = (if lg_is_new_user res then [EvUserCreated (UserCreated_new now2 (u_id u) Google)] else []) ++
                    [EvUserLoggedIn (UserLoggedIn_new now (u_id u) (lg_session_id res) GoogleOAuth)] ∧
    good (w_db w') ∧ evolves (w_db w) (w_db w').
Proof.
  intros Hg Hr. unfold login_with_google in Hr. run_inv Hr. rename v into info.
  pose proof (verify_id_token_framed _ _ _ _ R) as F1. pose proof F1 as (Hdb1 & _).
  run_inv Hr. destruct uc_find_keeping as (_ & _ & Hk). assert (Hg1 : good (w_db w0)) by by rewrite Hdb1.
  destruct (Hk _ _ _ _ R0 Hg1) as (Hg2 & He2 & _).
  destruct uc_find_advancing as (_ & _ & Had). pose proof (Had _ _ _ _ R0) as L2.
  run_inv Hr. destruct v0 as [a b].
  destruct (google_aggregate_guarantee info v w0 w1 a b w2 Hg1 Hg2) as (Ha & Hem & L3 & Hg3 & He3);
    [intros a0 ->; by apply (uc_find_by_email _ _ _ _ Hg1)|done|].
  run_inv Hr. destruct v0 as [[sid tp] a'].
  destruct (open_session_guarantee _ _ _ _ _ _ _ Hg3 Ha R2) as (Hopen & He4 & Hg4 & now & ->).
  simpl in Hr. run_inv Hr. pose proof (framed_utc_now _ _ _ R3) as F5. pose proof F5 as (Hdb5 & _).
  injection Hr as <- <-. exists info, w0, now, v0. simpl. rewrite Hdb5, (aw_pending _ _ Ha).
  assert (Hev : evolves (w_db w) (w_db w2)) by (rewrite <- Hdb1; by etrans).
  split_and!; try done; [| | |by etrans].
  - eapply user_row_evolves; [exact He4|]. apply Ha.
  - eapply session_opened_frame; [exact F5|]. eapply session_opened_earlier; [|exact Hev|exact Hopen].
    etrans; [by apply frame_later|]. by etrans.
  - by destruct b.
Qed.

(** A session revoked in the aggregate is revoked in the table. *)
Lemma revoked_ids a id s0 : agg_wf a → registry (agg_sessions a) !! id = Some s0 → id ∈ invalidated_ids (revoked id a).
Proof.
  intros Hwf Hs. apply (invalidated_ids_spec _ _ (Session_invalidate s0)); [by apply revoked_wf| |done].
  rewrite registry_revoked. unfold spec_revoke. by rewrite lookup_alter_eq, Hs.
Qed.

Lemma aware_revoked_ids db a id j s0 :
  aware db a → registry (agg_sessions a) !! id = Some s0 → j ∈ invalidated_ids (revoked id a) →
  is_Some (db_sessions db !! j).
Proof.
  intros Ha Hs0 Hin. destruct (invalidated_ids_registry _ _ Hin) as [x Hx]. rewrite registry_revoked in Hx.
  unfold spec_revoke in Hx. assert (is_Some (registry (agg_sessions a) !! j)) as [y Hy].
  { destruct (decide (j = id)) as [->|Hne]; [by eexists|]. rewrite lookup_alter_ne in Hx by done. by eexists. }
  destruct (aw_sessions _ _ Ha _ _ Hy) as [[Hr|Hr] _]; by eexists.
Qed.

Lemma aware_revoked db db' a id s0 (ids : list Uuid) :
  aware db a → evolves db db' → registry (agg_sessions a) !! id = Some s0 → id ∈ ids →
  (∀ id r, id ∈ ids → db_sessions db' !! id = Some r → sr_is_active r = false) →
  db_sessions db' !! id = Some (row_deactivate (row_of_session s0)).
Proof.
  intros Ha He Hs0 Hin Hrev. destruct (aw_sessions _ _ Ha _ _ Hs0) as [Hseen _].
  apply (session_seen_evolves _ _ _ _ He) in Hseen. pose proof Hseen as Hseen'.
  destruct Hseen as [Hr|Hr]; rewrite Hr; f_equal; eapply seen_inactive; try done; by eapply Hrev.
Qed.

Lemma logout_guarantee uid sid w evs w' :
  good (w_db w) → logout uid sid w = (Ok evs, w') →
  ∃ s0 now,
    db_sessions (w_db w') !! sid = Some (row_deactivate (row_of_session s0)) ∧ s_user_id s0 = uid ∧
    w_clock w ≤ now ∧ now < s_expires_at s0 ∧
    evs = [EvUserLoggedOut (UserLoggedOut_new now uid sid (s_auth_method s0))] ∧
    good (w_db w') ∧ evolves (w_db w) (w_db w').
Proof.
  intros Hg Hr. destruct (keeping_logout uid sid _ _ _ Hr Hg) as (Hg' & He' & _). unfold logout in Hr. run_inv Hr.
  destruct uc_find_keeping as (Hk & _). destruct (Hk _ _ _ _ R Hg) as (Hg1 & He1 & _).
  destruct uc_find_advancing as (Had & _). destruct (Had _ _ _ _ R) as [L1 _].
  run_inv Hr. run_inv R0. destruct v as [a|]; [|done]. injection R0 as <-.
  apply (uc_find_by_id _ _ _ _ Hg) in R as [Ho Hid]. apply observed_aware in Ho.
  run_inv Hr. pose proof (framed_utc_now _ _ _ R) as (Hdb2 & _). apply utc_now_Ok in R as (Hnow & _).
  unfold invalidate_session in Hr.
  destruct (find (has_id sid) _) as [s0|] eqn:Hf; [|by run_inv Hr; run_inv R].
  destruct (bool_decide (s_user_id s0 = _)) eqn:Hu; simpl in Hr; [|by run_inv Hr; run_inv R].
  destruct (s_is_active s0) eqn:Hact; simpl in Hr; [|by run_inv Hr; run_inv R].
  destruct (Session_is_expired v s0) eqn:Hexp; [by run_inv Hr; run_inv R|].
  run_inv Hr. run_inv R. clear R. run_inv Hr. repeat match goal with x : () |- _ => destruct x end. injection Hr as <- <-. rewrite <- registry_find in Hf.
  assert (Hgx : good (w_db w1)) by by rewrite Hdb2.
  destruct (uc_save_keeping _ [] ltac:(by constructor) _ _ _ R Hgx) as (_ & He2 & _).
  apply (uc_save _ _ _ _ Hgx) in R as [_ Hrev]. rewrite Hdb2 in He2.
  exists s0, v. unfold Session_is_expired in Hexp. bool_to_prop. split_and!; try done; try lia; try congruence.
  - eapply aware_revoked; [exact Ho|exact He2|exact Hf| |exact Hrev]. eapply (revoked_ids a); [apply Ho|done].
  - simpl. by rewrite (aw_pending _ _ Ho), Hid.
Qed.

Lemma refresh_load_guarantee token w claims a w' :
  good (w_db w) → refresh_load token w = (Ok (claims, a), w') →
  (∃ w1, validate_refresh_token token w = (Ok claims, w1)) ∧ observed (w_db w) (w_db w') a ∧ u_id (agg_user a) = rc_sub claims ∧
  later w w' ∧ good (w_db w') ∧ evolves (w_db w) (w_db w').
Proof.
  intros Hg R. unfold refresh_load in R. run_inv R. pose proof (validate_refresh_framed _ _ _ _ R0) as F1.
  pose proof F1 as (Hdb1 & _). rename R0 into Hval. run_inv R. assert (Hg1 : good (w_db w0)) by by rewrite Hdb1.
  destruct uc_find_keeping as (Hk & _). destruct (Hk _ _ _ _ R0 Hg1) as (Hg2 & He2 & _).
  destruct uc_find_advancing as (Had & _). pose proof (Had _ _ _ _ R0) as L2.
  run_inv R. run_inv R1. destruct v0 as [a0|]; [|done]. injection R1 as ->. injection R as -> -> <-.
  apply (uc_find_by_id _ _ _ _ Hg1) in R0 as [Ho Hid]. rewrite Hdb1 in He2, Ho.
  split_and!; try done; [by eexists|]. etrans; [by apply frame_later|done].
Qed.

Lemma not_invalidating_hash token : not_invalidating (hash_refresh_token settings token).
Proof.
  unfold hash_refresh_token, hash_io. apply not_invalidating_bind; [|auto 10 with evo].
  apply not_invalidating_run_bounded. intros w w' Hr%(f_equal fst). done.
Qed.

Lemma refresh_guarantee token w res w' :
  good (w_db w) → refresh_token settings token w = (Ok res, w') →
  ∃ claims w1 s0 now,
    validate_refresh_token token w = (Ok claims, w1) ∧ s_user_id s0 = rc_sub claims ∧
    is_Some (db_users (w_db w') !! rc_sub claims) ∧
    w_clock w ≤ now ∧ now < s_expires_at s0 ∧
    bcrypt_verify token (hash_str (s_refresh_token_hash s0)) = Ok true ∧
    db_sessions (w_db w') !! rc_session_id claims = Some (row_deactivate (row_of_session s0)) ∧
    session_opened w w' (rc_sub claims) (s_auth_method s0) (rf_refresh_token res) (rf_session_id res) ∧
    rf_user_id res = rc_sub claims ∧ rf_auth_method res = s_auth_method s0 ∧
    rf_events res = [EvSessionRefreshed
      (SessionRefreshed_new now (rc_sub claims) (rf_session_id res) (s_auth_method s0))] ∧
    good (w_db w') ∧ evolves (w_db w) (w_db w').
Proof.
  intros Hg Hr. unfold refresh_token in Hr. run_inv Hr. destruct v as [claims a]. rename w0 into w2.
  apply (refresh_load_guarantee _ _ _ _ _ Hg) in R as ((w1 & Hval) & Ho%observed_aware & Hid & [Lc Ls] & Hg2 & He2).
  unfold refresh_rotate in Hr.
  run_inv Hr. pose proof (framed_now_v7 _ _ _ R) as F3. rewrite now_v7_run in R. injection R as <- <-.
  run_inv Hr. pose proof (generate_framed _ _ _ _ _ R) as F4.
  run_inv Hr. pose proof (framed_utc_now _ _ _ R0) as F5. apply utc_now_Ok in R0 as (Ht & _).
  run_inv Hr. apply expiry_Ok in R0 as [-> ->].
  run_inv Hr. pose proof (hash_refresh_token_framed _ _ _ _ _ R0) as F6.
  apply hash_refresh_token_Ok in R0 as (n & Hn & Hne).
  run_inv Hr. pose proof (token_matches_framed _ _ _ _ _ _ R0) as F7. rename R0 into Htm.
  run_inv Hr. pose proof (framed_utc_now _ _ _ R0) as F8. apply utc_now_Ok in R0 as (Hnow & _).
  assert (F34 : frame w2 w0) by (etrans; [exact F3|done]).
  assert (F37 : frame w2 w5) by (etrans; [exact F34|]; etrans; [exact F5|]; by etrans).
  assert (F38 : frame w2 w6) by by etrans.
  destruct F34 as (_ & _ & Hc4 & _), F37 as (_ & _ & Hc7 & _).
  unfold rotate_session in Hr. destruct (find _ _) as [s0|] eqn:Hf; [|done].
  destruct (s_is_active s0) eqn:Hact; simpl in Hr.
  2:{ run_inv Hr. run_inv Hr. done. }
  destruct (Session_is_expired _ s0) eqn:Hexp; [done|]. destruct v2; [|done]. simpl in Hr.
  run_inv Hr. injection Hr as <- ->. rewrite <- registry_find in Hf. repeat match goal with x : () |- _ => destruct x end.
  destruct (token_matches_true _ _ _ _ _ Htm) as (s0' & Hs0' & Hv). rewrite Hf in Hs0'. injection Hs0' as <-.
  match type of R0 with save_aggregate ?a _ _ = _ => set (a' := a) in * end.
  destruct (save_opened a' (uuid_v7 (w_seed w2)) (s_auth_method s0) w2 w6 v v1 v0 _ w' Hg2 F38 eq_refl ltac:(lia) eq_refl
    ltac:(by eexists) Hne) as (Hopen & Hrev & Hg' & He'); [intros j; by eapply (aware_revoked_ids _ a)|done|].
  destruct (aw_sessions _ _ Ho _ _ Hf) as [_ Hown]. rewrite Hid in Hown.
  unfold Session_is_expired in Hexp. bool_to_prop.
  exists claims, w1, s0, v3. simpl. rewrite <- Hid. split_and!; try done; try lia; try congruence.
  - rewrite Hid. eexists. eapply user_row_evolves; [exact He'|]. rewrite <- Hid. apply Ho.
  - eapply aware_revoked; [exact Ho|exact He'|exact Hf| |exact Hrev]. eapply (revoked_ids a); [apply Ho|done].
  - eapply session_opened_earlier; [split; [exact Lc|exact Ls]|exact He2|exact Hopen].
  - by rewrite (aw_pending _ _ Ho).
  - by rewrite (aw_pending _ _ Ho).
  - by etrans.
Qed.

Context {jerr : JwtServiceErrors}.

Lemma refresh_load_not_invalidating token : not_invalidating (refresh_load token).
Proof.
  unfold refresh_load. apply not_invalidating_bind; [auto with evo|]. intros c.
  apply not_invalidating_bind; [|intros ao; apply not_invalidating_bind; auto with evo].
  intros w w' Hr. by apply uc_find_errors in Hr as [? ?].
Qed.

Lemma token_matches_not_invalidating token claims a : not_invalidating (token_matches token claims a).
Proof.
  unfold token_matches, verify_io. destruct (find _ _); [|auto with evo]. apply not_invalidating_bind; [|auto with evo].
  apply not_invalidating_run_bounded. by intros w w' Hr%(f_equal fst).
Qed.

Lemma not_invalidating_expiry t n : not_invalidating (expiry t n).
Proof. unfold expiry. destruct (_ && _); auto with evo. Qed.

Lemma rotate_session_Err now id (tm : bool) nid h exp a e a' : rotate_session now id tm nid h exp a = (Err e, a') → a' = a.
Proof. unfold rotate_session. repeat case_match; congruence. Qed.

Lemma all_invalidated now a id s :
  agg_wf a → registry (agg_sessions a) !! id = Some s → id ∈ invalidated_ids (invalidate_all_active_sessions now a).
Proof.
  intros Hwf Hs. apply (invalidated_ids_spec _ _ (Session_invalidate s)); [by apply agg_wf_invalidate_all| |done].
  rewrite invalidate_all_eq. simpl. rewrite registry_invalidate_all. unfold spec_revoke_all. by rewrite lookup_fmap, Hs.
Qed.

Lemma refresh_rotate_invalidated token claims a w w' :
  refresh_rotate settings token claims a w = (Err SessionInvalidated, w') →
  ∃ now w1, w_db w1 = w_db w ∧ save_aggregate (invalidate_all_active_sessions now a) [] w1 = (Ok tt, w').
Proof.
  intros Hr. unfold refresh_rotate in Hr.
  apply bind_Err_inv in Hr as [Hr|(sid & w1 & R & Hr)]; [by apply not_invalidating_now_v7 in Hr|].
  pose proof (framed_now_v7 _ _ _ R) as (Hdb1 & _).
  apply bind_Err_inv in Hr as [Hr|(tp & w4 & R4 & Hr)]; [by apply generate_not_invalidating in Hr|].
  pose proof (generate_framed _ _ _ _ _ R4) as (Hdb4 & _).
  apply bind_Err_inv in Hr as [Hr|(t & w5 & R5 & Hr)]; [by apply not_invalidating_utc_now in Hr|].
  pose proof (framed_utc_now _ _ _ R5) as (Hdb5 & _).
  apply bind_Err_inv in Hr as [Hr|(exp & wx & Rx & Hr)]; [by apply not_invalidating_expiry in Hr|].
  apply expiry_Ok in Rx as [-> ->].
  apply bind_Err_inv in Hr as [Hr|(h & w6 & R6 & Hr)]; [by apply not_invalidating_hash in Hr|].
  pose proof (hash_refresh_token_framed _ _ _ _ _ R6) as (Hdb6 & _).
  apply bind_Err_inv in Hr as [Hr|(tm & w7 & R7 & Hr)]; [by apply token_matches_not_invalidating in Hr|].
  pose proof (token_matches_framed _ _ _ _ _ _ R7) as (Hdb7 & _).
  apply bind_Err_inv in Hr as [Hr|(now & w8 & R8 & Hr)]; [by apply not_invalidating_utc_now in Hr|].
  pose proof (framed_utc_now _ _ _ R8) as (Hdb8 & _).
  destruct (rotate_session _ _ _ _ _ _ a) as [[ns|e] a'] eqn:Hrot.
  { apply bind_Err_inv in Hr as [Hr|(? & w9 & _ & Hr)]; [by apply uc_save_errors in Hr as [? ?]|done]. }
  destruct e; try done. apply rotate_session_Err in Hrot as ->.
  apply bind_Err_inv in Hr as [Hr|(now2 & w9 & R9 & Hr)]; [by apply not_invalidating_utc_now in Hr|].
  pose proof (framed_utc_now _ _ _ R9) as (Hdb9 & _).
  apply bind_Err_inv in Hr as [Hr|([] & w10 & R10 & Hr)]; [by apply uc_save_errors in Hr as [? ?]|].
  injection Hr as <-. exists now2, w9. split; [congruence|done].
Qed.

(** A refresh that reports a revoked session has revoked all of them. *)
Lemma refresh_reuse_guarantee token w w' :
  good (w_db w) → refresh_token settings token w = (Err SessionInvalidated, w') →
  ∃ claims w1, validate_refresh_token token w = (Ok claims, w1) ∧
    ∀ id r, db_sessions (w_db w) !! id = Some r → sr_user_id r = rc_sub claims →
      db_sessions (w_db w') !! id = Some (row_deactivate r).
Proof.
  intros Hg Hr. unfold refresh_token in Hr.
  apply bind_Err_inv in Hr as [Hr|([claims a] & w2 & R & Hr)]; [by apply refresh_load_not_invalidating in Hr|].
  apply (refresh_load_guarantee _ _ _ _ _ Hg) in R as ((w1 & Hval) & Ho & Hid & _ & Hg2 & He2).
  exists claims, w1. split; [done|].
  apply refresh_rotate_invalidated in Hr as (now & w3 & Hdb3 & Hs).
  assert (Hg3 : good (w_db w3)) by by rewrite Hdb3.
  destruct (uc_save_keeping _ [] ltac:(by constructor) _ _ _ Hs Hg3) as (_ & He3 & _). rewrite Hdb3 in He3.
  apply (uc_save _ _ _ _ Hg3) in Hs as [_ Hrev]. intros id r Hr0 Hown.
  destruct (ob_complete _ _ _ Ho id r Hr0 ltac:(congruence)) as (s & Hs & Hrow).
  assert (Hin : id ∈ invalidated_ids (invalidate_all_active_sessions now a)) by (by eapply all_invalidated; [apply Ho|]).
  destruct He2 as [_ _ H12], He3 as [_ _ H23].
  destruct (H12 _ _ Hr0) as [H1'|H1']; destruct (H23 _ _ H1') as [H2'|H2']; rewrite H2'; try done.
  apply Hrev in H2'; [|done]. unfold row_deactivate. by destruct r; simpl in *; subst.
Qed.

End guarantees.

(** ** On the interleaved repository *)

Section concurrent.
Context `{UuidLib, BcryptLib, JwtLib, OthersSpec}.
Variable self : JwtServiceImpl.
Variable settings : AuthSettings.

Definition il_login : string → string → M AuthError LoginResult :=
  @login_with_password _ _ InterleavedUserRepo (JwtServiceImpl_service self) settings.

Definition il_refresh : string → M AuthError RefreshResult :=
  @refresh_token _ _ InterleavedUserRepo (JwtServiceImpl_service self) settings.

Definition il_logout : Uuid → Uuid → M AuthError (list Event) := @logout InterleavedUserRepo.

Definition il_google `{AuthProviderPort} : string → M AuthError LoginWithGoogleResult :=
  @login_with_google _ _ InterleavedUserRepo (JwtServiceImpl_service self) _ settings.

End concurrent.

(** Others that do nothing, and others that revoke every session there is. *)
Definition idle_others : Others := {| others w := w_db w |}.

Definition revoking_others : Others := {|
  others w := with_sessions (w_db w) (row_deactivate <$> db_sessions (w_db w)) |}.

#[export] Instance idle_others_spec : @OthersSpec idle_others.
Proof. by split. Qed.

Lemma revoke_rows_good db : good db → good (with_sessions db (row_deactivate <$> db_sessions db)).
Proof.
  intros ((Hu & Hs & Hf & He & Hn) & (Hrs & Hru) & Hro).
  assert (Hmap : ∀ P : Uuid → SessionRow → Prop, (∀ id r, P id r → P id (row_deactivate r)) →
    map_Forall P (db_sessions db) → map_Forall P (row_deactivate <$> db_sessions db)).
  { intros P HP HF id r'. rewrite lookup_fmap. intros (r & Hr & ->)%fmap_Some. by apply HP, HF. }
  split_and!; [split_and!; simpl; try done; by apply Hmap|split; simpl; [|done]|done].
  apply Hmap; [|done]. intros id r [s Hr]. exists (Session_invalidate s). by apply into_session_deactivate.
Qed.

#[export] Instance revoking_others_spec : @OthersSpec revoking_others.
Proof.
  split; intros w Hg; simpl; [by apply revoke_rows_good|]. split; simpl; [done..|].
  intros id r Hr. right. by rewrite lookup_fmap, Hr.
Qed.

(** ** Properties *)

(** C16. Sessions are sound beside other processes, whatever they do between any
    two statements of a request. A password login that succeeds returns the
    stored account with the given name, whose hash the password matches, and the
    session it opened, under an identifier that was not in use, is in the table,
    live and as inserted, even when the others revoke every session they find.
    A refresh that succeeds leaves the session it was presented for revoked, a
    session of the token's user whose hash matches the token, and the new session
    live; a refresh that reports [SessionInvalidated] leaves revoked every session
    that the token's user had when it began. A log-out that succeeds leaves its
    session revoked, and it is a session of the caller. A Google login that
    succeeds serves the stored account with the verified email address, with a
    session that is live and as inserted. *)
Theorem concurrent_sessions_sound `{UuidLib, BcryptLib, JwtLib, OthersSpec, AuthProviderSpec} self settings w :
  good (w_db w) →
  (∀ username password res w', il_login self settings username password w = (Ok res, w') →
     let u := lr_user res in
     db_users (w_db w') !! u_id u = Some (row_of_user u) ∧ u_username u = Some username ∧
     (∃ h, u_password_hash u = Some h ∧ bcrypt_verify password (hash_str h) = Ok true) ∧
     ∃ s t, issued_session settings w (u_id u) Password (lr_refresh_token res) s ∧ ns_id s = lr_session_id res ∧
       db_sessions (w_db w) !! ns_id s = None ∧ db_sessions (w_db w') !! ns_id s = Some (new_session_row t s)) ∧
  (∀ token r w', il_refresh self settings token w = (r, w') →
     match r with
     | Ok res => ∃ claims w1 s0 s t,
         jwt_validate_refresh self token w = (Ok claims, w1) ∧ s_user_id s0 = rc_sub claims ∧
         bcrypt_verify token (hash_str (s_refresh_token_hash s0)) = Ok true ∧
         db_sessions (w_db w') !! rc_session_id claims = Some (row_deactivate (row_of_session s0)) ∧
         issued_session settings w (rc_sub claims) (s_auth_method s0) (rf_refresh_token res) s ∧
         ns_id s = rf_session_id res ∧ db_sessions (w_db w') !! ns_id s = Some (new_session_row t s)
     | Err SessionInvalidated => ∃ claims w1,
         jwt_validate_refresh self token w = (Ok claims, w1) ∧
         ∀ id row, db_sessions (w_db w) !! id = Some row → sr_user_id row = rc_sub claims →
           db_sessions (w_db w') !! id = Some (row_deactivate row)
     | Err _ => True
     end) ∧
  (∀ uid sid evs w', il_logout uid sid w = (Ok evs, w') →
     ∃ s0, db_sessions (w_db w') !! sid = Some (row_deactivate (row_of_session s0)) ∧ s_user_id s0 = uid) ∧
  (∀ id_token res w', il_google self settings id_token w = (Ok res, w') →
     let u := lg_user res in
     ∃ info w1 s t, verify_id_token id_token w = (Ok info, w1) ∧ email_str (u_email u) = gu_email info ∧
       db_users (w_db w') !! u_id u = Some (row_of_user u) ∧
       issued_session settings w (u_id u) GoogleOAuth (lg_refresh_token res) s ∧ ns_id s = lg_session_id res ∧
       db_sessions (w_db w) !! ns_id s = None ∧ db_sessions (w_db w') !! ns_id s = Some (new_session_row t s)).
Proof.
  intros Hg. split_and!.
  - intros username password res w' Hr.
    apply (login_guarantee settings) in Hr as (h & now & Hu & Hn & Hh & Hv & (s & t & Hs) & _); [|done].
    destruct Hs as (Hi & Hid & _ & Hf & Hrow). rewrite <- Hid in Hf, Hrow. split_and!; try done; [by eexists|by exists s, t].
  - intros token [res|[]] w' Hr; try done.
    + apply (refresh_guarantee settings) in Hr as (claims & w1 & s0 & now & Hv & Hu & _ & _ & _ & Hb & Hrow & (s & t & Hs) & _);
        [|done]. destruct Hs as (Hi & Hid & _ & _ & Hnew). exists claims, w1, s0, s, t. rewrite <- Hid in Hnew. by split_and!.
    + by apply (refresh_reuse_guarantee settings) in Hr.
  - intros uid sid evs w' Hl. apply logout_guarantee in Hl as (s0 & now & Hrow & Hu & _); [|done]. by exists s0.
  - intros id_token res w' Hr.
    apply (google_guarantee settings) in Hr as (info & w1 & now & now2 & Hv & He & Hu & (s & t & Hs) & _); [|done].
    destruct Hs as (Hi & Hid & _ & Hf & Hrow). rewrite <- Hid in Hf, Hrow. by exists info, w1, s, t.
Qed.

(** *** Witnesses *)

Lemma login_db_good : good login_db.
Proof. split_and!; [apply login_db_ok|apply login_db_readable|]. by intros id r Hr. Qed.

(** The concrete deployment of [UseCases.v], beside the others that revoke all. *)
Definition demo_self : JwtServiceImpl :=
  JwtServiceImpl_new (jwt_secret demo_settings) (access_token_expiry_minutes demo_settings)
    (refresh_token_expiry_days demo_settings) (jwt_issuer demo_settings) (jwt_audience demo_settings).

Definition beside_login (o : Others) : result AuthError LoginResult * World :=
  @il_login toy_uuid toy_bcrypt toy_jwt o demo_self demo_settings "jdoe" "secret" login_world.

Definition beside_refresh (o : Others) : result AuthError RefreshResult * World :=
  @il_refresh toy_uuid toy_bcrypt toy_jwt o demo_self demo_settings demo_token (demo_login "secret").2.

Definition beside_google (o : Others) : result AuthError LoginWithGoogleResult * World :=
  @il_google toy_uuid toy_bcrypt toy_jwt o demo_self demo_settings demo_google "good" login_world.

Lemma demo_login_good : good (w_db (demo_login "secret").2).
Proof.
  split_and!; [apply demo_login_db_ok|apply demo_login_readable|].
  assert (db_roles (w_db (demo_login "secret").2) = ∅) as Hr by (vm_compute; reflexivity).
  unfold roles_ok. rewrite Hr. apply map_Forall_empty.
Qed.

(** A log-in beside others that revoke every session, and a refresh beside idle
    ones. *)
Lemma concurrent_sessions_sound_witness :
  (∃ res w', beside_login revoking_others = (Ok res, w') ∧
     ∃ s t, db_sessions (w_db w') !! lr_session_id res = Some (new_session_row t s)) ∧
  (∃ res w', beside_refresh idle_others = (Ok res, w') ∧
     ∃ id row, db_sessions (w_db w') !! id = Some row ∧ sr_is_active row = false) ∧
  (∃ res w', beside_google revoking_others = (Ok res, w') ∧
     email_str (u_email (lg_user res)) = "new@example.com"%string).
Proof.
  split_and!.
  - destruct (beside_login revoking_others) as [[res|e] w'] eqn:E.
    2:{ assert (is_ok (beside_login revoking_others).1 = true) as Hk by (vm_compute; reflexivity). rewrite E in Hk. discriminate Hk. }
    destruct (@concurrent_sessions_sound toy_uuid toy_bcrypt toy_jwt revoking_others revoking_others_spec demo_google demo_google_spec demo_self demo_settings
      login_world login_db_good) as [Hl _]. destruct (Hl _ _ _ _ E) as (_ & _ & _ & s & t & _ & Hid & _ & Hs).
    exists res, w'. split; [reflexivity|]. exists s, t. rewrite <- Hid. exact Hs.
  - destruct (beside_refresh idle_others) as [[res|e] w'] eqn:E.
    2:{ assert (is_ok (beside_refresh idle_others).1 = true) as Hk by (vm_compute; reflexivity). rewrite E in Hk. discriminate Hk. }
    destruct (@concurrent_sessions_sound toy_uuid toy_bcrypt toy_jwt idle_others idle_others_spec demo_google demo_google_spec demo_self demo_settings
      (demo_login "secret").2 demo_login_good) as (_ & Hf & _).
    destruct (Hf _ _ _ E) as (claims & w1 & s0 & s & t & _ & _ & _ & Hrow & _).
    exists res, w'. split; [reflexivity|]. eexists _, _. split; [exact Hrow|reflexivity].
  - destruct (beside_google revoking_others) as [[res|e] w'] eqn:E.
    2:{ assert (is_ok (beside_google revoking_others).1 = true) as Hk by (vm_compute; reflexivity). rewrite E in Hk. discriminate Hk. }
    destruct (@concurrent_sessions_sound toy_uuid toy_bcrypt toy_jwt revoking_others revoking_others_spec demo_google
      demo_google_spec demo_self demo_settings login_world login_db_good) as (_ & _ & _ & Hgo).
    destruct (Hgo _ _ _ E) as (info & w1 & s & t & Hv & He & _). injection Hv as <- _.
    exists res, w'. split; [reflexivity|]. exact He.
Defined.

(** Beside the others that revoke everything, the same refresh finds its session
    revoked. *)
Example refresh_beside_revokers : (beside_refresh revoking_others).1 = Err SessionInvalidated.
Proof. vm_compute. reflexivity. Qed.
