(* ===== verification/AuthRoutes.v ===== *)
(** * The handlers of the auth context

    [crates/auth/src/adapters/inbound]: password and Google login, refresh and
    logout, from the parsed request to the response, with their rate limits,
    published events and the revocation of the presented access token. *)

From S2P Require Import Prelude RustStr ValueObjects Entities Aggregate Database Effects UserRepo.
From S2P Require Import Bcrypt AuthSettings Jwt UseCases Net RateLimiter Blacklist Http.

Definition MAX_USERNAME_LEN : Z := 256.
Definition MAX_PASSWORD_LEN : Z := 4096.
Definition MAX_REFRESH_TOKEN_LEN : Z := 8192.
Definition MAX_ID_TOKEN_LEN : Z := 16384.
Definition JWT_EXP_LEEWAY_SECS : Z := 60.

(** [(exp + JWT_EXP_LEEWAY_SECS - now).max(0) as u64], on [i64]. *)
Definition revocation_ttl_secs (exp now : Z) : Z :=
  Z.max (wrap_i64 (wrap_i64 (exp + JWT_EXP_LEEWAY_SECS) - now)) 0.

Definition error_response (status : Z) (error : string) : Response Body :=
  MkResponse status (ErrorResponse error).

Section handlers.
Context `{UuidLib, BcryptLib, UserRepository, JwtService, AuthProviderPort}.
Context {L B Env : Type} `{RateLimiter L, AccessTokenBlacklist B Env}.
Variable auth_settings : AuthSettings.
Variable trusted_proxy_ips : list IpAddr.

(** [state.rate_limiter.try_check_and_record(ip).await] and [.reset(ip).await]. *)
Definition try_login (ip : IpAddr) : H L B bool :=
  t1 ← now; t2 ← now; on_login_limiter (rl_try_check_and_record t1 t2 ip).

Definition try_refresh (ip : IpAddr) : H L B bool :=
  t1 ← now; t2 ← now; on_refresh_limiter (rl_try_check_and_record t1 t2 ip).

Definition reset_login (ip : IpAddr) : H L B unit := on_login_limiter (λ l, (tt, rl_reset ip l)).

Definition reset_refresh (ip : IpAddr) : H L B unit := on_refresh_limiter (λ l, (tt, rl_reset ip l)).

Definition pause (ms : Z) : H L B (result AuthError unit) := call (sleep ms).

Definition login_fields_invalid (username password : string) : bool :=
  is_empty username || is_empty password || (MAX_USERNAME_LEN <? str_len username) ||
  (MAX_PASSWORD_LEN <? str_len password).

Definition login_password_handler (peer : IpAddr) (headers : HeaderMap) (username password : string)
    : H L B (Response Body) :=
  let ip := resolve_client_ip peer headers trusted_proxy_ips in
  if login_fields_invalid username password then
    _ ← pause 50;
    mret (error_response 422 "Username and password are required and must not exceed 256 and 4096 characters respectively")
  else
    allowed ← try_login ip;
    if negb allowed then mret (error_response 429 "Too many login attempts. Please try again later.")
    else
      r ← call (login_with_password auth_settings username password);
      match r with
      | Ok result =>
          _ ← reset_login ip;
          _ ← publish_all (lr_events result);
          mret (MkResponse 200 (AuthTokensResponse "authenticated" (uuid_to_string (u_id (lr_user result)))
                                  (lr_access_token result) (lr_refresh_token result)))
      | Err InvalidCredentials =>
          _ ← pause 50; mret (error_response 401 "Invalid username or password")
      | Err _ =>
          _ ← pause 50; mret (error_response 500 "Internal server error")
      end.

Definition login_google_handler (peer : IpAddr) (headers : HeaderMap) (id_token : string)
    : H L B (Response Body) :=
  let ip := resolve_client_ip peer headers trusted_proxy_ips in
  if is_empty id_token || (MAX_ID_TOKEN_LEN <? str_len id_token) then
    mret (error_response 422 "ID token is required and must not exceed 16384 characters")
  else
    allowed ← try_login ip;
    if negb allowed then mret (error_response 429 "Too many login attempts. Please try again later.")
    else
      r ← call (login_with_google auth_settings id_token);
      match r with
      | Ok result =>
          _ ← reset_login ip;
          _ ← publish_all (lg_events result);
          mret (MkResponse 200 (GoogleAuthResponse "authenticated" (uuid_to_string (u_id (lg_user result)))
                                  (lg_access_token result) (lg_refresh_token result) (lg_is_new_user result)))
      | Err TokenVerificationFailed => mret (error_response 401 "Authentication failed")
      | Err _ => mret (error_response 500 "Internal server error")
      end.

(** The [Err] arms of the refresh handler. *)
Definition refresh_error_response (e : AuthError) : Response Body :=
  match e with
  | InvalidRefreshToken => error_response 401 "Invalid or expired refresh token"
  | TokenVerificationFailed => error_response 401 "Invalid refresh token"
  | SessionExpired | SessionInvalidated => error_response 401 "Session has expired"
  | UserNotFound => error_response 401 "Invalid or expired refresh token"
  | SessionNotFound => error_response 401 "Invalid or expired refresh token"
  | _ => error_response 500 "Internal server error"
  end.

Definition refresh_token_handler (peer : IpAddr) (headers : HeaderMap) (token : string)
    : H L B (Response Body) :=
  let ip := resolve_client_ip peer headers trusted_proxy_ips in
  if is_empty token || (MAX_REFRESH_TOKEN_LEN <? str_len token) then
    mret (error_response 422 "refresh_token is required and must not exceed 8192 characters")
  else
    allowed ← try_refresh ip;
    if negb allowed then mret (error_response 429 "Too many refresh attempts. Please try again later.")
    else
      r ← call (refresh_token auth_settings token);
      match r with
      | Ok result =>
          _ ← reset_refresh ip;
          _ ← publish_all (rf_events result);
          mret (MkResponse 200 (RefreshResponse (rf_access_token result) (rf_refresh_token result)))
      | Err e => mret (refresh_error_response e)
      end.

(** The [Err] arms of the logout handler. *)
Definition logout_error_response (e : AuthError) : Response Body :=
  match e with
  | UserNotFound => error_response 401 "Authentication required"
  | SessionNotFound | SessionInvalidated | SessionExpired => error_response 400 "Invalid session"
  | _ => error_response 500 "Internal server error"
  end.

(** [env] is the outcome of the revocation's round trips. *)
Definition logout_handler (env : Env) (session_id : Uuid) (auth_user : AuthenticatedUser)
    : H L B (Response Body) :=
  r ← call (logout (au_user_id auth_user) session_id);
  match r with
  | Ok events =>
      _ ← publish_all events;
      t ← now;
      let ttl_secs := revocation_ttl_secs (au_exp auth_user) (timestamp t) in
      t' ← now;
      _ ← on_blacklist (bl_revoke env t' (au_jti auth_user) ttl_secs);
      mret (MkResponse 200 (StatusResponse "logged_out"))
  | Err e => mret (logout_error_response e)
  end.

End handlers.

(** ** Lemmas *)

Ltac h_run := unfold mbind, H_bind, mret, H_ret, call, now, on_login_limiter, on_refresh_limiter,
  on_blacklist, publish_all in *; simpl in *.

Section limits.
Context {L B : Type} `{RateLimiter L}.

(** What a rate limiter decides for an address, at the two readings it takes. *)
Definition login_decision (ip : IpAddr) (s : Srv L B) : bool := (try_login ip s).1.
Definition refresh_decision (ip : IpAddr) (s : Srv L B) : bool := (try_refresh ip s).1.

(** Nothing but the clock and the rate limiters moved. *)
Definition only_limited (s s' : Srv L B) : Prop :=
  w_db (sv_world s') = w_db (sv_world s) ∧ w_work (sv_world s') = w_work (sv_world s) ∧
  sv_bus s' = sv_bus s ∧ sv_blacklist s' = sv_blacklist s.

Lemma try_login_only ip s : only_limited s (try_login ip s).2.
Proof. unfold try_login. h_run. by destruct (rl_try_check_and_record _ _ _ _). Qed.

Lemma try_refresh_only ip s : only_limited s (try_refresh ip s).2.
Proof. unfold try_refresh. h_run. by destruct (rl_try_check_and_record _ _ _ _). Qed.

End limits.

Section extractor_inv.
Context `{UuidLib, JwtLib} {L B Env : Type} `{AccessTokenBlacklist B Env}.

Lemma from_request_parts_Ok env ver ext headers (s : Srv L B) u s' :
  from_request_parts env ver ext headers s = (Ok u, s') →
  ∃ token v claims t,
    bearer_token headers = Some token ∧ ver = Some v ∧ ext = true ∧
    jwt_decode (jv_secret v) (validation v) (timestamp (reading (sv_world s))) token = Some claims ∧
    request_of_json claims = Some (MkRequestClaims (au_user_id u) (au_jti u) (au_exp u)) ∧
    reading (sv_world s) ≤ t ∧ w_clock (sv_world s') = t ∧
    (bl_is_revoked env t (au_jti u) (sv_blacklist s)).1 ≠ Ok true ∧
    sv_blacklist s' = (bl_is_revoked env t (au_jti u) (sv_blacklist s)).2 ∧
    w_db (sv_world s') = w_db (sv_world s) ∧ sv_bus s' = sv_bus s.
Proof.
  unfold from_request_parts. destruct (bearer_token headers) as [token|] eqn:Htok; [|done].
  destruct ver as [v|]; [|done]. destruct ext; [|done]. h_run. unfold decode, mbind, M_bind, utc_now, mret, M_ret. simpl.
  destruct (jwt_decode _ _ _ token) as [claims|] eqn:Hdec; simpl; [|done].
  destruct (request_of_json claims) as [rc|] eqn:Hrc; simpl; [|done].
  set (w1 := with_time _ _ _). destruct (bl_is_revoked env (reading w1) (qc_jti rc) (sv_blacklist s)) as [r b] eqn:Hbl.
  simpl. intros Hr. assert (Hne : r ≠ Ok true) by by intros ->.
  assert (Hu : u = MkAuthenticatedUser (qc_sub rc) (qc_jti rc) (qc_exp rc) ∧
               s' = MkSrv (with_time w1 (reading w1) (tail (w_ticks w1))) (sv_login_limiter s)
                      (sv_refresh_limiter s) (sv_bus s) b).
  { destruct r as [[]|]; [done|by injection Hr as <- <-..]. }
  destruct Hu as [-> ->]. exists token, v, claims, (reading w1). simpl. rewrite Hbl. simpl.
  split_and!; try done; [by destruct rc|]. subst w1. simpl. etrans; [|apply reading_ge]. done.
Qed.

End extractor_inv.

(** ** Properties *)

(** C17. Only a valid bearer token authenticates: a request accepted by the
    extractor carries a token that decodes under the configured secret, whose
    [sub], [jti] and [exp] are the user's, that expired at most the leeway ago,
    was issued by and for the configured parties, and that the revocation list
    did not report as revoked. *)
Theorem authenticated_user_sound `{UuidLib, JwtSpec} {B Env L} `{AccessTokenBlacklist B Env}
    env ver ext headers (s : Srv L B) u s' :
  from_request_parts env ver ext headers s = (Ok u, s') →
  ∃ token v claims t,
    header_str "authorization" headers = Some (String.append "Bearer " token) ∧ ver = Some v ∧
    jwt_decode (jv_secret v) (validation v) (timestamp (reading (sv_world s))) token = Some claims ∧
    get_uuid "sub" claims = Some (au_user_id u) ∧ get_uuid "jti" claims = Some (au_jti u) ∧
    get_i64 "exp" claims = Some (au_exp u) ∧
    timestamp (reading (sv_world s)) - JWT_EXP_LEEWAY_SECS ≤ au_exp u ∧
    claim_in [issuer v] (claims !! "iss"%string) = true ∧
    claim_in [audience v] (claims !! "aud"%string) = true ∧
    (bl_is_revoked env t (au_jti u) (sv_blacklist s)).1 ≠ Ok true ∧
    w_db (sv_world s') = w_db (sv_world s).
Proof.
  intros Hr. apply from_request_parts_Ok in Hr
    as (token & v & claims & t & Htok & Hv & _ & Hdec & Hrc & _ & _ & Hne & _ & Hdb & _).
  exists token, v, claims, t.
  assert (Hh : header_str "authorization" headers = Some (String.append "Bearer " token)).
  { unfold bearer_token in Htok. destruct (header_str _ _) as [h|]; [|done]. simpl in Htok.
    f_equal. by apply strip_prefix_Some. }
  unfold request_of_json in Hrc. apply bind_Some in Hrc as (sub & Hsub & Hrc).
  apply bind_Some in Hrc as (jti & Hjti & Hrc). apply bind_Some in Hrc as (e & Hexp & Hrc).
  injection Hrc as Hs Hj He. pose proof (jwt_decode_valid _ _ _ _ _ Hdec) as Hval.
  unfold claims_valid in Hval. rewrite !andb_true_iff in Hval. destruct Hval as [[[_ Hx] Hiss] Haud].
  split_and!; try done; try congruence.
  unfold get_i64 in Hexp. destruct (claims !! "exp"%string) as [[]|] eqn:Hc; try done.
  simpl in Hx. apply Z.leb_le in Hx. unfold JWT_EXP_LEEWAY_SECS. simplify_eq. done.
Qed.

(** Operations of other requests on the revocation list before the token [j] ends. *)
Definition list_op {B Env} `{AccessTokenBlacklist B Env} (D : Uuid → Z) (j : Uuid) (b b' : B) : Prop :=
  (∃ env t k r, t < D j ∧ bl_is_revoked env t k b = (r, b')) ∨
  (∃ env t k secs r, t < D j ∧ 0 ≤ secs ∧ (j = k → D j ≤ t + from_secs secs) ∧
     bl_revoke env t k secs b = (r, b')).

Lemma list_ops_safe {B Env} `{BlacklistLaws B Env D} j b b' :
  rtc (list_op D j) b b' → bl_safe j b → bl_safe j b'.
Proof.
  induction 1 as [|x y z [(env & t & k & r & Ht & Hop)|(env & t & k & secs & r & Ht & Hs & Hd & Hop)] _ IH];
    [done|intros Hx; apply IH..].
  - by eapply bl_check_keeps.
  - by eapply (bl_revoke_keeps env t j k).
Qed.

(** The time to live handed to [revoke] keeps the blacklist's contract. *)
Lemma revocation_ttl_reaches exp t t' :
  0 ≤ exp → exp + JWT_EXP_LEEWAY_SECS ≤ I64_MAX → 0 ≤ t → t ≤ t' →
  from_secs (exp + JWT_EXP_LEEWAY_SECS) ≤ t' + from_secs (revocation_ttl_secs exp (timestamp t)).
Proof.
  unfold revocation_ttl_secs, JWT_EXP_LEEWAY_SECS, timestamp, from_secs, I64_MAX. intros He Hm Ht Ht'.
  pose proof (Z.mul_div_le t SECOND ltac:(done)) as Hdiv.
  assert (0 ≤ t / SECOND) by (apply Z.div_pos; [lia|done]).
  rewrite (wrap_i64_id (exp + 60)) by (split; [|done]; unfold I64_MIN; lia).
  destruct (Z_le_gt_dec (t / SECOND) (exp + 60)) as [Hle|Hgt].
  - rewrite wrap_i64_id by (split; unfold I64_MIN, I64_MAX; lia). nia.
  - assert (SECOND * (exp + 60) ≤ SECOND * (t / SECOND)) by (unfold SECOND in *; lia).
    assert (0 ≤ Z.max (wrap_i64 (exp + 60 - t / SECOND)) 0 * SECOND) by (unfold SECOND; lia). lia.
Qed.

(** The logout use case never sets the clock back. *)
Lemma logout_advancing `{UuidLib} uid sid : advancing (logout uid sid).
Proof.
  unfold logout. apply advancing_bind; [apply find_aggregate_advancing|]. intros o.
  apply advancing_bind; [auto with svc|]. intros a. apply advancing_bind; [auto with svc|]. intros t.
  destruct (invalidate_session t sid a) as [r a']. apply advancing_bind; [auto with svc|]. intros _.
  apply advancing_bind; [apply save_aggregate_advancing|]. auto with svc.
Qed.

(** The revocation a successful logout asks for. *)
Lemma logout_handler_200 `{UuidLib} {L B Env} `{AccessTokenBlacklist B Env} env sid u (s s1 : Srv L B) resp :
  logout_handler env sid u s = (resp, s1) → rs_status resp = 200 →
  ∃ t t', w_clock (sv_world s) ≤ t ∧ t ≤ t' ∧ w_clock (sv_world s1) = t' ∧
    sv_blacklist s1 =
      (bl_revoke env t' (au_jti u) (revocation_ttl_secs (au_exp u) (timestamp t)) (sv_blacklist s)).2.
Proof.
  unfold logout_handler. unfold mbind, H_bind, call. intros Hr Hst.
  destruct (logout (au_user_id u) sid (sv_world s)) as [[evs|e] w1] eqn:E.
  - h_run. destruct (bl_revoke _ _ _ _ _) as [r b] eqn:Hb. injection Hr as <- <-.
    exists (reading w1), (reading (with_time w1 (reading w1) (tail (w_ticks w1)))). simpl. rewrite Hb.
    split_and!; try done; [|exact (reading_ge (with_time w1 (reading w1) (tail (w_ticks w1))))].
    apply logout_advancing in E as [Hc _]. pose proof (reading_ge w1). lia.
  - injection Hr as <- <-. by destruct e.
Qed.

(** C7. A logged-out access token is dead. If logout answered 200 and the
    revocation list accepted the revocation, then no later request carrying a
    token with that [jti] is authenticated while the list answers, whatever other
    requests did to the list in between, before [exp] plus the leeway. *)
Theorem logged_out_token_rejected `{UuidLib, JwtLib} {L L' B Env} `{BlacklistLaws B Env D}
    env sid u (s s1 : Srv L B) resp env' ver ext headers (s2 s3 : Srv L' B) u' :
  let ends := from_secs (au_exp u + JWT_EXP_LEEWAY_SECS) in
  logout_handler env sid u s = (resp, s1) → rs_status resp = 200 →
  (∀ t j secs b, (bl_revoke env t j secs b).1 = Ok tt) →
  D (au_jti u) = ends → 0 ≤ au_exp u → au_exp u + JWT_EXP_LEEWAY_SECS ≤ I64_MAX →
  0 ≤ w_clock (sv_world s) → w_clock (sv_world s1) ≤ w_clock (sv_world s2) →
  rtc (list_op D (au_jti u)) (sv_blacklist s1) (sv_blacklist s2) →
  (∀ t j b, is_ok (bl_is_revoked env' t j b).1 = true) →
  from_request_parts env' ver ext headers s2 = (Ok u', s3) → au_jti u' = au_jti u →
  ends ≤ w_clock (sv_world s3).
Proof.
  intros ends Hlog H200 Hacc HD He Hmax Hpos Hclock Hops Hans Hreq Hjti.
  destruct (logout_handler_200 _ _ _ _ _ _ Hlog H200) as (t & t' & Ht & Ht' & Hc1 & Hb1).
  apply from_request_parts_Ok in Hreq
    as (token & v & claims & tc & _ & _ & _ & _ & _ & Hge & Hc3 & Hne & _). rewrite Hjti in Hne.
  apply Z.nlt_ge. intros Hlt. rewrite Hc3 in Hlt. pose proof (reading_ge (sv_world s2)).
  assert (Hsafe : bl_safe (au_jti u) (sv_blacklist s1)).
  { specialize (Hacc t' (au_jti u) (revocation_ttl_secs (au_exp u) (timestamp t)) (sv_blacklist s)).
    destruct (bl_revoke _ _ _ _ _) as [r b] eqn:Hb. simpl in *. subst.
    eapply (bl_revoke_safe env (w_clock (sv_world s1)) (au_jti u)); [| |done].
    - rewrite HD. fold ends. lia.
    - rewrite HD. apply revocation_ttl_reaches; lia. }
  apply (list_ops_safe _ _ _ Hops) in Hsafe. specialize (Hans tc (au_jti u) (sv_blacklist s2)).
  destruct (bl_is_revoked env' tc (au_jti u) (sv_blacklist s2)) as [r b] eqn:Hb. simpl in *.
  pose proof (bl_check_safe env' tc (au_jti u) _ _ _ ltac:(rewrite HD; done) Hsafe Hb).
  by destruct r as [[]|].
Qed.

(** On the three limited routes, when the limiter refuses the resolved client
    address the answer to a well-formed request is 429 and the database, the
    revocation list, the event bus and the CPU-bound work done are as before. *)
Lemma limited_requests
    `{UuidLib, BcryptLib, UserRepository, JwtService, AuthProviderPort} {L B} `{RateLimiter L}
    settings trusted peer headers (s : Srv L B) :
  let ip := resolve_client_ip peer headers trusted in
  (login_decision ip s = false →
     (∀ username password, login_fields_invalid username password = false →
        let out := login_password_handler settings trusted peer headers username password s in
        rs_status out.1 = 429 ∧ only_limited s out.2) ∧
     (∀ id_token, id_token ≠ EmptyString → str_len id_token ≤ MAX_ID_TOKEN_LEN →
        let out := login_google_handler settings trusted peer headers id_token s in
        rs_status out.1 = 429 ∧ only_limited s out.2)) ∧
  (refresh_decision ip s = false →
     ∀ token, token ≠ EmptyString → str_len token ≤ MAX_REFRESH_TOKEN_LEN →
       let out := refresh_token_handler settings trusted peer headers token s in
       rs_status out.1 = 429 ∧ only_limited s out.2).
Proof.
  assert (Hne : ∀ t m, t ≠ EmptyString → str_len t ≤ m → is_empty t || (m <? str_len t) = false).
  { intros t m Ht Hm. apply orb_false_iff. split; [|by apply Z.ltb_ge].
    destruct (is_empty t) eqn:E; [by apply is_empty_spec in E|done]. }
  intros ip. unfold login_decision, refresh_decision. fold ip.
  pose proof (try_login_only ip s). pose proof (try_refresh_only ip s).
  split; [intros Hd; split|intros Hd].
  - intros username password Hf. unfold login_password_handler. rewrite Hf. unfold mbind, H_bind. fold ip.
    destruct (try_login ip s) as [b s1]. simpl in *. subst b. done.
  - intros id_token Hn Hl. unfold login_google_handler. rewrite (Hne _ _ Hn Hl). unfold mbind, H_bind. fold ip.
    destruct (try_login ip s) as [b s1]. simpl in *. subst b. done.
  - intros token Hn Hl. unfold refresh_token_handler. rewrite (Hne _ _ Hn Hl). unfold mbind, H_bind. fold ip.
    destruct (try_refresh ip s) as [b s1]. simpl in *. subst b. done.
Qed.

(** A 200 from the password login was earned: the limiter had a slot for the
    client, the account answered with is stored under the given username and
    bcrypt accepted the given password for its hash, and one login event was
    published; any other answer publishes nothing and keeps the attempt on the
    limiter's account. *)
Theorem login_handler_sound `{UuidLib, BcryptLib, JwtServiceSpec} {provider : AuthProviderPort} {L B} `{RateLimiter L}
    settings trusted peer headers username password (s : Srv L B) resp s' :
  db_ok (w_db (sv_world s)) →
  login_password_handler settings trusted peer headers username password s = (resp, s') →
  let ip := resolve_client_ip peer headers trusted in
  (rs_status resp = 200 →
     login_decision ip s = true ∧
     ∃ u h ev access refresh, u_username u = Some username ∧
       db_users (w_db (sv_world s)) !! u_id u = Some (row_of_user u) ∧
       u_password_hash u = Some h ∧ bcrypt_verify password (hash_str h) = Ok true ∧
       rs_body resp = AuthTokensResponse "authenticated" (uuid_to_string (u_id u)) access refresh ∧
       sv_bus s' = sv_bus s ++ [EvUserLoggedIn ev] ∧ uli_user_id ev = u_id u) ∧
  (rs_status resp ≠ 200 →
     sv_bus s' = sv_bus s ∧
     (login_fields_invalid username password = false →
        sv_login_limiter s' = sv_login_limiter (try_login ip s).2)).
Proof.
  intros Hok Hr ip. unfold login_password_handler in Hr. fold ip in Hr.
  destruct (login_fields_invalid username password).
  { unfold mbind, H_bind, pause, call in Hr. injection Hr as <- <-. done. }
  pose proof (try_login_only ip s) as (Hdb & _ & Hbus & _). unfold login_decision.
  unfold mbind, H_bind in Hr. destruct (try_login ip s) as [[] s1] eqn:Et; simpl in *;
    [|injection Hr as <- <-; by split].
  unfold call in Hr. destruct (login_with_password settings username password (sv_world s1)) as [r w2] eqn:El.
  destruct r as [result|e].
  - unfold reset_login, on_login_limiter, publish_all in Hr. simpl in Hr. injection Hr as <- <-. simpl.
    split; [|done]. intros _. split; [done|]. rewrite <- Hdb in Hok.
    destruct (login_cases _ _ _ _ _ _ Hok El) as [(? & _)|(u & h & sess & tp & t1 & t2 & Heq & Hrest)]; [done|].
    injection Heq as ->. simpl. rewrite Hdb in Hrest.
    destruct Hrest as (? & ? & ? & ? & _).
    eexists u, h, _, _, _. split_and!; [done|done|done|done|done| |]. by rewrite Hbus. done.
  - unfold pause, call in Hr. destruct e; simpl in Hr; injection Hr as <- <-; simpl; by split.
Qed.

(** ** A concrete deployment for the witnesses *)

(** A token library that knows one token, with the claims [c]. *)
Definition one_token_jwt (c : Claims) : JwtLib := {|
  jwt_encode := λ _ _, Err "unsupported"%string;
  jwt_decode := λ _ v now t, if bool_decide (t = "tok"%string) && claims_valid v now c then Some c else None |}.

Lemma one_token_jwt_spec c : @JwtSpec (one_token_jwt c).
Proof.
  split; simpl; [|done]. intros _ v now t c'. destruct (bool_decide _); [|done]. simpl.
  destruct (claims_valid v now c) eqn:E; [|done]. by intros [= <-].
Qed.

Definition demo_claims : Claims :=
  {["sub" := JStr (@uuid_to_string toy_uuid 7%N); "jti" := JStr (@uuid_to_string toy_uuid 9%N);
    "exp" := JInt 1800; "iss" := JStr "svc"; "aud" := JStr "svc"]}%string.

Definition demo_verification : JwtVerification := MkJwtVerification "secret" "svc" "svc".

Definition demo_headers : HeaderMap := [("authorization", "Bearer tok")]%string.

(** User 7 with the open session 5. *)
Definition logout_db : Db :=
  with_sessions login_db {[5%N := MkSessionRow 5%N 7%N "h" (from_secs 100000) true 0 "password"]}.

Definition demo_srv (db : Db) (t : Z) (m : gmap Uuid RevokedEntry) : Srv unit (gmap Uuid RevokedEntry) :=
  MkSrv (fresh_world db t) tt tt [] m.

Definition demo_request (s : Srv unit (gmap Uuid RevokedEntry))
    : result AuthRejection AuthenticatedUser * Srv unit (gmap Uuid RevokedEntry) :=
  @from_request_parts unit _ unit toy_uuid (one_token_jwt demo_claims) MemoryBlacklist_port
    tt (Some demo_verification) true demo_headers s.

Definition demo_logout (s : Srv unit (gmap Uuid RevokedEntry))
    : Response Body * Srv unit (gmap Uuid RevokedEntry) :=
  @logout_handler (@PostgresUserRepo toy_uuid) unit _ unit MemoryBlacklist_port
    tt 5%N (MkAuthenticatedUser 7%N 9%N 1800) s.

Lemma authenticated_user_sound_witness :
  ∃ token, header_str "authorization" demo_headers = Some (String.append "Bearer " token) ∧
    (memory_is_revoked (from_secs 1000) 9%N ∅).1 ≠ Ok true.
Proof.
  destruct (demo_request (demo_srv logout_db (from_secs 1000) ∅)) as [r s'] eqn:E.
  assert (r = Ok (MkAuthenticatedUser 7%N 9%N 1800)) as ->.
  { apply (f_equal fst) in E. simpl in E. rewrite <- E. vm_compute. reflexivity. }
  destruct (@authenticated_user_sound toy_uuid (one_token_jwt demo_claims) (one_token_jwt_spec demo_claims)
    _ unit unit MemoryBlacklist_port tt (Some demo_verification) true demo_headers _ _ _ E)
    as (token & v & claims & t & Htok & _).
  exists token. split; [exact Htok|by vm_compute].
Defined.

Definition demo_ends : Uuid → Z := λ _, from_secs 1860.

(** The world and the list after a logout at 1000 s, and a request at 1860.3 s. *)
Definition demo_after_logout : Srv unit (gmap Uuid RevokedEntry) :=
  (demo_logout (demo_srv logout_db (from_secs 1000) ∅)).2.

Definition demo_late : Srv unit (gmap Uuid RevokedEntry) :=
  demo_srv logout_db 1860300000 (sv_blacklist demo_after_logout).

Lemma logged_out_token_rejected_witness :
  (demo_logout (demo_srv logout_db (from_secs 1000) ∅)).1 = MkResponse 200 (StatusResponse "logged_out") ∧
  from_secs 1860 ≤ w_clock (sv_world (demo_request demo_late).2).
Proof.
  split; [vm_compute; reflexivity|].
  assert (demo_request demo_late = (Ok (MkAuthenticatedUser 7%N 9%N 1800), (demo_request demo_late).2)) as Hreq
    by (vm_compute; reflexivity).
  refine (@logged_out_token_rejected toy_uuid (one_token_jwt demo_claims) unit unit _ unit MemoryBlacklist_port
    demo_ends (memory_laws demo_ends) tt 5%N (MkAuthenticatedUser 7%N 9%N 1800)
    (demo_srv logout_db (from_secs 1000) ∅) demo_after_logout
    (demo_logout (demo_srv logout_db (from_secs 1000) ∅)).1
    tt (Some demo_verification) true demo_headers demo_late _ _ _ _ _ _ _ _ _ _ _ _ Hreq eq_refl).
  - unfold demo_after_logout, demo_logout. by destruct (logout_handler _ _ _ _).
  - vm_compute. reflexivity.
  - done.
  - done.
  - simpl. lia.
  - by vm_compute.
  - by vm_compute.
  - by vm_compute.
  - apply rtc_refl.
  - intros t j b. simpl. unfold memory_is_revoked. destruct (is_revoked_fast t j b); [done|].
    by destruct (is_revoked_slow t j b).
Defined.

(** The entry outlives the token only up to the fraction of a second at which
    logout happened: [exp] and the leeway are whole seconds, and the token
    validates during the whole second [exp + 60]. Logged out at 1000.5 s, the token
    of [exp] 1800 authenticates again at 1860.7 s. *)
Theorem revoked_token_revalidates :
  let s1 := (demo_logout (demo_srv logout_db 1000500000 ∅)).2 in
  (demo_logout (demo_srv logout_db 1000500000 ∅)).1 = MkResponse 200 (StatusResponse "logged_out") ∧
  (demo_request (demo_srv logout_db 1860300000 (sv_blacklist s1))).1 = Err MkAuthRejection ∧
  (demo_request (demo_srv logout_db 1860700000 (sv_blacklist s1))).1 = Ok (MkAuthenticatedUser 7%N 9%N 1800).
Proof. vm_compute. done. Qed.

Definition demo_login_request (password : string) : Response Body * Srv MemoryRateLimiter unit :=
  @login_password_handler toy_uuid toy_bcrypt (@PostgresUserRepo toy_uuid) demo_jwt MemoryRateLimiter unit
    MemoryRateLimiter_port demo_settings [] (V4 1) [] "jdoe" password
    (MkSrv login_world (MemoryRateLimiter_new 5 60) (MemoryRateLimiter_new 5 60) [] tt).

Lemma login_handler_sound_witness :
  ∃ u access refresh, rs_body (demo_login_request "secret").1 =
    AuthTokensResponse "authenticated" (@uuid_to_string toy_uuid (u_id u)) access refresh ∧
    u_username u = Some "jdoe"%string.
Proof.
  destruct (demo_login_request "secret") as [resp s'] eqn:E.
  assert (rs_status resp = 200) as H200.
  { apply (f_equal (rs_status ∘ fst)) in E. simpl in E. rewrite <- E. vm_compute. reflexivity. }
  destruct (@login_handler_sound toy_uuid toy_bcrypt demo_jwt demo_jwt_spec demo_google MemoryRateLimiter unit
    MemoryRateLimiter_port demo_settings [] (V4 1) [] "jdoe" "secret"
    (MkSrv login_world (MemoryRateLimiter_new 5 60) (MemoryRateLimiter_new 5 60) [] tt) resp s' login_db_ok E) as [Hok _].
  destruct (Hok H200) as (_ & u & h & ev & access & refresh & Hn & _ & _ & _ & Hb & _).
  exists u, access, refresh. split; [exact Hb|exact Hn].
Defined.
