(* ===== verification/EndToEnd.v ===== *)
(** * From the log-in to the authenticated request

    The contexts put together: the token a log-in answers with is one the same
    process's extractor accepts, for the account that logged in, until the token
    ends or is revoked. *)

From S2P Require Import Prelude RustStr ValueObjects Entities Aggregate Database Effects UserRepo.
From S2P Require Import Bcrypt AuthSettings Jwt UseCases Net RateLimiter Blacklist Http AuthRoutes.

Lemma strip_prefix_append p s : strip_prefix p (String.append p s) = Some s.
Proof. induction p as [|b p IH]; simpl; [by destruct s|]. by rewrite Ascii.eqb_refl. Qed.

Lemma access_request_round_trip `{UuidSpec} c :
  request_of_json (access_to_json c) = Some (MkRequestClaims (ac_sub c) (ac_jti c) (ac_exp c)).
Proof.
  unfold request_of_json, get_uuid, get_str, get_i64, access_to_json; simpl.
  simplify_map_eq. by rewrite !uuid_parse_to_string.
Qed.

(** ** Where the tokens of a log-in come from *)

Section tokens.
Context `{UuidLib, BcryptLib, JwtServiceSpec}.
Variable settings : AuthSettings.

Lemma open_session_tokens m a w sid tp a' w' :
  open_session settings m a w = (Ok (sid, tp, a'), w') →
  ∃ w1 w2, later w w1 ∧ later w2 w' ∧
    generate_token_pair (u_id (agg_user a)) sid w1 = (Ok tp, w2) ∧ agg_user a' = agg_user a.
Proof.
  unfold open_session. intros Hr. run_inv Hr. pose proof (framed_now_v7 _ _ _ R) as F1.
  run_inv Hr. run_inv Hr. pose proof (framed_utc_now _ _ _ R1) as F3.
  run_inv Hr. apply expiry_Ok in R2 as [-> ->].
  run_inv Hr. pose proof (hash_refresh_token_framed settings _ _ _ _ R2) as F4.
  run_inv Hr. pose proof (framed_utc_now _ _ _ R3) as F5.
  unfold add_session in Hr. destruct (_ <=? _); [done|]. run_inv Hr. run_inv R4. injection R4 as <-.
  run_inv Hr. pose proof (save_aggregate_advancing _ _ _ _ _ R4) as L6. injection Hr as <- <- <- <-.
  eexists _, _. split_and!; [by apply frame_later| |exact R0|done].
  repeat (etrans; [apply frame_later; eassumption|]). exact L6.
Qed.

Lemma login_tokens username password w res w' :
  login_with_password settings username password w = (Ok res, w') →
  ∃ w1 w2 tp, later w w1 ∧ later w2 w' ∧
    generate_token_pair (u_id (lr_user res)) (lr_session_id res) w1 = (Ok tp, w2) ∧
    lr_access_token res = tp_access_token tp ∧ lr_refresh_token res = tp_refresh_token tp.
Proof.
  unfold login_with_password. intros Hr. run_inv Hr. pose proof (find_aggregate_advancing _ _ _ _ R) as L1.
  run_inv Hr. assert (F2 : frame w0 w1) by (eapply (framed_run_bounded _ (framed_verify_password _ _ _)); exact R0).
  destruct v0; [|done]. simpl in Hr. run_inv Hr. run_inv R1. unfold create_session_tokens in Hr. run_inv Hr.
  destruct v1 as [[sid tp] a']. apply open_session_tokens in R2 as (w3 & w4 & La & Lb & Hgen & Hu).
  destruct (take_events a') as [events a''] eqn:Ht. injection Hr as <- <-. exists w3, w4, tp. simpl.
  injection Ht as _ <-. simpl. rewrite Hu. split_and!; try done.
  etrans; [exact L1|]. etrans; [by apply frame_later|exact La].
Qed.

End tokens.

Lemma try_login_clock {L B} `{RateLimiter L} ip (s : Srv L B) :
  w_clock (sv_world s) ≤ w_clock (sv_world (try_login ip s).2).
Proof.
  unfold try_login. h_run. destruct (rl_try_check_and_record _ _ _ _). simpl.
  etrans; [apply reading_ge|]. etrans; [|apply reading_ge]. done.
Qed.

(** ** Accepted tokens *)

Section accepted.
Context `{UuidSpec, JwtSpec} {L B Env : Type} `{AccessTokenBlacklist B Env}.

(** A bearer token that decodes, and that the list does not report. *)
Lemma from_request_parts_accepts env ver headers token claims (s : Srv L B) :
  header_str "authorization" headers = Some (String.append "Bearer " token) →
  jwt_decode (jv_secret ver) (validation ver) (timestamp (reading (sv_world s))) token =
    Some (access_to_json claims) →
  (∀ t, (bl_is_revoked env t (ac_jti claims) (sv_blacklist s)).1 ≠ Ok true) →
  (from_request_parts env (Some ver) true headers s).1 =
    Ok (MkAuthenticatedUser (ac_sub claims) (ac_jti claims) (ac_exp claims)).
Proof.
  intros Hh Hdec Hbl. assert (Hb : bearer_token headers = Some token)
    by (unfold bearer_token; rewrite Hh; exact (strip_prefix_append _ _)).
  unfold from_request_parts. rewrite Hb. h_run. unfold decode, mbind, M_bind, utc_now, mret, M_ret. simpl. rewrite Hdec. simpl.
  rewrite access_request_round_trip. simpl.
  match goal with |- context [bl_is_revoked env ?t ?j ?b] => specialize (Hbl t); destruct (bl_is_revoked env t j b) as [r b'] end.
  simpl in *. by destruct r as [[]|].
Qed.

End accepted.

(** ** Properties *)

(** C8. A log-in leads to authenticated requests: when the password handler of a
    process configured with one key, issuer and audience answers 200, its body
    carries an access token and the identifier of the account whose name and
    password were given; and from then on, on any instance with that
    configuration, a request that presents the token is authenticated as that
    account, with the token's identifier and expiry, as long as the expiry is
    at most 60 seconds ago and the instance's list does not report the token. *)
Theorem login_then_authenticated `{UuidSpec, BcryptLib, JwtSpec}
    {L B Env} `{RateLimiter L, AccessTokenBlacklist B Env} settings trusted peer headers username password (s : Srv L B) r s1 :
  let self := JwtServiceImpl_new (jwt_secret settings) (access_token_expiry_minutes settings)
                (refresh_token_expiry_days settings) (jwt_issuer settings) (jwt_audience settings) in
  let ver := MkJwtVerification (jwt_secret settings) (jwt_issuer settings) (jwt_audience settings) in
  db_ok (w_db (sv_world s)) →
  @login_password_handler _ _ _ (JwtServiceImpl_service self) _ _ _ settings trusted peer headers username password s = (r, s1) →
  rs_status r = 200 →
  ∃ u h t jti access refresh,
    rs_body r = AuthTokensResponse "authenticated" (uuid_to_string (u_id u)) access refresh ∧
    db_users (w_db (sv_world s)) !! u_id u = Some (row_of_user u) ∧ u_username u = Some username ∧
    u_password_hash u = Some h ∧ bcrypt_verify password (hash_str h) = Ok true ∧
    w_clock (sv_world s) ≤ t ≤ w_clock (sv_world s1) ∧
    ∀ env hs (s2 : Srv L B),
      header_str "authorization" hs = Some (String.append "Bearer " access) →
      timestamp (reading (sv_world s2)) - JWT_EXP_LEEWAY_SECS ≤ access_exp self (timestamp t) →
      (∀ t', (bl_is_revoked env t' jti (sv_blacklist s2)).1 ≠ Ok true) →
      (from_request_parts env (Some ver) true hs s2).1 =
        Ok (MkAuthenticatedUser (u_id u) jti (access_exp self (timestamp t))).
Proof.
  intros self ver Hok Hr Hst. unfold login_password_handler in Hr.
  destruct (login_fields_invalid username password).
  { unfold mbind, H_bind, pause, call in Hr. by injection Hr as <- <-. }
  set (ip := resolve_client_ip _ _ _) in Hr. pose proof (try_login_only ip s) as (Hdb & _).
  pose proof (try_login_clock ip s) as Hclock.
  unfold mbind, H_bind in Hr. destruct (try_login ip s) as [[] s0] eqn:Et; simpl in *; [|by injection Hr as <- <-].
  unfold call in Hr. destruct (login_with_password settings username password (sv_world s0)) as [[res|e] w2] eqn:El.
  2:{ unfold pause, call in Hr. destruct e; simpl in Hr; by injection Hr as <- <-. }
  unfold reset_login, on_login_limiter, publish_all in Hr. simpl in Hr. injection Hr as <- <-. simpl in *.
  destruct (login_tokens _ _ _ _ _ _ El) as (w3 & w4 & tp & La & Lb & Hgen & Hacc & _).
  rewrite <- Hdb in Hok. destruct (login_cases _ _ _ _ _ _ Hok El)
    as [(? & _)|(u & h & sess & tp' & t1 & t2 & Heq & Hrow & Hname & Hhash & Hv & _)]; [done|].
  injection Heq as ->. simpl in *. rewrite Hdb in Hrow.
  apply jwt_generate_Ok in Hgen as (Henc & _ & Hw4).
  exists u, h, (reading w3), (uuid_v7 (w_seed w3)), (tp_access_token tp'), (tp_refresh_token tp').
  split_and!; try done.
  { destruct La as [La _]. pose proof (reading_ge w3). lia. }
  { destruct Lb as [Lb _]. by rewrite Hw4 in Lb. }
  intros env hs s2 Hh Hexp Hbl.
  assert (Hx := from_request_parts_accepts env ver hs _ (issued_access self (u_id u) w3) s2 Hh).
  apply Hx; [|exact Hbl]. rewrite Hacc.
  rewrite (jwt_decode_access (jwt_secret settings) (jwt_issuer settings) (jwt_audience settings)
    (access_token_expiry_minutes settings) (refresh_token_expiry_days settings)
    (issued_access self (u_id u) w3) _ _ eq_refl eq_refl Henc).
  unfold JWT_EXP_LEEWAY_SECS in Hexp. by rewrite (proj2 (Z.leb_le _ _)).
Qed.

(** *** Witness *)

Definition journey_start : Srv MemoryRateLimiter (gmap Uuid RevokedEntry) :=
  MkSrv login_world (MemoryRateLimiter_new 5 60) (MemoryRateLimiter_new 5 60) [] ∅.

Definition journey_login : Response Body * Srv MemoryRateLimiter (gmap Uuid RevokedEntry) :=
  @login_password_handler toy_uuid toy_bcrypt (@PostgresUserRepo toy_uuid) demo_jwt MemoryRateLimiter
    (gmap Uuid RevokedEntry) MemoryRateLimiter_port demo_settings [] (V4 1) [] "jdoe" "secret" journey_start.

Definition journey_headers : HeaderMap :=
  match rs_body journey_login.1 with
  | AuthTokensResponse _ _ access _ => [("authorization", String.append "Bearer " access)]%string
  | _ => []
  end.

Definition journey_request : result AuthRejection AuthenticatedUser :=
  (@from_request_parts MemoryRateLimiter _ unit toy_uuid toy_jwt MemoryBlacklist_port tt
     (Some (MkJwtVerification "0123456789abcdef0123456789abcdef" "svc" "svc")) true journey_headers journey_login.2).1.

Lemma empty_list_reports_nothing t j : (memory_is_revoked t j ∅).1 ≠ Ok true.
Proof. unfold memory_is_revoked, is_revoked_fast. by rewrite lookup_empty. Qed.

Lemma login_then_authenticated_witness :
  ∃ u jti exp, u_username u = Some "jdoe"%string ∧ journey_request = Ok (MkAuthenticatedUser (u_id u) jti exp).
Proof.
  destruct (@login_then_authenticated toy_uuid toy_uuid_spec toy_bcrypt toy_jwt toy_jwt_spec MemoryRateLimiter
    (gmap Uuid RevokedEntry) unit MemoryRateLimiter_port MemoryBlacklist_port demo_settings [] (V4 1) [] "jdoe" "secret"
    journey_start journey_login.1 journey_login.2 login_db_ok (surjective_pairing journey_login) eq_refl)
    as (u & h & t & jti & access & refresh & Hbody & _ & Hname & _ & _ & Ht & Hacc).
  exists u, jti, (access_exp (JwtServiceImpl_new "0123456789abcdef0123456789abcdef" 15 7 "svc" "svc") (timestamp t)).
  split; [exact Hname|].
  assert (Ha : access = match rs_body journey_login.1 with AuthTokensResponse _ _ a _ => a | _ => EmptyString end)
    by (rewrite Hbody; reflexivity).
  assert (Ht2 : t = from_secs 1000).
  { assert (w_clock (sv_world journey_login.2) = from_secs 1000) as Hend by (vm_compute; reflexivity).
    rewrite Hend in Ht. change (w_clock (sv_world journey_start)) with (from_secs 1000) in Ht. lia. }
  subst t. apply (Hacc tt).
  - rewrite Ha. vm_compute. reflexivity.
  - vm_compute. discriminate.
  - intros t'. assert (sv_blacklist journey_login.2 = ∅) as -> by (vm_compute; reflexivity).
    exact (empty_list_reports_nothing t' jti).
Defined.
