(* ===== verification/Lifecycle.v ===== *)
(** * The life of a session

    From the log-in over any number of refreshes: what the newest refresh token
    of a session is good for, while other requests change the database around
    it, and what an older one does when it is presented again. The use cases run on the Postgres repository with the process's own
    [JwtServiceImpl]. *)

From S2P Require Import Prelude RustStr ValueObjects Entities Aggregate Database Effects UserRepo.
From S2P Require Import Bcrypt AuthSettings Jwt UseCases EndToEnd Evolution Concurrency.

(** The token service [main] builds from the settings. *)
Definition configured_jwt (settings : AuthSettings) : JwtServiceImpl :=
  JwtServiceImpl_new (jwt_secret settings) (access_token_expiry_minutes settings)
    (refresh_token_expiry_days settings) (jwt_issuer settings) (jwt_audience settings).

Definition lifetime (settings : AuthSettings) : Z := days (refresh_token_expiry_days settings).

(** Nothing the process calls is failing, and identifiers drawn from now on are
    not in use. *)
Record calm `{UuidLib} (w : World) : Prop := {
  calm_pg : w_pg w = [];
  calm_join : w_join w = [];
  calm_ids : ∀ n, (w_seed w ≤ n)%nat → db_sessions (w_db w) !! uuid_v7 n = None }.

(** ** Where the tokens of a refresh come from *)

Section tokens.
Context `{UuidLib, BcryptLib, JwtServiceSpec}.
Variable settings : AuthSettings.

Lemma refresh_rotate_tokens token claims a w res w' :
  refresh_rotate settings token claims a w = (Ok res, w') →
  ∃ w1 w2 tp, later w w1 ∧ later w2 w' ∧
    generate_token_pair (rf_user_id res) (rf_session_id res) w1 = (Ok tp, w2) ∧
    rf_access_token res = tp_access_token tp ∧ rf_refresh_token res = tp_refresh_token tp.
Proof.
  unfold refresh_rotate. intros Hr. run_inv Hr. pose proof (framed_now_v7 _ _ _ R) as F1.
  run_inv Hr. run_inv Hr. pose proof (framed_utc_now _ _ _ R1) as F3.
  run_inv Hr. apply expiry_Ok in R2 as [-> ->].
  run_inv Hr. pose proof (hash_refresh_token_framed settings _ _ _ _ R2) as F4.
  run_inv Hr. pose proof (token_matches_framed _ _ _ _ _ _ R3) as F5.
  run_inv Hr. pose proof (framed_utc_now _ _ _ R4) as F6.
  destruct (rotate_session _ _ _ _ _ _ _) as [[ns|[]] a']; try done.
  - run_inv Hr. pose proof (save_aggregate_advancing _ _ _ _ _ R5) as L7. injection Hr as <- <-.
    eexists _, _, _. simpl. split_and!; [by apply frame_later| |exact R0|done..].
    repeat (etrans; [apply frame_later; eassumption|]). exact L7.
  - run_inv Hr. run_inv Hr. done.
Qed.

Lemma refresh_tokens token w res w' :
  refresh_token settings token w = (Ok res, w') →
  ∃ w1 w2 tp, later w w1 ∧ later w2 w' ∧
    generate_token_pair (rf_user_id res) (rf_session_id res) w1 = (Ok tp, w2) ∧
    rf_access_token res = tp_access_token tp ∧ rf_refresh_token res = tp_refresh_token tp.
Proof.
  unfold refresh_token, refresh_load. intros Hr. run_inv Hr. destruct v as [claims a].
  run_inv R. run_inv R. run_inv R. run_inv R2. injection R as <- <- <-.
  pose proof (validate_refresh_framed _ _ _ _ R0) as F. pose proof (find_aggregate_advancing _ _ _ _ R1) as L.
  apply refresh_rotate_tokens in Hr as (w3 & w4 & tp & L3 & L4 & Hall). exists w3, w4, tp.
  split; [|done]. etrans; [by apply frame_later|]. by etrans.
Qed.

Lemma refresh_rotate_advancing token claims a : advancing (refresh_rotate settings token claims a).
Proof.
  unfold refresh_rotate. apply advancing_bind; [auto with svc|]. intros sid.
  apply advancing_bind; [auto with svc|]. intros tp. apply advancing_bind; [auto with svc|]. intros t.
  apply advancing_bind; [auto with svc|]. intros exp.
  apply advancing_bind; [apply framed_advancing, hash_refresh_token_framed|]. intros h.
  apply advancing_bind; [apply framed_advancing, token_matches_framed|]. intros tm.
  apply advancing_bind; [auto with svc|]. intros now.
  destruct (rotate_session _ _ _ _ _ _ _) as [[ns|e] a'].
  - apply advancing_bind; [apply save_aggregate_advancing|auto with svc].
  - destruct e; auto with svc. apply advancing_bind; [auto with svc|]. intros now2.
    apply advancing_bind; [apply save_aggregate_advancing|auto with svc].
Qed.

(** The call ends no earlier than its token check. *)
Lemma refresh_after_validation token w v w1 r w' :
  validate_refresh_token token w = (v, w1) → refresh_token settings token w = (r, w') → later w1 w'.
Proof.
  intros Hv. unfold refresh_token, refresh_load. rewrite !bind_run, Hv. destruct v as [c|e]; [|by intros [= <- <-]].
  rewrite !bind_run. destruct (find_aggregate_by_id (rc_sub c) w1) as [ao w2] eqn:E.
  pose proof (find_aggregate_advancing _ _ _ _ E) as L.
  destruct ao as [[a|]|e]; simpl; [|intros [= <- <-]; exact L..].
  intros Hr. etrans; [exact L|]. by eapply refresh_rotate_advancing.
Qed.

(** The second half of a refresh with the token of a revoked session, whatever
    fails on the way. *)
Lemma refresh_rotate_revoked token claims a w s r w' :
  db_ok (w_db w) → db_readable (w_db w) → loaded (w_db w) a → agg_wf a →
  registry (agg_sessions a) !! rc_session_id claims = Some s → s_is_active s = false →
  refresh_rotate settings token claims a w = (r, w') →
  is_ok r = false ∧ (w_db w' = w_db w ∨ w_db w' = deactivate_user (u_id (agg_user a)) (w_db w)).
Proof.
  intros Hok Hrd Hl Hwf Hs Hact Hr. unfold refresh_rotate in Hr.
  assert (Herr : ∀ (e : AuthError) w1, frame w w1 → (Err e, w1) = (r, w') → is_ok r = false ∧
    (w_db w' = w_db w ∨ w_db w' = deactivate_user (u_id (agg_user a)) (w_db w))).
  { intros e w1 (Hdb & _) [= <- <-]. auto. }
  ustep Hr sid w1 E1; pose proof (framed_now_v7 _ _ _ E1) as F1; [|by eapply Herr].
  ustep Hr tp w2 E2; pose proof (generate_framed _ _ _ _ _ E2) as F2; rewrite <- F1 in F2; [|by eapply Herr].
  ustep Hr t w3 E3; pose proof (framed_utc_now _ _ _ E3) as F3; rewrite <- F2 in F3; [|by eapply Herr].
  ustep Hr exp w4 E4; pose proof (framed_expiry _ _ _ _ _ E4) as F4; rewrite <- F3 in F4; [|by eapply Herr].
  ustep Hr h w5 E5; pose proof (hash_refresh_token_framed _ _ _ _ _ E5) as F5; rewrite <- F4 in F5; [|by eapply Herr].
  ustep Hr tm w6 E6; pose proof (token_matches_framed _ _ _ _ _ _ E6) as F6; rewrite <- F5 in F6; [|by eapply Herr].
  ustep Hr now w7 E7; pose proof (framed_utc_now _ _ _ E7) as F7; rewrite <- F6 in F7; [|by eapply Herr].
  rewrite (rotate_session_reuse _ _ _ _ _ _ _ _ Hs Hact) in Hr. simpl in Hr.
  ustep Hr now2 w8 E8; pose proof (framed_utc_now _ _ _ E8) as F8; rewrite <- F7 in F8; [|by eapply Herr].
  destruct F8 as (Hdb & _ & Hclk & _). assert (Hok8 : db_ok (w_db w8)) by by rewrite Hdb.
  ustep Hr u w9 E9; injection Hr as <- <-; (split; [done|]);
    apply (save_one_cases _ [] w8 _ _ Hok8) in E9 as [_ [(_ & _ & [E9|E9])|(_ & E9)]]; rewrite Hdb in E9;
    first [by left | right; by eapply saved_all].
Qed.

End tokens.

(** ** The token of a revoked session *)

Section revoked_session.
Context `{UuidSpec, BcryptSpec, JwtServiceTotal} {jspec : JwtServiceSpec} {jerr : JwtServiceErrors}.
Variable settings : AuthSettings.

Definition revoked_of (uid : Uuid) (db : Db) (sid : Uuid) : Prop :=
  ∃ row, db_sessions db !! sid = Some row ∧ sr_user_id row = uid ∧ sr_is_active row = false.

Lemma revoked_of_evolves uid db db' sid : evolves db db' → revoked_of uid db sid → revoked_of uid db' sid.
Proof.
  intros [_ _ Hs] (row & Hrow & Hown & Hact).
  destruct (Hs _ _ Hrow) as [Hr|Hr]; eexists; (split; [exact Hr|]); done.
Qed.

(** Deactivating a user's sessions revokes each of them. *)
Lemma revoked_of_deactivated uid db sid row :
  db_sessions db !! sid = Some row → sr_user_id row = uid → revoked_of uid (deactivate_user uid db) sid.
Proof.
  intros Hrow Hown. exists (row_deactivate row). unfold deactivate_user. simpl.
  rewrite lookup_fmap, Hrow. simpl. unfold of_user. by rewrite bool_decide_eq_true_2.
Qed.

(** What a refresh loads before it decides leaves the tables alone. *)
Lemma refresh_load_pure token : db_pure (refresh_load token).
Proof.
  intros w. unfold refresh_load. rewrite bind_run.
  destruct (validate_refresh_token token w) as [[c|e] w1] eqn:Ev; simpl;
    apply validate_refresh_framed in Ev as (Hdb & _); [|done].
  rewrite bind_run. pose proof (proj1 find_aggregate_pure (rc_sub c) w1) as Hp.
  unfold find_aggregate_by_id. simpl.
  destruct (pg_find_aggregate_by_id (rc_sub c) w1) as [[[a|]|e] w2]; simpl in *; congruence.
Qed.

(** A refresh with the token of a revoked session, whatever fails on the way. *)
Lemma refresh_revoked token claims w wa r w' :
  4 ≤ bcrypt_cost settings ≤ 31 → good (w_db w) → is_Some (db_users (w_db w) !! rc_sub claims) →
  revoked_of (rc_sub claims) (w_db w) (rc_session_id claims) →
  validate_refresh_token token w = (Ok claims, wa) → refresh_token settings token w = (r, w') →
  let revoked := deactivate_user (rc_sub claims) (w_db w) in
  is_ok r = false ∧ (w_db w' = w_db w ∨ w_db w' = revoked) ∧
  (r = Err SessionInvalidated → w_db w' = revoked) ∧
  (w_pg w = [] → w_join w = [] → datable settings w w' → r = Err SessionInvalidated).
Proof.
  intros Hcost (Hok & Hrd & _) Husr (row & Hrow & Hown & Hact) Hv Hr revoked.
  unfold refresh_token in Hr. rewrite bind_run in Hr. pose proof (refresh_load_pure token w) as Hdb1.
  destruct (refresh_load token w) as [[[claims' a]|e] w1] eqn:El; simpl in Hr, Hdb1.
  - pose proof El as El'. apply refresh_load_Ok in El' as ((wv & Hv') & Hl & Hwf & _ & Hid & Hlat); [|done].
    rewrite Hv in Hv'. injection Hv' as <- <-.
    destruct (loaded_row _ _ _ _ Hl Hrd Hrow) as (s & -> & Hs); [congruence|]. simpl in Hact.
    rewrite <- Hdb1 in Hl, Hok, Hrd.
    destruct (refresh_rotate_revoked settings token claims a w1 s r w' Hok Hrd Hl Hwf Hs Hact Hr) as [Hf Hc].
    rewrite Hid, Hdb1 in Hc. split_and!; [done|exact Hc|..].
    + intros ->. apply (refresh_rotate_invalidated settings) in Hr as (now & w2 & Hdb2 & Hsave).
      apply (save_one_cases _ [] w2) in Hsave as [_ [(? & _)|(_ & Hsv)]]; [done| |by rewrite Hdb2].
      rewrite Hdb2 in Hsv. apply (saved_all _ _ _ _ _ Hl Hwf Hrd) in Hsv. by rewrite Hsv, Hid, Hdb1.
    + intros Hp Hj Hdate. destruct (refresh_load_total token w claims wa) as (a' & El' & _ & Hp1 & Hj1); try done;
        [by rewrite <- Hdb1..|]. rewrite El in El'. injection El' as <- ->.
      apply (datable_later _ _ _ _ Hlat) in Hdate.
      apply (refresh_rotate_reuse settings Hcost token claims a wa s r w'); try done. congruence.
  - injection Hr as <- <-. split_and!; [done|by left|..].
    + intros [= ->]. by apply refresh_load_not_invalidating in El.
    + intros Hp _ _. destruct (refresh_load_total token w claims wa Hok Hrd Hp Hv Husr) as (a' & El' & _).
      rewrite El in El'. done.
Qed.

End revoked_session.

(** ** A usable refresh token *)

Section lifecycle.
Context `{UuidSpec, BcryptSpec, JwtSpec}.
Variable settings : AuthSettings.

#[local] Instance lifecycle_jwt : JwtService := JwtServiceImpl_service (configured_jwt settings).

Context {jtot : @JwtServiceTotal lifecycle_jwt}.
Hypothesis Hcost : 4 ≤ bcrypt_cost settings ≤ 31.

(** A token the process signed for session [sid] of [uid], whose hash the row of
    the session holds, neither of them ending before [e]. *)
Record usable (db : Db) (uid sid : Uuid) (token : string) (e : Z) : Prop := {
  usable_user : is_Some (db_users db !! uid);
  usable_row : ∃ row, db_sessions db !! sid = Some row ∧ sr_user_id row = uid ∧ e ≤ sr_expires_at row ∧
    bcrypt_verify token (sr_refresh_token_hash row) = Ok true;
  usable_claims : ∃ claims, jwt_encode (jwt_secret settings) (refresh_to_json claims) = Ok token ∧
    rc_sub claims = uid ∧ rc_session_id claims = sid ∧ rc_iss claims = jwt_issuer settings ∧
    rc_aud claims = jwt_audience settings ∧ (∀ t, t < e → timestamp t - 60 ≤ rc_exp claims) }.

Lemma usable_evolves db db' uid sid token e :
  evolves db db' → usable db uid sid token e → usable db' uid sid token e.
Proof.
  intros [Hu _ Hs] [[ru Hru] (row & Hrow & Hown & He & Hv) Hc]. split; [|clear Hc|exact Hc].
  - exists ru. by eapply lookup_weaken.
  - destruct (Hs _ _ Hrow) as [Hr|Hr]; eexists; by split_and!.
Qed.

(** From the clock of [w] to that of [w'] it is not before 1970, and sessions
    opened then end on a date that chrono has. *)
Definition in_time (w w' : World) : Prop := 0 ≤ w_clock w ∧ w_clock w' + lifetime settings < DATETIME_END.

Lemma in_time_datable w w' : 0 ≤ refresh_token_expiry_days settings → in_time w w' → datable settings w w'.
Proof.
  intros Hd [Hlo Hhi]. split; [|exact Hhi]. unfold TIMESTAMPTZ_MIN, days, from_secs, SECOND. lia.
Qed.

Lemma refresh_exp_lasts t0 t1 t :
  0 ≤ refresh_token_expiry_days settings → t0 ≤ t1 → 0 ≤ t1 → t1 + lifetime settings < DATETIME_END →
  t < t0 + lifetime settings → timestamp t - 60 ≤ refresh_exp (configured_jwt settings) (timestamp t1).
Proof.
  intros Hd Hle Hlo Hhi Ht. unfold refresh_exp. simpl.
  unfold lifetime, days, timestamp, DATETIME_END, from_secs, SECOND in *.
  pose proof (Z.div_mod t1 1000000 ltac:(done)). pose proof (Z.mod_pos_bound t1 1000000 ltac:(done)).
  assert (Hdiv : t / 1000000 ≤ t1 / 1000000 + refresh_token_expiry_days settings * 86400).
  { rewrite <- Z.div_add by done. apply Z.div_le_mono; lia. }
  rewrite (wrap_i64_id (_ * 86400)) by (unfold in_i64, I64_MIN, I64_MAX; lia).
  rewrite wrap_i64_id by (unfold in_i64, I64_MIN, I64_MAX; lia). lia.
Qed.

(** What a log-in or a refresh hands out. *)
Lemma issued_usable db w0 w1 w2 uid sid tp t s m :
  0 ≤ refresh_token_expiry_days settings → 0 ≤ w_clock w0 → w_clock w2 + lifetime settings < DATETIME_END →
  is_Some (db_users db !! uid) → later w0 w1 →
  generate_token_pair uid sid w1 = (Ok tp, w2) →
  issued_session settings w0 uid m (tp_refresh_token tp) s → ns_id s = sid →
  db_sessions db !! sid = Some (new_session_row t s) →
  usable db uid sid (tp_refresh_token tp) (w_clock w0 + lifetime settings).
Proof.
  intros Hd Hlo Hhi Hu [L _] Hgen (Hsu & _ & (n & Hn) & _ & (t1 & Ht1 & He) & _) <- Hrow. split; [done| |].
  - eexists. split; [exact Hrow|]. simpl. split_and!; [done|rewrite He; unfold lifetime; clear -Ht1; lia|].
    by eapply bcrypt_verify_own.
  - apply jwt_generate_Ok in Hgen as (_ & Henc & ->). simpl in Hhi. pose proof (reading_ge w1).
    exists (issued_refresh (configured_jwt settings) uid (ns_id s) w1). split_and!; try done.
    intros t' Ht'. apply (refresh_exp_lasts (w_clock w0) (reading w1)); [exact Hd| | |exact Hhi|exact Ht']; lia.
Qed.

Lemma login_usable username password w res w' :
  0 ≤ refresh_token_expiry_days settings → in_time w w' → db_ok (w_db w) →
  login_with_password settings username password w = (Ok res, w') →
  usable (w_db w') (u_id (lr_user res)) (lr_session_id res) (lr_refresh_token res) (w_clock w + lifetime settings).
Proof.
  intros Hd [Hlo Hhi] Hok Hr.
  destruct (login_tokens settings _ _ _ _ _ Hr) as (w1 & w2 & tp & L1 & [L2 _] & Hgen & _ & Htok).
  destruct (login_cases settings _ _ _ _ _ Hok Hr)
    as [(? & _)|(u & h & s & tp' & now & t & Heq & Hu & _ & _ & _ & Hiss & _ & _ & Hdb & _)]; [done|].
  injection Heq as ->. simpl in *. rewrite Htok in *.
  apply (issued_usable _ w w1 w2 _ _ _ t s Password); try done; [lia|..].
  - rewrite Hdb. by eexists.
  - rewrite Hdb. apply lookup_insert_eq.
Qed.

Lemma refresh_usable token w res w' :
  0 ≤ refresh_token_expiry_days settings → in_time w w' → db_ok (w_db w) →
  refresh_token settings token w = (Ok res, w') →
  usable (w_db w') (rf_user_id res) (rf_session_id res) (rf_refresh_token res) (w_clock w + lifetime settings).
Proof.
  intros Hd [Hlo Hhi] Hok Hr.
  destruct (refresh_tokens settings _ _ _ _ Hr) as (w1 & w2 & tp & L1 & [L2 _] & Hgen & _ & Htok).
  destruct (refresh_Ok_inv settings _ _ _ _ Hok Hr) as (claims & wv & s0 & s & now & t & _ & _ & _ & _ & _ & _ &
    _ & Hiss & Huid & Hsid & _ & _ & _ & _ & Hu & _ & Hdb).
  rewrite Huid, Htok in *.
  apply (issued_usable _ w w1 w2 _ _ _ t s (s_auth_method s0)); try done; [lia|..].
  - by rewrite Hdb.
  - rewrite Hdb, Hsid. apply lookup_insert_eq.
Qed.

(** The service recognises a usable token. *)
Lemma usable_validates db uid sid token e w :
  usable db uid sid token e → reading w < e →
  ∃ claims w1, validate_refresh_token token w = (Ok claims, w1) ∧
    rc_sub claims = uid ∧ rc_session_id claims = sid ∧ w_clock w1 = reading w.
Proof.
  intros [_ _ (claims & Henc & Hsub & Hsid & Hi & Ha & Hexp)] He.
  exists claims, (with_time w (reading w) (tail (w_ticks w))). split_and!; try done.
  simpl. unfold jwt_validate_refresh. rewrite bind_run, decode_run.
  pose proof (jwt_decode_refresh _ _ _ (access_token_expiry_minutes settings) (refresh_token_expiry_days settings)
    _ _ (timestamp (reading w)) Hi Ha Henc) as Hdec.
  change (jv_secret (verification (configured_jwt settings))) with (jwt_secret settings).
  unfold configured_jwt. simpl in Hdec |- *. rewrite Hdec.
  rewrite (proj2 (Z.leb_le _ _) (Hexp _ He)). simpl. by rewrite refresh_json_round_trip.
Qed.

(** The rotation of an active session, with nothing failing. *)
Lemma rotation_admitted token claims a w s r w' :
  w_pg w = [] → w_join w = [] → registry (agg_sessions a) !! rc_session_id claims = Some s →
  s_is_active s = true → bcrypt_verify token (hash_str (s_refresh_token_hash s)) = Ok true →
  db_sessions (w_db w) !! uuid_v7 (w_seed w) = None → is_Some (db_users (w_db w) !! u_id (agg_user a)) →
  refresh_rotate settings token claims a w = (r, w') → datable settings w w' → w_clock w' < s_expires_at s →
  ∃ res, r = Ok res.
Proof.
  intros Hp Hj Hs Hact Hv Hfresh Hu Hr Hdate Hexp.
  destruct (refresh_rotate_prep settings Hcost token claims a w r w' Hj Hr Hdate)
    as (sid & tp & exp & h & now & w1 & Heq & F1 & -> & -> & _).
  clear Hr. rename Heq into Hr. rewrite Hs, Hv, (bool_decide_eq_true_2 _ eq_refl) in Hr. symmetry in Hr.
  destruct (Z_lt_le_dec (w_clock w1) (s_expires_at s)) as [Hlt|Hge].
  - rewrite (rotate_session_ok _ _ _ _ _ _ _ Hs Hact Hlt) in Hr. destruct F1 as (Hdb & Hpg & _).
    set (a' := agg_push _ _) in Hr. set (ns := MkNewSession _ _ _ _ _) in Hr.
    destruct (save_aggregate_total a' [ns] w1) as (w2 & E2 & _);
      [congruence|apply NoDup_singleton|apply Forall_singleton; by rewrite Hdb|].
    change (pg_save_aggregate a' [ns] w1) with (save_aggregate a' [ns] w1) in E2.
    rewrite (bind_Ok _ _ _ _ _ E2) in Hr. injection Hr as <- _. by eexists.
  - exfalso. rewrite registry_find in Hs. unfold rotate_session in Hr. rewrite Hs, Hact in Hr. simpl in Hr.
    unfold Session_is_expired in Hr. rewrite (proj2 (Z.leb_le _ _) Hge) in Hr. injection Hr as _ <-. lia.
Qed.

(** The newest token of a session, presented before [e]: the row of the session
    decides. *)
Lemma usable_refresh uid sid token e w r w' :
  db_ok (w_db w) → db_readable (w_db w) → calm w → usable (w_db w) uid sid token e →
  refresh_token settings token w = (r, w') → datable settings w w' → w_clock w' < e →
  ∃ row, db_sessions (w_db w) !! sid = Some row ∧ sr_user_id row = uid ∧
    if sr_is_active row then ∃ res, r = Ok res
    else r = Err SessionInvalidated ∧ w_db w' = deactivate_user uid (w_db w).
Proof.
  intros Hok Hrd [Hp Hj Hfresh] Hus Hr Hdate He. pose proof Hus as [Hu (row & Hrow & Hown & Hexp & Hver) _].
  exists row. split_and!; [done..|].
  assert (Hread : reading w < e).
  { destruct (validate_refresh_token token w) as [v w1] eqn:Ev.
    destruct (refresh_after_validation settings _ _ _ _ _ _ Ev Hr) as [L _].
    simpl in Ev. unfold jwt_validate_refresh in Ev. rewrite bind_run, decode_run in Ev.
    unfold lift in Ev. injection Ev as _ <-. simpl in L. lia. }
  destruct (usable_validates _ _ _ _ _ w Hus Hread) as (claims & w1 & Hv & Hsub & Hsid & _).
  destruct (refresh_load_total token w claims w1 Hok Hrd Hp Hv) as (a & El & Hdb1 & Hp1 & Hj1); [by rewrite Hsub|].
  unfold refresh_token in Hr. rewrite (bind_Ok _ _ _ _ _ El) in Hr. rewrite Hj in Hj1.
  apply refresh_load_Ok in El as (_ & Hl & Hwf & _ & Hid & Hlater); [|done].
  apply (datable_later _ _ _ _ Hlater) in Hdate. destruct Hlater as [_ Hseed].
  destruct (loaded_row _ _ _ _ Hl Hrd Hrow) as (s0 & -> & Hs0); [congruence|]. rewrite <- Hsid in Hs0.
  destruct (s_is_active s0) eqn:Hact; simpl; rewrite Hact.
  - simpl in Hexp, Hver. eapply (rotation_admitted token claims a w1 s0); try done; [|by rewrite Hdb1, Hid, Hsub|lia].
    rewrite Hdb1. by apply Hfresh.
  - destruct (refresh_rotate_reuse settings Hcost token claims a w1 s0 r w') as [-> Hdb3];
      try done; [by rewrite Hdb1..|]. by rewrite Hdb3, Hid, Hsub, Hdb1.
Qed.

(** ** Sessions from their log-in on *)

(** [journey uid past w sid token e]: a log-in of user [uid] and any number of
    refreshes, each with the token the one before answered with, the database
    changing in between as other requests may change it, have led to world [w];
    the session is now [sid], its refresh token [token], good until [e]; the
    sessions [past] preceded it. *)
Inductive journey (uid : Uuid) : list Uuid → World → Uuid → string → Z → Prop :=
| journey_login username password w res w' :
    good (w_db w) → in_time w w' →
    login_with_password settings username password w = (Ok res, w') → u_id (lr_user res) = uid →
    journey uid [] w' (lr_session_id res) (lr_refresh_token res) (w_clock w + lifetime settings)
| journey_refresh past w sid token e w1 res w' :
    journey uid past w sid token e →
    good (w_db w1) → evolves (w_db w) (w_db w1) → in_time w1 w' →
    refresh_token settings token w1 = (Ok res, w') →
    journey uid (sid :: past) w' (rf_session_id res) (rf_refresh_token res) (w_clock w1 + lifetime settings).

Hypothesis Hdays : 0 ≤ refresh_token_expiry_days settings.

(** A refresh with a usable token serves its user and ends its session. *)
Lemma usable_refreshed uid sid token e w res w' :
  db_ok (w_db w) → usable (w_db w) uid sid token e → refresh_token settings token w = (Ok res, w') →
  rf_user_id res = uid ∧ revoked_of uid (w_db w') sid ∧
  ∃ row, db_sessions (w_db w') !! rf_session_id res = Some row ∧ sr_user_id row = uid ∧ sr_is_active row = true.
Proof.
  intros Hok [_ (row & Hrow & Hown & _) (claims & Henc & Hsub & Hsid & Hi & Ha & _)] Hr.
  destruct (refresh_Ok_inv settings _ _ _ _ Hok Hr) as (claims' & wv & s0 & s & now & t & Hv & Hs0 & Hu & _ & _ & _ &
    _ & (Hns & _) & Huid & Hnsid & _ & _ & _ & Hfresh & _ & _ & Hdb).
  simpl in Hv. unfold jwt_validate_refresh in Hv. rewrite bind_run, decode_run in Hv.
  change (jv_secret (verification (configured_jwt settings))) with (jwt_secret settings) in Hv.
  pose proof (jwt_decode_refresh _ _ _ (access_token_expiry_minutes settings) (refresh_token_expiry_days settings)
    _ _ (timestamp (reading w)) Hi Ha Henc) as Hdec.
  unfold configured_jwt in Hv. simpl in Hv, Hdec. rewrite Hdec in Hv.
  destruct (_ <=? _); [|done]. simpl in Hv. rewrite refresh_json_round_trip in Hv. injection Hv as <- _.
  rewrite Hdb, Hnsid. simpl. split_and!; [congruence| |].
  - exists (row_deactivate row). simpl. split_and!; try done.
    rewrite lookup_insert_ne by congruence. by rewrite Hsid, lookup_alter_eq, Hrow.
  - eexists. split; [apply lookup_insert_eq|]. simpl. split; [congruence|done].
Qed.

Lemma journey_usable uid past w sid token e :
  journey uid past w sid token e → usable (w_db w) uid sid token e.
Proof.
  induction 1 as [username password w res w' [Hok _] Ht Hr <-|past w sid token e w1 res w' _ IH [Hok _] Hev Ht Hr].
  - by eapply login_usable.
  - apply (usable_evolves _ _ _ _ _ _ Hev) in IH. destruct (usable_refreshed _ _ _ _ _ _ _ Hok IH Hr) as [<- _].
    by eapply refresh_usable.
Qed.

(** A session is followed by at most one live one. *)
Lemma journey_past uid past w sid token e : journey uid past w sid token e → Forall (revoked_of uid (w_db w)) past.
Proof.
  induction 1 as [|past w sid token e w1 res w' Hj IH Hg Hev Ht Hr]; [constructor|].
  apply journey_usable, (usable_evolves _ _ _ _ _ _ Hev) in Hj.
  destruct (keeping_refresh settings _ _ _ _ Hr Hg) as (_ & Hev' & _).
  constructor; [by destruct Hg as [Hok _]; destruct (usable_refreshed _ _ _ _ _ _ _ Hok Hj Hr) as (_ & ? & _)|].
  eapply Forall_impl; [exact IH|]. intros old Hold. eapply revoked_of_evolves; [|exact Hold]. by etrans.
Qed.

End lifecycle.

(** ** Properties *)

(** C3. Replaying a rotated refresh token revokes the whole family. Once a token
    was exchanged, whatever good changes other requests make to the database
    afterwards (log-ins and refreshes of the same user included), presenting it
    again while its signature still validates never succeeds. The tables are then
    as they were before the replay, or every session of that user is inactive and
    nothing else changed; the answer [SessionInvalidated] means the latter, the
    session obtained with the token included, whatever faults there were. And it
    is the answer whenever the database and the worker pool are up, tokens can be
    signed, and a new session would end on a date chrono and Postgres have. (With
    a fault on the way the answer is another error, and the sessions may stay
    active until the next replay.) *)
Theorem refresh_replay_revokes_all `{UuidSpec, BcryptSpec, JwtServiceTotal} {jspec : JwtServiceSpec}
    {jerr : JwtServiceErrors} settings token claims w res w1 wa w2 wb r w3 :
  4 ≤ bcrypt_cost settings ≤ 31 → good (w_db w) →
  validate_refresh_token token w = (Ok claims, wa) → refresh_token settings token w = (Ok res, w1) →
  evolves (w_db w1) (w_db w2) → good (w_db w2) →
  validate_refresh_token token w2 = (Ok claims, wb) → refresh_token settings token w2 = (r, w3) →
  let revoked := deactivate_user (rc_sub claims) (w_db w2) in
  is_ok r = false ∧ (w_db w3 = w_db w2 ∨ w_db w3 = revoked) ∧
  (r = Err SessionInvalidated → w_db w3 = revoked ∧
     ∃ row, db_sessions (w_db w3) !! rf_session_id res = Some row ∧
            sr_user_id row = rc_sub claims ∧ sr_is_active row = false) ∧
  (w_pg w2 = [] → w_join w2 = [] → datable settings w2 w3 → r = Err SessionInvalidated).
Proof.
  intros Hcost [Hok _] Hv Hr Hev Hg2 Hv2 Hr2 revoked.
  destruct (refresh_Ok_inv _ _ _ _ _ Hok Hr) as (claims' & wa' & s0 & s & now & t & Hv' & Hs0 & Hsu & _ & _ & _ &
    _ & (Hns & _) & _ & Hsid & _ & _ & _ & Hfresh & [u Husr] & _ & Heq).
  rewrite Hv in Hv'. injection Hv' as <- _.
  assert (Hold : revoked_of (rc_sub claims) (w_db w2) (rc_session_id claims)).
  { apply (revoked_of_evolves _ _ _ _ Hev). exists (row_deactivate (row_of_session s0)). rewrite Heq. simpl.
    by rewrite lookup_insert_ne, lookup_alter_eq, Hs0 by congruence. }
  assert (Hnew : ∃ row, db_sessions (w_db w2) !! rf_session_id res = Some row ∧ sr_user_id row = rc_sub claims).
  { destruct Hev as [_ _ Hs]. destruct (Hs (rf_session_id res) (new_session_row t s)) as [Hrow|Hrow];
      [rewrite Heq, Hsid; apply lookup_insert_eq|by eexists..]. }
  assert (Husr2 : is_Some (db_users (w_db w2) !! rc_sub claims)).
  { exists u. eapply lookup_weaken; [|apply Hev]. by rewrite Heq. }
  destruct (refresh_revoked settings token claims w2 wb r w3 Hcost Hg2 Husr2 Hold Hv2 Hr2) as (Hf & Hdb & Hinv & Hcalm).
  split_and!; [done..| |done]. intros Hsi. specialize (Hinv Hsi). split; [done|]. rewrite Hinv.
  destruct Hnew as (row & Hrow & Hrown). by eapply revoked_of_deactivated.
Qed.

(** C4. A session lives as long as its owner keeps refreshing it and nobody
    revokes it. After a log-in and any number of refreshes, each with the newest
    token, whatever good changes other requests made to the database in between:
    every earlier session of the chain is revoked, so at most the newest is live;
    and with the database and the worker pool up, tokens that can be signed, a
    lifetime that is not negative and leads to a date chrono has, and a clock
    after 1970, presenting the newest token
    within [refresh_token_expiry_days] of its issue is decided by the row of the
    newest session alone. If it is active the refresh succeeds for the same user,
    ends that session and opens an active one; if somebody revoked it (a logout,
    a replay) the answer is [SessionInvalidated] and every session of the user is
    ended. *)
Theorem session_lifecycle `{UuidSpec, BcryptSpec, JwtSpec} settings
    {jtot : @JwtServiceTotal (lifecycle_jwt settings)} uid past w sid token e w1 :
  4 ≤ bcrypt_cost settings ≤ 31 → 0 ≤ refresh_token_expiry_days settings →
  journey settings uid past w sid token e → good (w_db w1) → evolves (w_db w) (w_db w1) →
  Forall (revoked_of uid (w_db w1)) past ∧
  ∃ row, db_sessions (w_db w1) !! sid = Some row ∧ sr_user_id row = uid ∧
    ∀ r w2, calm w1 → @refresh_token _ _ _ (lifecycle_jwt settings) settings token w1 = (r, w2) →
      in_time settings w1 w2 → w_clock w2 < e →
      if sr_is_active row then
        ∃ res, r = Ok res ∧ rf_user_id res = uid ∧ revoked_of uid (w_db w2) sid ∧
          ∃ row', db_sessions (w_db w2) !! rf_session_id res = Some row' ∧
                  sr_user_id row' = uid ∧ sr_is_active row' = true
      else r = Err SessionInvalidated ∧ w_db w2 = deactivate_user uid (w_db w1).
Proof.
  intros Hcost Hdays Hj Hg Hev. split.
  { eapply Forall_impl; [by eapply journey_past|]. intros old. by apply revoked_of_evolves. }
  apply (journey_usable settings Hdays), (usable_evolves _ _ _ _ _ _ _ Hev) in Hj.
  pose proof Hj as [_ (row & Hrow & Hown & _) _]. exists row. split_and!; [done..|].
  intros r w2 Hcalm Hr Hin He. pose proof Hg as (Hok & Hrd & _). apply (in_time_datable _ _ _ Hdays) in Hin.
  destruct (usable_refresh settings Hcost _ _ _ _ _ _ _ Hok Hrd Hcalm Hj Hr Hin He) as (row' & Hrow' & _ & Hc).
  rewrite Hrow in Hrow'. injection Hrow' as <-. destruct (sr_is_active row); [|exact Hc].
  destruct Hc as [res ->]. exists res. split; [done|]. by eapply usable_refreshed.
Qed.

(** *** Witness: a log-in, a refresh, and the next refresh *)

Lemma demo_lifecycle_total : @JwtServiceTotal (@lifecycle_jwt toy_uuid toy_jwt demo_settings).
Proof. exact demo_jwt_total. Qed.

Definition after_login : World := (demo_login "secret").2.
Definition after_refresh : result AuthError RefreshResult * World := demo_refresh after_login.

Lemma login_world_good : good (w_db login_world).
Proof.
  split_and!; [exact login_db_ok|exact login_db_readable|].
  apply (bool_decide_unpack _); vm_compute; exact I.
Qed.

Lemma after_login_good : good (w_db after_login).
Proof. exact (proj1 (keeping_login demo_settings "jdoe" "secret" _ _ _ (surjective_pairing _) login_world_good)). Qed.

Lemma after_refresh_good : good (w_db after_refresh.2).
Proof. exact (proj1 (keeping_refresh demo_settings demo_token _ _ _ (surjective_pairing _) after_login_good)). Qed.

(** The token of the log-in is exchanged, the user logs in again, and the token is
    replayed. *)
Definition second_login : World :=
  (@login_with_password toy_uuid toy_bcrypt (@PostgresUserRepo toy_uuid) demo_jwt demo_settings "jdoe" "secret"
     after_refresh.2).2.

Lemma second_login_evolves : good (w_db second_login) ∧ evolves (w_db after_refresh.2) (w_db second_login).
Proof.
  unfold second_login.
  destruct (login_with_password demo_settings "jdoe" "secret" after_refresh.2) as [r w] eqn:E.
  destruct (keeping_login demo_settings "jdoe" "secret" _ _ _ E after_refresh_good) as (? & ? & _). by split.
Qed.

Lemma refresh_replay_revokes_all_witness :
  ∃ w3, demo_refresh second_login = (Err SessionInvalidated, w3) ∧
    map_Forall (λ _ r, sr_is_active r = false) (db_sessions (w_db w3)) ∧ size (db_sessions (w_db w3)) = 3%nat.
Proof.
  assert (Hclaims : (λ c, rc_sub c) <$> ok (@validate_refresh_token demo_jwt demo_token after_login).1 = Some 7%N ∧
    (@validate_refresh_token demo_jwt demo_token second_login).1 =
    (@validate_refresh_token demo_jwt demo_token after_login).1) by (vm_compute; split; reflexivity).
  assert (Hcalm : w_pg second_login = [] ∧ w_join second_login = []) by (vm_compute; split; reflexivity).
  assert (Hdate : datable demo_settings second_login (demo_refresh second_login).2)
    by (split; vm_compute; [discriminate|reflexivity]).
  assert (Hrows : bool_decide (map_Forall (λ _ r, sr_is_active r = false)
      (db_sessions (w_db (demo_refresh second_login).2))) = true ∧
    size (db_sessions (w_db (demo_refresh second_login).2)) = 3%nat) by (vm_compute; split; reflexivity).
  destruct Hclaims as [Hsub Hsame], Hcalm as [Hp Hj], Hrows as [Hrows%bool_decide_eq_true Hsize].
  destruct second_login_evolves as [Hg2 Hev].
  destruct (demo_refresh second_login) as [r w3] eqn:E3. simpl in Hdate, Hrows, Hsize.
  destruct after_refresh as [[res|e] w1] eqn:E1.
  2:{ pose proof demo_refresh_ok as Hk. unfold after_refresh, after_login in E1. rewrite E1 in Hk. discriminate Hk. }
  destruct (@validate_refresh_token demo_jwt demo_token after_login) as [[c|e] wa] eqn:Ea; [|discriminate Hsub].
  destruct (@validate_refresh_token demo_jwt demo_token second_login) as [r2 wb] eqn:Eb. cbn [fst] in Hsame. subst r2.
  destruct (@refresh_replay_revokes_all toy_uuid toy_uuid_spec toy_bcrypt toy_bcrypt_spec demo_jwt demo_jwt_total
    demo_jwt_spec (JwtServiceImpl_errors _) demo_settings demo_token c after_login res w1 wa second_login wb r w3)
    as (_ & _ & _ & Hsi); [simpl; lia|exact after_login_good|exact Ea|exact E1| |exact Hg2|exact Eb|exact E3|].
  - exact Hev.
  - exists w3. rewrite (Hsi Hp Hj Hdate). split; [reflexivity|]. split; [exact Hrows|exact Hsize].
Defined.

Lemma demo_journey : ∃ res,
  after_refresh.1 = Ok res ∧
  @journey toy_uuid toy_bcrypt toy_jwt demo_settings 7%N
    [match (demo_login "secret").1 with Ok r => lr_session_id r | Err _ => 0%N end]
    after_refresh.2 (rf_session_id res) (rf_refresh_token res) (from_secs 1000 + lifetime demo_settings).
Proof.
  destruct after_refresh as [[res|e] w2] eqn:E2.
  2:{ pose proof demo_refresh_ok as Hk. unfold after_refresh, after_login in E2. rewrite E2 in Hk. discriminate Hk. }
  exists res. split; [reflexivity|].
  assert (Hu : (λ r, u_id (lr_user r)) <$> ok (demo_login "secret").1 = Some 7%N) by (vm_compute; reflexivity).
  assert (Hc : w_clock after_login = from_secs 1000 ∧ w_clock (demo_refresh after_login).2 = from_secs 1000)
    by (vm_compute; split; reflexivity). destruct Hc as [Hc1 Hc2].
  unfold after_refresh in E2. rewrite E2 in Hc2.
  unfold demo_refresh, demo_token, after_login in *.
  destruct (demo_login "secret") as [[lres|le] w1] eqn:E1; [|discriminate Hu].
  injection Hu as Hu. cbn [fst snd] in *.
  assert (Hg : good (w_db w1)) by
    (exact (proj1 (keeping_login demo_settings "jdoe" "secret" _ _ _ E1 login_world_good))).
  rewrite <- Hc1.
  eapply journey_refresh; [|exact Hg|reflexivity| |exact E2].
  - eapply journey_login; [exact login_world_good| |exact E1|exact Hu]. unfold in_time. rewrite Hc1. by vm_compute.
  - unfold in_time. rewrite Hc1, Hc2. by vm_compute.
Qed.

Lemma demo_keys_calm (w : World) :
  w_pg w = [] → w_join w = [] →
  bool_decide (map_Forall (λ id _, (id < 100 + N.of_nat (w_seed w))%N) (db_sessions (w_db w))) = true →
  @calm toy_uuid w.
Proof.
  intros Hp Hj Hk. apply bool_decide_eq_true in Hk. split; [done..|]. intros n Hn. simpl.
  destruct (db_sessions (w_db w) !! _) as [r|] eqn:Hr; [|done]. specialize (Hk _ _ Hr). simpl in Hk. lia.
Qed.

Definition refresh_again (token : string) (w : World) : result AuthError RefreshResult * World :=
  @refresh_token toy_uuid toy_bcrypt (@PostgresUserRepo toy_uuid)
    (@lifecycle_jwt toy_uuid toy_jwt demo_settings) demo_settings token w.

Definition second_refresh : result AuthError RefreshResult * World :=
  refresh_again match after_refresh.1 with Ok res => rf_refresh_token res | Err _ => EmptyString end after_refresh.2.

Lemma session_lifecycle_witness :
  ∃ res2, second_refresh.1 = Ok res2 ∧ rf_user_id res2 = 7%N.
Proof.
  destruct demo_journey as (res & Eres & Hj).
  assert (Hsid : ∃ r, after_refresh.1 = Ok r ∧
            (sr_is_active <$> db_sessions (w_db after_refresh.2) !! rf_session_id r) = Some true)
    by (eexists; vm_compute; split; reflexivity).
  destruct Hsid as (r' & Er' & Hact). rewrite Eres in Er'. injection Er' as <-.
  assert (Hcalm : @calm toy_uuid after_refresh.2) by (apply demo_keys_calm; vm_compute; reflexivity).
  destruct (@session_lifecycle toy_uuid toy_uuid_spec toy_bcrypt toy_bcrypt_spec toy_jwt toy_jwt_spec
    demo_settings demo_lifecycle_total 7%N _ _ _ _ _ after_refresh.2 ltac:(simpl; lia) ltac:(done) Hj
    after_refresh_good (reflexivity _)) as (_ & row & Hrow & _ & Hdec).
  rewrite Hrow in Hact. injection Hact as Hact.
  assert (Esecond : second_refresh = refresh_again (rf_refresh_token res) after_refresh.2)
    by (unfold second_refresh; by rewrite Eres).
  assert (Hend : w_clock second_refresh.2 = from_secs 1000) by (vm_compute; reflexivity).
  specialize (Hdec second_refresh.1 second_refresh.2 Hcalm).
  rewrite Hact in Hdec. destruct Hdec as (res2 & E2 & Hu & _).
  - rewrite <- surjective_pairing. symmetry. exact Esecond.
  - split; [by vm_compute|]. rewrite Hend. by vm_compute.
  - rewrite Hend. by vm_compute.
  - exists res2. split; [exact E2|exact Hu].
Defined.

(** ** Lifetimes out of range

    [from_env] takes any [i64] for the two token lifetimes. With a negative one
    the service starts, and no access token it issues is ever accepted; with one
    that leads beyond chrono's calendar it starts, and no log-in ever succeeds. *)

Definition negative_lifetime_env : Env := λ name,
  if bool_decide (name = "ACCESS_TOKEN_EXPIRY_MINUTES"%string) then Ok "-5"%string else demo_env name.

Lemma access_exp_past self now :
  access_expiry_minutes self = -5 → 0 ≤ now ≤ 2 ^ 42 → access_exp self now = now - 300.
Proof.
  intros Hm Hn. unfold access_exp. rewrite Hm. change (2 ^ 42) with 4398046511104 in Hn.
  rewrite (wrap_i64_id (_ * 60)), wrap_i64_id by (unfold in_i64, I64_MIN, I64_MAX; lia). lia.
Qed.

Lemma negative_lifetime_accepted :
  access_token_expiry_minutes <$> ok (from_env negative_lifetime_env) = Some (-5).
Proof. vm_compute. reflexivity. Qed.

Lemma negative_lifetime_tokens_dead `{UuidSpec, JwtSpec} settings uid sid w tp w1 w2 :
  access_token_expiry_minutes settings = -5 →
  jwt_generate (configured_jwt settings) uid sid w = (Ok tp, w1) →
  0 ≤ timestamp (reading w) ≤ 2 ^ 42 → timestamp (reading w) ≤ timestamp (reading w2) →
  (jwt_validate_access (configured_jwt settings) (tp_access_token tp) w2).1 = Err TokenVerificationFailed.
Proof.
  intros Hm Hg Hw Hle. apply jwt_generate_Ok in Hg as (Ha & _ & _).
  pose proof (jwt_decode_access _ _ _ (access_token_expiry_minutes settings)
    (refresh_token_expiry_days settings) _ _ (timestamp (reading w2)) eq_refl eq_refl Ha) as Hd.
  unfold jwt_validate_access. rewrite bind_run, decode_run.
  change (jv_secret (verification (configured_jwt settings))) with (encoding_key (configured_jwt settings)).
  change (JwtServiceImpl_new _ _ _ _ _) with (configured_jwt settings) in Hd.
  rewrite Hd. cbn [ac_exp issued_access]. rewrite (access_exp_past (configured_jwt settings)) by done.
  clear Hd. case_match; [bool_to_prop; lia|done].
Qed.

Definition oversized_lifetime_env : Env := λ name,
  if bool_decide (name = "REFRESH_TOKEN_EXPIRY_DAYS"%string) then Ok "100000000"%string else demo_env name.

Lemma oversized_lifetime_accepted :
  refresh_token_expiry_days <$> ok (from_env oversized_lifetime_env) = Some 100000000.
Proof. vm_compute. reflexivity. Qed.

Lemma oversized_lifetime_open `{UuidLib, BcryptLib, JwtServiceSpec} settings m a w :
  refresh_token_expiry_days settings = 100000000 → 0 ≤ w_clock w → is_ok (open_session settings m a w).1 = false.
Proof.
  intros Hd Hw. destruct (open_session settings m a w) as [[x|e] w'] eqn:Hr; [exfalso|done].
  unfold open_session in Hr. run_inv Hr. pose proof (framed_now_v7 _ _ _ R) as (_ & _ & Hc1 & _).
  run_inv Hr. pose proof (generate_framed _ _ _ _ _ R0) as (_ & _ & Hc2 & _).
  run_inv Hr. apply utc_now_Ok in R1 as (Ht & _). run_inv Hr. unfold expiry in R1. rewrite Hd in R1.
  destruct (_ <=? _); [|done]. rewrite (proj2 (Z.ltb_ge _ _)) in R1; [done|].
  unfold DATETIME_END, days, from_secs, SECOND. lia.
Qed.

Lemma oversized_lifetime_login `{UuidLib, BcryptLib, JwtServiceSpec} settings username password w :
  refresh_token_expiry_days settings = 100000000 → 0 ≤ w_clock w →
  is_ok (login_with_password settings username password w).1 = false.
Proof.
  intros Hd Hw. destruct (login_with_password settings username password w) as [[x|e] w'] eqn:Hr; [exfalso|done].
  unfold login_with_password in Hr. run_inv Hr. pose proof (find_aggregate_advancing _ _ _ _ R) as [L1 _].
  run_inv Hr. assert (F2 : frame w0 w1) by (eapply (framed_run_bounded _ (framed_verify_password _ _ _)); exact R0).
  destruct v0; [|done]. simpl in Hr. run_inv Hr. run_inv R1. unfold create_session_tokens in Hr. run_inv Hr.
  destruct F2 as (_ & _ & Hc2 & _).
  match type of R2 with open_session _ _ ?a ?w = _ =>
    pose proof (oversized_lifetime_open settings Password a w Hd ltac:(lia)) as Hf end.
  by rewrite R2 in Hf.
Qed.
