(* ===== verification/Google.v ===== *)
(** * Google sign-in

    [crates/auth/src/adapters/google_auth_provider.rs]: the JWKS cache, the
    [Cache-Control] parser and the verification of an ID token. The network, the
    key set and RSA verification are parameters; a fetch is represented by its
    outcome. *)

From S2P Require Import Prelude RustStr ValueObjects Database Effects Jwt UseCases.

(** ** The jsonwebtoken crate, for RS256 *)

Class GoogleLib : Type := {
  JwkSet : Type;
  Jwk : Type;
  DecodingKey : Type;
  decode_header : string → option (option string);
  jwk_find : string → JwkSet → option Jwk;
  from_jwk : Jwk → option DecodingKey;
  rs256_decode : DecodingKey → Validation → Z → string → option Claims }.

(** Documented: what decodes has claims the validation accepts. *)
Class GoogleLibSpec `{GoogleLib} : Prop := {
  rs256_decode_valid : ∀ key v now t c, rs256_decode key v now t = Some c → claims_valid v now c = true }.

(** ** [parse_max_age] *)

(** [iter.find_map(f)] *)
Fixpoint find_map {A B} (f : A → option B) (l : list A) : option B :=
  match l with
  | [] => None
  | a :: l' => match f a with Some b => Some b | None => find_map f l' end
  end.

Definition directive_max_age (directive : string) : option Z :=
  '(name, value) ← split_once "=" (trim directive);
  if eq_ignore_ascii_case name "max-age" then from_secs <$> parse_uint U64_MAX (trim value) else None.

Definition parse_max_age (cache_control : string) : option Z :=
  find_map directive_max_age (split "," cache_control).

(** ** The key cache *)

Definition DEFAULT_JWKS_TTL : Z := from_secs 3600.

Section google.
Context `{GoogleLib}.

(** What the HTTP client returned: the raw [Cache-Control] value and the parsed
    body. *)
Record JwksHttpResponse : Type := MkJwksHttpResponse {
  hr_cache_control : option string;
  hr_json : option JwkSet }.

Definition fetch_jwks_from_google (response : option JwksHttpResponse) : result AuthError (JwkSet * Z) :=
  match response with
  | None => Err TokenVerificationFailed
  | Some response =>
      let ttl := default DEFAULT_JWKS_TTL (v ← hr_cache_control response; s ← to_str v; parse_max_age s) in
      jwks ← ok_or (hr_json response) TokenVerificationFailed;
      Ok (jwks, ttl)
  end.

Record CachedJwks : Type := MkCachedJwks { cj_jwks : JwkSet; cj_expires_at : Z }.

(** One call: the readings of the clock before and after the fetch, and how the
    fetch ends if it is made. *)
Record FetchCall : Type := MkFetchCall {
  fc_t1 : Z;
  fc_t2 : Z;
  fc_fetched : result AuthError (JwkSet * Z) }.

Definition get_or_fetch (call : FetchCall) (cache : option CachedJwks)
    : result AuthError JwkSet * option CachedJwks :=
  let refresh :=
    match fc_fetched call with
    | Ok (jwks, ttl) => (Ok jwks, Some (MkCachedJwks jwks (fc_t2 call + ttl)))
    | Err e =>
        match cache with
        | Some stale => (Ok (cj_jwks stale), cache)
        | None => (Err e, cache)
        end
    end in
  match cache with
  | Some cached => if fc_t1 call <? cj_expires_at cached then (Ok (cj_jwks cached), cache) else refresh
  | None => refresh
  end.

(** ** Verification *)

(** [GoogleClaims], as deserialised from the token's claims. *)
Record GoogleClaims : Type := MkGoogleClaims {
  gc_sub : string;
  gc_email : option string;
  gc_email_verified : option bool;
  gc_name : option string;
  gc_iss : string;
  gc_aud : string;
  gc_exp : Z;
  gc_iat : Z }.

Definition opt_str (k : string) (c : Claims) : option (option string) :=
  match c !! k with
  | Some (JStr s) => Some (Some s)
  | Some JNull | None => Some None
  | _ => None
  end.

Definition opt_bool (k : string) (c : Claims) : option (option bool) :=
  match c !! k with
  | Some (JBool b) => Some (Some b)
  | Some JNull | None => Some None
  | _ => None
  end.

Definition google_of_json (c : Claims) : option GoogleClaims :=
  sub ← get_str "sub" c;
  email ← opt_str "email" c;
  email_verified ← opt_bool "email_verified" c;
  name ← opt_str "name" c;
  iss ← get_str "iss" c;
  aud ← get_str "aud" c;
  exp ← get_i64 "exp" c;
  iat ← get_i64 "iat" c;
  Some (MkGoogleClaims sub email email_verified name iss aud exp iat).

Definition validate_google_claims (claims : GoogleClaims) : result AuthError GoogleUserInfo :=
  email ← ok_or (gc_email claims) TokenVerificationFailed;
  if negb (bool_decide (gc_email_verified claims = Some true)) then Err TokenVerificationFailed
  else Ok (MkGoogleUserInfo email (default email (gc_name claims))).

Definition google_validation (client_id : string) : Validation :=
  let v := Validation_new "RS256" in
  MkValidation (v_algorithm v) (v_leeway v) (v_validate_exp v)
    ["https://accounts.google.com"; "accounts.google.com"]%string [client_id]
    ["sub"; "email"; "iss"; "aud"]%string.

(** After the key set is at hand; [now] is the clock the crate reads. *)
Definition verify_with (client_id : string) (now : Z) (token : string) (jwks : JwkSet)
    : result AuthError GoogleUserInfo :=
  header ← ok_or (decode_header token) TokenVerificationFailed;
  kid ← ok_or header TokenVerificationFailed;
  jwk ← ok_or (jwk_find kid jwks) TokenVerificationFailed;
  decoding_key ← ok_or (from_jwk jwk) TokenVerificationFailed;
  claims ← ok_or (c ← rs256_decode decoding_key (google_validation client_id) now token; google_of_json c)
             TokenVerificationFailed;
  validate_google_claims claims.

Definition google_verify (client_id : string) (call : FetchCall) (now : Z) (token : string)
    (cache : option CachedJwks) : result AuthError GoogleUserInfo * option CachedJwks :=
  let '(r, cache) := get_or_fetch call cache in
  (jwks ← r; verify_with client_id now token jwks, cache).

(** The [AuthProvider] port, on a given cache and fetch outcome. *)
Definition GoogleAuthProvider_port (client_id : string) (call : FetchCall) (cache : option CachedJwks)
    : AuthProviderPort := {|
  verify_id_token token :=
    now ← utc_now;
    lift (google_verify client_id call (timestamp now) token cache).1 |}.

#[global] Instance GoogleAuthProvider_spec client_id call cache :
  @AuthProviderSpec (GoogleAuthProvider_port client_id call cache).
Proof. split. intros t. apply framed_bind; auto with svc. Qed.

(** ** Lemmas *)

(** The cache after a sequence of calls on a new provider. *)
Definition cache_after (calls : list FetchCall) : option CachedJwks :=
  foldl (λ cache call, (get_or_fetch call cache).2) None calls.

(** What the cache holds came from a fetch of the past. *)
Definition cache_from (calls : list FetchCall) (cache : option CachedJwks) : Prop :=
  match cache with
  | Some c => ∃ p ttl, p ∈ calls ∧ fc_fetched p = Ok (cj_jwks c, ttl) ∧ cj_expires_at c = fc_t2 p + ttl
  | None => Forall (λ p, is_ok (fc_fetched p) = false) calls
  end.

Lemma get_or_fetch_from calls call cache :
  cache_from calls cache → cache_from (calls ++ [call]) (get_or_fetch call cache).2.
Proof.
  intros Hc. unfold get_or_fetch.
  assert (Hkeep : ∀ c, cache = Some c → cache_from (calls ++ [call]) cache).
  { intros c ->. destruct Hc as (p & ttl & Hp & Hrest). exists p, ttl. split; [|done].
    apply elem_of_app. by left. }
  assert (Hnew : ∀ jwks ttl, fc_fetched call = Ok (jwks, ttl) →
                   cache_from (calls ++ [call]) (Some (MkCachedJwks jwks (fc_t2 call + ttl)))).
  { intros jwks ttl Hf. exists call, ttl. split; [apply elem_of_app; right; by left|done]. }
  destruct cache as [c|].
  - case_match; [by apply (Hkeep c)|]. destruct (fc_fetched call) as [[jwks ttl]|e] eqn:Hf; simpl;
      [by apply Hnew|by apply (Hkeep c)].
  - destruct (fc_fetched call) as [[jwks ttl]|e] eqn:Hf; simpl; [by apply Hnew|].
    apply Forall_app. split; [done|]. apply Forall_singleton. by rewrite Hf.
Qed.

Lemma cache_after_from calls : cache_from calls (cache_after calls).
Proof.
  induction calls as [|call calls IH] using rev_ind; [constructor|].
  unfold cache_after in *. rewrite foldl_app. by apply get_or_fetch_from.
Qed.

Lemma get_str_Some k c s : get_str k c = Some s → c !! k = Some (JStr s).
Proof. unfold get_str. destruct (c !! k) as [[]|]; naive_solver. Qed.

Lemma opt_str_Some k c s : opt_str k c = Some (Some s) → c !! k = Some (JStr s).
Proof. unfold opt_str. destruct (c !! k) as [[]|]; naive_solver. Qed.

Lemma opt_bool_Some k c b : opt_bool k c = Some (Some b) → c !! k = Some (JBool b).
Proof. unfold opt_bool. destruct (c !! k) as [[]|]; naive_solver. Qed.

Lemma get_i64_Some k c z : get_i64 k c = Some z → c !! k = Some (JInt z).
Proof. unfold get_i64. destruct (c !! k) as [[]|]; naive_solver. Qed.

Lemma google_of_json_Some c g :
  google_of_json c = Some g →
  (∀ e, gc_email g = Some e → c !! "email"%string = Some (JStr e)) ∧
  (∀ b, gc_email_verified g = Some b → c !! "email_verified"%string = Some (JBool b)) ∧
  (∀ n, gc_name g = Some n → c !! "name"%string = Some (JStr n)) ∧
  c !! "iss"%string = Some (JStr (gc_iss g)) ∧ c !! "aud"%string = Some (JStr (gc_aud g)) ∧
  c !! "exp"%string = Some (JInt (gc_exp g)).
Proof.
  unfold google_of_json. intros Hg.
  repeat match type of Hg with
  | mbind _ ?x = Some _ => apply bind_Some in Hg as (? & ? & Hg)
  end.
  injection Hg as <-. simpl. split_and!; try (intros ? ->); auto using get_str_Some, get_i64_Some, opt_str_Some, opt_bool_Some.
Qed.

(** ** Properties *)

(** The keys served are never older than their lifetime while Google answers:
    at any point of any sequence of calls, the set served is the one just
    fetched or was fetched by an earlier call and is still within the lifetime
    announced with it, or the fetch just failed; and a call fails only if no
    call so far ever obtained a key set. *)
Theorem jwks_cache_fresh past call :
  match (get_or_fetch call (cache_after past)).1 with
  | Ok jwks =>
      (∃ ttl, fc_fetched call = Ok (jwks, ttl)) ∨
      ∃ p ttl, p ∈ past ∧ fc_fetched p = Ok (jwks, ttl) ∧
        (fc_t1 call < fc_t2 p + ttl ∨ is_ok (fc_fetched call) = false)
  | Err e => fc_fetched call = Err e ∧ Forall (λ p, is_ok (fc_fetched p) = false) past
  end.
Proof.
  pose proof (cache_after_from past) as Hc. unfold get_or_fetch.
  destruct (cache_after past) as [c|]; simpl in Hc.
  - destruct Hc as (p & ttl & Hp & Hf & Hexp). destruct (fc_t1 call <? cj_expires_at c) eqn:Hlt; simpl.
    + right. exists p, ttl. split_and!; try done. left. bool_to_prop. lia.
    + destruct (fc_fetched call) as [[jwks t]|e]; simpl; [left; by exists t|].
      right. exists p, ttl. split_and!; try done. by right.
  - destruct (fc_fetched call) as [[jwks t]|e]; simpl; [left; by exists t|done].
Qed.

(** C20. An accepted ID token was issued to this application: it is signed by the
    key its header names in the served set, names this client as audience and
    Google as issuer, has not expired beyond the leeway, and its email is the
    verified one that is returned. *)
Theorem google_token_sound `{!GoogleLibSpec} client_id call now token cache info cache' :
  google_verify client_id call now token cache = (Ok info, cache') →
  ∃ jwks kid jwk key c exp,
    (get_or_fetch call cache).1 = Ok jwks ∧ decode_header token = Some (Some kid) ∧
    jwk_find kid jwks = Some jwk ∧ from_jwk jwk = Some key ∧
    rs256_decode key (google_validation client_id) now token = Some c ∧
    c !! "aud"%string = Some (JStr client_id) ∧
    (c !! "iss"%string = Some (JStr "https://accounts.google.com") ∨
     c !! "iss"%string = Some (JStr "accounts.google.com")) ∧
    c !! "exp"%string = Some (JInt exp) ∧ now - 60 ≤ exp ∧
    c !! "email_verified"%string = Some (JBool true) ∧
    c !! "email"%string = Some (JStr (gu_email info)) ∧
    (c !! "name"%string = Some (JStr (gu_name info)) ∨ gu_name info = gu_email info).
Proof.
  unfold google_verify. destruct (get_or_fetch call cache) as [[jwks|e] cache1]; [|done].
  intros [= Hv _]. unfold verify_with in Hv.
  destruct (decode_header token) as [[kid|]|] eqn:Hh; [|done..]. simpl in Hv.
  destruct (jwk_find kid jwks) as [jwk|] eqn:Hk; [|done]. simpl in Hv.
  destruct (from_jwk jwk) as [key|] eqn:Hj; [|done]. simpl in Hv.
  destruct (rs256_decode _ _ _ _) as [c|] eqn:Hd; [|done]. simpl in Hv.
  destruct (google_of_json c) as [g|] eqn:Hg; [|done]. simpl in Hv.
  unfold validate_google_claims in Hv. destruct (gc_email g) as [email|] eqn:He; [|done]. simpl in Hv.
  case_bool_decide as Hver; [|done]. injection Hv as <-. simpl.
  pose proof (rs256_decode_valid _ _ _ _ _ Hd) as Hval. unfold claims_valid in Hval.
  rewrite !andb_true_iff in Hval. destruct Hval as [[[_ Hx] Hiss] Haud].
  destruct (google_of_json_Some _ _ Hg) as (Hemail & Hverified & Hname & Hi & Ha & Hexp).
  rewrite Hi in Hiss. rewrite Ha in Haud. simpl in Hiss, Haud, Hx. rewrite Hexp in Hx.
  apply bool_decide_eq_true in Hiss, Haud. apply list_elem_of_singleton in Haud.
  exists jwks, kid, jwk, key, c, (gc_exp g).
  split_and!; [done|done|done|done|done|by rewrite Ha, Haud| |done|by apply Z.leb_le|by apply Hverified| |].
  - rewrite Hi. rewrite !elem_of_cons, elem_of_nil in Hiss.
    destruct Hiss as [->|[->|[]]]; [by left|by right].
  - by apply Hemail.
  - destruct (gc_name g) as [n|] eqn:Hn; [left; by apply Hname|by right].
Qed.

End google.

(** *** Witness *)

Definition demo_google_claims : Claims :=
  {["sub" := JStr "1"; "email" := JStr "a@x"; "email_verified" := JBool true; "iss" := JStr "accounts.google.com";
    "aud" := JStr "client"; "exp" := JInt 2000; "iat" := JInt 1000]}%string.

(** One key, one token. *)
Definition one_token_google : GoogleLib := {|
  JwkSet := unit;
  Jwk := unit;
  DecodingKey := unit;
  decode_header t := if bool_decide (t = "tok"%string) then Some (Some "k1"%string) else None;
  jwk_find kid _ := if bool_decide (kid = "k1"%string) then Some tt else None;
  from_jwk _ := Some tt;
  rs256_decode _ v now t :=
    if bool_decide (t = "tok"%string) && claims_valid v now demo_google_claims then Some demo_google_claims else None |}.

Lemma one_token_google_spec : @GoogleLibSpec one_token_google.
Proof.
  split. simpl. intros _ v now t c. destruct (bool_decide _); [|done]. simpl.
  destruct (claims_valid _ _ _) eqn:E; [|done]. by intros [= <-].
Qed.

Lemma one_token_google_decode k v n t c :
  @rs256_decode one_token_google k v n t = Some c → c = demo_google_claims.
Proof. simpl. generalize demo_google_claims. intros d. case_match; [by intros [= ->]|done]. Qed.

Definition demo_fetch : @FetchCall one_token_google :=
  @MkFetchCall one_token_google 0 1 (fetch_jwks_from_google (Some
    (@MkJwksHttpResponse one_token_google (Some "public, Max-Age=60"%string) (Some (tt : @JwkSet one_token_google))))).

Definition demo_verify : result AuthError GoogleUserInfo * option (@CachedJwks one_token_google) :=
  google_verify "client" demo_fetch 1500 "tok" None.

Lemma demo_verify_ok : demo_verify.1 = Ok (MkGoogleUserInfo "a@x" "a@x").
Proof. vm_compute. reflexivity. Qed.

Lemma google_token_sound_witness :
  ∃ info, demo_verify.1 = Ok info ∧ demo_google_claims !! "email"%string = Some (JStr (gu_email info)).
Proof.
  exists (MkGoogleUserInfo "a@x" "a@x"). split; [exact demo_verify_ok|].
  destruct (@google_token_sound one_token_google one_token_google_spec "client" demo_fetch 1500 "tok" None
    (MkGoogleUserInfo "a@x" "a@x") demo_verify.2)
    as (jwks & kid & jwk & key & c & exp & _ & _ & _ & _ & Hd & _ & _ & _ & _ & _ & Hemail & _).
  - fold demo_verify. rewrite <- demo_verify_ok. apply surjective_pairing.
  - rewrite (one_token_google_decode _ _ _ _ _ Hd) in Hemail. exact Hemail.
Defined.

Example max_age_examples :
  parse_max_age "public, max-age=3600, must-revalidate" = Some (from_secs 3600) ∧
  parse_max_age "Max-Age=60" = Some (from_secs 60) ∧ parse_max_age "max-age=not-a-number" = None ∧
  parse_max_age "no-cache" = None.
Proof. vm_compute. done. Qed.
