(* ===== verification/Settings.v ===== *)
(** * Configuration of the process

    [crates/shared/src/config/settings.rs]: the TLS requirements on
    [DATABASE_URL], the flag and path parsers and [Settings::from_env]. The
    [url] crate is a parameter. Error messages are constructors of
    [SettingsError], one per message. *)

From S2P Require Import Prelude RustStr Bcrypt AuthSettings Jwt Net.

(** ** The url crate *)

Inductive Host : Type :=
| HostDomain (domain : string)
| HostIpv4 (ip : N)
| HostIpv6 (ip : N).

Class UrlLib : Type := {
  Url : Type;
  url_parse : string → result string Url;
  url_to_string : Url → string;
  url_query_pairs : Url → list (string * string);
  url_set_query_pairs : list (string * string) → Url → Url;
  url_host : Url → option Host;
  url_host_str : Url → option string }.

(** Documented: a URL's text parses back to it, and replacing the query pairs
    replaces just them. *)
Class UrlSpec `{UrlLib} : Prop := {
  url_parse_to_string : ∀ u, url_parse (url_to_string u) = Ok u;
  url_query_pairs_set : ∀ l u, url_query_pairs (url_set_query_pairs l u) = l;
  url_host_set : ∀ l u, url_host (url_set_query_pairs l u) = url_host u }.

Inductive SettingsError : Type :=
| InvalidDatabaseUrl (e : string)
| PlaintextRemoteDatabase (host : option string)
| BadRequireSslFlag (value : string)
| TlsKeyMissing
| TlsCertMissing
| DatabaseUrlMissing
| NotANumber (variable : string).

(** ** [DATABASE_URL] *)

Section database_url.
Context `{UrlLib}.

Definition is_sslmode_key (key : string) : bool :=
  bool_decide (key = "sslmode"%string) || bool_decide (key = "ssl-mode"%string).

(** The last matching pair, lower-cased. *)
Definition extract_sslmode (url : Url) : option string :=
  to_lowercase ∘ snd <$> last (List.filter (λ p, is_sslmode_key p.1) (url_query_pairs url)).

Definition db_host_is_loopback (url : Url) : bool :=
  match url_host url with
  | Some (HostIpv4 ip) => is_loopback (V4 ip)
  | Some (HostIpv6 ip) => is_loopback (V6 ip)
  | Some (HostDomain domain) =>
      eq_ignore_ascii_case domain "localhost" ||
      match parse_ip domain with Some ip => is_loopback ip | None => false end
  | None => false
  end.

Definition validate_database_ssl (url : string) : result SettingsError unit :=
  parsed ← map_err InvalidDatabaseUrl (url_parse url);
  if bool_decide (extract_sslmode parsed = Some "disable"%string) && negb (db_host_is_loopback parsed)
  then Err (PlaintextRemoteDatabase (url_host_str parsed))
  else Ok tt.

(** Whether [database_ssl_warning] returns a warning, and for which host. *)
Definition database_ssl_warning (url : string) : option (option string) :=
  parsed ← ok (url_parse url);
  if db_host_is_loopback parsed then None
  else
    match extract_sslmode parsed with
    | None => Some (url_host_str parsed)
    | Some m => if bool_decide (m = "prefer"%string) || bool_decide (m = "allow"%string)
                then Some (url_host_str parsed) else None
    end.

Definition force_sslmode_verify_full (url : string) : result SettingsError string :=
  parsed ← map_err InvalidDatabaseUrl (url_parse url);
  let remaining := List.filter (λ p, negb (is_sslmode_key p.1)) (url_query_pairs parsed) in
  Ok (url_to_string (url_set_query_pairs (remaining ++ [("sslmode", "verify-full")]%string) parsed)).

(** ** Flags and paths *)

Definition one_of (l : list string) (s : string) : bool := existsb (λ x, bool_decide (s = x)) l.

Definition parse_required_ssl_flag (raw : option string) : result SettingsError bool :=
  match raw with
  | None => Ok false
  | Some value =>
      let v := to_lowercase (trim value) in
      if is_empty v then Ok false
      else if one_of ["1"; "true"; "yes"]%string v then Ok true
      else if one_of ["0"; "false"; "no"]%string v then Ok false
      else Err (BadRequireSslFlag v)
  end.

Definition parse_bool_env (env : Env) (name : string) : bool :=
  match env name with
  | Ok v => one_of ["1"; "true"; "yes"]%string (to_lowercase (trim v))
  | Err _ => false
  end.

(** [.into_iter().map(trim).find(|s| !s.is_empty())] *)
Definition present (raw : option string) : option string :=
  s ← raw;
  if is_empty (trim s) then None else Some (trim s).

Definition parse_tls_paths (raw_cert raw_key : option string)
    : result SettingsError (option string * option string) :=
  match present raw_cert, present raw_key with
  | Some _, None => Err TlsKeyMissing
  | None, Some _ => Err TlsCertMissing
  | cert, key => Ok (cert, key)
  end.

(** ** [Settings::from_env] *)

Record Settings : Type := MkSettings {
  database_url : string;
  server_host : string;
  server_port : Z;
  tls_cert_path : option string;
  tls_key_path : option string;
  rate_limit_max_attempts : Z;
  rate_limit_window_seconds : Z;
  cors_allowed_origins : string;
  trusted_proxy_ips : list IpAddr;
  redis_url : option string;
  db_max_connections : Z;
  db_min_connections : Z;
  db_acquire_timeout_seconds : Z;
  db_idle_timeout_seconds : Z;
  db_max_lifetime_seconds : Z;
  db_require_ssl : bool;
  metrics_allowed_ips : list IpAddr;
  enable_swagger : bool;
  revocation_flush_interval_seconds : Z }.

(** [std::env::var(name).unwrap_or_else(|_| default).parse().map_err(..)?] *)
Definition number_or (env : Env) (name : string) (max : Z) (default : string) : result SettingsError Z :=
  ok_or (parse_uint max (env_or env name default)) (NotANumber name).

(** [.split(',').map(trim).filter(non-empty).filter_map(parse)] *)
Definition ip_list (env : Env) (name : string) : list IpAddr :=
  omap parse_ip (List.filter (λ s, negb (is_empty s)) (trim <$> split "," (env_or env name EmptyString))).

(** The settings and the TLS warning, if any, that is logged. *)
Definition Settings_from_env (env : Env) : result SettingsError (Settings * option (option string)) :=
  db_require_ssl ← parse_required_ssl_flag (ok (env "DB_REQUIRE_SSL"%string));
  let enable_swagger := parse_bool_env env "ENABLE_SWAGGER" in
  tls ← parse_tls_paths (ok (env "TLS_CERT_PATH"%string)) (ok (env "TLS_KEY_PATH"%string));
  raw ← map_err (λ _, DatabaseUrlMissing) (env "DATABASE_URL"%string);
  database_url ← (if db_require_ssl : bool then force_sslmode_verify_full raw else Ok raw);
  _ ← validate_database_ssl database_url;
  let warning := database_ssl_warning database_url in
  server_port ← number_or env "SERVER_PORT" U16_MAX "3000";
  max_attempts ← number_or env "RATE_LIMIT_MAX_ATTEMPTS" U32_MAX "10";
  window ← number_or env "RATE_LIMIT_WINDOW_SECONDS" U64_MAX "300";
  max_conn ← number_or env "DB_MAX_CONNECTIONS" U32_MAX "10";
  min_conn ← number_or env "DB_MIN_CONNECTIONS" U32_MAX "0";
  acquire ← number_or env "DB_ACQUIRE_TIMEOUT_SECONDS" U64_MAX "30";
  idle ← number_or env "DB_IDLE_TIMEOUT_SECONDS" U64_MAX "600";
  lifetime ← number_or env "DB_MAX_LIFETIME_SECONDS" U64_MAX "1800";
  flush ← number_or env "REVOCATION_FLUSH_INTERVAL_SECONDS" U64_MAX "5";
  let redis := match env "REDIS_URL"%string with
               | Ok s => if is_empty (trim s) then None else Some s
               | Err _ => None
               end in
  Ok (MkSettings database_url (env_or env "SERVER_HOST" "127.0.0.1") server_port tls.1 tls.2 max_attempts
        window (env_or env "CORS_ALLOWED_ORIGINS" EmptyString) (ip_list env "TRUSTED_PROXY_IPS") redis max_conn
        min_conn acquire idle lifetime db_require_ssl (ip_list env "METRICS_ALLOWED_IPS") enable_swagger flush,
      warning).

End database_url.

(** ** Lemmas *)

Section lemmas.
Context `{UrlSpec}.

(** What a configuration leaves open about TLS. *)
Definition ssl_mode_of (url : string) : option (option string) :=
  u ← ok (url_parse url); Some (extract_sslmode u).

Lemma last_filter_snoc (l : list (string * string)) k v :
  is_sslmode_key k = true →
  last (List.filter (λ p, is_sslmode_key p.1) (l ++ [(k, v)])) = Some (k, v).
Proof. intros Hk. rewrite List.filter_app. simpl. rewrite Hk. apply last_snoc. Qed.

Lemma force_sslmode_spec url url' :
  force_sslmode_verify_full url = Ok url' →
  ∃ u u', url_parse url = Ok u ∧ url_parse url' = Ok u' ∧
    extract_sslmode u' = Some "verify-full"%string ∧ url_host u' = url_host u ∧
    url_query_pairs u' = List.filter (λ p, negb (is_sslmode_key p.1)) (url_query_pairs u)
                         ++ [("sslmode", "verify-full")]%string.
Proof.
  unfold force_sslmode_verify_full. destruct (url_parse url) as [u|]; [|done]. simpl. intros [= <-].
  eexists u, _. split; [done|]. split; [apply url_parse_to_string|].
  rewrite url_host_set. split; [|split; [done|apply url_query_pairs_set]].
  unfold extract_sslmode. rewrite url_query_pairs_set, last_filter_snoc by done. reflexivity.
Qed.

Lemma validate_database_ssl_Ok url :
  validate_database_ssl url = Ok tt →
  ∃ u, url_parse url = Ok u ∧
       (extract_sslmode u = Some "disable"%string → db_host_is_loopback u = true).
Proof.
  unfold validate_database_ssl. destruct (url_parse url) as [u|]; [|done]. simpl.
  case_bool_decide as Hm; simpl; [|by exists u].
  destruct (db_host_is_loopback u) eqn:Hl; [|done]. exists u. by rewrite Hl.
Qed.

Lemma database_ssl_warning_None url u :
  url_parse url = Ok u →
  database_ssl_warning url = None ↔
    db_host_is_loopback u = true ∨
    ∃ m, extract_sslmode u = Some m ∧ m ≠ "prefer"%string ∧ m ≠ "allow"%string.
Proof.
  intros Hu. unfold database_ssl_warning. rewrite Hu. simpl. destruct (db_host_is_loopback u); [by split; [left|]|].
  destruct (extract_sslmode u) as [m|]; [|naive_solver]. split.
  - intros Hw. right. exists m. repeat case_bool_decide; done.
  - intros [?|(m' & [= <-] & Hp & Ha)]; [done|]. by rewrite !bool_decide_eq_false_2.
Qed.

Lemma present_None raw : present raw = None ∨ is_Some (present raw).
Proof. destruct (present raw); eauto. Qed.

Lemma parse_tls_paths_Ok c k cert key :
  parse_tls_paths c k = Ok (cert, key) → (is_Some cert ↔ is_Some key).
Proof.
  unfold parse_tls_paths. destruct (present c), (present k); intros [= <- <-]; split; intros [? ?]; done || eauto.
Qed.

Lemma number_or_bounds env name max default v :
  0 ≤ max → number_or env name max default = Ok v → 0 ≤ v ≤ max.
Proof.
  unfold number_or, ok_or. intros Hm. destruct (parse_uint _ _) eqn:Hp; [|done]. intros [= <-].
  by eapply parse_uint_bounds.
Qed.

End lemmas.

(** ** Properties *)

(** C38. What a process that starts has settled about TLS. With [DB_REQUIRE_SSL]
    the database URL that is used demands [verify-full], keeps the host and every
    other parameter of the configured one, and raises no warning. In any case the
    URL asks for [sslmode=disable] only if the host it is written with is a
    loopback one; and for any other host a URL that leaves the fallback to
    plaintext open ([prefer], [allow] or no mode) is accepted with a warning. The
    certificate and the key come together, and every number fits its field. *)
Theorem settings_enforce_tls `{UrlSpec} env s warning :
  Settings_from_env env = Ok (s, warning) →
  ∃ raw u0 u, env "DATABASE_URL"%string = Ok raw ∧ url_parse raw = Ok u0 ∧ url_parse (database_url s) = Ok u ∧
    (db_require_ssl s = true →
       extract_sslmode u = Some "verify-full"%string ∧ warning = None ∧ url_host u = url_host u0 ∧
       url_query_pairs u = List.filter (λ p, negb (is_sslmode_key p.1)) (url_query_pairs u0)
                           ++ [("sslmode", "verify-full")]%string) ∧
    (extract_sslmode u = Some "disable"%string → db_host_is_loopback u = true) ∧
    (warning = None ↔ db_host_is_loopback u = true ∨
       ∃ m, extract_sslmode u = Some m ∧ m ≠ "prefer"%string ∧ m ≠ "allow"%string) ∧
    (is_Some (tls_cert_path s) ↔ is_Some (tls_key_path s)) ∧
    0 ≤ server_port s ≤ U16_MAX ∧ in_u32 (rate_limit_max_attempts s) ∧
    in_u64 (rate_limit_window_seconds s) ∧ in_u32 (db_max_connections s) ∧ in_u32 (db_min_connections s) ∧
    in_u64 (db_acquire_timeout_seconds s) ∧ in_u64 (db_idle_timeout_seconds s) ∧
    in_u64 (db_max_lifetime_seconds s) ∧ in_u64 (revocation_flush_interval_seconds s).
Proof.
  unfold Settings_from_env. destruct (parse_required_ssl_flag _) as [req|]; [|done]. simpl.
  destruct (parse_tls_paths _ _) as [[cert key]|] eqn:Htls; [|done]. simpl.
  destruct (env "DATABASE_URL"%string) as [raw|]; [|done]. simpl.
  destruct (if req then _ else _) as [url|] eqn:Hurl; [|done]. simpl.
  destruct (validate_database_ssl url) as [[]|] eqn:Hval; [|done]. simpl.
  repeat match goal with
  | |- context [number_or env ?n ?m ?d] =>
      let E := fresh "N" in destruct (number_or env n m d) eqn:E; [simpl; apply number_or_bounds in E; [|done]|done]
  end.
  intros [= <- <-]. simpl. apply parse_tls_paths_Ok in Htls.
  destruct (validate_database_ssl_Ok _ Hval) as (u & Hu & Hdis).
  assert (Hraw : ∃ u0, url_parse raw = Ok u0 ∧
    (req = true → extract_sslmode u = Some "verify-full"%string ∧ url_host u = url_host u0 ∧
       url_query_pairs u = List.filter (λ p, negb (is_sslmode_key p.1)) (url_query_pairs u0)
                           ++ [("sslmode", "verify-full")]%string)).
  { destruct req.
    - apply force_sslmode_spec in Hurl as (u0 & u1 & ? & Hu1 & ? & ? & ?). rewrite Hu in Hu1.
      injection Hu1 as <-. by exists u0.
    - injection Hurl as ->. by exists u. }
  destruct Hraw as (u0 & Hu0 & Hreq). exists raw, u0, u. unfold in_u32, in_u64.
  split; [done|]. split; [done|]. split; [done|]. split; [|split; [done|split; [|split_and!; try done; lia]]].
  - intros Hr. destruct (Hreq Hr) as (Hm & Hh & Hq). split_and!; try done.
    unfold database_ssl_warning. rewrite Hu. simpl. rewrite Hm. by destruct (db_host_is_loopback u).
  - by apply database_ssl_warning_None.
Qed.

(** *** Witness *)

Definition toy_url : UrlLib := {|
  Url := string * list (string * string);
  url_parse s := if bool_decide (s = "db"%string) then Ok ("db.example"%string, [("sslmode", "disable"); ("a", "b")]%string)
                 else match countable.decode (bits_pos s) with Some u => Ok u | None => Err "bad"%string end;
  url_to_string u := pos_bits (countable.encode u);
  url_query_pairs := snd;
  url_set_query_pairs l u := (u.1, l);
  url_host u := Some (HostDomain u.1);
  url_host_str u := Some u.1 |}.

Lemma toy_url_spec : @UrlSpec toy_url.
Proof.
  split; simpl; [|done|done]. intros u. rewrite bool_decide_false.
  - by rewrite bits_pos_bits, countable.decode_encode.
  - intros Heq. destruct (countable.encode u); discriminate Heq.
Qed.

Definition settings_env (name : string) : result VarError string :=
  if bool_decide (name = "DATABASE_URL"%string) then Ok "db"%string
  else if bool_decide (name = "DB_REQUIRE_SSL"%string) then Ok " TRUE "%string
  else if bool_decide (name = "METRICS_ALLOWED_IPS"%string) then Ok "10.0.0.0/8"%string
  else Err NotPresent.

Definition demo_started : result SettingsError (Settings * option (option string)) :=
  @Settings_from_env toy_url settings_env.

Lemma settings_enforce_tls_witness :
  ∃ s w u, demo_started = Ok (s, w) ∧ @url_parse toy_url (database_url s) = Ok u ∧
    @extract_sslmode toy_url u = Some "verify-full"%string.
Proof.
  destruct demo_started as [[s w]|e] eqn:E; [|vm_compute in E; discriminate E].
  destruct (@settings_enforce_tls toy_url toy_url_spec _ _ _ E) as (raw & u0 & u & _ & _ & Hu & Hreq & _).
  exists s, w, u. split; [reflexivity|]. split; [exact Hu|].
  assert (Hs : db_require_ssl s = true) by (vm_compute in E; injection E as <- _; reflexivity).
  exact (proj1 (Hreq Hs)).
Defined.

(** Entries of the metrics allowlist that do not parse are dropped; when none
    parses the list is empty, which means no restriction. *)
Theorem unparsed_allowlist_opens_metrics {R} (next : R) :
  ip_list settings_env "METRICS_ALLOWED_IPS" = [] ∧
  ∀ trusted peer headers,
    metrics_ip_allowlist (MkMetricsGuardConfig (ip_list settings_env "METRICS_ALLOWED_IPS") trusted)
      peer headers next = Some next.
Proof. assert (ip_list settings_env "METRICS_ALLOWED_IPS" = []) as -> by (vm_compute; reflexivity). done. Qed.
