(* ===== verification/Redaction.v ===== *)
(** * What the logs may show

    The [Debug] and [Display] implementations of the types that hold secrets:
    [Settings] ([crates/shared/src/config/settings.rs]), [AuthSettings]
    ([crates/auth/src/config/auth_settings.rs]) and [HashedPassword]
    ([ValueObjects.v]), with the token newtypes of [crates/shared], whose derived
    [Debug] shows them. A [debug_struct] is its list of fields, before std's
    rendering. *)

From S2P Require Import Prelude RustStr ValueObjects Net AuthSettings Settings.

Inductive DebugVal : Type :=
| DStr (s : string)
| DInt (n : Z)
| DBool (b : bool)
| DNone
| DSome (v : DebugVal)
| DIps (l : list IpAddr)
| DTuple (name : string) (v : DebugVal).

Definition DOpt (o : option string) : DebugVal :=
  match o with Some s => DSome (DStr s) | None => DNone end.

(** ** [Settings] *)

(** [self.database_url.split('@').next_back().unwrap_or(&self.database_url)] *)
Definition db_sanitized (s : Settings) : string := default (database_url s) (last (split "@" (database_url s))).

Definition Settings_debug (s : Settings) : list (string * DebugVal) :=
  [("server_host", DStr (server_host s));
   ("server_port", DInt (server_port s));
   ("tls_cert_path", DOpt (tls_cert_path s));
   ("tls_key_path", DOpt (tls_key_path s));
   ("database_url", DStr (String.append "<redacted>@" (db_sanitized s)));
   ("rate_limit_max_attempts", DInt (rate_limit_max_attempts s));
   ("rate_limit_window_seconds", DInt (rate_limit_window_seconds s));
   ("cors_allowed_origins", DStr (cors_allowed_origins s));
   ("trusted_proxy_ips", DIps (trusted_proxy_ips s));
   ("redis_url", DOpt (redis_url s));
   ("db_max_connections", DInt (db_max_connections s));
   ("db_min_connections", DInt (db_min_connections s));
   ("db_acquire_timeout_seconds", DInt (db_acquire_timeout_seconds s));
   ("db_idle_timeout_seconds", DInt (db_idle_timeout_seconds s));
   ("db_max_lifetime_seconds", DInt (db_max_lifetime_seconds s));
   ("db_require_ssl", DBool (db_require_ssl s));
   ("metrics_allowed_ips", DIps (metrics_allowed_ips s));
   ("enable_swagger", DBool (enable_swagger s));
   ("revocation_flush_interval_seconds", DInt (revocation_flush_interval_seconds s))]%string.

(** ** [AuthSettings] *)

(** [None]: slicing the secret panics. *)
Definition AuthSettings_debug (s : AuthSettings) : option (list (string * DebugVal)) :=
  preview ← jwt_preview s;
  Some [("default_user_username", DStr (default_user_username s));
        ("default_user_email", DStr (default_user_email s));
        ("jwt_secret", DStr preview);
        ("jwt_issuer", DStr (jwt_issuer s));
        ("jwt_audience", DStr (jwt_audience s));
        ("default_user_password", DStr "<redacted>");
        ("google_client_id", DStr "<redacted>");
        ("access_token_expiry_minutes", DInt (access_token_expiry_minutes s));
        ("refresh_token_expiry_days", DInt (refresh_token_expiry_days s));
        ("bcrypt_cost", DInt (bcrypt_cost s));
        ("bcrypt_max_concurrent", DInt (bcrypt_max_concurrent s))]%string.

(** ** The token newtypes *)

Record AccessToken : Type := MkAccessToken { at_value : string }.
Record RefreshToken : Type := MkRefreshToken { rt_value : string }.

Definition AccessToken_new (value : string) : AccessToken := MkAccessToken value.
Definition AccessToken_as_str (t : AccessToken) : string := at_value t.
Definition AccessToken_into_inner (t : AccessToken) : string := at_value t.
Definition AccessToken_display (t : AccessToken) : string := at_value t.
Definition AccessToken_debug (t : AccessToken) : DebugVal := DTuple "AccessToken" (DStr (at_value t)).

Definition RefreshToken_new (value : string) : RefreshToken := MkRefreshToken value.
Definition RefreshToken_as_str (t : RefreshToken) : string := rt_value t.
Definition RefreshToken_into_inner (t : RefreshToken) : string := rt_value t.
Definition RefreshToken_display (t : RefreshToken) : string := rt_value t.
Definition RefreshToken_debug (t : RefreshToken) : DebugVal := DTuple "RefreshToken" (DStr (rt_value t)).

Module Shared.
Record TokenPair : Type := MkTokenPair { access_token : AccessToken; refresh_token : RefreshToken }.

Definition TokenPair_new (access_token : AccessToken) (refresh_token : RefreshToken) : TokenPair :=
  MkTokenPair access_token refresh_token.
End Shared.

(** ** Properties *)

Definition with_database_url (s : Settings) (url : string) : Settings :=
  MkSettings url (server_host s) (server_port s) (tls_cert_path s) (tls_key_path s) (rate_limit_max_attempts s)
    (rate_limit_window_seconds s) (cors_allowed_origins s) (trusted_proxy_ips s) (redis_url s)
    (db_max_connections s) (db_min_connections s) (db_acquire_timeout_seconds s) (db_idle_timeout_seconds s)
    (db_max_lifetime_seconds s) (db_require_ssl s) (metrics_allowed_ips s) (enable_swagger s)
    (revocation_flush_interval_seconds s).

(** The same settings with other secrets. *)
Definition with_secrets (s : AuthSettings) (password client_id secret : string) : AuthSettings :=
  MkAuthSettings (default_user_username s) password (default_user_email s) client_id secret (jwt_issuer s)
    (jwt_audience s) (access_token_expiry_minutes s) (refresh_token_expiry_days s) (bcrypt_cost s)
    (bcrypt_max_concurrent s) (bcrypt_limiter s).

Lemma db_sanitized_after_at s creds host :
  contains_char "@" host = false →
  db_sanitized (with_database_url s (String.append creds (String "@" host))) = host.
Proof.
  intros Hh. unfold db_sanitized. simpl. rewrite split_app, (split_no_sep _ host) by done. by rewrite last_snoc.
Qed.

(** The logs cannot show what the [Debug] implementations withhold: two
    database URLs that differ only in the credentials before the last at-sign
    print alike; so do two [AuthSettings] that differ in the default password,
    in the Google client id and in the JWT secret beyond its first 8 bytes,
    whenever they print at all; and so do any two password hashes, shown by
    [Debug] or [Display]. *)
Theorem debug_hides_secrets :
  (∀ s creds creds' host, contains_char "@" host = false →
     Settings_debug (with_database_url s (String.append creds (String "@" host))) =
       Settings_debug (with_database_url s (String.append creds' (String "@" host))) ∧
     ("database_url", DStr (String.append "<redacted>@" host))%string ∈
       Settings_debug (with_database_url s (String.append creds (String "@" host)))) ∧
  (∀ s password password' client_id client_id' secret secret' d d',
     8 < str_len secret → 8 < str_len secret' → String.substring 0 8 secret = String.substring 0 8 secret' →
     AuthSettings_debug (with_secrets s password client_id secret) = Some d →
     AuthSettings_debug (with_secrets s password' client_id' secret') = Some d' → d = d') ∧
  (∀ h h', HashedPassword_debug h = HashedPassword_debug h' ∧ HashedPassword_display h = HashedPassword_display h').
Proof.
  split_and!.
  - intros s creds creds' host Hh. unfold Settings_debug. rewrite !db_sanitized_after_at by done.
    split; [done|]. do 4 right. left.
  - intros s p p' c c' sec sec' d d' Hl Hl' Heq. unfold AuthSettings_debug, jwt_preview, str_slice_to. simpl.
    rewrite !(proj2 (Z.ltb_lt _ _)) by done. destruct (_ && _); [|done]. destruct (_ && _); [|done].
    simpl. intros [= <-] [= <-]. by rewrite Heq.
  - done.
Qed.

(** The Redis URL is printed whole, with its password. *)
Theorem redis_url_not_redacted s url :
  redis_url s = Some url → ("redis_url"%string, DSome (DStr url)) ∈ Settings_debug s.
Proof. intros Hr. unfold Settings_debug. rewrite Hr. do 9 right. left. Qed.

Lemma debug_hides_secrets_witness :
  Settings_debug (with_database_url
    (MkSettings EmptyString "h" 1 None None 1 1 EmptyString [] None 1 1 1 1 1 false [] false 1) "postgres://u:p@db/x") =
  Settings_debug (with_database_url
    (MkSettings EmptyString "h" 1 None None 1 1 EmptyString [] None 1 1 1 1 1 false [] false 1) "postgres://v:q@db/x").
Proof.
  destruct debug_hides_secrets as [Hs _].
  exact (proj1 (Hs (MkSettings EmptyString "h" 1 None None 1 1 EmptyString [] None 1 1 1 1 1 false [] false 1)
    "postgres://u:p" "postgres://v:q" "db/x" eq_refl)).
Defined.
