(* ===== verification/App.v ===== *)
(** * The application

    The composition root of [src/]: the seeded default user of [main.rs], the
    health check, the CORS policy, the security headers and the route table of
    [router.rs] with the handlers of every context behind it. *)

From S2P Require Import Prelude RustStr ValueObjects Entities Aggregate Database Effects UserRepo.
From S2P Require Import Bcrypt AuthSettings Jwt UseCases Net RateLimiter Blacklist Http Admin Profiles AuthRoutes.

(** ** [seed_default_user]

    The password is hashed and the account inserted unless the count, taken
    before, found a local user; then [Ok true]. *)
Definition seed_insert `{UuidLib, BcryptLib} (settings : AuthSettings) : M string bool :=
  r ← with_err (λ _, "bcrypt task failed"%string)
        (run_bounded (hash_io (default_user_password settings) (bcrypt_cost settings)));
  password_hash ← lift (map_err (λ _, "password hashing failed"%string) r);
  id ← now_v7;
  now ← utc_now;
  _ ← exec (insert_user_on_conflict_username
              (MkUserRow id (Some (default_user_username settings)) (default_user_email settings)
                 "Administrator" (Some password_hash) "local" now now));
  mret false.

Definition seed_default_user `{UuidLib, BcryptLib} (settings : AuthSettings) : M string bool :=
  count ← exec count_local_users;
  if 0 <? count then mret true else seed_insert settings.

(** ** [create_pool] *)

Definition non_zero_duration (seconds : Z) : option Z :=
  if seconds =? 0 then None else Some (from_secs seconds).

(** ** [health_check] *)

(** How [SELECT 1] under the two-second timeout ends. *)
Inductive DbCheck : Type :=
| DbAnswered
| DbFailed
| DbTimedOut.

Definition health_check (version : string) (db_check : DbCheck) : Response Body :=
  match db_check with
  | DbAnswered => MkResponse 200 (HealthResponse "ok" version)
  | DbFailed | DbTimedOut => MkResponse 503 (HealthResponse "degraded" version)
  end.

(** ** CORS *)

Inductive Method : Type :=
| GET
| POST
| PUT
| HEAD
| OPTIONS
| OtherMethod (name : string).

#[global] Instance Method_eq_dec : EqDecision Method.
Proof. solve_decision. Defined.

Record CorsLayer : Type := MkCorsLayer {
  allow_origin : list string;
  allow_methods : list Method;
  allow_headers : list string }.

(** [AllowOrigin::list]: documented to panic ([None]) on a wildcard. *)
Definition AllowOrigin_list (origins : list string) : option (list string) :=
  if existsb (λ o, bool_decide (o = "*"%string)) origins then None else Some origins.

(** [o.trim().parse::<HeaderValue>()]: visible ASCII only. *)
Definition build_cors_layer (allowed_origins : string) : option CorsLayer :=
  if is_empty allowed_origins then
    origins ← AllowOrigin_list []; Some (MkCorsLayer origins [] [])
  else
    origins ← AllowOrigin_list (omap (λ o, to_str (trim o)) (split "," allowed_origins));
    Some (MkCorsLayer origins [GET; POST; PUT] ["content-type"; "authorization"]%string).

(** ** Security headers *)

(** [SetResponseHeaderLayer::overriding(name, value)] *)
Definition overriding (name value : string) (h : HeaderMap) : HeaderMap :=
  List.filter (λ kv, negb (bool_decide (kv.1 = name))) h ++ [(name, value)].

Definition apply_security_headers (h : HeaderMap) : HeaderMap :=
  overriding "referrer-policy" "strict-origin-when-cross-origin"
    (overriding "x-frame-options" "DENY"
      (overriding "x-content-type-options" "nosniff"
        (overriding "strict-transport-security" "max-age=31536000; includeSubDomains" h))).

(** ** Routes *)

(** The matched route, with the path parameters as text. *)
Inductive Route : Type :=
| RLoginPassword
| RLoginGoogle
| RLogout
| RRefresh
| RHealth
| RProfile
| RUsers
| RUser (id : string)
| RUserRole (id : string)
| RMetrics.

(** The table of [build_router], on the segments of the path; a parameter is one
    segment, not empty. *)
Definition match_path (segments : list string) : option Route :=
  match segments with
  | ["metrics"] => Some RMetrics
  | ["api"; "auth"; "login"; "password"] => Some RLoginPassword
  | ["api"; "auth"; "login"; "google"] => Some RLoginGoogle
  | ["api"; "auth"; "logout"] => Some RLogout
  | ["api"; "auth"; "refresh"] => Some RRefresh
  | ["api"; "health"] => Some RHealth
  | ["api"; "profile"] => Some RProfile
  | ["api"; "admin"; "users"] => Some RUsers
  | ["api"; "admin"; "users"; id] => if is_empty id then None else Some (RUser id)
  | ["api"; "admin"; "users"; id; "role"] => if is_empty id then None else Some (RUserRole id)
  | _ => None
  end%string.

(** The methods a route is registered for. *)
Definition route_methods (r : Route) : list Method :=
  match r with
  | RLoginPassword | RLoginGoogle | RLogout | RRefresh => [POST]
  | RHealth | RUsers | RUser _ | RMetrics => [GET]
  | RProfile => [GET; PUT]
  | RUserRole _ => [PUT]
  end.

(** A request that reached a handler, with its parsed body or parameters. *)
Inductive Endpoint : Type :=
| EpLoginPassword (username password : string)
| EpLoginGoogle (id_token : string)
| EpRefresh (token : string)
| EpLogout (session_id : Uuid)
| EpGetProfile
| EpUpdateProfile (avatar_url bio : option string)
| EpListUsers (page per_page : option Z)
| EpGetUser (id : Uuid)
| EpUpdateRole (id : Uuid) (role : string)
| EpHealth (db_check : DbCheck).

(** The route and method whose handler an endpoint is. *)
Definition endpoint_route (id_text : Uuid → string) (e : Endpoint) : Route * Method :=
  match e with
  | EpLoginPassword _ _ => (RLoginPassword, POST)
  | EpLoginGoogle _ => (RLoginGoogle, POST)
  | EpRefresh _ => (RRefresh, POST)
  | EpLogout _ => (RLogout, POST)
  | EpGetProfile => (RProfile, GET)
  | EpUpdateProfile _ _ => (RProfile, PUT)
  | EpListUsers _ _ => (RUsers, GET)
  | EpGetUser id => (RUser (id_text id), GET)
  | EpUpdateRole id _ => (RUserRole (id_text id), PUT)
  | EpHealth _ => (RHealth, GET)
  end.

(** The routes whose handler takes an [AuthenticatedUser]. *)
Definition protected (e : Endpoint) : bool :=
  match e with
  | EpLogout _ | EpGetProfile | EpUpdateProfile _ _ | EpListUsers _ _ | EpGetUser _ | EpUpdateRole _ _ => true
  | _ => false
  end.

Section serve.
Context `{UuidLib, BcryptLib, ChronoLib, JwtLib, UserRepository, AdminRepository, ProfileRepository,
          JwtService, AuthProviderPort}.
Context {L B Env : Type} `{RateLimiter L, AccessTokenBlacklist B Env}.
Variable settings : AuthSettings.
Variable trusted_proxies : list IpAddr.
Variable verification : JwtVerification.
Variable version : string.

(** The routed application. [env1] and [env2] are the outcomes of the blacklist
    round trips of the extractor and of the logout handler. *)
Definition serve (env1 env2 : Env) (peer : IpAddr) (headers : HeaderMap) (e : Endpoint)
    : H L B (Response Body) :=
  let authed := authenticated env1 (Some verification) true headers in
  match e with
  | EpLoginPassword username password =>
      login_password_handler settings trusted_proxies peer headers username password
  | EpLoginGoogle id_token => login_google_handler settings trusted_proxies peer headers id_token
  | EpRefresh token => refresh_token_handler settings trusted_proxies peer headers token
  | EpLogout session_id => authed (logout_handler env2 session_id)
  | EpGetProfile => authed get_profile_handler
  | EpUpdateProfile avatar_url bio => authed (λ u, update_profile_handler u avatar_url bio)
  | EpListUsers page per_page => authed (list_users_handler page per_page)
  | EpGetUser id => authed (get_user_handler id)
  | EpUpdateRole id role => authed (update_user_role_handler id role)
  | EpHealth db_check => mret (health_check version db_check)
  end.

End serve.

(** ** Lemmas *)

Section serve_lemmas.
Context `{UuidLib, JwtLib} {L B Env : Type} `{AccessTokenBlacklist B Env}.

(** The database, the bus and the work done are as before. *)
Definition unchanged (s s' : Srv L B) : Prop :=
  w_db (sv_world s') = w_db (sv_world s) ∧ w_work (sv_world s') = w_work (sv_world s) ∧
  sv_bus s' = sv_bus s ∧ sv_login_limiter s' = sv_login_limiter s ∧
  sv_refresh_limiter s' = sv_refresh_limiter s.

Lemma from_request_parts_unchanged env ver ext headers (s : Srv L B) :
  unchanged s (from_request_parts env ver ext headers s).2.
Proof.
  unfold from_request_parts. destruct (bearer_token headers) as [token|]; [|done].
  destruct ver as [v|]; [|done]. destruct ext; [|done].
  h_run. unfold decode, mbind, M_bind, utc_now, mret, M_ret. simpl.
  destruct (jwt_decode _ _ _ token) as [claims|]; simpl; [|done].
  destruct (request_of_json claims) as [rc|]; simpl; [|done].
  destruct (bl_is_revoked _ _ _ _) as [r b]. simpl. by destruct r as [[]|].
Qed.

Lemma authenticated_rejects env ver ext headers (h : AuthenticatedUser → H L B (Response Body)) (s : Srv L B) :
  is_ok (from_request_parts env ver ext headers s).1 = false →
  (authenticated env ver ext headers h s).1 = AuthRejection_into_response ∧
  unchanged s (authenticated env ver ext headers h s).2.
Proof.
  intros Hr. pose proof (from_request_parts_unchanged env ver ext headers s) as Hu.
  unfold authenticated, mbind, H_bind. destruct (from_request_parts _ _ _ _ s) as [[u|e] s1]; [done|].
  split; [done|exact Hu].
Qed.

(** Without a bearer token nothing is accepted. *)
Lemma no_bearer_rejected env ver ext headers (s : Srv L B) :
  bearer_token headers = None → is_ok (from_request_parts env ver ext headers s).1 = false.
Proof. intros Hb. unfold from_request_parts. by rewrite Hb. Qed.

End serve_lemmas.

(** Every endpoint is the handler of a route of the table. *)
Definition demo_path (r : Route) : list string :=
  match r with
  | RMetrics => ["metrics"]
  | RLoginPassword => ["api"; "auth"; "login"; "password"]
  | RLoginGoogle => ["api"; "auth"; "login"; "google"]
  | RLogout => ["api"; "auth"; "logout"]
  | RRefresh => ["api"; "auth"; "refresh"]
  | RHealth => ["api"; "health"]
  | RProfile => ["api"; "profile"]
  | RUsers => ["api"; "admin"; "users"]
  | RUser id => ["api"; "admin"; "users"; id]
  | RUserRole id => ["api"; "admin"; "users"; id; "role"]
  end%string.

Lemma endpoint_routed id_text e :
  (∀ id, id_text id ≠ EmptyString) →
  match_path (demo_path (endpoint_route id_text e).1) = Some (endpoint_route id_text e).1 ∧
  (endpoint_route id_text e).2 ∈ route_methods (endpoint_route id_text e).1.
Proof.
  intros Hid. destruct e; simpl; (split; [|repeat constructor]); try done.
  - specialize (Hid id). by destruct (id_text id).
  - specialize (Hid id). by destruct (id_text id).
Qed.

(** With every name present at most once afterwards, the last value wins. *)
Lemma header_get_overriding name value h : header_get name (overriding name value h) = Some value.
Proof.
  unfold header_get, overriding. induction h as [|[k v] h IH]; simpl; [by rewrite bool_decide_true|].
  case_bool_decide; simpl; [done|]. by rewrite bool_decide_false.
Qed.

Lemma header_get_overriding_ne name name' value h :
  name ≠ name' → header_get name (overriding name' value h) = header_get name h.
Proof.
  intros Hne. unfold header_get, overriding. induction h as [|[k v] h IH]; simpl.
  - by rewrite bool_decide_false.
  - destruct (decide (k = name')) as [->|Hk].
    + rewrite (bool_decide_true (name' = name')) by done. simpl.
      rewrite (bool_decide_false (name' = name)) by done. exact IH.
    + rewrite (bool_decide_false (k = name')) by done. simpl. case_bool_decide; [done|exact IH].
Qed.

(** Whatever a handler sets, the four headers have their fixed values and every
    other header is kept. *)
Theorem security_headers_on_every_response h :
  let h' := apply_security_headers h in
  header_get "strict-transport-security" h' = Some "max-age=31536000; includeSubDomains"%string ∧
  header_get "x-content-type-options" h' = Some "nosniff"%string ∧
  header_get "x-frame-options" h' = Some "DENY"%string ∧
  header_get "referrer-policy" h' = Some "strict-origin-when-cross-origin"%string ∧
  ∀ n, n ∉ ["strict-transport-security"; "x-content-type-options"; "x-frame-options"; "referrer-policy"]%string →
       header_get n h' = header_get n h.
Proof.
  simpl. unfold apply_security_headers. split_and!.
  - rewrite 3!header_get_overriding_ne by done. by rewrite header_get_overriding.
  - rewrite 2!header_get_overriding_ne by done. by rewrite header_get_overriding.
  - rewrite header_get_overriding_ne by done. by rewrite header_get_overriding.
  - by rewrite header_get_overriding.
  - intros n Hn. rewrite 4!header_get_overriding_ne by set_solver. done.
Qed.

(** ** Properties *)

(** C33. Refused requests change nothing. On every protected endpoint a request the
    extractor rejects — one without a bearer token in particular — is answered
    401, and on the three rate-limited endpoints a well-formed request whose
    resolved client address the limiter refuses is answered 429; either way the
    database, the event bus and the CPU-bound work done are as before. *)
Theorem refused_requests_change_nothing
    `{UuidLib, BcryptLib, ChronoLib, JwtLib, UserRepository, AdminRepository, ProfileRepository,
      JwtService, AuthProviderPort} {L B Env} `{RateLimiter L, AccessTokenBlacklist B Env}
    settings trusted ver version env1 env2 peer headers e (s : Srv L B) :
  let out := serve settings trusted ver version env1 env2 peer headers e s in
  let ip := resolve_client_ip peer headers trusted in
  (protected e = true →
     is_ok (from_request_parts env1 (Some ver) true headers s).1 = false ∨ bearer_token headers = None →
     out.1 = AuthRejection_into_response ∧ unchanged s out.2) ∧
  (match e with
   | EpLoginPassword username password => login_fields_invalid username password = false ∧ login_decision ip s = false
   | EpLoginGoogle t => t ≠ EmptyString ∧ str_len t ≤ MAX_ID_TOKEN_LEN ∧ login_decision ip s = false
   | EpRefresh t => t ≠ EmptyString ∧ str_len t ≤ MAX_REFRESH_TOKEN_LEN ∧ refresh_decision ip s = false
   | _ => False
   end → rs_status out.1 = 429 ∧ only_limited s out.2).
Proof.
  intros out ip. split.
  - intros Hp Hr. assert (Hrej : is_ok (from_request_parts env1 (Some ver) true headers s).1 = false).
    { destruct Hr as [Hr|Hr]; [done|by apply no_bearer_rejected]. }
    destruct e; try done; by apply authenticated_rejects.
  - destruct (limited_requests settings trusted peer headers s) as [Hlogin Hrefresh].
    destruct e; try done; intros Hl.
    + destruct Hl as [Hf Hd]. by apply (Hlogin Hd).
    + destruct Hl as (? & ? & Hd). by apply (Hlogin Hd).
    + destruct Hl as (? & ? & Hd). by apply (Hrefresh Hd).
Qed.

(** Seeding creates the default account once: it reports an existing account
    exactly when a local user is stored, and then changes nothing; otherwise it
    adds at most one row — a local user with the configured name whose hash
    accepts the configured password. *)
Theorem seed_default_user_sound `{UuidLib, BcryptSpec} settings w b w' :
  seed_default_user settings w = (Ok b, w') →
  let local r := ur_auth_provider r = "local"%string in
  if b then (∃ id r, db_users (w_db w) !! id = Some r ∧ local r) ∧ w_db w' = w_db w
  else
    map_Forall (λ _ r, ¬ local r) (db_users (w_db w)) ∧
    (w_db w' = w_db w ∧ username_taken (Some (default_user_username settings)) (w_db w) = true ∨
     ∃ id h now, db_users (w_db w) !! id = None ∧
       bcrypt_verify (default_user_password settings) h = Ok true ∧
       w_db w' = with_users (w_db w) (<[id := MkUserRow id (Some (default_user_username settings))
         (default_user_email settings) "Administrator" (Some h) "local" now now]> (db_users (w_db w)))).
Proof.
  unfold seed_default_user, seed_insert. intros Hr. run_inv Hr. apply exec_Ok_inv in R as (db' & Hst & Hdb & _).
  injection Hst as <- <-. destruct (0 <? _) eqn:Hc; bool_to_prop.
  - injection Hr as <- <-. split; [|done].
    destruct (List.filter _ _) as [|r l] eqn:Hf; [simpl in Hc; lia|].
    assert (Hin : r ∈ r :: l) by left. rewrite <- Hf, list_elem_of_In, filter_In in Hin.
    destruct Hin as [Hin Hl]. apply list_elem_of_In, list_elem_of_fmap in Hin as ([id r'] & -> & Hin).
    apply elem_of_map_to_list in Hin. exists id, r'. split; [done|]. by apply bool_decide_eq_true in Hl.
  - run_inv Hr. run_inv R. pose proof (framed_run_bounded _ (framed_hash_io _ _) _ _ _ R) as (Hdb1 & _).
    run_inv Hr. run_inv R0. run_inv Hr. rewrite now_v7_run in R1. injection R1 as <- <-.
    run_inv Hr. rewrite utc_now_run in R1. injection R1 as <- <-. run_inv Hr.
    apply exec_Ok_inv in R1 as (db' & Hst & Hdb' & _). injection Hr as <- <-. split.
    { intros id r Hr Hl. destruct (List.filter _ _) as [|r' l] eqn:Hf; [|simpl in Hc; lia].
      assert (Hin : r ∈ []); [|by apply not_elem_of_nil in Hin].
      rewrite <- Hf, list_elem_of_In, filter_In, <- list_elem_of_In. split; [|by apply bool_decide_eq_true].
      apply list_elem_of_fmap. exists (id, r). split; [done|]. by apply elem_of_map_to_list. }
    cbn [w_db with_time with_seed] in Hst, Hdb'. rewrite Hdb', Hdb1, Hdb in *. clear Hdb' Hdb1 Hdb.
    unfold insert_user_on_conflict_username, insert_user in Hst.
    cbn [ur_username ur_email ur_id] in Hst.
    destruct (username_taken _ (w_db w)) eqn:Ht; [injection Hst as _ <-; by left|right].
    case_bool_decide as Hid; [done|]. destruct (email_taken _ _); [done|]. injection Hst as _ <-.
    eexists _, _, _. split; [by apply eq_None_not_Some|]. split; [|done].
    destruct v; [|discriminate R0]. injection R0 as ->.
    apply run_bounded_Ok in R as (w3 & R & _). unfold hash_io in R. run_inv R. injection R0 as <- <-.
    rewrite effect_run in R. injection R as R _. by eapply bcrypt_verify_own.
Qed.

(** ** What a handler answers

    [answers P h]: from every state the answer of [h] satisfies [P]. *)
Definition answers {L B} (P : Response Body → Prop) (h : H L B (Response Body)) : Prop := ∀ s, P (h s).1.

Section answers.
Context {L B : Type}.
Variable P : Response Body → Prop.

Lemma answers_ret (r : Response Body) : P r → answers (L := L) (B := B) P (mret r).
Proof. by intros Hr s. Qed.

Lemma answers_bind {A} (h : H L B A) (k : A → H L B (Response Body)) :
  (∀ a, answers P (k a)) → answers P (h ≫= k).
Proof. intros Hk s. unfold mbind, H_bind. destruct (h s) as [a s1]. apply Hk. Qed.

(** A call whose result is known to satisfy [Q]. *)
Lemma answers_call {E A} (Q : result E A → Prop) (m : M E A) (k : result E A → H L B (Response Body)) :
  (∀ w, Q (m w).1) → (∀ r, Q r → answers P (k r)) → answers P (call m ≫= k).
Proof.
  intros Hm Hk s. unfold mbind, H_bind, call. specialize (Hm (sv_world s)).
  destruct (m (sv_world s)) as [r w]. by apply Hk.
Qed.

Lemma answers_authenticated `{UuidLib, JwtLib} {Env} `{AccessTokenBlacklist B Env} (env : Env) ver ext headers
    (h : AuthenticatedUser → H L B (Response Body)) :
  P AuthRejection_into_response → (∀ u, answers P (h u)) → answers P (authenticated env ver ext headers h).
Proof. intros Hl Hh. apply answers_bind. intros [u|e]; [apply Hh|by apply answers_ret]. Qed.

Lemma answers_require_admin `{AdminRepository} uid (h : H L B (Response Body)) :
  P admin_guard → P internal_error → answers P h → answers P (require_admin uid h).
Proof. intros Hf Hi Hh. apply answers_bind. intros [[]|e]; [exact Hh|by apply answers_ret..]. Qed.

End answers.

(** ** For the witnesses *)

Definition toy_chrono : ChronoLib := {| to_rfc3339 t := "1970-01-01T00:00:00Z"%string; below_micro t := 1 |}.

Definition demo_server : Type := Srv MemoryRateLimiter (gmap Uuid RevokedEntry).
