(* ===== verification/Router.v ===== *)
(** * The router

    [build_router] of [src/router.rs] as one function from a request to an
    answer: path and method dispatch over the table of [App.v], the allowlist in
    front of [/metrics] only, the optional API docs, the extractors' order on
    protected routes, and the CORS and security-header layers around all of it.
    What axum, tower-http and utoipa do on their own (parsing bodies, answering
    preflights, serving the docs) is the parameter [WebLib]. *)

From S2P Require Import Prelude RustStr ValueObjects Entities Aggregate Database Effects UserRepo.
From S2P Require Import Bcrypt AuthSettings Jwt UseCases Net RateLimiter Blacklist Http Admin Profiles.
From S2P Require Import AuthRoutes App.

(** ** Requests and answers *)

(** The body of an answer: a handler's JSON, text the libraries wrote, or none. *)
Inductive AnswerBody : Type :=
| JsonBody (body : Body)
| TextBody (text : string)
| NoBody.

Record Answer : Type := MkAnswer { an_status : Z; an_headers : HeaderMap; an_body : AnswerBody }.

Definition json_answer (r : Response Body) : Answer :=
  MkAnswer (rs_status r) [("content-type", "application/json")]%string (JsonBody (rs_body r)).

Definition empty_answer (status : Z) : Answer := MkAnswer status [] NoBody.

(** [P] is what the query string and the body of a request are made of. *)
Record Request (P : Type) : Type := MkRequest {
  rq_method : Method;
  rq_path : string;
  rq_headers : HeaderMap;
  rq_payload : P }.
Arguments MkRequest {P}.
Arguments rq_method {P}.
Arguments rq_path {P}.
Arguments rq_headers {P}.
Arguments rq_payload {P}.

Class WebLib (P : Type) : Type := {
  (** The [Path], [Query] and [Json] extractors of a route's handler: its
      arguments, or the rejection. *)
  web_extract : Route → Method → P → result Answer Endpoint;
  (** [CorsLayer]: the answer to a preflight, and the headers added to others. *)
  web_preflight : CorsLayer → Method → HeaderMap → option Answer;
  web_cors : CorsLayer → HeaderMap → HeaderMap;
  (** The routes of [SwaggerUi::new("/swagger-ui").url("/api-docs/openapi.json", ..)]:
      a method they do not serve is answered 405 by them. *)
  web_docs : Method → list string → option Answer;
  web_render_metrics : unit → string }.

(** Documented: the extracted arguments are those of the route's handler; the
    docs are served under [/swagger-ui] and [/api-docs] only. *)
Class WebSpec {P} `{WebLib P} : Prop := {
  web_extract_route : ∀ r m p e, web_extract r m p = Ok e →
    ∃ id_text, endpoint_route id_text e = (r, m);
  web_docs_paths : ∀ m segments, is_Some (web_docs m segments) →
    head segments = Some "swagger-ui"%string ∨ head segments = Some "api-docs"%string }.

(** ** [build_router] *)

(** A path starts with a slash. *)
Definition path_segments (path : string) : list string := tail (split "/" path).

(** A handler registered for GET also answers HEAD. *)
Definition served_as (r : Route) (m : Method) : option Method :=
  if bool_decide (m ∈ route_methods r) then Some m
  else if bool_decide (m = HEAD) && bool_decide (GET ∈ route_methods r) then Some GET
  else None.

(** The routes whose handler takes an [AuthenticatedUser], before its arguments. *)
Definition protected_route (r : Route) : bool :=
  match r with
  | RLogout | RProfile | RUsers | RUser _ | RUserRole _ => true
  | _ => false
  end.

(** What the router is built from, besides the handlers' state. *)
Record RouterDeps : Type := MkRouterDeps {
  rd_verification : JwtVerification;
  rd_metrics_guard_config : MetricsGuardConfig;
  rd_cors : CorsLayer;
  rd_enable_swagger : bool }.

Section router.
Context `{UuidLib, BcryptLib, ChronoLib, JwtLib, UserRepository, AdminRepository, ProfileRepository,
          JwtService, AuthProviderPort}.
Context {L B Env P : Type} `{RateLimiter L, AccessTokenBlacklist B Env, WebLib P}.
Variable settings : AuthSettings.
Variable trusted_proxies : list IpAddr.
Variable version : string.

(** A matched route. On a protected one the extractor of the user runs before
    those of the arguments. *)
Definition call_route (deps : RouterDeps) (env1 env2 : Env) (peer : IpAddr) (r : Route) (m : Method)
    (req : Request P) : H L B Answer :=
  match web_extract r m (rq_payload req) with
  | Ok e =>
      a ← serve settings trusted_proxies (rd_verification deps) version env1 env2 peer (rq_headers req) e;
      mret (json_answer a)
  | Err rejection =>
      if protected_route r then
        u ← from_request_parts env1 (Some (rd_verification deps)) true (rq_headers req);
        match u with
        | Ok _ => mret rejection
        | Err _ => mret (json_answer AuthRejection_into_response)
        end
      else mret rejection
  end.

(** [/metrics]: the guard wraps the matched route. *)
Definition metrics_route (deps : RouterDeps) (peer : IpAddr) (req : Request P) : Answer :=
  let served :=
    match served_as RMetrics (rq_method req) with
    | Some _ => MkAnswer 200 [] (TextBody (web_render_metrics tt))
    | None => empty_answer 405
    end in
  default (empty_answer 403)
    (metrics_ip_allowlist (rd_metrics_guard_config deps) peer (rq_headers req) served).

Definition routes (deps : RouterDeps) (env1 env2 : Env) (peer : IpAddr) (req : Request P) : H L B Answer :=
  let segments := path_segments (rq_path req) in
  match match_path segments with
  | Some RMetrics => mret (metrics_route deps peer req)
  | Some r =>
      match served_as r (rq_method req) with
      | Some m => call_route deps env1 env2 peer r m req
      | None => mret (empty_answer 405)
      end
  | None =>
      mret (if rd_enable_swagger deps then default (empty_answer 404) (web_docs (rq_method req) segments) else empty_answer 404)
  end.

(** [app.layer(cors)] *)
Definition with_cors (deps : RouterDeps) (req : Request P) (inner : H L B Answer) : H L B Answer :=
  match web_preflight (rd_cors deps) (rq_method req) (rq_headers req) with
  | Some answer => mret answer
  | None =>
      a ← inner;
      mret (MkAnswer (an_status a) (an_headers a ++ web_cors (rd_cors deps) (rq_headers req)) (an_body a))
  end.

Definition build_router (deps : RouterDeps) (env1 env2 : Env) (peer : IpAddr) (req : Request P) : H L B Answer :=
  a ← with_cors deps req (routes deps env1 env2 peer req);
  mret (MkAnswer (an_status a) (apply_security_headers (an_headers a)) (an_body a)).

End router.

(** ** Lemmas *)

Section router_lemmas.
Context `{UuidLib, BcryptLib, ChronoLib, JwtLib, UserRepository, AdminRepository, ProfileRepository,
          JwtService, AuthProviderPort}.
Context {L B Env P : Type} `{RateLimiter L, AccessTokenBlacklist B Env, WebLib P}.
Variable settings : AuthSettings.
Variable trusted_proxies : list IpAddr.
Variable version : string.

(** The four headers are on an answer with the values the layer gives them. *)
Definition secured (h : HeaderMap) : Prop :=
  header_get "strict-transport-security" h = Some "max-age=31536000; includeSubDomains"%string ∧
  header_get "x-content-type-options" h = Some "nosniff"%string ∧
  header_get "x-frame-options" h = Some "DENY"%string ∧
  header_get "referrer-policy" h = Some "strict-origin-when-cross-origin"%string.

Lemma apply_security_headers_secured h : secured (apply_security_headers h).
Proof.
  unfold secured, apply_security_headers. split_and!.
  - rewrite 3!header_get_overriding_ne by done. by rewrite header_get_overriding.
  - rewrite 2!header_get_overriding_ne by done. by rewrite header_get_overriding.
  - rewrite header_get_overriding_ne by done. by rewrite header_get_overriding.
  - by rewrite header_get_overriding.
Qed.

Lemma build_router_run deps env1 env2 peer (req : Request P) (s : Srv L B) :
  let '(a, s') := with_cors deps req (routes settings trusted_proxies version deps env1 env2 peer req) s in
  build_router settings trusted_proxies version deps env1 env2 peer req s =
    (MkAnswer (an_status a) (apply_security_headers (an_headers a)) (an_body a), s').
Proof. unfold build_router. unfold mbind at 1, H_bind at 1. by destruct (with_cors _ _ _ s). Qed.

(** The CORS layer keeps the status and the body of what it lets through. *)
Lemma build_router_inner deps env1 env2 peer (req : Request P) (s : Srv L B) :
  web_preflight (rd_cors deps) (rq_method req) (rq_headers req) = None →
  let out := build_router settings trusted_proxies version deps env1 env2 peer req s in
  let inner := routes settings trusted_proxies version deps env1 env2 peer req s in
  an_status out.1 = an_status inner.1 ∧ an_body out.1 = an_body inner.1 ∧ out.2 = inner.2.
Proof.
  intros Hp. pose proof (build_router_run deps env1 env2 peer req s) as Hrun.
  unfold with_cors in Hrun. rewrite Hp in Hrun. unfold mbind at 1, H_bind at 1 in Hrun.
  destruct (routes _ _ _ _ _ _ _ _ s) as [a s']. simpl in Hrun. by rewrite Hrun.
Qed.

(** A protected route answers a request without a bearer token before it reads
    its arguments. *)
Lemma call_route_unauthenticated deps env1 env2 peer r m (req : Request P) (s : Srv L B) `{!WebSpec} :
  protected_route r = true → bearer_token (rq_headers req) = None →
  (call_route settings trusted_proxies version deps env1 env2 peer r m req s).1 =
    json_answer AuthRejection_into_response ∧
  unchanged s (call_route settings trusted_proxies version deps env1 env2 peer r m req s).2.
Proof.
  intros Hp Hb. pose proof (no_bearer_rejected env1 (Some (rd_verification deps)) true _ s Hb) as Hrej.
  unfold call_route. destruct (web_extract r m (rq_payload req)) as [e|rejection] eqn:He.
  - apply web_extract_route in He as [id_text He].
    assert (Hpe : protected e = true) by (destruct e; simpl in He; simplify_eq/=; done).
    assert (Hout : (serve settings trusted_proxies (rd_verification deps) version env1 env2 peer (rq_headers req) e s).1 =
              AuthRejection_into_response ∧
            unchanged s (serve settings trusted_proxies (rd_verification deps) version env1 env2 peer (rq_headers req) e s).2).
    { destruct e; try done; by apply authenticated_rejects. }
    unfold mbind, H_bind. destruct (serve _ _ _ _ _ _ _ _ e s) as [a s']. simpl in Hout.
    by destruct Hout as [-> ?].
  - rewrite Hp. pose proof (from_request_parts_unchanged env1 (Some (rd_verification deps)) true (rq_headers req) s) as Hu.
    unfold mbind, H_bind. destruct (from_request_parts _ _ _ _ s) as [[u|e] s']; [done|]. simpl. by split.
Qed.

End router_lemmas.

(** ** Properties *)

(** C23. What the process exposes. Every answer carries the four security headers,
    preflights included. Behind CORS: a path that is neither in the table nor,
    with [ENABLE_SWAGGER], one of the docs is answered 404, and a method no
    handler is registered for 405; the docs are not served unless enabled; a
    protected route answers 401 to a request without a bearer token, whatever
    its body; [/metrics] answers 403 exactly to the clients its guard refuses;
    and none of this touches the database, the bus or the work done. The metrics
    allowlist has no say in the answer to any other path. *)
Theorem router_surface
    `{UuidLib, BcryptLib, ChronoLib, JwtLib, UserRepository, AdminRepository, ProfileRepository,
      JwtService, AuthProviderPort} {L B Env P} `{RateLimiter L, AccessTokenBlacklist B Env, WebSpec P}
    settings trusted version deps env1 env2 peer (req : Request P) (s : Srv L B) :
  let out := build_router settings trusted version deps env1 env2 peer req s in
  let segments := path_segments (rq_path req) in
  let answers status := an_status out.1 = status ∧ unchanged s out.2 in
  secured (an_headers out.1) ∧
  (web_preflight (rd_cors deps) (rq_method req) (rq_headers req) = None →
     (match_path segments = None → rd_enable_swagger deps = false ∨ web_docs (rq_method req) segments = None → answers 404) ∧
     (∀ r, match_path segments = Some r → r ≠ RMetrics → served_as r (rq_method req) = None → answers 405) ∧
     (∀ r, match_path segments = Some r → protected_route r = true → is_Some (served_as r (rq_method req)) →
        bearer_token (rq_headers req) = None → answers 401) ∧
     (match_path segments = Some RMetrics →
        (metrics_ip_allowlist (rd_metrics_guard_config deps) peer (rq_headers req) tt = None ↔ an_status out.1 = 403) ∧
        unchanged s out.2)) ∧
  (match_path segments ≠ Some RMetrics → ∀ guard,
     build_router settings trusted version
       (MkRouterDeps (rd_verification deps) guard (rd_cors deps) (rd_enable_swagger deps))
       env1 env2 peer req s = out).
Proof.
  intros out segments answers. split_and!.
  - unfold out. pose proof (build_router_run settings trusted version deps env1 env2 peer req s) as Hrun.
    destruct (with_cors _ _ _ s) as [a s']. rewrite Hrun. apply apply_security_headers_secured.
  - intros Hp. destruct (build_router_inner settings trusted version deps env1 env2 peer req s Hp) as (Hst & _ & Hs).
    fold out in Hst, Hs. unfold answers. rewrite Hst, Hs. unfold routes. fold segments. split_and!.
    + intros -> Hd. assert (Hno : (if rd_enable_swagger deps then default (empty_answer 404) (web_docs (rq_method req) segments)
                                   else empty_answer 404) = empty_answer 404).
      { destruct (rd_enable_swagger deps); [|done]. destruct Hd as [Hd|Hd]; [done|by rewrite Hd]. }
      by rewrite Hno.
    + intros r -> Hr ->. by destruct r.
    + intros r -> Hr [m ->] Hb.
      assert (Hc := call_route_unauthenticated settings trusted version deps env1 env2 peer r m req s Hr Hb).
      destruct r; try done; destruct Hc as [-> ?]; by split.
    + intros ->. simpl. split; [|done]. unfold metrics_route, metrics_ip_allowlist.
      destruct (is_metrics_access_allowed _ _); simpl; [|done]. by destruct (served_as _ _).
  - intros Hne guard. unfold out, build_router, with_cors, routes. simpl. fold segments.
    destruct (match_path segments) as [[]|]; done.
Qed.

(** *** Witness *)

#[global] Instance Route_eq_dec : EqDecision Route.
Proof. solve_decision. Defined.

(** Requests that carry their handler's arguments ready-made. *)
Definition toy_web : WebLib (option Endpoint) := {|
  web_extract r m p :=
    let id_text := match r with RUser id | RUserRole id => λ _, id | _ => λ _, EmptyString end in
    match p with
    | Some e => if bool_decide (endpoint_route id_text e = (r, m)) then Ok e else Err (empty_answer 422)
    | None => Err (empty_answer 400)
    end;
  web_preflight _ m _ := if bool_decide (m = OPTIONS) then Some (empty_answer 200) else None;
  web_cors _ _ := [];
  web_docs m segments := match segments with
    ["swagger-ui"%string] => Some (empty_answer (if bool_decide (m = GET) then 200 else 405)) | _ => None end;
  web_render_metrics _ := EmptyString |}.

Lemma toy_web_spec : @WebSpec (option Endpoint) toy_web.
Proof.
  split.
  - intros r m [e|] e'; simpl; [|done]. case_bool_decide as He; [|done]. intros [= <-]. by eexists.
  - intros m segments. simpl. destruct segments as [|x [|]]; [by intros []| |].
    + destruct (decide (x = "swagger-ui"%string)) as [->|Hx]; [by left|]. intros [a Ha]. exfalso.
      revert Ha. by repeat case_match; simplify_eq.
    + intros [a Ha]. exfalso. revert Ha. by repeat case_match; simplify_eq.
Qed.

Definition demo_deps : RouterDeps :=
  MkRouterDeps demo_verification (MkMetricsGuardConfig [V4 1] []) (MkCorsLayer [] [] []) false.

Definition demo_route (m : Method) (path : string) (s : demo_server) : Answer * demo_server :=
  @build_router toy_uuid toy_bcrypt toy_chrono toy_jwt (@PostgresUserRepo toy_uuid)
    (@PostgresAdminRepo Admin.PostgresUserDirectory) PostgresProfileRepo demo_jwt demo_google
    MemoryRateLimiter (gmap Uuid RevokedEntry) unit (option Endpoint) MemoryRateLimiter_port MemoryBlacklist_port
    toy_web demo_settings [] "1.0" demo_deps tt tt (V4 2) (MkRequest m path [] None) s.

Definition empty_server : demo_server :=
  MkSrv (fresh_world empty_db 0) (MemoryRateLimiter_new 5 60) (MemoryRateLimiter_new 5 60) [] ∅.

Lemma router_surface_witness :
  an_status (demo_route PUT "/api/admin/users/x/role" empty_server).1 = 401 ∧
  an_status (demo_route GET "/nowhere" empty_server).1 = 404 ∧
  an_status (demo_route POST "/api/health" empty_server).1 = 405 ∧
  an_status (demo_route GET "/metrics" empty_server).1 = 403 ∧
  secured (an_headers (demo_route OPTIONS "/api/profile" empty_server).1).
Proof.
  assert (H : ∀ m path, _) by (intros m path; exact (@router_surface toy_uuid toy_bcrypt toy_chrono toy_jwt (@PostgresUserRepo toy_uuid)
    (@PostgresAdminRepo Admin.PostgresUserDirectory) PostgresProfileRepo demo_jwt demo_google
    MemoryRateLimiter (gmap Uuid RevokedEntry) unit (option Endpoint) MemoryRateLimiter_port MemoryBlacklist_port
    toy_web toy_web_spec demo_settings [] "1.0" demo_deps tt tt (V4 2) (MkRequest m path [] None) empty_server)).
  split_and!.
  - destruct (H PUT "/api/admin/users/x/role") as (_ & Hb & _). destruct (Hb eq_refl) as (_ & _ & Hu & _).
    refine (proj1 (Hu (RUserRole "x") eq_refl eq_refl _ eq_refl)). vm_compute. by eexists.
  - destruct (H GET "/nowhere") as (_ & Hb & _). destruct (Hb eq_refl) as (Hn & _).
    exact (proj1 (Hn eq_refl (or_introl eq_refl))).
  - destruct (H POST "/api/health") as (_ & Hb & _). destruct (Hb eq_refl) as (_ & Hm & _).
    refine (proj1 (Hm RHealth eq_refl _ eq_refl)). done.
  - destruct (H GET "/metrics") as (_ & Hb & _). destruct (Hb eq_refl) as (_ & _ & _ & Hg).
    exact (proj1 (proj1 (Hg eq_refl)) eq_refl).
  - exact (proj1 (H OPTIONS "/api/profile")).
Defined.
