(* ===== verification/ApiDoc.v ===== *)
(** * The API documentation

    The [utoipa::path] annotations of the ten handlers and the document that
    [src/api_doc.rs] assembles from them, against the handlers and the route
    table they describe. *)

From S2P Require Import Prelude RustStr ValueObjects Entities Aggregate Database Effects UserRepo.
From S2P Require Import Bcrypt AuthSettings Jwt UseCases Net RateLimiter Blacklist Http Admin Profiles.
From S2P Require Import AuthRoutes App.

(** ** Annotations *)

(** The type of a documented body. *)
Inductive Schema : Type :=
| SErrorResponse
| SAuthTokensResponse
| SGoogleAuthResponse
| SRefreshResponse
| SStatusResponse
| SHealthResponse
| SUserResponse
| SUsersResponse
| SProfileResponse.

Inductive RequestSchema : Type :=
| SPasswordLoginRequest
| SGoogleLoginRequest
| SRefreshTokenRequest
| SLogoutRequest
| SUpdateProfileRequest
| SUpdateRoleRequest.

#[global] Instance Schema_eq_dec : EqDecision Schema.
Proof. solve_decision. Defined.

Record PathDoc : Type := MkPathDoc {
  pd_method : Method;
  pd_path : string;
  pd_tag : string;
  pd_request_body : option RequestSchema;
  (** [security(("bearer_jwt" = []))] *)
  pd_bearer_jwt : bool;
  pd_responses : list (Z * Schema) }.

Definition doc_login_password_handler : PathDoc :=
  MkPathDoc POST "/api/auth/login/password" "Authentication" (Some SPasswordLoginRequest) false
    [(200, SAuthTokensResponse); (401, SErrorResponse); (422, SErrorResponse); (429, SErrorResponse);
     (500, SErrorResponse)].

Definition doc_login_google_handler : PathDoc :=
  MkPathDoc POST "/api/auth/login/google" "Authentication" (Some SGoogleLoginRequest) false
    [(200, SGoogleAuthResponse); (401, SErrorResponse); (422, SErrorResponse); (429, SErrorResponse);
     (500, SErrorResponse)].

Definition doc_logout_handler : PathDoc :=
  MkPathDoc POST "/api/auth/logout" "Authentication" (Some SLogoutRequest) true
    [(200, SStatusResponse); (400, SErrorResponse); (401, SErrorResponse); (500, SErrorResponse)].

Definition doc_refresh_token_handler : PathDoc :=
  MkPathDoc POST "/api/auth/refresh" "Authentication" (Some SRefreshTokenRequest) false
    [(200, SRefreshResponse); (401, SErrorResponse); (422, SErrorResponse); (429, SErrorResponse);
     (500, SErrorResponse)].

Definition doc_health_check : PathDoc :=
  MkPathDoc GET "/api/health" "Health" None false [(200, SHealthResponse); (503, SHealthResponse)].

Definition doc_get_profile_handler : PathDoc :=
  MkPathDoc GET "/api/profile" "Profiles" None true
    [(200, SProfileResponse); (401, SErrorResponse); (404, SErrorResponse); (500, SErrorResponse)].

Definition doc_update_profile_handler : PathDoc :=
  MkPathDoc PUT "/api/profile" "Profiles" (Some SUpdateProfileRequest) true
    [(200, SProfileResponse); (400, SErrorResponse); (401, SErrorResponse); (500, SErrorResponse)].

Definition doc_list_users_handler : PathDoc :=
  MkPathDoc GET "/api/admin/users" "Admin" None true
    [(200, SUsersResponse); (400, SErrorResponse); (401, SErrorResponse); (403, SErrorResponse);
     (500, SErrorResponse)].

Definition doc_get_user_handler : PathDoc :=
  MkPathDoc GET "/api/admin/users/{id}" "Admin" None true
    [(200, SUserResponse); (401, SErrorResponse); (403, SErrorResponse); (404, SErrorResponse);
     (500, SErrorResponse)].

Definition doc_update_user_role_handler : PathDoc :=
  MkPathDoc PUT "/api/admin/users/{id}/role" "Admin" (Some SUpdateRoleRequest) true
    [(200, SUserResponse); (400, SErrorResponse); (401, SErrorResponse); (403, SErrorResponse);
     (404, SErrorResponse); (500, SErrorResponse)].

(** ** [ApiDoc] *)

(** [paths(..)] *)
Definition ApiDoc_paths : list PathDoc :=
  [doc_login_password_handler; doc_login_google_handler; doc_logout_handler; doc_refresh_token_handler;
   doc_health_check; doc_get_profile_handler; doc_update_profile_handler; doc_list_users_handler;
   doc_get_user_handler; doc_update_user_role_handler].

(** [tags(..)] *)
Definition ApiDoc_tags : list string := ["Authentication"; "Profiles"; "Admin"; "Health"]%string.

(** [SecurityAddon::modify]: the one scheme, by name. *)
Definition ApiDoc_security_schemes : list string := ["bearer_jwt"%string].

(** ** The documentation and the program *)

(** The type of the JSON a handler answers with. *)
Definition body_schema (b : Body) : Schema :=
  match b with
  | ErrorResponse _ => SErrorResponse
  | AuthTokensResponse _ _ _ _ => SAuthTokensResponse
  | GoogleAuthResponse _ _ _ _ _ => SGoogleAuthResponse
  | RefreshResponse _ _ => SRefreshResponse
  | StatusResponse _ => SStatusResponse
  | HealthResponse _ _ => SHealthResponse
  | UserResponse _ => SUserResponse
  | UsersResponse _ _ _ _ => SUsersResponse
  | ProfileResponse _ _ _ _ => SProfileResponse
  end.

(** The annotation on the handler of an endpoint. *)
Definition doc_of (e : Endpoint) : PathDoc :=
  match e with
  | EpLoginPassword _ _ => doc_login_password_handler
  | EpLoginGoogle _ => doc_login_google_handler
  | EpRefresh _ => doc_refresh_token_handler
  | EpLogout _ => doc_logout_handler
  | EpGetProfile => doc_get_profile_handler
  | EpUpdateProfile _ _ => doc_update_profile_handler
  | EpListUsers _ _ => doc_list_users_handler
  | EpGetUser _ => doc_get_user_handler
  | EpUpdateRole _ _ => doc_update_user_role_handler
  | EpHealth _ => doc_health_check
  end.

(** The answer is one of those listed. *)
Definition listed (l : list (Z * Schema)) (r : Response Body) : Prop := (rs_status r, body_schema (rs_body r)) ∈ l.

(** Down to the answer of one arm of a handler. *)
Ltac answer := repeat (apply answers_bind; intros ?); apply answers_ret; unfold listed; simpl; set_solver.

(** ** Properties *)

Section documented.
Context `{UuidLib, BcryptLib, ChronoLib, JwtLib, UserRepository, AdminRepository, ProfileRepository,
          JwtService, AuthProviderPort}.
Context {L B Env : Type} `{RateLimiter L, AccessTokenBlacklist B Env}.
Variable settings : AuthSettings.
Variable trusted_proxies : list IpAddr.
Variable verification : JwtVerification.
Variable version : string.

Lemma serve_documented env1 env2 peer headers e :
  answers (L := L) (B := B) (listed (pd_responses (doc_of e)))
    (serve settings trusted_proxies verification version env1 env2 peer headers e).
Proof.
  destruct e; simpl; unfold listed; try (apply answers_authenticated; [set_solver|intros u]).
  - unfold login_password_handler, error_response. destruct (login_fields_invalid _ _); [answer|].
    apply answers_bind. intros []; [|answer]. apply answers_bind. intros [r|[]]; answer.
  - unfold login_google_handler, error_response. destruct (_ || _); [answer|].
    apply answers_bind. intros []; [|answer]. apply answers_bind. intros [r|[]]; answer.
  - unfold refresh_token_handler, error_response. destruct (_ || _); [answer|].
    apply answers_bind. intros []; [|answer]. apply answers_bind. intros [r|[]]; answer.
  - unfold logout_handler. apply answers_bind. intros [r|[]]; answer.
  - unfold get_profile_handler. apply answers_bind. intros [r|[]]; answer.
  - unfold update_profile_handler. apply answers_bind. intros [r|[]]; answer.
  - unfold list_users_handler. apply answers_require_admin; [set_solver..|].
    destruct (normalize_page page); [|answer]. apply answers_bind. intros []; answer.
  - unfold get_user_handler. apply answers_require_admin; [set_solver..|].
    apply answers_bind. intros [|[]]; answer.
  - unfold update_user_role_handler. apply answers_require_admin; [set_solver..|].
    apply answers_bind. intros [|[]]; answer.
  - destruct db_check; answer.
Qed.

(** C37. The documented interface is the implemented one: whatever the state,
    the request and the faults, the status and the type of the body every
    handler answers with are among those its annotation lists; the annotation
    names a path and a method the router registers for that handler, demands a
    bearer token exactly when the handler does, under a scheme and a tag the
    document declares; and the document lists it. *)
Theorem responses_documented env1 env2 peer headers e (s : Srv L B) :
  let r := (serve settings trusted_proxies verification version env1 env2 peer headers e s).1 in
  let doc := doc_of e in
  let route := endpoint_route (λ _, "{id}"%string) e in
  (rs_status r, body_schema (rs_body r)) ∈ pd_responses doc ∧
  match_path (tail (split "/" (pd_path doc))) = Some route.1 ∧
  pd_method doc = route.2 ∧ route.2 ∈ route_methods route.1 ∧
  pd_bearer_jwt doc = protected e ∧ ("bearer_jwt"%string ∈ ApiDoc_security_schemes) ∧
  pd_tag doc ∈ ApiDoc_tags ∧ doc ∈ ApiDoc_paths.
Proof.
  intros r doc route. split; [apply serve_documented|]. unfold route, doc.
  split_and!; destruct e; simpl; try done; unfold ApiDoc_tags, ApiDoc_paths, ApiDoc_security_schemes; set_solver.
Qed.

End documented.
