(* ===== verification/System.v ===== *)
(** * The running system

    Whole histories of the application: requests served by any number of
    processes, with any database faults, clocks and limiter states, the audit
    task that consumes the published events, and the account seeded at start-up.
    First that a request keeps the database good, then that the events it
    publishes are about users and sessions that exist, then the invariant over
    every history. What becomes of the events is in [AuditTrail.v]. *)

From S2P Require Import Prelude RustStr ValueObjects Entities Aggregate Database Effects UserRepo.
From S2P Require Import Bcrypt AuthSettings Jwt UseCases Net RateLimiter Blacklist Http Admin Profiles.
From S2P Require Import EventBus Evolution Interference Concurrency AuthRoutes App.

(** ** Requests keep the invariant *)

(** Some calls of a handler's state monad leave the database alone. *)
Definition h_keeps {L B A} (h : H L B A) : Prop := ∀ s a s', h s = (a, s') →
  good (w_db (sv_world s)) → good (w_db (sv_world s')) ∧ evolves (w_db (sv_world s)) (w_db (sv_world s')).

Section handlers.
Context {L B : Type}.

Lemma h_keeps_ret {A} (a : A) : h_keeps (L := L) (B := B) (mret a).
Proof. by intros s a' s' [= _ <-]. Qed.

Lemma h_keeps_bind {A C} (h : H L B A) (k : A → H L B C) :
  h_keeps h → (∀ a, h_keeps (k a)) → h_keeps (h ≫= k).
Proof.
  intros Hh Hk s c s'. unfold mbind, H_bind. destruct (h s) as [a s1] eqn:E1. intros Hr Hg.
  destruct (Hh _ _ _ E1 Hg) as [Hg1 He1]. destruct (Hk _ _ _ _ Hr Hg1) as [? ?]. split; [done|by etrans].
Qed.

Lemma h_keeps_call {E A} (m : M E A) : keeping m → h_keeps (L := L) (B := B) (call m).
Proof.
  intros Hm s a s'. unfold call. destruct (m (sv_world s)) as [r w] eqn:Hr. intros [= _ <-] Hg. simpl.
  by destruct (Hm _ _ _ Hr Hg) as (? & ? & _).
Qed.

Lemma h_keeps_now : h_keeps (L := L) (B := B) now.
Proof. by intros s a s' [= _ <-]. Qed.

Lemma h_keeps_on_login {A} (f : L → A * L) : h_keeps (B := B) (on_login_limiter f).
Proof. intros s a s'. unfold on_login_limiter. destruct (f _). by intros [= _ <-]. Qed.

Lemma h_keeps_on_refresh {A} (f : L → A * L) : h_keeps (B := B) (on_refresh_limiter f).
Proof. intros s a s'. unfold on_refresh_limiter. destruct (f _). by intros [= _ <-]. Qed.

Lemma h_keeps_on_blacklist {A} (f : B → A * B) : h_keeps (L := L) (on_blacklist f).
Proof. intros s a s'. unfold on_blacklist. destruct (f _). by intros [= _ <-]. Qed.

Lemma h_keeps_publish evs : h_keeps (L := L) (B := B) (publish_all evs).
Proof. by intros s a s' [= _ <-]. Qed.

End handlers.

#[export] Hint Resolve h_keeps_ret h_keeps_bind h_keeps_call h_keeps_now h_keeps_on_login h_keeps_on_refresh
  h_keeps_on_blacklist h_keeps_publish : evo.
#[export] Hint Resolve keeping_login keeping_google_login keeping_logout keeping_refresh keeping_update_role
  keeping_update_profile : evo.

Lemma keeping_sleep {E} ms : keeping (E := E) (sleep ms).
Proof. apply keeping_framed, framed_sleep. Qed.

#[export] Hint Resolve keeping_sleep : evo.

Section serve.
Context `{UuidLib, BcryptLib, ChronoLib, JwtLib, UserRepositoryContract, AdminRepositoryContract, ProfileRepositoryContract}.
Context `{JwtServiceSpec, AuthProviderSpec} {L B Env : Type} `{RateLimiter L, AccessTokenBlacklist B Env}.
Variable settings : AuthSettings.
Variable trusted_proxies : list IpAddr.
Variable verification : JwtVerification.
Variable version : string.

Lemma h_keeps_authenticated (env : Env) ext headers (h : AuthenticatedUser → H L B (Response Body)) :
  (∀ u, h_keeps (h u)) → h_keeps (authenticated env (Some verification) ext headers h).
Proof.
  intros Hh. apply h_keeps_bind.
  - intros s a s' Hr Hg. pose proof (from_request_parts_unchanged env (Some verification) ext headers s) as (Hdb & _).
    rewrite Hr in Hdb. simpl in Hdb. by rewrite Hdb.
  - intros [u|e]; auto with evo.
Qed.

Lemma h_keeps_require_admin uid (h : H L B (Response Body)) : h_keeps h → h_keeps (require_admin uid h).
Proof.
  intros Hh. apply h_keeps_bind; [auto with evo|].
  intros [[]|e]; auto with evo.
Qed.

Lemma serve_keeps env1 env2 peer headers e :
  h_keeps (L := L) (B := B) (serve settings trusted_proxies verification version env1 env2 peer headers e).
Proof.
  destruct e; simpl; auto with evo; try (apply h_keeps_authenticated; intros u).
  - unfold login_password_handler. destruct (login_fields_invalid _ _); [unfold pause; auto with evo svc|].
    apply h_keeps_bind; [unfold try_login; auto with evo|]. intros []; simpl; [|auto with evo].
    apply h_keeps_bind; [auto with evo|]. intros [r|[]]; unfold pause, reset_login; auto 6 with evo svc.
  - unfold login_google_handler. destruct (_ || _); [auto with evo|].
    apply h_keeps_bind; [unfold try_login; auto with evo|]. intros []; simpl; [|auto with evo].
    apply h_keeps_bind; [auto with evo|]. intros [r|[]]; unfold reset_login; auto 6 with evo.
  - unfold refresh_token_handler. destruct (_ || _); [auto with evo|].
    apply h_keeps_bind; [unfold try_refresh; auto with evo|]. intros []; simpl; [|auto with evo].
    apply h_keeps_bind; [auto with evo|]. intros [r|e]; unfold reset_refresh; auto 6 with evo.
  - unfold logout_handler. apply h_keeps_bind; [auto with evo|]. intros [r|e]; auto 8 with evo.
  - unfold get_profile_handler, get_profile. apply h_keeps_bind; [|auto with evo].
    apply h_keeps_call, keeping_bind; auto with evo svc.
  - unfold update_profile_handler. auto with evo.
  - apply h_keeps_require_admin. destruct (normalize_page page); [|auto with evo].
    apply h_keeps_bind; [auto with evo|]. intros []; auto with evo.
  - apply h_keeps_require_admin. apply h_keeps_bind; [auto with evo|].
    intros [|[]]; auto with evo.
  - apply h_keeps_require_admin. auto with evo.
Qed.

End serve.

(** ** What a request publishes *)

(** The rows an event is about exist. *)
Definition event_refers (db : Db) (ev : Event) : Prop :=
  is_Some (db_users db !! Event_user_id ev) ∧
  ∀ sid, Event_session_id ev = Some sid →
    ∃ row, db_sessions db !! sid = Some row ∧ sr_user_id row = Event_user_id ev.

Lemma event_refers_evolves db db' ev : evolves db db' → event_refers db ev → event_refers db' ev.
Proof.
  intros [Hu _ Hs] [[u Hev] Href]. split; [exists u; by eapply lookup_weaken|].
  intros sid Hsid. destruct (Href sid Hsid) as (row & Hrow & Hown).
  destruct (Hs _ _ Hrow) as [?|?]; eexists; by split.
Qed.

Section events.
Context `{UuidLib, BcryptLib, UserRepositoryContract}.
Context {js : JwtService} {jspec : JwtServiceSpec} {ap : AuthProviderPort} {apspec : AuthProviderSpec}.
Variable settings : AuthSettings.

Lemma opened_refers w w' uid m rt sid :
  session_opened settings w w' uid m rt sid →
  ∃ row, db_sessions (w_db w') !! sid = Some row ∧ sr_user_id row = uid.
Proof. intros (s & t & (Hu & _) & _ & _ & _ & Hr). eexists. split; [exact Hr|done]. Qed.

Lemma login_events username password w res w' :
  good (w_db w) → login_with_password settings username password w = (Ok res, w') →
  Forall (event_refers (w_db w')) (lr_events res).
Proof.
  intros Hg Hr. apply (login_guarantee settings) in Hr as (h & now & Hu & _ & _ & _ & Ho & -> & _); [|done].
  apply Forall_singleton. split; simpl; [by eexists|]. intros sid [= <-]. by eapply opened_refers.
Qed.

Lemma refresh_events token w res w' :
  good (w_db w) → refresh_token settings token w = (Ok res, w') →
  Forall (event_refers (w_db w')) (rf_events res).
Proof.
  intros Hg Hr. apply (refresh_guarantee settings) in Hr as (c & w1 & s0 & now & _ & _ & Hu & _ & _ & _ & _ & Ho & _ & _ & -> & _);
    [|done]. apply Forall_singleton. split; simpl; [done|]. intros sid [= <-]. by eapply opened_refers.
Qed.

Lemma logout_events uid sid w evs w' :
  good (w_db w) → logout uid sid w = (Ok evs, w') → Forall (event_refers (w_db w')) evs.
Proof.
  intros Hg Hr. apply logout_guarantee in Hr as (s0 & now & Hrow & <- & _ & _ & -> & ((_ & _ & Hfk & _) & _) & _); [|done].
  apply Forall_singleton. split; simpl; [exact (Hfk _ _ Hrow)|]. intros sid' [= <-]. by eexists.
Qed.

Lemma google_events id_token w res w' :
  good (w_db w) → login_with_google settings id_token w = (Ok res, w') →
  Forall (event_refers (w_db w')) (lg_events res).
Proof.
  intros Hg Hr. apply (google_guarantee settings) in Hr as (info & w1 & now & now2 & _ & _ & Hu & Ho & -> & _); [|done].
  apply Forall_app. split.
  - destruct (lg_is_new_user res); [|done]. apply Forall_singleton. split; simpl; [by eexists|done].
  - apply Forall_singleton. split; simpl; [by eexists|]. intros sid [= <-]. by eapply opened_refers.
Qed.

End events.

(** The handler appends to the bus only events about rows that exist. *)
Definition h_publishes {L B A} (h : H L B A) : Prop := ∀ s a s', h s = (a, s') → good (w_db (sv_world s)) →
  ∃ evs, sv_bus s' = sv_bus s ++ evs ∧ Forall (event_refers (w_db (sv_world s'))) evs.

Section publishing.
Context {L B : Type}.

Definition h_silent {A} (h : H L B A) : Prop := ∀ s, sv_bus (h s).2 = sv_bus s.

Lemma silent_publishes {A} (h : H L B A) : h_silent h → h_publishes h.
Proof. intros Hh s a s' Hr _. exists []. specialize (Hh s). rewrite Hr in Hh. by rewrite app_nil_r. Qed.

Lemma silent_ret {A} (a : A) : h_silent (mret a).
Proof. done. Qed.

Lemma silent_bind {A C} (h : H L B A) (k : A → H L B C) :
  h_silent h → (∀ a, h_silent (k a)) → h_silent (h ≫= k).
Proof. intros Hh Hk s. unfold mbind, H_bind. specialize (Hh s). destruct (h s) as [a s1]. simpl in *. by rewrite Hk. Qed.

Lemma silent_call {E A} (m : M E A) : h_silent (call m).
Proof. intros s. unfold call. by destruct (m _). Qed.

Lemma silent_now : h_silent now.
Proof. done. Qed.

Lemma silent_on_login {A} (f : L → A * L) : h_silent (on_login_limiter f).
Proof. intros s. unfold on_login_limiter. by destruct (f _). Qed.

Lemma silent_on_refresh {A} (f : L → A * L) : h_silent (on_refresh_limiter f).
Proof. intros s. unfold on_refresh_limiter. by destruct (f _). Qed.

Lemma silent_on_blacklist {A} (f : B → A * B) : h_silent (on_blacklist f).
Proof. intros s. unfold on_blacklist. by destruct (f _). Qed.

(** After a silent prefix that keeps the invariant. *)
Lemma publishes_bind {A C} (h : H L B A) (k : A → H L B C) :
  h_silent h → h_keeps h → (∀ a, h_publishes (k a)) → h_publishes (h ≫= k).
Proof.
  intros Hs Hh Hk s c s'. unfold mbind, H_bind. destruct (h s) as [a s1] eqn:E1. intros Hr Hg.
  specialize (Hs s). rewrite E1 in Hs. simpl in Hs. rewrite <- Hs.
  eapply Hk; [exact Hr|]. by apply (Hh _ _ _ E1).
Qed.

(** A use case whose events are published once it has succeeded. *)
Lemma publishes_call {E A} (m : M E A) (events : A → list Event) (k : result E A → H L B (Response Body)) :
  (∀ w a w', good (w_db w) → m w = (Ok a, w') → Forall (event_refers (w_db w')) (events a)) →
  (∀ e, h_silent (k (Err e))) →
  (∀ a s, sv_bus (k (Ok a) s).2 = sv_bus s ++ events a ∧ w_db (sv_world (k (Ok a) s).2) = w_db (sv_world s)) →
  h_publishes (call m ≫= k).
Proof.
  intros Hm Herr Hok s c s'. unfold mbind, H_bind, call. destruct (m (sv_world s)) as [[a|e] w] eqn:Hr; intros Hk Hg.
  - destruct (Hok a (MkSrv w (sv_login_limiter s) (sv_refresh_limiter s) (sv_bus s) (sv_blacklist s))) as [Hb Hd].
    rewrite Hk in Hb, Hd. simpl in *. exists (events a). split; [done|]. rewrite Hd. by eapply Hm.
  - exists []. specialize (Herr e (MkSrv w (sv_login_limiter s) (sv_refresh_limiter s) (sv_bus s) (sv_blacklist s))).
    rewrite Hk in Herr. simpl in Herr. by rewrite app_nil_r.
Qed.

End publishing.

#[export] Hint Resolve silent_publishes silent_ret silent_bind silent_call silent_now silent_on_login
  silent_on_refresh silent_on_blacklist : evo.

Section serve_publishes.
Context `{UuidLib, BcryptLib, ChronoLib, JwtLib, UserRepositoryContract, AdminRepositoryContract, ProfileRepositoryContract}.
Context `{JwtServiceSpec, AuthProviderSpec} {L B Env : Type} `{RateLimiter L, AccessTokenBlacklist B Env}.
Variable settings : AuthSettings.
Variable trusted_proxies : list IpAddr.
Variable verification : JwtVerification.
Variable version : string.

Lemma authenticated_silent (env : Env) ext headers (h : AuthenticatedUser → H L B (Response Body)) :
  (∀ u, h_silent (h u)) → h_silent (authenticated env (Some verification) ext headers h).
Proof.
  intros Hh. apply silent_bind; [|intros [u|e]; auto with evo].
  intros s. by destruct (from_request_parts_unchanged env (Some verification) ext headers s) as (_ & _ & ? & _).
Qed.

Lemma require_admin_silent uid (h : H L B (Response Body)) : h_silent h → h_silent (require_admin uid h).
Proof. intros Hh. apply silent_bind; [auto with evo|]. intros [[]|e]; auto with evo. Qed.

Lemma serve_publishes env1 env2 peer headers e :
  h_publishes (L := L) (B := B) (serve settings trusted_proxies verification version env1 env2 peer headers e).
Proof.
  destruct e; simpl; auto with evo.
  - unfold login_password_handler. destruct (login_fields_invalid _ _); [unfold pause; auto with evo|].
    apply publishes_bind; [unfold try_login; auto with evo..|]. intros []; simpl; [|auto with evo].
    apply (publishes_call _ lr_events).
    + intros w a w' Hg Hr. by eapply login_events.
    + intros []; unfold pause; auto with evo.
    + intros a s. unfold reset_login, on_login_limiter, publish_all. by h_run.
  - unfold login_google_handler. destruct (_ || _); [auto with evo|].
    apply publishes_bind; [unfold try_login; auto with evo..|]. intros []; simpl; [|auto with evo].
    apply (publishes_call _ lg_events).
    + intros w a w' Hg Hr. by eapply google_events.
    + intros []; auto with evo.
    + intros a s. unfold reset_login, on_login_limiter, publish_all. by h_run.
  - unfold refresh_token_handler. destruct (_ || _); [auto with evo|].
    apply publishes_bind; [unfold try_refresh; auto with evo..|]. intros []; simpl; [|auto with evo].
    apply (publishes_call _ rf_events).
    + intros w a w' Hg Hr. by eapply refresh_events.
    + intros x. auto with evo.
    + intros a s. unfold reset_refresh, on_refresh_limiter, publish_all. by h_run.
  - apply publishes_bind.
    + intros s. by destruct (from_request_parts_unchanged env1 (Some verification) true headers s) as (_ & _ & ? & _).
    + intros s a s' Hr Hg. pose proof (from_request_parts_unchanged env1 (Some verification) true headers s) as (Hdb & _).
      rewrite Hr in Hdb. simpl in Hdb. by rewrite Hdb.
    + intros [u|x]; [|auto with evo]. unfold logout_handler. apply (publishes_call _ id).
      * intros w a w' Hg Hr. by eapply logout_events.
      * intros x. auto with evo.
      * intros a s. h_run. by destruct (bl_revoke _ _ _ _ _).
  - apply silent_publishes, authenticated_silent. intros u. unfold get_profile_handler. auto with evo.
  - apply silent_publishes, authenticated_silent. intros u. unfold update_profile_handler. auto with evo.
  - apply silent_publishes, authenticated_silent. intros u. apply require_admin_silent.
    destruct (normalize_page _); [|auto with evo]. apply silent_bind; [auto with evo|]. intros []; auto with evo.
  - apply silent_publishes, authenticated_silent. intros u. apply require_admin_silent.
    apply silent_bind; [auto with evo|]. intros [|[]]; auto with evo.
  - apply silent_publishes, authenticated_silent. intros u. apply require_admin_silent. auto with evo.
Qed.

End serve_publishes.

(** ** Histories of the database *)

Lemma keeping_seed_insert `{UuidLib, BcryptSpec} settings :
  is_ok (Email_new (default_user_email settings)) = true → keeping (seed_insert settings).
Proof.
  intros Hemail. unfold seed_insert.
  eapply (keeps_bind _ _ (λ r, ∀ h, r = Ok h → h ≠ EmptyString)).
  { intros w r w' Hr Hg. assert (Hk : keeping (with_err (λ _, "bcrypt task failed"%string)
      (run_bounded (hash_io (default_user_password settings) (bcrypt_cost settings)))))
      by apply keeping_with_err, keeping_run_bounded, framed_hash_io.
    destruct (Hk _ _ _ Hr Hg) as (? & ? & _). split_and!; [done..|]. destruct r as [r|]; [|done].
    intros h ->. apply with_err_Ok_inv, run_bounded_Ok in Hr as (w1 & Hr & _).
    unfold hash_io in Hr. run_inv Hr. injection R as <- <-. rewrite effect_run in Hr. injection Hr as Hh _.
    destruct (bcrypt_hash_format _ _ _ _ Hh) as (_ & rest & ->). done. }
  intros r Hh. eapply keeps_bind; [apply keeps_lift|]. intros h Hr.
  assert (Hne : h ≠ EmptyString) by (destruct r; simpl in Hr; [|done]; injection Hr as ->; by apply Hh).
  do 2 (apply keeping_bind; [auto with evo svc|]; intros ?). apply keeping_bind; [|auto with evo svc].
  apply keeping_exec. unfold insert_user_on_conflict_username. intros db u db' Hi Hg.
  destruct (username_taken _ _); [by injection Hi as _ <-|].
  destruct (insert_user _ db) as [[row db1]|] eqn:Hins; [|done]. injection Hi as _ <-.
  eapply insert_user_good; [exact Hins| |done]. unfold UserRow_into_user. simpl.
  destruct (Email_new _) as [e|]; [|done]. simpl. destruct h as [|b h]; [done|]. simpl. eauto.
Qed.

Lemma keeping_seed `{UuidLib, BcryptSpec} settings :
  is_ok (Email_new (default_user_email settings)) = true → keeping (seed_default_user settings).
Proof.
  intros Hemail. unfold seed_default_user. apply keeping_bind; [apply keeping_exec; by intros db n db' [= _ <-]|].
  intros n. destruct (0 <? n); [auto with evo svc|by apply keeping_seed_insert].
Qed.

Section history.
Context `{UuidLib, BcryptSpec, ChronoLib, JwtLib, JwtServiceSpec, AuthProviderSpec}.
Context {L B Env : Type} `{RateLimiter L, AccessTokenBlacklist B Env}.

(** [serve], other processes at work between its statements. *)
Definition serve_beside `{Others} settings trusted ver version (env1 env2 : Env) peer headers e : H L B (Response Body) :=
  @serve _ _ _ _ InterleavedUserRepo InterleavedAdminRepo InterleavedProfileRepo _ _ L B Env _ _
    settings trusted ver version env1 env2 peer headers e.

(** One event in the life of the database: a request, whatever process serves it
    with whatever settings, state, clock and faults, and whatever other
    processes do between any two of its statements; an audited event; a
    start-up, or its insert alone, the count having been taken earlier. What the
    others did during a request is part of its step: a history lists the requests
    in the order in which they end. [plays] says what is required of the others,
    [configured] of the settings of a start-up. *)
Inductive db_step (plays : Others → Prop) (configured : AuthSettings → Prop) : Db → Db → Prop :=
| db_request (o : Others) settings trusted ver version env1 env2 peer headers e (s : Srv L B) resp s' :
    plays o → serve_beside settings trusted ver version env1 env2 peer headers e s = (resp, s') →
    db_step plays configured (w_db (sv_world s)) (w_db (sv_world s'))
| db_audited ev w r w' : audit_handle ev w = (r, w') → db_step plays configured (w_db w) (w_db w')
| db_started settings w r w' : configured settings →
    seed_default_user settings w = (r, w') → db_step plays configured (w_db w) (w_db w')
| db_seeded_late settings w r w' : configured settings →
    seed_insert settings w = (r, w') → db_step plays configured (w_db w) (w_db w').

(** The history of processes whose [DEFAULT_USER_EMAIL] is an email address: any
    text is seeded, but a row with another text converts to no user. *)
Definition sound_step : Db → Db → Prop :=
  db_step (@OthersSpec) (λ settings, is_ok (Email_new (default_user_email settings)) = true).

Lemma db_request_run (o : Others) {ospec : OthersSpec} settings trusted ver version env1 env2 peer headers e (s : Srv L B) :
  sound_step (w_db (sv_world s))
    (w_db (sv_world (serve_beside settings trusted ver version env1 env2 peer headers e s).2)).
Proof. eapply db_request; [done|]. apply surjective_pairing. Qed.

Lemma db_step_good db db' : sound_step db db' → good db → good db' ∧ evolves db db'.
Proof.
  intros Hstep Hg. destruct Hstep as [o ? ? ? ? ? ? ? ? ? s resp s' Ho Hr|ev w r w' Hr|st w r w' He Hr|st w r w' He Hr].
  - unfold serve_beside in Hr. exact (serve_keeps _ _ _ _ _ _ _ _ _ _ _ _ Hr Hg).
  - by destruct (keeping_audit ev _ _ _ Hr Hg) as (? & ? & _).
  - by destruct (keeping_seed st He _ _ _ Hr Hg) as (? & ? & _).
  - by destruct (keeping_seed_insert st He _ _ _ Hr Hg) as (? & ? & _).
Qed.

Lemma history_evolves db db' : rtc sound_step db db' → good db → good db' ∧ evolves db db'.
Proof.
  intros Hsteps Hg. induction Hsteps as [db|db1 db2 db3 H12 _ IH]; [done|].
  destruct (db_step_good _ _ H12 Hg) as [Hg2 He2]. destruct (IH Hg2) as [? ?]. split; [done|by etrans].
Qed.

(** What requests, audited events and start-ups do, others may do: the premise
    on the others is one the program meets itself. *)
Lemma histories_are_others (o : Others) : (∀ w, rtc sound_step (w_db w) (others w)) → OthersSpec.
Proof.
  intros Ho. split; intros w Hg; by apply (history_evolves _ _ (Ho w) Hg).
Qed.

Lemma empty_db_good : good empty_db.
Proof. split_and!; [apply empty_db_ok|split; apply map_Forall_empty|apply map_Forall_empty]. Qed.

(** C5. Over the whole life of the database, whatever requests are served by
    whatever processes, statement by statement beside each other, with any
    faults, provided that no process seeds a [DEFAULT_USER_EMAIL] which is not an
    email address: the rows stay consistent and readable; an account, once created, is never changed or removed, nor is an audit row;
    and a session row is never removed and never comes back to life once
    revoked: it is as it was, or revoked. *)
Theorem database_history db db' :
  rtc sound_step db db' → db = empty_db ∨ good db →
  good db' ∧ db_users db ⊆ db_users db' ∧ db_actions db ⊆ db_actions db' ∧
  (∀ id row, db_sessions db !! id = Some row →
     db_sessions db' !! id = Some row ∨ db_sessions db' !! id = Some (row_deactivate row)).
Proof.
  intros Hsteps Hstart. assert (Hg : good db) by (destruct Hstart as [->|?]; [apply empty_db_good|done]).
  destruct (history_evolves _ _ Hsteps Hg) as [Hg' [? ? Hs]]. by split_and!.
Qed.

End history.

(** ** A concrete deployment *)

Definition demo_verification : JwtVerification := MkJwtVerification "0123456789abcdef0123456789abcdef" "svc" "svc".

Definition demo_serve (headers : HeaderMap) (e : Endpoint) (s : demo_server) : Response Body * demo_server :=
  @serve_beside toy_uuid toy_bcrypt toy_chrono toy_jwt demo_jwt demo_google
    MemoryRateLimiter (gmap Uuid RevokedEntry) unit MemoryRateLimiter_port MemoryBlacklist_port idle_others
    demo_settings [] demo_verification "1.0" tt tt (V4 1)
    headers e s.

(** The database after the first start, and a process on it. *)
Definition seeded_world : World :=
  (@seed_default_user toy_uuid toy_bcrypt demo_settings (fresh_world empty_db (from_secs 1000))).2.

Definition seeded_server : demo_server :=
  MkSrv seeded_world (MemoryRateLimiter_new 5 60) (MemoryRateLimiter_new 5 60) [] ∅.

Definition admin_login : Endpoint := EpLoginPassword "admin" "Test-Password-9!".

Definition logged_in_server : demo_server := (demo_serve [] admin_login seeded_server).2.

Definition demo_step : Db → Db → Prop :=
  @sound_step toy_uuid toy_bcrypt toy_chrono toy_jwt demo_jwt demo_google
    MemoryRateLimiter (gmap Uuid RevokedEntry) unit MemoryRateLimiter_port MemoryBlacklist_port.

Lemma demo_history : rtc demo_step empty_db (w_db (sv_world logged_in_server)).
Proof.
  eapply rtc_l.
  - eapply (db_started _ _ demo_settings (fresh_world empty_db (from_secs 1000)) _ seeded_world); [done|].
    unfold seeded_world. apply surjective_pairing.
  - apply rtc_once. apply (@db_request_run toy_uuid toy_bcrypt toy_chrono toy_jwt demo_jwt demo_google
      MemoryRateLimiter (gmap Uuid RevokedEntry) unit MemoryRateLimiter_port MemoryBlacklist_port
      idle_others idle_others_spec demo_settings [] demo_verification "1.0" tt tt (V4 1) [] admin_login seeded_server).
Qed.

Lemma database_history_witness :
  good (w_db (sv_world logged_in_server)) ∧ size (db_sessions (w_db (sv_world logged_in_server))) = 1%nat.
Proof.
  split; [|vm_compute; reflexivity].
  destruct (@database_history toy_uuid toy_bcrypt toy_bcrypt_spec toy_chrono toy_jwt demo_jwt demo_jwt_spec
    demo_google demo_google_spec MemoryRateLimiter (gmap Uuid RevokedEntry) unit MemoryRateLimiter_port
    MemoryBlacklist_port _ _ demo_history (or_introl eq_refl)) as [Hg _]. exact Hg.
Defined.
