(* ===== verification/Appointment.v ===== *)
(** * Who becomes an administrator

    Only the role handler writes [user_roles], and it serves administrators
    only. So the tables the migrations leave have no administrator, the seeded
    account included, and no history of the program gives them one: [no_first_admin]. *)

From S2P Require Import Prelude RustStr ValueObjects Entities Aggregate Database Effects UserRepo.
From S2P Require Import Bcrypt AuthSettings Jwt UseCases Net RateLimiter Blacklist Http Admin Profiles.
From S2P Require Import EventBus Evolution Interference Concurrency AuthRoutes App System.

(** No row of [user_roles] makes an administrator. *)
Definition unappointed (db : Db) : Prop :=
  map_Forall (λ _ row, rr_role row ≠ "admin"%string) (db_roles db).

(** A computation that makes no administrator where there is none. *)
Definition modest {E A} (m : M E A) : Prop := ∀ w, unappointed (w_db w) → unappointed (w_db (m w).2).

(** A statement that leaves [user_roles] alone. *)
Definition off_roles {A} (st : Stmt A) : Prop := ∀ db a db', st db = Ok (a, db') → db_roles db' = db_roles db.

Create HintDb modest.

Section closure.
Context {E : Type}.

Lemma modest_bind {A B} (m : M E A) (k : A → M E B) : modest m → (∀ a, modest (k a)) → modest (m ≫= k).
Proof.
  intros Hm Hk w Hw. rewrite bind_run. specialize (Hm w Hw). destruct (m w) as [[a|e] w1]; [by apply Hk|done].
Qed.

Lemma modest_pure {A} (m : M E A) : db_pure m → modest m.
Proof. intros Hm w Hw. by rewrite Hm. Qed.

Lemma modest_framed {A} (m : M E A) : framed m → modest m.
Proof. intros Hm w Hw. destruct (m w) as [r w'] eqn:Hr. destruct (Hm _ _ _ Hr) as (Hdb & _). simpl. by rewrite Hdb. Qed.

Lemma modest_with_err {E' A} (f : E → E') (m : M E A) : modest m → modest (with_err f m).
Proof. intros Hm w Hw. specialize (Hm w Hw). unfold with_err. by destruct (m w). Qed.

Lemma modest_attempt {E' A} (m : M E A) : modest m → modest (E := E') (attempt m).
Proof. intros Hm w Hw. specialize (Hm w Hw). unfold attempt. by destruct (m w). Qed.

End closure.

Lemma modest_exec {A} (st : Stmt A) : off_roles st → modest (exec st).
Proof.
  intros Hst w Hw. destruct (exec_db st w) as [->|[a Ha]]; [done|]. unfold unappointed. by rewrite (Hst _ _ _ Ha).
Qed.

#[export] Hint Resolve modest_bind modest_pure modest_with_err modest_attempt modest_exec : modest.

(** ** The repositories *)

Lemma off_roles_read_only {A} (st : Stmt A) : read_only st → off_roles st.
Proof. intros Hst db a db' Ha. by rewrite (Hst _ _ _ Ha). Qed.

Lemma off_roles_insert_user r : off_roles (insert_user r).
Proof. intros db a db'. unfold insert_user. repeat case_match; by intros [= _ <-]. Qed.

Lemma off_roles_seed r : off_roles (insert_user_on_conflict_username r).
Proof.
  intros db a db'. unfold insert_user_on_conflict_username. destruct (username_taken _ _); [by intros [= _ <-]|].
  destruct (insert_user r db) as [[x db1]|] eqn:Hi; [|done]. intros [= _ <-]. by eapply off_roles_insert_user.
Qed.

Lemma off_roles_session r : off_roles (insert_session_row r).
Proof. intros db a db'. unfold insert_session_row. repeat case_match; by intros [= _ <-]. Qed.

Lemma off_roles_action r : off_roles (insert_user_action r).
Proof. intros db a db'. unfold insert_user_action. repeat case_match; by intros [= _ <-]. Qed.

Lemma off_roles_profile r : off_roles (upsert_profile r).
Proof. intros db a db'. unfold upsert_profile. case_match; by intros [= _ <-]. Qed.

#[export] Hint Resolve off_roles_insert_user off_roles_seed off_roles_session off_roles_action off_roles_profile : modest.

Lemma insert_sessions_roles ns db w db' w' :
  insert_sessions ns db w = (Ok db', w') → db_roles db' = db_roles db.
Proof.
  revert db w. induction ns as [|s ns IH]; intros db w Hr; simpl in Hr; [by injection Hr as <- _|].
  run_inv Hr. unfold insert_session in R. run_inv R. run_inv R. destruct v1 as [x db2]. injection R as -> <-.
  apply IH in Hr as ->. apply tx_exec_Ok in R1 as (Hst & _). by eapply off_roles_session.
Qed.

Lemma deactivate_sessions_roles ids db w db' w' :
  deactivate_sessions ids db w = (Ok db', w') → db_roles db' = db_roles db.
Proof.
  revert db w. induction ids as [|id ids IH]; intros db w Hr; simpl in Hr; [by injection Hr as <- _|].
  run_inv Hr. destruct v as [x db2]. apply IH in Hr as ->. apply tx_exec_Ok in R as (Hst & _).
  by injection Hst as _ <-.
Qed.

Lemma modest_save a ns : modest (pg_save_aggregate a ns).
Proof.
  intros w Hw. unfold pg_save_aggregate, db_call, with_err. rewrite bind_run.
  pose proof (db_pure_tx_begin w) as H1. destruct (tx_begin w) as [[db|e] w1] eqn:E1; simpl in *; [|by rewrite H1].
  assert (Hdb : db = w_db w).
  { unfold tx_begin, next_outcome in E1. destruct (w_pg w) as [|[] l]; by simplify_eq/=. }
  rewrite bind_run. pose proof (insert_sessions_pure ns db w1) as H2.
  destruct (insert_sessions ns db w1) as [[db1|e] w2] eqn:E2; simpl in *; [|by rewrite H2, H1].
  rewrite bind_run. pose proof (deactivate_sessions_pure (invalidated_ids a) db1 w2) as H3.
  destruct (deactivate_sessions _ db1 w2) as [[db2|e] w3] eqn:E3; simpl in *; [|by rewrite H3, H2, H1].
  apply insert_sessions_roles in E2. apply deactivate_sessions_roles in E3. subst db.
  assert (Hin : w_db w3 = w_db w) by congruence. unfold tx_commit, next_outcome.
  destruct (w_pg w3) as [|[] l]; simpl; unfold unappointed in *; by rewrite ?Hin, ?E3, ?E2.
Qed.

Lemma modest_create `{UuidLib} u : modest (pg_create u).
Proof. unfold pg_create, db_call. auto 10 with modest svc. Qed.

Lemma modest_insert_action `{UuidLib} uid sid t m : modest (insert_action uid sid t m).
Proof. unfold insert_action. auto 10 with modest svc. Qed.

Lemma modest_audit `{UuidLib} ev : modest (audit_handle ev).
Proof.
  unfold audit_handle. apply modest_bind; [|auto with modest svc]. apply modest_attempt.
  destruct ev; auto using modest_insert_action with modest svc.
Qed.

(** Without an administrator the check of the admin handlers never passes. *)
Lemma role_for_unappointed id w : unappointed (w_db w) → (role_for id w).1 ≠ Ok RoleAdmin.
Proof.
  intros Hw Hr. destruct (role_for id w) as [r w'] eqn:E. simpl in Hr. subst r.
  apply role_for_Ok, Role_try_from_Ok in E. destruct (db_roles (w_db w) !! id) as [row|] eqn:Hrow; [|done].
  exact (Hw id row Hrow E).
Qed.

(** ** Requests, other processes at work between their statements *)

Class OthersModest `{Others} : Prop := { others_modest : ∀ w, unappointed (w_db w) → unappointed (others w) }.

Section interleaved.
Context `{UuidLib, OthersModest}.

Lemma modest_meanwhile {E A} (m : M E A) : modest m → modest (meanwhile m).
Proof. intros Hm w Hw. apply Hm. by apply others_modest. Qed.

Lemma modest_and_then_others {E A} (m : M E A) : modest m → modest (and_then_others m).
Proof.
  intros Hm w Hw. specialize (Hm w Hw). unfold and_then_others. destruct (m w) as [r w']. by apply others_modest.
Qed.

#[local] Hint Resolve modest_meanwhile modest_and_then_others : modest.

Lemma modest_il_with_aggregate find : db_pure find → modest (il_with_aggregate find).
Proof.
  intros Hf. unfold il_with_aggregate. apply modest_bind; [auto with modest|]. intros [u|]; [|auto with modest svc].
  apply modest_bind; [apply modest_meanwhile, modest_pure, load_aggregate_pure|auto with modest svc].
Qed.

(** The repositories a request runs on. *)
Lemma modest_user_repo :
  let repo := InterleavedUserRepo in
  (∀ id, modest (@find_aggregate_by_id repo id)) ∧ (∀ name, modest (@find_aggregate_by_username repo name)) ∧
  (∀ email, modest (@find_aggregate_by_email repo email)) ∧ (∀ u, modest (@create repo u)) ∧
  (∀ a ns, modest (@save_aggregate repo a ns)).
Proof.
  destruct select_read_only as (Hu & Hi & _).
  split_and!; simpl; intros; try by apply modest_il_with_aggregate, read_user_pure.
  - apply modest_meanwhile, modest_create.
  - apply modest_meanwhile, modest_save.
Qed.

Lemma modest_profile_repo :
  let repo := InterleavedProfileRepo in
  (∀ id, modest (@find_by_user_id repo id)) ∧ (∀ p, modest (@upsert repo p)).
Proof.
  split; simpl; intros; apply modest_meanwhile; [apply modest_pure|unfold pg_upsert; auto with modest].
  unfold pg_find_by_user_id. apply db_pure_bind; auto with svc.
  apply db_pure_with_err, db_pure_exec, select_profile_read_only.
Qed.

Lemma modest_is_admin id : modest (@ar_is_admin InterleavedAdminRepo id).
Proof.
  simpl. apply modest_meanwhile. unfold pg_is_admin, get_summary. simpl.
  apply modest_bind; [|intros o; case_bool_decide; auto with modest svc].
  apply modest_with_err, modest_and_then_others, modest_meanwhile, modest_pure.
  unfold get_user_summary. auto with svc.
Qed.

Lemma nobody_is_admin id w : unappointed (w_db w) → (@ar_is_admin InterleavedAdminRepo id w).1 ≠ Ok true.
Proof.
  intros Hw Hr. destruct (ar_is_admin id w) as [r w'] eqn:E. simpl in Hr. subst r.
  simpl in E. unfold meanwhile, pg_is_admin, get_summary in E. simpl in E. run_inv E. run_inv R.
  set (w1 := with_db w (others w)) in R. assert (Hw1 : unappointed (w_db w1)) by by apply others_modest.
  assert (Hw0 : unappointed (w_db w0)).
  { assert (Hm : modest (and_then_others (meanwhile (get_user_summary id)))).
    { apply modest_and_then_others, modest_meanwhile, modest_pure. unfold get_user_summary. auto with svc. }
    specialize (Hm w1 Hw1). by rewrite R in Hm. }
  case_bool_decide; [|done]. run_inv E. injection E as E _.
  apply (role_for_unappointed id w0 Hw0). rewrite R0. by destruct v0.
Qed.

End interleaved.

Section use_cases.
Context `{UuidLib, BcryptLib, JwtServiceSpec, AuthProviderSpec, OthersModest}.
Variable settings : AuthSettings.

#[local] Existing Instance InterleavedUserRepo | 0.
#[local] Existing Instance InterleavedProfileRepo | 0.

Lemma modest_open_session m a : modest (open_session settings m a).
Proof.
  destruct modest_user_repo as (_ & _ & _ & _ & Hsave). unfold open_session.
  apply modest_bind; [auto with modest svc|]. intros sid.
  apply modest_bind; [apply modest_framed, generate_framed|]. intros tp.
  apply modest_bind; [auto with modest svc|]. intros t.
  apply modest_bind; [apply modest_framed, framed_expiry|]. intros exp.
  apply modest_bind; [apply modest_framed, hash_refresh_token_framed|]. intros h.
  apply modest_bind; [auto with modest svc|]. intros now. destruct (add_session _ _ _ _ _ _) as [r a'].
  apply modest_bind; [auto with modest svc|]. intros ns. apply modest_bind; [apply Hsave|auto with modest svc].
Qed.

Lemma modest_login username password : modest (login_with_password settings username password).
Proof.
  destruct modest_user_repo as (_ & Hfind & _). unfold login_with_password.
  apply modest_bind; [apply Hfind|]. intros ao.
  apply modest_bind; [apply modest_framed, framed_run_bounded, framed_verify_password|]. intros ok.
  destruct (negb ok); [auto with modest svc|]. apply modest_bind; [auto with modest svc|]. intros a.
  unfold create_session_tokens. apply modest_bind; [apply modest_open_session|]. intros [[sid tp] a']. simpl.
  auto with modest svc.
Qed.

Lemma modest_google id_token : modest (login_with_google settings id_token).
Proof.
  destruct modest_user_repo as (Hid & _ & Hfind & Hcreate & _). unfold login_with_google.
  apply modest_bind; [apply modest_framed, verify_id_token_framed|]. intros info.
  apply modest_bind; [apply Hfind|]. intros ao. apply modest_bind.
  { unfold google_aggregate. destruct ao as [a|]; [auto with modest svc|].
    apply modest_bind; [auto with modest svc|]. intros e. apply modest_bind; [apply Hcreate|]. intros u.
    apply modest_bind; [apply Hid|]. intros found. apply modest_bind; auto with modest svc. }
  intros [a new]. apply modest_bind; [apply modest_open_session|]. intros [[sid tp] a']. simpl.
  apply modest_bind; auto with modest svc.
Qed.

Lemma modest_logout uid sid : modest (logout uid sid).
Proof.
  destruct modest_user_repo as (Hid & _ & _ & _ & Hsave). unfold logout.
  apply modest_bind; [apply Hid|]. intros ao. apply modest_bind; [auto with modest svc|]. intros a.
  apply modest_bind; [auto with modest svc|]. intros now. destruct (invalidate_session _ _ _) as [r a'].
  apply modest_bind; [auto with modest svc|]. intros m. apply modest_bind; [apply Hsave|auto with modest svc].
Qed.

Lemma modest_refresh token : modest (refresh_token settings token).
Proof.
  destruct modest_user_repo as (Hid & _ & _ & _ & Hsave). unfold refresh_token, refresh_load.
  apply modest_bind.
  { apply modest_bind; [apply modest_framed, validate_refresh_framed|]. intros c.
    apply modest_bind; [apply Hid|]. intros ao. apply modest_bind; auto with modest svc. }
  intros [c a]. unfold refresh_rotate. apply modest_bind; [auto with modest svc|]. intros sid.
  apply modest_bind; [apply modest_framed, generate_framed|]. intros tp.
  apply modest_bind; [auto with modest svc|]. intros t.
  apply modest_bind; [apply modest_framed, framed_expiry|]. intros exp.
  apply modest_bind; [apply modest_framed, hash_refresh_token_framed|]. intros h.
  apply modest_bind; [apply modest_framed, token_matches_framed|]. intros tm.
  apply modest_bind; [auto with modest svc|]. intros now.
  destruct (rotate_session _ _ _ _ _ _ _) as [[ns|e] a']; [apply modest_bind; [apply Hsave|auto with modest svc]|].
  destruct e; auto with modest svc.
Qed.

Lemma modest_profiles `{ChronoLib} id avatar bio : modest (get_profile id) ∧ modest (update_profile id avatar bio).
Proof.
  destruct modest_profile_repo as [Hfind Hupsert]. split; [unfold get_profile|unfold update_profile].
  - apply modest_bind; [apply Hfind|auto with modest svc].
  - destruct (_ && _); [auto with modest svc|]. apply modest_bind; [apply Hfind|]. intros p.
    apply modest_bind; [auto with modest svc|]. intros a. apply modest_bind; [auto with modest svc|]. intros b.
    apply modest_bind; [auto with modest svc|]. intros now. apply modest_bind; [apply Hupsert|auto with modest svc].
Qed.

End use_cases.

(** ** Handlers *)

Lemma modest_sleep {E} ms : modest (E := E) (sleep ms).
Proof. apply modest_framed, framed_sleep. Qed.

#[export] Hint Resolve modest_sleep : modest.

Definition h_modest {L B A} (h : H L B A) : Prop :=
  ∀ s, unappointed (w_db (sv_world s)) → unappointed (w_db (sv_world (h s).2)).

Section handlers.
Context {L B : Type}.

Lemma h_modest_ret {A} (a : A) : h_modest (L := L) (B := B) (mret a).
Proof. by intros s Hs. Qed.

Lemma h_modest_bind {A C} (h : H L B A) (k : A → H L B C) :
  h_modest h → (∀ a, h_modest (k a)) → h_modest (h ≫= k).
Proof. intros Hh Hk s Hs. unfold mbind, H_bind. specialize (Hh s Hs). destruct (h s) as [a s1]. by apply Hk. Qed.

Lemma h_modest_call {E A} (m : M E A) : modest m → h_modest (L := L) (B := B) (call m).
Proof. intros Hm s Hs. specialize (Hm _ Hs). unfold call. by destruct (m (sv_world s)). Qed.

Lemma h_modest_now : h_modest (L := L) (B := B) now.
Proof. by intros s Hs. Qed.

Lemma h_modest_on_login {A} (f : L → A * L) : h_modest (B := B) (on_login_limiter f).
Proof. intros s Hs. unfold on_login_limiter. by destruct (f _). Qed.

Lemma h_modest_on_refresh {A} (f : L → A * L) : h_modest (B := B) (on_refresh_limiter f).
Proof. intros s Hs. unfold on_refresh_limiter. by destruct (f _). Qed.

Lemma h_modest_on_blacklist {A} (f : B → A * B) : h_modest (L := L) (on_blacklist f).
Proof. intros s Hs. unfold on_blacklist. by destruct (f _). Qed.

Lemma h_modest_publish evs : h_modest (L := L) (B := B) (publish_all evs).
Proof. by intros s Hs. Qed.

End handlers.

#[export] Hint Resolve h_modest_ret h_modest_bind h_modest_call h_modest_now h_modest_on_login h_modest_on_refresh
  h_modest_on_blacklist h_modest_publish : modest.

(** ** Histories *)

Section history.
Context `{UuidLib, BcryptLib, ChronoLib, JwtLib, JwtServiceSpec, AuthProviderSpec}.
Context {L B Env : Type} `{RateLimiter L, AccessTokenBlacklist B Env}.

Lemma h_modest_authenticated env ver ext headers (h : AuthenticatedUser → H L B (Response Body)) :
  (∀ u, h_modest (h u)) → h_modest (authenticated env ver ext headers h).
Proof.
  intros Hh. apply h_modest_bind.
  - intros s Hs. pose proof (from_request_parts_unchanged env ver ext headers s) as (Hdb & _). by rewrite Hdb.
  - intros [u|e]; auto with modest.
Qed.

Section others.
Context `{OthersModest}.

(** Without an administrator the three admin handlers stop at the check. *)
Lemma require_admin_stops uid (h : H L B (Response Body)) (s : Srv L B) :
  unappointed (w_db (sv_world s)) →
  let out := @require_admin InterleavedAdminRepo L B uid h s in
  (out.1 = admin_guard ∨ out.1 = internal_error) ∧ unappointed (w_db (sv_world out.2)).
Proof.
  intros Hs. unfold require_admin, mbind, H_bind, call.
  pose proof (nobody_is_admin uid (sv_world s) Hs) as Hno. pose proof (modest_is_admin uid (sv_world s) Hs) as Hm.
  destruct (ar_is_admin uid (sv_world s)) as [r w]. simpl in *.
  destruct r as [[]|e]; simpl; auto. by destruct Hno.
Qed.

Lemma h_modest_require_admin uid (h : H L B (Response Body)) : h_modest (@require_admin InterleavedAdminRepo L B uid h).
Proof. intros s Hs. by apply require_admin_stops. Qed.

Lemma serve_modest settings trusted ver version (env1 env2 : Env) peer headers e :
  h_modest (L := L) (B := B) (serve_beside settings trusted ver version env1 env2 peer headers e).
Proof.
  unfold serve_beside.
  destruct e; simpl; auto with modest; try (apply h_modest_authenticated; intros u);
    try apply h_modest_require_admin.
  - unfold login_password_handler. destruct (login_fields_invalid _ _); [unfold pause; auto with modest svc|].
    apply h_modest_bind; [unfold try_login; auto with modest|]. intros []; simpl; [|auto with modest].
    apply h_modest_bind; [apply h_modest_call, modest_login|].
    intros [r|[]]; unfold pause, reset_login; auto 8 with modest svc.
  - unfold login_google_handler. destruct (_ || _); [auto with modest|].
    apply h_modest_bind; [unfold try_login; auto with modest|]. intros []; simpl; [|auto with modest].
    apply h_modest_bind; [apply h_modest_call, modest_google|].
    intros [r|[]]; unfold reset_login; auto 8 with modest.
  - unfold refresh_token_handler. destruct (_ || _); [auto with modest|].
    apply h_modest_bind; [unfold try_refresh; auto with modest|]. intros []; simpl; [|auto with modest].
    apply h_modest_bind; [apply h_modest_call, modest_refresh|]. intros [r|e]; unfold reset_refresh; auto 8 with modest.
  - unfold logout_handler. apply h_modest_bind; [apply h_modest_call, modest_logout|].
    intros [r|e]; auto 10 with modest.
  - unfold get_profile_handler. apply h_modest_bind; [|auto with modest].
    apply h_modest_call, (proj1 (modest_profiles _ None None)).
  - unfold update_profile_handler. apply h_modest_bind; [|auto with modest].
    apply h_modest_call, modest_profiles.
Qed.

End others.

Lemma modest_seed_insert settings : modest (seed_insert settings).
Proof.
  unfold seed_insert. apply modest_bind.
  { apply modest_with_err, modest_framed, framed_run_bounded, framed_hash_io. }
  intros r. apply modest_bind; [auto with modest svc|]. intros h. apply modest_bind; [auto with modest svc|]. intros id.
  apply modest_bind; [auto with modest svc|]. intros now. apply modest_bind; auto with modest svc.
Qed.

Lemma modest_seed settings : modest (seed_default_user settings).
Proof.
  unfold seed_default_user. apply modest_bind; [apply modest_exec; by intros db n db' [= _ <-]|].
  intros n. destruct (0 <? n); [auto with modest svc|apply modest_seed_insert].
Qed.

Lemma db_step_modest db db' : db_step (@OthersModest) (λ _, True) db db' → unappointed db → unappointed db'.
Proof.
  intros Hstep Hu. destruct Hstep as [o ? ? ? ? ? ? ? ? ? s resp s' Ho Hr|ev w r w' Hr|st w r w' _ Hr|st w r w' _ Hr].
  - pose proof (serve_modest settings trusted ver version env1 env2 peer headers e s Hu) as Hs. by rewrite Hr in Hs.
  - pose proof (modest_audit ev w Hu) as Hs. by rewrite Hr in Hs.
  - pose proof (modest_seed st w Hu) as Hs. by rewrite Hr in Hs.
  - pose proof (modest_seed_insert st w Hu) as Hs. by rewrite Hr in Hs.
Qed.

Lemma history_modest db db' : rtc (db_step (@OthersModest) (λ _, True)) db db' → unappointed db → unappointed db'.
Proof. induction 1 as [|db1 db2 db3 H12 _ IH]; [done|]. intros Hu. by eapply IH, db_step_modest. Qed.

(** The program's own histories are modest: the premise on the others is one the
    program meets itself. *)
Lemma histories_are_modest (o : Others) : (∀ w, rtc (db_step (@OthersModest) (λ _, True)) (w_db w) (others w)) → OthersModest.
Proof. intros Ho. split. intros w. by apply history_modest. Qed.

Lemma empty_db_unappointed : unappointed empty_db.
Proof. apply map_Forall_empty. Qed.

(** The three endpoints behind the admin check. *)
Definition admin_only (e : Endpoint) : bool :=
  match e with EpListUsers _ _ | EpGetUser _ | EpUpdateRole _ _ => true | _ => false end.

(** C6. No history makes the first administrator. From the tables the migrations
    leave on a new database, or any others without an administrator: whatever
    requests are served by whatever processes beside each other, and whatever
    account the configuration seeds at start-up, there is none afterwards; and
    every request to one of the three admin endpoints that reaches its handler,
    its path, query and body having been parsed (a request that does not parse
    is answered 4xx before it), with whatever token, is answered 401, 403 or 500 and leaves
    the tables without one. *)
Theorem no_first_admin db db' :
  rtc (db_step (@OthersModest) (λ _, True)) db db' → db = empty_db ∨ unappointed db →
  (∀ id, ¬ is_admin_in db' id) ∧
  ∀ (o : Others) {omod : OthersModest} settings trusted ver version (env1 env2 : Env) peer headers e (s : Srv L B),
    w_db (sv_world s) = db' → admin_only e = true →
    let out := serve_beside settings trusted ver version env1 env2 peer headers e s in
    (rs_status out.1 = 401 ∨ rs_status out.1 = 403 ∨ rs_status out.1 = 500) ∧ unappointed (w_db (sv_world out.2)).
Proof.
  intros Hsteps Hstart. assert (Hu : unappointed db') by
    (eapply history_modest; [exact Hsteps|]; destruct Hstart as [->|?]; [apply empty_db_unappointed|done]).
  split; [intros id [_ (row & Hrow & Hadmin)]; exact (Hu id row Hrow Hadmin)|].
  intros o omod settings trusted ver version env1 env2 peer headers e s Hs He out. subst db'.
  split; [|by apply serve_modest].
  assert (Hgate : ∀ h : AuthenticatedUser → H L B (Response Body),
    (∀ u, ∃ rest, h u = @require_admin InterleavedAdminRepo L B (au_user_id u) rest) →
    let st := rs_status (authenticated env1 (Some ver) true headers h s).1 in st = 401 ∨ st = 403 ∨ st = 500).
  { intros h Hh. unfold authenticated, mbind, H_bind.
    pose proof (from_request_parts_unchanged env1 (Some ver) true headers s) as (Hdb & _).
    destruct (from_request_parts env1 (Some ver) true headers s) as [[u|x] s1]; simpl in *; [|by left].
    destruct (Hh u) as [rest ->]. rewrite <- Hdb in Hu.
    destruct (require_admin_stops (au_user_id u) rest s1 Hu) as [[-> | ->] _]; auto. }
  unfold out, serve_beside. destruct e; try done; apply Hgate; intros u; by eexists.
Qed.

End history.

(** *** Witness: the seeded administrator *)

Lemma idle_others_modest : @OthersModest idle_others.
Proof. by split. Qed.

Definition modest_step : Db → Db → Prop :=
  @db_step toy_uuid toy_bcrypt toy_chrono toy_jwt demo_jwt demo_google
    MemoryRateLimiter (gmap Uuid RevokedEntry) unit MemoryRateLimiter_port MemoryBlacklist_port (@OthersModest) (λ _, True).

Lemma modest_history : rtc modest_step empty_db (w_db (sv_world logged_in_server)).
Proof.
  eapply rtc_l.
  - eapply (db_started _ _ demo_settings (fresh_world empty_db (from_secs 1000)) _ seeded_world); [done|].
    unfold seeded_world. apply surjective_pairing.
  - apply rtc_once. eapply (@db_request toy_uuid toy_bcrypt toy_chrono toy_jwt demo_jwt demo_google
      MemoryRateLimiter (gmap Uuid RevokedEntry) unit MemoryRateLimiter_port MemoryBlacklist_port _ _ idle_others
      demo_settings [] demo_verification "1.0" tt tt (V4 1) [] admin_login seeded_server); [exact idle_others_modest|].
    apply surjective_pairing.
Qed.

(** The request of the freshly logged-in seeded account for the list of users. *)
Definition seeded_admin_headers : HeaderMap :=
  match rs_body (demo_serve [] admin_login seeded_server).1 with
  | AuthTokensResponse _ _ access _ => [("authorization", String.append "Bearer " access)]%string
  | _ => []
  end.

Lemma no_first_admin_witness :
  rs_status (demo_serve [] admin_login seeded_server).1 = 200 ∧
  rs_status (demo_serve seeded_admin_headers (EpListUsers None None) logged_in_server).1 = 403 ∧
  ∀ id, ¬ is_admin_in (w_db (sv_world logged_in_server)) id.
Proof.
  destruct (@no_first_admin toy_uuid toy_bcrypt toy_chrono toy_jwt demo_jwt demo_jwt_spec demo_google demo_google_spec
    MemoryRateLimiter (gmap Uuid RevokedEntry) unit MemoryRateLimiter_port MemoryBlacklist_port _ _
    modest_history (or_introl eq_refl)) as [Hnone _].
  split; [vm_compute; reflexivity|]. split; [vm_compute; reflexivity|exact Hnone].
Defined.
