(* ===== verification/Answers.v ===== *)
(** * What an error answer says

    The texts of the error responses are fixed in the code: nothing of the
    error that caused them, of the database or of the request goes into them. *)

From S2P Require Import Prelude RustStr ValueObjects Entities Aggregate Database Effects UserRepo.
From S2P Require Import Bcrypt AuthSettings Jwt UseCases Net RateLimiter Blacklist Http Admin Profiles.
From S2P Require Import EventBus Evolution Interference Concurrency AuthRoutes App System.

Definition server_error : Z * string := (500, "Internal server error"%string).
Definition unauthorized : Z * string := (401, "Unauthorized"%string).
Definition not_admin : Z * string := (403, "Forbidden: admin access required"%string).

(** Every error answer of an endpoint: the status and the text. *)
Definition error_answers (e : Endpoint) : list (Z * string) :=
  match e with
  | EpLoginPassword _ _ =>
      [server_error; (401, "Invalid username or password");
       (422, "Username and password are required and must not exceed 256 and 4096 characters respectively");
       (429, "Too many login attempts. Please try again later.")]
  | EpLoginGoogle _ =>
      [server_error; (401, "Authentication failed");
       (422, "ID token is required and must not exceed 16384 characters");
       (429, "Too many login attempts. Please try again later.")]
  | EpRefresh _ =>
      [server_error; (401, "Invalid or expired refresh token"); (401, "Invalid refresh token");
       (401, "Session has expired"); (422, "refresh_token is required and must not exceed 8192 characters");
       (429, "Too many refresh attempts. Please try again later.")]
  | EpLogout _ => [server_error; unauthorized; (401, "Authentication required"); (400, "Invalid session")]
  | EpGetProfile => [server_error; unauthorized; (404, "Profile not found")]
  | EpUpdateProfile _ _ =>
      [server_error; unauthorized; (400, "At least one field must be provided");
       (400, "Invalid avatar_url: Avatar URL must not be empty");
       (400, "Invalid avatar_url: Avatar URL must not exceed 500 characters");
       (400, "Invalid bio: Bio must not be empty"); (400, "Invalid bio: Bio must not exceed 2000 characters")]
  | EpListUsers _ _ => [server_error; unauthorized; not_admin; (400, "page must be >= 1")]
  | EpGetUser _ => [server_error; unauthorized; not_admin; (404, "User not found")]
  | EpUpdateRole _ _ =>
      [server_error; unauthorized; not_admin; (404, "User not found"); (403, "Cannot change your own role");
       (400, "role must be 'user' or 'admin'")]
  | EpHealth _ => []
  end%string.

(** A success, the health report, or one of the texts [l]. *)
Definition tells_only (l : list (Z * string)) (r : Response Body) : Prop :=
  match rs_body r with
  | ErrorResponse text => (rs_status r, text) ∈ l
  | HealthResponse _ _ => rs_status r = 200 ∨ rs_status r = 503
  | _ => rs_status r = 200
  end.

(** ** The errors whose text is passed on *)

(** The errors a computation can end with. *)
Definition errs {E A} (Q : E → Prop) (m : M E A) : Prop := ∀ w e w', m w = (Err e, w') → Q e.

Definition on_err {E A} (Q : E → Prop) (r : result E A) : Prop := match r with Ok _ => True | Err e => Q e end.

Section errs.
Context {E : Type} (Q : E → Prop).

Lemma errs_bind {A B} (m : M E A) (k : A → M E B) : errs Q m → (∀ a, errs Q (k a)) → errs Q (m ≫= k).
Proof. intros Hm Hk w e w' [Hr|(a & w1 & _ & Hr)]%bind_Err_inv; [by eapply Hm|by eapply Hk]. Qed.

Lemma errs_ret {A} (a : A) : errs Q (mret (M := M E) a).
Proof. by intros w e w'. Qed.

Lemma errs_fail {A} (e : E) : Q e → errs (A := A) Q (fail e).
Proof. by intros He w e' w' [= <- _]. Qed.

Lemma errs_lift {A} (r : result E A) : (∀ e, r = Err e → Q e) → errs Q (lift r).
Proof. intros Hr w e w' [He _]%lift_Err_inv. by apply Hr. Qed.

Lemma errs_with_err {E' A} (f : E' → E) (m : M E' A) : (∀ e, Q (f e)) → errs Q (with_err f m).
Proof. intros Hf w e w' (e0 & _ & ->)%with_err_Err_inv. apply Hf. Qed.

Lemma errs_utc_now : errs Q utc_now.
Proof. by intros w e w'. Qed.

Lemma errs_meanwhile `{Others} {A} (m : M E A) : errs Q m → errs Q (meanwhile m).
Proof. intros Hm w e w' Hr. by eapply Hm. Qed.

Lemma errs_result {A} (m : M E A) w : errs Q m → on_err Q (m w).1.
Proof. intros Hm. unfold on_err. destruct (m w) as [[a|e] w'] eqn:Hr; [done|]. by eapply Hm. Qed.

End errs.

Section passed_on.
Context `{UuidLib, Others}.

(** The role change fails with nothing else than these. *)
Definition role_error (e : AdminError) : Prop :=
  match e with AdminInvalidValue s => s = "role must be 'user' or 'admin'"%string | _ => True end.

Lemma role_errors actor target role : errs role_error (@update_user_role InterleavedAdminRepo actor target role).
Proof.
  assert (Hget : ∀ id, errs role_error (@pg_get_user InterleavedDirectory id)).
  { intros id. unfold pg_get_user, get_summary. apply errs_bind; [by apply errs_with_err|]. intros o.
    apply errs_bind; [apply errs_lift; by intros e; destruct o; intros [= <-]|]. intros su.
    apply errs_bind; [|intros; apply errs_ret]. unfold role_for. apply errs_bind; [by apply errs_with_err|].
    intros [s|]; [|apply errs_ret]. apply errs_lift. intros e. by destruct (Role_try_from s); intros [= <-]. }
  unfold update_user_role. case_bool_decide; [by apply errs_fail|].
  apply errs_bind. { apply errs_lift. intros e. by destruct (Role_try_from role); intros [= <-]. }
  intros r. apply errs_bind; [apply errs_meanwhile, Hget|]. intros _.
  simpl. apply errs_meanwhile. unfold pg_update_role. apply errs_bind; [apply errs_utc_now|]. intros now.
  apply errs_bind; [by apply errs_with_err|]. intros _. apply Hget.
Qed.

Definition profile_error (e : ProfileError) : Prop :=
  match e with
  | ProfileInvalidValue s => (400, s) ∈ error_answers (EpUpdateProfile None None)
  | _ => True
  end.

Lemma profile_errors `{ChronoLib} id avatar bio : errs profile_error (@update_profile _ InterleavedProfileRepo id avatar bio).
Proof.
  unfold update_profile. destruct (_ && _); [apply errs_fail; simpl; set_solver|].
  apply errs_bind.
  { simpl. apply errs_meanwhile. unfold pg_find_by_user_id. apply errs_bind; [by apply errs_with_err|].
    intros; apply errs_ret. }
  intros old. apply errs_bind.
  { apply errs_lift. unfold new_field, AvatarUrl_new. intros e. destruct avatar as [v|]; [|done].
    destruct (is_empty v); [done|]. repeat case_match; simplify_eq/=; set_solver. }
  intros a. apply errs_bind.
  { apply errs_lift. unfold new_field, Bio_new. intros e. destruct bio as [v|]; [|done].
    destruct (is_empty v); [done|]. repeat case_match; simplify_eq/=; set_solver. }
  intros b. apply errs_bind; [apply errs_bind; [apply errs_utc_now|intros; apply errs_ret]|]. intros now.
  apply errs_bind; [|intros; apply errs_ret]. simpl. apply errs_meanwhile. unfold pg_upsert. by apply errs_with_err.
Qed.

End passed_on.

(** Down to the answer of one arm of a handler. *)
Ltac said := repeat (apply answers_bind; intros ?); apply answers_ret; unfold tells_only; simpl; (done || set_solver || auto).

(** ** Properties *)

Section serve.
Context `{UuidLib, BcryptLib, ChronoLib, JwtLib, JwtService, AuthProviderPort}.
Context {L B Env : Type} `{RateLimiter L, AccessTokenBlacklist B Env}.

(** C22. The handlers' error answers disclose nothing. For every request that
    reaches a handler, its path, query and body having been extracted (what axum
    answers to the others is its own text), and whatever the settings, the state
    of the server, the faults of the database and the other processes at work:
    the answer is a 200, the health report, or one of the few texts the endpoint
    has, with its status. In particular the text of an internal error (of the
    database, of the token library, of a lost task) never reaches the client: a
    500 always says ["Internal server error"]. *)
Theorem errors_disclose_nothing (o : Others) settings trusted ver version (env1 env2 : Env) peer headers e (s : Srv L B) :
  let r := (serve_beside settings trusted ver version env1 env2 peer headers e s).1 in
  tells_only (error_answers e) r ∧
  (rs_status r = 500 → rs_body r = ErrorResponse "Internal server error").
Proof.
  assert (Hall : answers (L := L) (B := B) (tells_only (error_answers e))
    (serve_beside settings trusted ver version env1 env2 peer headers e)).
  { unfold serve_beside.
    destruct e; simpl; try (apply answers_authenticated; [unfold tells_only; simpl; set_solver|intros u]);
      try (apply answers_require_admin; [unfold tells_only; simpl; set_solver..|]).
    - unfold login_password_handler, error_response. destruct (login_fields_invalid _ _); [said|].
      apply answers_bind. intros []; [|said]. apply answers_bind. intros [r|[]]; said.
    - unfold login_google_handler, error_response. destruct (_ || _); [said|].
      apply answers_bind. intros []; [|said]. apply answers_bind. intros [r|[]]; said.
    - unfold refresh_token_handler, error_response. destruct (_ || _); [said|].
      apply answers_bind. intros []; [|said]. apply answers_bind. intros [r|[]]; said.
    - unfold logout_handler. apply answers_bind. intros [r|[]]; said.
    - unfold get_profile_handler. apply answers_bind. intros [r|[]]; said.
    - unfold update_profile_handler.
      apply (answers_call _ (on_err profile_error)); [intros w; apply errs_result, profile_errors|].
      intros [r|[]] Hq; apply answers_ret; unfold tells_only; simpl in *; (done || set_solver).
    - destruct (normalize_page page); [|said]. apply answers_bind. intros []; said.
    - apply answers_bind. intros [|[]]; said.
    - apply (answers_call _ (on_err role_error)); [intros w; apply errs_result, role_errors|].
      intros [r|[]] Hq; apply answers_ret; unfold tells_only; simpl in *; try (done || set_solver).
    - destruct db_check; said. }
  intros r. split; [apply Hall|]. specialize (Hall s). fold r in Hall. unfold tells_only in Hall. intros Hst.
  destruct (rs_body r) as [text| | | | | | | |]; try congruence.
  - rewrite Hst in Hall. f_equal. destruct e; simpl in Hall; unfold server_error, unauthorized, not_admin in Hall;
      set_solver.
  - by rewrite Hst in Hall; destruct Hall.
Qed.

End serve.
