(* ===== verification/AuditTrail.v ===== *)
(** * The audit trail of a running process

    A process as [src/main.rs] assembles it: the request handlers, the event bus
    they publish on ([crates/shared/src/event_bus.rs]), and the task that takes
    the events off the bus and records them
    ([crates/auth/src/adapters/audit_event_handler.rs]). Requests, rounds of the
    task and the work of other processes interleave in any order. The first
    theorem accounts for every event published; the second is that the task
    catches up and leaves one row for each event it finds. *)

From S2P Require Import Prelude RustStr ValueObjects Entities Aggregate Database Effects UserRepo.
From S2P Require Import Bcrypt AuthSettings Jwt UseCases Net RateLimiter Blacklist Http Admin Profiles.
From S2P Require Import EventBus Evolution Interference Concurrency AuthRoutes App System.

(** ** The process *)

(** [p_taken] and [p_skipped] record what the audit task has received. *)
Record Process (L B C : Type) : Type := MkProcess {
  p_srv : Srv L B;
  p_bus : C;
  p_taken : list Event;
  p_skipped : nat;
  p_auditing : bool }.
Arguments MkProcess {L B C}.
Arguments p_srv {L B C}.
Arguments p_bus {L B C}.
Arguments p_taken {L B C}.
Arguments p_skipped {L B C}.
Arguments p_auditing {L B C}.

Definition with_world {L B} (s : Srv L B) (w : World) : Srv L B :=
  MkSrv w (sv_login_limiter s) (sv_refresh_limiter s) (sv_bus s) (sv_blacklist s).

(** The events a run of a handler put on the bus. *)
Definition new_events {L B} (s s' : Srv L B) : list Event := drop (length (sv_bus s)) (sv_bus s').

Section process.
Context `{UuidLib, BcryptLib, ChronoLib, JwtLib, JwtServiceSpec, AuthProviderSpec, BroadcastSpec}.
Context {L B Env : Type} `{RateLimiter L, AccessTokenBlacklist B Env}.

Definition process_start (w : World) (login_limiter refresh_limiter : L) (blacklist : B) : Process L B Chan :=
  MkProcess (MkSrv w login_limiter refresh_limiter [] blacklist) (EventBus_new BUS_CAPACITY) [] 0 true.

Inductive proc_step : Process L B Chan → Process L B Chan → Prop :=
(** A request is served, other processes at work between its statements; the
    handlers hold the bus. *)
| ps_request (o : Others) settings trusted ver version env1 env2 peer headers e p resp s' :
    OthersSpec → cv_closed (bc_view (p_bus p)) = false →
    serve_beside settings trusted ver version env1 env2 peer headers e (p_srv p) = (resp, s') →
    proc_step p (MkProcess s' (publish_events (new_events (p_srv p) s') (p_bus p))
                   (p_taken p) (p_skipped p) (p_auditing p))
(** The audit task receives. *)
| ps_audit p r c' res w' :
    p_auditing p = true → bc_recv (p_bus p) = (Some r, c') →
    audit_round r (sv_world (p_srv p)) = (res, w') →
    proc_step p (MkProcess (with_world (p_srv p) w') c' (p_taken p ++ taken_of (Some r))
                   (p_skipped p + skipped_of (Some r)) (bool_decide (res = Ok true)))
(** Other work on the database, the clock moving, faults appearing or ending. *)
| ps_elsewhere p w' :
    good (w_db w') → evolves (w_db (sv_world (p_srv p))) (w_db w') →
    proc_step p (MkProcess (with_world (p_srv p) w') (p_bus p) (p_taken p) (p_skipped p) (p_auditing p))
(** The server lets go of the bus. *)
| ps_closed p :
    proc_step p (MkProcess (p_srv p) (bc_close (p_bus p)) (p_taken p) (p_skipped p) (p_auditing p)).

(** ** The invariant *)

Record proc_ok (p : Process L B Chan) : Prop := {
  po_good : good (w_db (sv_world (p_srv p)));
  po_capacity : (BUS_CAPACITY ≤ bc_capacity (p_bus p))%nat;
  po_refers : Forall (event_refers (w_db (sv_world (p_srv p)))) (sv_bus (p_srv p));
  po_accounted : accounted (bc_capacity (p_bus p)) (sv_bus (p_srv p)) (p_taken p) (p_skipped p) (bc_view (p_bus p));
  po_stopped : p_auditing p = false → bc_view (p_bus p) = MkChanView 0 [] true }.

Lemma process_start_ok w l1 l2 b : good (w_db w) → proc_ok (process_start w l1 l2 b).
Proof.
  intros Hg. split; simpl; [done|apply bc_channel_capacity|done| |done].
  unfold EventBus_new. rewrite bc_channel_view by (unfold BUS_CAPACITY; lia). apply accounted_new.
Qed.

Lemma audit_round_keeps r w res w' :
  audit_round r w = (res, w') → good (w_db w) → good (w_db w') ∧ evolves (w_db w) (w_db w').
Proof.
  assert (Hk : keeping (audit_round r)).
  { destruct r; simpl; [|auto with evo svc..]. apply keeping_bind; [apply keeping_audit|auto with evo svc]. }
  intros Hr Hg. by destruct (Hk _ _ _ Hr Hg) as (? & ? & _).
Qed.

(** The handler never fails, so only the end of the channel stops the task. *)
Lemma audit_round_result r w : (audit_round r w).1 = Ok (match r with Closed => false | _ => true end).
Proof.
  assert (Ha : ∀ m : M string unit, (attempt (E' := AuthError) m w).1 = Ok (m w).1)
    by (intros m; unfold attempt; by destruct (m w)).
  destruct r as [ev| |]; simpl; [|done..]. unfold audit_handle. rewrite !bind_run.
  match goal with |- context [attempt ?m w] => specialize (Ha m); by destruct (attempt m w) as [[] ?] end.
Qed.

Lemma refers_evolves db db' evs : evolves db db' → Forall (event_refers db) evs → Forall (event_refers db') evs.
Proof. intros He Hf. eapply Forall_impl; [exact Hf|]. intros ev. by apply event_refers_evolves. Qed.

Lemma publish_events_closed evs c : cv_closed (bc_view (publish_events evs c)) = cv_closed (bc_view c).
Proof.
  revert c. induction evs as [|e evs IH]; intros c; [done|].
  change (publish_events (e :: evs) c) with (publish_events evs (publish e c)).
  rewrite IH. unfold publish. rewrite bc_send_view. unfold push. by case_bool_decide.
Qed.

Lemma pop_closed v : (pop v).1 = Some Closed → (pop v).2 = MkChanView 0 [] true.
Proof. by destruct v as [[|?] [|??] []]. Qed.

Lemma proc_step_ok p p' : proc_step p p' → proc_ok p → proc_ok p'.
Proof.
  intros Hstep [Hg Hcap Href Hacc Hstop].
  destruct Hstep as [o st tr ver vs e1 e2 peer hs e p resp s' Ho Hopen Hr|p r c' res w' Hrun Hrecv Hround|p w' Hg' He|p]; simpl in *.
  - unfold serve_beside in Hr. assert (Hkeep := serve_keeps st tr ver vs e1 e2 peer hs e _ _ _ Hr Hg). destruct Hkeep as [Hg' He].
    destruct (serve_publishes st tr ver vs e1 e2 peer hs e _ _ _ Hr Hg) as (evs & Hbus & Hevs).
    assert (Hnew : new_events (p_srv p) s' = evs) by (unfold new_events; by rewrite Hbus, drop_app_length).
    assert (Hpos : (0 < bc_capacity (p_bus p))%nat) by (unfold BUS_CAPACITY in Hcap; lia).
    destruct (publish_events_accounted evs (p_bus p) _ _ _ Hpos Hacc) as [Hc Ha].
    rewrite Hnew. split; simpl; rewrite ?Hc, ?Hbus; try done.
    + apply Forall_app. split; [by eapply refers_evolves|done].
    + intros Hoff. rewrite (Hstop Hoff) in Hopen. done.
  - destruct (audit_round_keeps _ _ _ _ Hround Hg) as [Hg' He].
    destruct (bc_recv_view (p_bus p)) as [Hv1 Hv2]. rewrite Hrecv in Hv1, Hv2. simpl in Hv1, Hv2.
    assert (Hc : bc_capacity c' = bc_capacity (p_bus p)) by (rewrite <- (bc_recv_capacity (p_bus p)); by rewrite Hrecv).
    split; simpl; rewrite ?Hc; try done.
    + by eapply refers_evolves.
    + rewrite Hv2. pose proof (accounted_pop _ _ _ _ _ Hacc) as Ha. by rewrite <- Hv1 in Ha.
    + rewrite bool_decide_eq_false. intros Hne. pose proof (audit_round_result r (sv_world (p_srv p))) as Hres.
      rewrite Hround in Hres. simpl in Hres. subst res. rewrite Hv2. apply pop_closed.
      rewrite <- Hv1. by destruct r.
  - split; simpl; try done. by eapply refers_evolves.
  - split; simpl; rewrite ?bc_close_view, ?bc_close_capacity; try done.
    + by destruct Hacc.
    + intros Hoff. by rewrite (Hstop Hoff).
Qed.

Lemma proc_steps_ok p p' : rtc proc_step p p' → proc_ok p → proc_ok p'.
Proof. induction 1; eauto using proc_step_ok. Qed.

(** C25. However requests, rounds of the audit task, other processes and the
    shutdown interleave: what the task has received, followed by what still
    waits for it, is what was published, in order, with at most the gaps it was
    told about, or is about to be told about, missing; without a gap it is exactly what was published; at most
    a channel's capacity waits; every event published is about a user and a
    session that exist; and the task stops only at the end of the stream. *)
Theorem audit_accounting w l1 l2 b p :
  good (w_db w) → rtc proc_step (process_start w l1 l2 b) p →
  let v := bc_view (p_bus p) in
  p_taken p ++ cv_queue v `sublist_of` sv_bus (p_srv p) ∧
  length (sv_bus (p_srv p)) = (length (p_taken p ++ cv_queue v) + p_skipped p + cv_missed v)%nat ∧
  (p_skipped p = 0%nat → cv_missed v = 0%nat → sv_bus (p_srv p) = p_taken p ++ cv_queue v) ∧
  (length (cv_queue v) ≤ bc_capacity (p_bus p))%nat ∧
  Forall (event_refers (w_db (sv_world (p_srv p)))) (sv_bus (p_srv p)) ∧
  (p_auditing p = false → cv_closed v = true ∧ cv_queue v = []).
Proof.
  intros Hg Hsteps. destruct (proc_steps_ok _ _ Hsteps (process_start_ok _ _ _ _ Hg)) as [_ _ Href Hacc Hstop].
  split_and!; try apply Hacc; try done.
  - destruct Hacc as [_ Ht _]. rewrite length_app. lia.
  - intros Hs Hm. rewrite Hs in Hacc. by eapply accounted_lossless.
  - intros Hoff. by rewrite (Hstop Hoff).
Qed.

End process.

(** ** The trail *)

(** What [AuditEventHandler] records of an event, if anything. *)
Definition audit_entry (ev : Event) : option (EventType * AuthMethod) :=
  match ev with
  | EvUserLoggedIn e => Some (Login, uli_method e)
  | EvUserLoggedOut e => Some (Logout, ulo_method e)
  | EvSessionRefreshed e => Some (Refresh, sre_method e)
  | EvUserCreated _ => None
  end.

Definition audit_row_for (ev : Event) (row : UserActionRow) : Prop :=
  ar_user_id row = Event_user_id ev ∧ ar_session_id row = Event_session_id ev ∧
  match audit_entry ev with
  | Some (t, m) => ar_event_type row = EventType_as_str t ∧ ar_auth_method row = AuthMethod_as_str m
  | None => False
  end.

Definition audited_events (evs : list Event) : list Event := filter (λ ev, is_Some (audit_entry ev)) evs.

Definition with_rows (db : Db) (rows : list UserActionRow) : Db :=
  with_actions db (foldl (λ m r, <[ar_id r := r]> m) (db_actions db) rows).

(** From [db] to [db'] the only change is one new audit row per event of [evs]
    that is audited, in order, under identifiers that were free. *)
Definition trail (evs : list Event) (db db' : Db) : Prop := ∃ rows,
  Forall2 audit_row_for (audited_events evs) rows ∧ NoDup (ar_id <$> rows) ∧
  Forall (λ r, db_actions db !! ar_id r = None) rows ∧ db' = with_rows db rows.

Lemma trail_nil db : trail [] db db.
Proof. exists []. split_and!; [constructor..|by destruct db]. Qed.

Lemma foldl_insert_lookup (rows : list UserActionRow) (m : gmap Uuid UserActionRow) id :
  id ∉ ar_id <$> rows → foldl (λ m r, <[ar_id r := r]> m) m rows !! id = m !! id.
Proof.
  revert m. induction rows as [|r rows IH]; intros m Hid; [done|]. simpl in *.
  apply not_elem_of_cons in Hid as [Hne Hid]. rewrite IH by done. by rewrite lookup_insert_ne.
Qed.

(** A row, then a trail. *)
Lemma trail_cons ev evs db row db' :
  audit_row_for ev row → is_Some (audit_entry ev) → db_actions db !! ar_id row = None →
  trail evs (with_actions db (<[ar_id row := row]> (db_actions db))) db' → trail (ev :: evs) db db'.
Proof.
  intros Hrow Hev Hnew (rows & Hrows & Hnd & Hfree & ->). simpl in Hfree.
  exists (row :: rows). unfold audited_events. rewrite filter_cons_True by done. split_and!.
  - by constructor.
  - simpl. constructor; [|done]. intros Hin. apply list_elem_of_fmap in Hin as (r & Hid & Hr).
    rewrite Forall_forall in Hfree. specialize (Hfree r Hr). rewrite <- Hid in Hfree. by rewrite lookup_insert_eq in Hfree.
  - constructor; [done|]. eapply Forall_impl; [exact Hfree|]. intros r Hr. simpl in Hr.
    by apply lookup_insert_None in Hr as [? _].
  - done.
Qed.

(** An event that is not audited. *)
Lemma trail_skip ev evs db db' : audit_entry ev = None → trail evs db db' → trail (ev :: evs) db db'.
Proof.
  intros Hev (rows & Hrows). exists rows. unfold audited_events. rewrite filter_cons_False; [done|].
  rewrite Hev. by intros [? ?].
Qed.

(** ** The task catches up *)

Section catching_up.
Context `{UuidSpec, BroadcastSpec}.

(** The loop [main] spawns, until it waits for an event or ends; the answer says
    whether it waits. *)
Fixpoint audit_loop (fuel : nat) (c : Chan) (w : World) : option (bool * Chan * World) :=
  match fuel with
  | O => None
  | S fuel =>
      match bc_recv c with
      | (None, c') => Some (true, c', w)
      | (Some r, c') =>
          match audit_round r w with
          | (Ok true, w') => audit_loop fuel c' w'
          | (_, w') => Some (false, c', w')
          end
      end
  end.

(** No identifier still to be drawn is in use. *)
Definition actions_fresh (w : World) : Prop :=
  ∀ n, (w_seed w ≤ n)%nat → db_actions (w_db w) !! uuid_v7 n = None.

(** The database answers, and there are identifiers to give. *)
Definition db_up (w : World) : Prop := w_pg w = [] ∧ actions_fresh w.

Lemma insert_action_up uid sid t m w :
  db_up w → is_Some (db_users (w_db w) !! uid) → is_Some (db_sessions (w_db w) !! sid) →
  ∃ row w', insert_action uid (Some sid) t m w = (Ok tt, w') ∧ db_up w' ∧
    ar_user_id row = uid ∧ ar_session_id row = Some sid ∧
    ar_event_type row = EventType_as_str t ∧ ar_auth_method row = AuthMethod_as_str m ∧
    db_actions (w_db w) !! ar_id row = None ∧
    w_db w' = with_actions (w_db w) (<[ar_id row := row]> (db_actions (w_db w))).
Proof.
  intros [Hpg Hfresh] [u Hu] [s Hs].
  set (row := MkUserActionRow (uuid_v7 (w_seed w)) uid (Some sid) (EventType_as_str t) (AuthMethod_as_str m)
                (reading w)).
  set (db' := with_actions (w_db w) (<[ar_id row := row]> (db_actions (w_db w)))).
  assert (Hid : db_actions (w_db w) !! ar_id row = None) by by apply Hfresh.
  exists row. eexists. split.
  { unfold insert_action. rewrite (bind_Ok _ _ _ _ _ (now_v7_run w)), (bind_Ok _ _ _ _ _ (utc_now_run _)).
    erewrite (bind_Ok _ _ _ (row)); [reflexivity|]. apply (exec_no_fault _ _ _ db'); [done|].
    unfold insert_user_action. simpl in *. rewrite Hid, Hu, Hs. by rewrite !bool_decide_false by naive_solver. }
  split_and!; try done. split; [done|]. intros n Hn. simpl in *.
  rewrite lookup_insert_ne by (intros Heq; apply uuid_v7_inj in Heq; lia). apply Hfresh. lia.
Qed.

Lemma audit_handle_up ev w :
  db_up w → event_refers (w_db w) ev →
  ∃ w', audit_handle ev w = (Ok tt, w') ∧ db_up w' ∧ evolves (w_db w) (w_db w') ∧
    ∀ evs db', trail evs (w_db w') db' → trail (ev :: evs) (w_db w) db'.
Proof.
  intros Hup [Hu Hs]. destruct (audit_entry ev) as [[t m]|] eqn:Hentry.
  - assert (Hsid : ∃ sid, Event_session_id ev = Some sid) by (destruct ev; simpl in *; eauto; done).
    destruct Hsid as [sid Hsid]. destruct (Hs sid Hsid) as (srow & Hsrow & _).
    destruct (insert_action_up (Event_user_id ev) sid t m w Hup Hu (mk_is_Some _ _ Hsrow))
      as (row & w' & Hrun & Hup' & Hru & Hrs & Hrt & Hrm & Hnew & Hdb).
    exists w'. split_and!; [|done| |].
    + unfold audit_handle. rewrite (bind_Ok _ _ _ (Ok tt) w'); [done|]. unfold attempt.
      destruct ev; simplify_eq/=; by rewrite Hrun.
    + rewrite Hdb. split; simpl; [done|by apply insert_subseteq|intros ? ? ?; by left].
    + rewrite Hdb. intros evs db'. apply trail_cons; [|by rewrite Hentry|done].
      unfold audit_row_for. rewrite Hentry. split_and!; congruence.
  - exists w. split_and!; [by destruct ev|done|done|]. intros evs db'. by apply trail_skip.
Qed.

Lemma audit_loop_S fuel c w : audit_loop (S fuel) c w =
  match bc_recv c with
  | (None, c') => Some (true, c', w)
  | (Some r, c') => match audit_round r w with
                    | (Ok true, w') => audit_loop fuel c' w'
                    | (_, w') => Some (false, c', w')
                    end
  end.
Proof. done. Qed.

(** Once nothing is missing, one round per event and one to find the queue empty. *)
Lemma audit_loop_drains q c w closed :
  bc_view c = MkChanView 0 q closed → db_up w → Forall (event_refers (w_db w)) q →
  ∃ c' w', audit_loop (S (length q)) c w = Some (negb closed, c', w') ∧
    bc_view c' = MkChanView 0 [] closed ∧ db_up w' ∧ trail q (w_db w) (w_db w').
Proof.
  revert c w. induction q as [|ev q IH]; intros c w Hv Hup Href.
  - destruct (bc_recv_view c) as [Hr1 Hr2]. rewrite Hv in Hr1, Hr2. simpl. destruct (bc_recv c) as [r c']. simpl in Hr1, Hr2.
    exists c', w. rewrite Hr1. destruct closed; simpl; (split_and!; [done..|apply trail_nil]).
  - destruct (bc_recv_view c) as [Hr1 Hr2]. rewrite Hv in Hr1, Hr2.
    rewrite audit_loop_S. simpl length. destruct (bc_recv c) as [r c1]. simpl in Hr1, Hr2. subst r.
    apply Forall_cons in Href as [Hev Href].
    destruct (audit_handle_up ev w Hup Hev) as (w1 & Hrun & Hup1 & He & Htrail).
    assert (Hround : audit_round (Received_event ev) w = (Ok true, w1)).
    { simpl. by rewrite (bind_Ok _ _ _ _ _ Hrun). }
    rewrite Hround. destruct (IH c1 w1 Hr2 Hup1 (refers_evolves _ _ _ He Href)) as (c' & w' & Hloop & Hv' & Hup' & Ht).
    exists c', w'. split_and!; auto.
Qed.

(** A gap costs one more round. *)
Lemma audit_loop_catches_up c w :
  db_up w → Forall (event_refers (w_db w)) (cv_queue (bc_view c)) →
  let closed := cv_closed (bc_view c) in
  ∃ n c' w', (n ≤ length (cv_queue (bc_view c)) + 2)%nat ∧
    audit_loop n c w = Some (negb closed, c', w') ∧
    bc_view c' = MkChanView 0 [] closed ∧ db_up w' ∧ trail (cv_queue (bc_view c)) (w_db w) (w_db w').
Proof.
  intros Hup Href. simpl. destruct (bc_view c) as [[|m] q closed] eqn:Hv; simpl in *.
  - destruct (audit_loop_drains q c w closed Hv Hup Href) as (c' & w' & Hl). exists (S (length q)), c', w'. split; [lia|done].
  - destruct (bc_recv_view c) as [Hr1 Hr2]. rewrite Hv in Hr1, Hr2. simpl in Hr1, Hr2.
    destruct (bc_recv c) as [r c1] eqn:Hr. simpl in Hr1, Hr2. subst r.
    destruct (audit_loop_drains q c1 w closed Hr2 Hup Href) as (c' & w' & Hl & Hrest).
    exists (S (S (length q))), c', w'. split; [lia|]. split; [|done]. rewrite <- Hl.
    rewrite audit_loop_S.
    by rewrite Hr.
Qed.

End catching_up.

Section audit_trail.
Context `{UuidSpec, BcryptLib, ChronoLib, JwtLib, JwtServiceSpec, AuthProviderSpec, BroadcastSpec}.
Context {L B Env : Type} `{RateLimiter L, AccessTokenBlacklist B Env}.

(** C26. The audit task catches up: from any state its process can reach, once
    the database answers and the row identifiers drawn from then on are not in
    use, at most two rounds more than there are events waiting
    bring it to the end of the queue, and by then exactly one audit row has been
    added for each waiting log-in, refresh and log-out, in order, with the
    event's user, session, kind and method; nothing else in the database has
    changed, and the task goes on unless the server is gone. *)
Theorem audit_catches_up w l1 l2 b (p : Process L B Chan) :
  good (w_db w) → rtc proc_step (process_start w l1 l2 b) p → db_up (sv_world (p_srv p)) →
  let v := bc_view (p_bus p) in
  ∃ n c' w', (n ≤ length (cv_queue v) + 2)%nat ∧
    audit_loop n (p_bus p) (sv_world (p_srv p)) = Some (negb (cv_closed v), c', w') ∧
    bc_view c' = MkChanView 0 [] (cv_closed v) ∧
    trail (cv_queue v) (w_db (sv_world (p_srv p))) (w_db w').
Proof.
  intros Hg Hsteps Hup v. destruct (proc_steps_ok _ _ Hsteps (process_start_ok _ _ _ _ Hg)) as [_ _ Href Hacc _].
  destruct (audit_loop_catches_up (p_bus p) (sv_world (p_srv p)) Hup) as (n & c' & w' & Hn & Hl & Hv & _ & Ht).
  - rewrite Forall_forall in Href |- *. intros ev Hev. apply Href.
    eapply elem_of_submseteq; [|apply sublist_submseteq, Hacc]. apply elem_of_app. by right.
  - exists n, c', w'. by split_and!.
Qed.

End audit_trail.

(** ** A concrete process *)

Definition demo_proc_step :=
  @proc_step toy_uuid toy_bcrypt toy_chrono toy_jwt demo_jwt demo_google bounded_buffer bounded_buffer_spec
    MemoryRateLimiter (gmap Uuid RevokedEntry) unit MemoryRateLimiter_port MemoryBlacklist_port.

Definition demo_start : Process MemoryRateLimiter (gmap Uuid RevokedEntry) (nat * ChanView) :=
  @process_start bounded_buffer MemoryRateLimiter (gmap Uuid RevokedEntry)
    seeded_world (MemoryRateLimiter_new 5 60) (MemoryRateLimiter_new 5 60) ∅.

(** One log-in has been served; its event waits. *)
Definition demo_process : Process MemoryRateLimiter (gmap Uuid RevokedEntry) (nat * ChanView) :=
  MkProcess logged_in_server
    (@publish_events bounded_buffer (new_events seeded_server logged_in_server) (p_bus demo_start)) [] 0 true.

Lemma demo_process_reached : rtc demo_proc_step demo_start demo_process.
Proof.
  apply rtc_once.
  apply (@ps_request toy_uuid toy_bcrypt toy_chrono toy_jwt demo_jwt demo_google bounded_buffer bounded_buffer_spec
    MemoryRateLimiter (gmap Uuid RevokedEntry) unit MemoryRateLimiter_port MemoryBlacklist_port
    idle_others demo_settings [] demo_verification "1.0" tt tt (V4 1) [] admin_login demo_start
    (demo_serve [] admin_login seeded_server).1 logged_in_server); [apply idle_others_spec|done|].
  apply surjective_pairing.
Qed.

Lemma seeded_good : good (w_db seeded_world).
Proof.
  refine (proj1 (@db_step_good toy_uuid toy_bcrypt toy_bcrypt_spec toy_chrono toy_jwt demo_jwt demo_jwt_spec
    demo_google demo_google_spec MemoryRateLimiter (gmap Uuid RevokedEntry) unit MemoryRateLimiter_port
    MemoryBlacklist_port empty_db _ _ empty_db_good)).
  apply (db_started _ _ demo_settings (fresh_world empty_db (from_secs 1000))
    (@seed_default_user toy_uuid toy_bcrypt demo_settings (fresh_world empty_db (from_secs 1000))).1 seeded_world); [done|].
  apply surjective_pairing.
Qed.

Lemma audit_accounting_witness :
  length (sv_bus logged_in_server) = 1%nat ∧
  sv_bus logged_in_server = p_taken demo_process ++ cv_queue (p_bus demo_process).2.
Proof.
  split; [vm_compute; reflexivity|].
  destruct (@audit_accounting toy_uuid toy_bcrypt toy_chrono toy_jwt demo_jwt demo_jwt_spec demo_google demo_google_spec
    bounded_buffer bounded_buffer_spec MemoryRateLimiter (gmap Uuid RevokedEntry) unit MemoryRateLimiter_port
    MemoryBlacklist_port seeded_world (MemoryRateLimiter_new 5 60) (MemoryRateLimiter_new 5 60) ∅ demo_process
    seeded_good demo_process_reached) as (_ & _ & Hall & _).
  apply Hall; vm_compute; reflexivity.
Defined.

Lemma audit_catches_up_witness :
  ∃ n c' w', @audit_loop toy_uuid bounded_buffer n (p_bus demo_process) (sv_world (p_srv demo_process)) = Some (true, c', w') ∧
    trail (cv_queue (p_bus demo_process).2) (w_db (sv_world (p_srv demo_process))) (w_db w').
Proof.
  destruct (@audit_catches_up toy_uuid toy_uuid_spec toy_bcrypt toy_chrono toy_jwt demo_jwt demo_jwt_spec demo_google
    demo_google_spec bounded_buffer bounded_buffer_spec MemoryRateLimiter (gmap Uuid RevokedEntry) unit
    MemoryRateLimiter_port MemoryBlacklist_port seeded_world (MemoryRateLimiter_new 5 60)
    (MemoryRateLimiter_new 5 60) ∅ demo_process seeded_good demo_process_reached) as (n & c' & w' & _ & Hl & _ & Ht).
  - split; [vm_compute; reflexivity|]. intros n _.
    assert (Hnone : db_actions (w_db (sv_world logged_in_server)) = ∅) by (vm_compute; reflexivity).
    unfold demo_process. simpl p_srv. rewrite Hnone. apply lookup_empty.
  - exists n, c', w'. split; [exact Hl|exact Ht].
Defined.
