(* ===== verification/Startup.v ===== *)
(** * Start-up

    [main] of [src/main.rs], from the installed crypto provider to the bound
    socket: the settings, the connection pool ([database.rs]), the migrations,
    the seeded account, the rate limiters and the revocation list with the
    [connect] functions of their Redis backends, the application state
    ([crates/auth/src/state.rs]), the router's dependencies and native TLS. What
    main finds outside is [Surroundings]. *)

From stdpp Require Import pretty.
From S2P Require Import Prelude RustStr ValueObjects Entities Aggregate Database Effects UserRepo.
From S2P Require Import Bcrypt AuthSettings Jwt UseCases Net Redis RateLimiter Blacklist Revocation Http Admin Profiles.
From S2P Require Import Telemetry EventBus Evolution AuthRoutes Settings App Router System.

(** ** [create_pool] *)

Record PoolOptions : Type := MkPoolOptions {
  po_max_connections : Z;
  po_min_connections : Z;
  po_acquire_timeout : Z;
  po_idle_timeout : option Z;
  po_max_lifetime : option Z;
  po_url : string }.

(** The options [create_pool] connects with. *)
Definition pool_options (s : Settings) : PoolOptions :=
  MkPoolOptions (db_max_connections s) (db_min_connections s) (from_secs (db_acquire_timeout_seconds s))
    (non_zero_duration (db_idle_timeout_seconds s)) (non_zero_duration (db_max_lifetime_seconds s))
    (database_url s).

(** ** Reaching Redis *)

(** A future under [tokio::time::timeout(REDIS_TIMEOUT, ..)]. *)
Inductive Awaited (A : Type) : Type :=
| Ready (r : result string A)
| Elapsed.
Arguments Ready {A}.
Arguments Elapsed {A}.

Definition REDIS_TIMEOUT : Z := 250000.

(** [RedisRateLimiter::connect]: the server, or the error it gives up with. *)
Definition limiter_redis {S} (open : result string unit) (manager : Awaited S) (ping : Awaited unit)
    : result string S :=
  _ ← open;
  conn ← match manager with
         | Ready r => r
         | Elapsed => Err "Redis connection manager setup timed out"%string
         end;
  _ ← match ping with
      | Ready r => r
      | Elapsed => Err "Redis startup PING timed out"%string
      end;
  Ok conn.

(** [RedisAccessTokenBlacklist::connect]: a PING that fails or takes too long is
    only logged. *)
Definition blacklist_redis {S} (open : result string unit) (lazy_manager : result string S) (ping : Awaited unit)
    : result string S :=
  _ ← open;
  conn ← lazy_manager;
  match ping with
  | Ready (Ok _) => Ok conn
  | Ready (Err _) => Ok conn
  | Elapsed => Ok conn
  end.

(** ** What [main] finds *)

Record SocketAddr : Type := MkSocketAddr { sa_ip : IpAddr; sa_port : Z }.

Section startup.
Context `{UuidLib, BcryptLib, UrlLib, RedisLib, BroadcastLib, TracingLib}.

Record Surroundings : Type := MkSurroundings {
  (** The environment after [dotenvy::dotenv()]. *)
  su_env : Env;
  (** Installing the log subscriber. *)
  su_subscriber : EnvFilter → result string unit;
  su_crypto : result string unit;
  su_recorder : result string unit;
  su_connect : PoolOptions → result string unit;
  (** The database behind the pool, once the migrations have run. *)
  su_migrate : result string World;
  su_redis_open : string → result string unit;
  (** What each of the two limiters meets on its way to Redis. *)
  su_redis_manager : string → Awaited RState;
  su_redis_ping : string → Awaited unit;
  su_redis_lazy : result string RState;
  su_redis_list_ping : Awaited unit;
  (** The rows of [access_token_revocation_outbox]. *)
  su_outbox : gmap Uuid OutboxRow;
  su_lookup : string → result string (list SocketAddr);
  su_pem : string → string → result string unit;
  su_bind : SocketAddr → result string unit }.

(** Where [main] panics or, for the seeding, exits with status 1. *)
Inductive Failure : Type :=
| LoggingFailed (e : string)
| CryptoFailed (e : string)
| RecorderFailed (e : string)
| SettingsFailed (e : SettingsError)
| AuthSettingsFailed (e : string)
| PoolFailed (e : string)
| MigrationsFailed (e : string)
| SeedFailed (e : string)
| LimitersFailed (e : string)
| LookupFailed (e : string)
| NoAddress
| CorsPanicked
| TlsFailed (cert_path e : string)
| TlsUnreachable
| BindFailed (e : string).

(** [AppState]; the repositories are the pool's and have no state of their own. *)
Record AppState : Type := MkAppState {
  st_google_client_id : string;
  st_jwt_service : JwtServiceImpl;
  st_rate_limiter : AnyLimiter;
  st_refresh_rate_limiter : AnyLimiter;
  st_event_bus : Chan;
  st_auth_settings : AuthSettings;
  st_trusted_proxy_ips : list IpAddr }.

(** A process that serves. *)
Record Running : Type := MkRunning {
  rn_log_filter : EnvFilter;
  rn_settings : Settings;
  rn_pool : PoolOptions;
  rn_world : World;
  rn_state : AppState;
  rn_deps : RouterDeps;
  rn_blacklist : AnyBlacklist;
  rn_mirrors : option (list (MetricKey * CounterHandle));
  rn_flusher : option Z;
  rn_addr : SocketAddr;
  rn_tls : option (string * string) }.

(** [format!("{}:{}", settings.server_host, settings.server_port)] *)
Definition bind_text (s : Settings) : string :=
  String.append (server_host s) (String.append ":" (pretty (server_port s))).

Definition native_tls (pem : string → string → result string unit) (cert key : option string)
    : result Failure (option (string * string)) :=
  match cert, key with
  | Some cert, Some key => _ ← map_err (TlsFailed cert) (pem cert key); Ok (Some (cert, key))
  | None, None => Ok None
  | _, _ => Err TlsUnreachable
  end.

Definition main (su : Surroundings) : result Failure Running :=
  log_filter ← map_err LoggingFailed (init_logging (su_env su) (su_subscriber su));
  _ ← map_err CryptoFailed (su_crypto su);
  _ ← map_err RecorderFailed (install_prometheus_recorder (su_recorder su));
  loaded ← map_err SettingsFailed (Settings_from_env (su_env su));
  let settings := loaded.1 in
  auth_settings ← map_err AuthSettingsFailed (from_env (su_env su));
  _ ← map_err PoolFailed (su_connect su (pool_options settings));
  world ← map_err MigrationsFailed (su_migrate su);
  let seeded := seed_default_user auth_settings world in
  _ ← map_err SeedFailed seeded.1;
  let event_bus := EventBus_new BUS_CAPACITY in
  let jwt_service :=
    JwtServiceImpl_new (jwt_secret auth_settings) (access_token_expiry_minutes auth_settings)
      (refresh_token_expiry_days auth_settings) (jwt_issuer auth_settings) (jwt_audience auth_settings) in
  limiters ← map_err LimitersFailed
    (build_rate_limiters (redis_url settings) (rate_limit_max_attempts settings)
       (rate_limit_window_seconds settings)
       (λ url scope, limiter_redis (su_redis_open su url) (su_redis_manager su scope) (su_redis_ping su scope)));
  let blacklist := build_access_token_blacklist (redis_url settings)
    (λ url, ok (blacklist_redis (su_redis_open su url) (su_redis_lazy su) (su_redis_list_ping su))) (su_outbox su) in
  let mirrors := spawn_backend_error_counter_poller (limiter_error_counters limiters)
                   (blacklist_error_counter blacklist) in
  let flusher := (λ _, flush_period (revocation_flush_interval_seconds settings)) <$> revocation_flusher blacklist in
  let verification := MkJwtVerification (jwt_secret auth_settings) (jwt_issuer auth_settings)
                        (jwt_audience auth_settings) in
  addrs ← map_err LookupFailed (su_lookup su (bind_text settings));
  bind_addr ← ok_or (head addrs) NoAddress;
  let metrics_guard_config := MkMetricsGuardConfig (metrics_allowed_ips settings) (trusted_proxy_ips settings) in
  let state := MkAppState (google_client_id auth_settings) jwt_service limiters.1 limiters.2 event_bus
                 auth_settings (trusted_proxy_ips settings) in
  cors ← ok_or (build_cors_layer (cors_allowed_origins settings)) CorsPanicked;
  let deps := MkRouterDeps verification metrics_guard_config cors (enable_swagger settings) in
  tls_config ← native_tls (su_pem su) (tls_cert_path settings) (tls_key_path settings);
  _ ← map_err BindFailed (su_bind su bind_addr);
  Ok (MkRunning log_filter settings (pool_options settings) seeded.2 state deps blacklist mirrors flusher bind_addr tls_config).

End startup.

(** ** What a process that serves has *)

Section sound.
Context `{UuidLib, BcryptSpec, UrlLib, RedisLib, BroadcastSpec, TracingLib}.

(** The keys, parties and lifetimes of the tokens come from one configuration. *)
Definition jwt_configured (a : AuthSettings) (rn : Running) : Prop :=
  st_jwt_service (rn_state rn) =
    JwtServiceImpl_new (jwt_secret a) (access_token_expiry_minutes a) (refresh_token_expiry_days a)
      (jwt_issuer a) (jwt_audience a) ∧
  rd_verification (rn_deps rn) = verification (st_jwt_service (rn_state rn)) ∧
  encoding_key (st_jwt_service (rn_state rn)) = jv_secret (rd_verification (rn_deps rn)).

(** The two limiters have the configured budget each, on one backend. *)
Definition limiters_configured (s : Settings) (rn : Running) : Prop :=
  let max := rate_limit_max_attempts s in
  let window := rate_limit_window_seconds s in
  match redis_url s, st_rate_limiter (rn_state rn), st_refresh_rate_limiter (rn_state rn) with
  | None, LMemory l, LMemory r => l = MemoryRateLimiter_new max window ∧ r = l
  | Some _, LRedis l, LRedis r =>
      ∃ server server', l = RedisRateLimiter_connect server max window "login" ∧
                        r = RedisRateLimiter_connect server' max window "refresh"
  | _, _, _ => False
  end.

(** The revocation list is durable exactly with a flush worker, and only on a
    configured Redis. *)
Definition revocations_configured (s : Settings) (rn : Running) : Prop :=
  match rn_blacklist rn with
  | BDurable d =>
      is_Some (redis_url s) ∧ du_pending d = ∅ ∧
      ∃ period, rn_flusher rn = Some period ∧ SECOND ≤ period
  | BMemory m => m = ∅ ∧ rn_flusher rn = None
  end.

Lemma build_rate_limiters_cases url max window connect p :
  build_rate_limiters url max window connect = Ok p →
  match url, p with
  | None, (LMemory l, LMemory r) => l = MemoryRateLimiter_new max window ∧ r = l
  | Some _, (LRedis l, LRedis r) =>
      ∃ server server', l = RedisRateLimiter_connect server max window "login" ∧
                        r = RedisRateLimiter_connect server' max window "refresh"
  | _, _ => False
  end.
Proof.
  unfold build_rate_limiters. destruct url as [url|]; [|by intros [= <-]].
  destruct (connect url "login"%string) as [s|]; simpl; [|done].
  destruct (connect url "refresh"%string) as [s'|]; simpl; [|done]. intros [= <-]. by exists s, s'.
Qed.

Lemma native_tls_cases pem cert key r :
  (is_Some cert ↔ is_Some key) → native_tls pem cert key = r →
  r ≠ Err TlsUnreachable ∧
  ∀ t, r = Ok t → match t with
                  | Some (c, k) => cert = Some c ∧ key = Some k ∧ pem c k = Ok tt
                  | None => cert = None ∧ key = None
                  end.
Proof.
  intros Hiff. unfold native_tls. destruct cert as [c|], key as [k|]; simpl.
  - destruct (pem c k) as [[]|e] eqn:Hp; simpl; intros <-; (split; [done|]); [by intros t [= <-]|done].
  - destruct Hiff as [Hx _]. by destruct Hx as [? ?].
  - destruct Hiff as [_ Hx]. by destruct Hx as [? ?].
  - intros <-. split; [done|]. by intros t [= <-].
Qed.

Lemma Settings_tls env s w : Settings_from_env env = Ok (s, w) → (is_Some (tls_cert_path s) ↔ is_Some (tls_key_path s)).
Proof.
  unfold Settings_from_env. destruct (parse_required_ssl_flag _) as [req|]; [|done]. simpl.
  destruct (parse_tls_paths _ _) as [[cert key]|] eqn:Htls; [|done]. simpl. apply parse_tls_paths_Ok in Htls.
  destruct (env "DATABASE_URL"%string) as [raw|]; [|done]. simpl.
  destruct (if req then _ else _) as [url|]; [|done]. simpl. destruct (validate_database_ssl url); [|done]. simpl.
  repeat match goal with
  | |- context [number_or env ?n ?m ?d] => destruct (number_or env n m d); [simpl|done]
  end.
  by intros [= <- <-].
Qed.

(** One step of [main]: the call that may fail. *)
Ltac main_step :=
  match goal with
  | |- context [map_err _ ?r] => destruct r eqn:?; simpl; [|by split]
  | |- context [ok_or ?o _] => destruct o eqn:?; simpl; [|by split]
  end.

(** What [main] leaves when it gets to serving. *)
Lemma main_facts su :
  main su ≠ Err TlsUnreachable ∧
  ∀ rn, main su = Ok rn →
    let s := rn_settings rn in
    let a := st_auth_settings (rn_state rn) in
    rn_log_filter rn = default (filter_new "info") (try_from_default_env (su_env su)) ∧
    (∃ warning, Settings_from_env (su_env su) = Ok (s, warning)) ∧
    from_env (su_env su) = Ok a ∧ settings_ok a ∧
    rn_pool rn = pool_options s ∧ su_connect su (rn_pool rn) = Ok tt ∧
    (∃ w0 b, su_migrate su = Ok w0 ∧ seed_default_user a w0 = (Ok b, rn_world rn) ∧
       (good (w_db w0) → is_ok (Email_new (default_user_email a)) = true → good (w_db (rn_world rn)))) ∧
    limiters_configured s rn ∧ revocations_configured s rn ∧ jwt_configured a rn ∧
    st_trusted_proxy_ips (rn_state rn) = mg_trusted_proxy_ips (rd_metrics_guard_config (rn_deps rn)) ∧
    (∃ addrs, su_lookup su (bind_text s) = Ok (rn_addr rn :: addrs)) ∧
    match rn_tls rn with
    | Some (cert, key) => tls_cert_path s = Some cert ∧ tls_key_path s = Some key ∧ su_pem su cert key = Ok tt
    | None => tls_cert_path s = None ∧ tls_key_path s = None
    end.
Proof.
  unfold main, init_logging. destruct (su_subscriber su _) as [[]|]; simpl; [|by split]. do 2 main_step.
  destruct (Settings_from_env (su_env su)) as [[s warning]|] eqn:Hs; simpl; [|by split].
  main_step.
  destruct (su_connect su (pool_options s)) as [[]|] eqn:Hpool; simpl; [|by split].
  destruct (su_migrate su) as [w0|] eqn:Hmig; simpl; [|by split].
  destruct (seed_default_user _ w0) as [[b|] w] eqn:Hseed; simpl; [|by split].
  destruct (build_rate_limiters _ _ _ _) as [limiters|] eqn:Hlim; simpl; [|by split].
  apply build_rate_limiters_cases in Hlim.
  destruct (su_lookup su (bind_text s)) as [addrs|] eqn:Haddrs; simpl; [|by split].
  destruct (head addrs) as [addr|] eqn:Hhead; simpl; [|by split]. main_step.
  destruct (native_tls_cases (su_pem su) _ _ _ (Settings_tls _ _ _ Hs) eq_refl) as [Hne Htls].
  destruct (native_tls _ _ _) as [t|[]] eqn:Ht; simpl; try by split.
  destruct (su_bind su addr) as [[]|]; simpl; [|by split]. split; [done|]. intros rn [= <-]. simpl.
  specialize (Htls t eq_refl). split_and!; try done.
  - by exists warning.
  - by eapply from_env_settings_ok.
  - exists w0, b. split_and!; [done..|]. intros Hg He. eapply (keeping_seed _ He _ _ _ Hseed Hg).
  - unfold limiters_configured. simpl. by destruct (redis_url s), limiters as [[] []].
  - unfold revocations_configured, build_access_token_blacklist. simpl.
    destruct (redis_url s) as [url|]; [|done]. destruct (ok _); [|done]. simpl.
    split_and!; [done..|]. eexists. split; [done|]. unfold flush_period, from_secs, SECOND. lia.
  - destruct addrs as [|x l]; [done|]. injection Hhead as ->. by exists l.
Qed.

(** C24. A process that serves is consistent, and [main]'s [unreachable!] is: it
    logs what RUST_LOG says when that parses and [info] otherwise; its
    settings were accepted, authentication settings included; it connected with
    them and its database holds what the migrations left plus at most the seeded
    account, and stays good when it was and the configured email is one; the
    login and refresh limiters have the configured budget each, both in memory
    or both on the configured Redis under different prefixes; revocations are
    durable exactly with a flush worker, whose period is at least a second; the
    handlers' tokens and the extractor share one key, issuer and audience; the
    handlers and the metrics guard trust the same proxies; it is bound to the
    first address of the configured host and port, with native TLS exactly when
    both paths are set and load. *)
Theorem startup_sound su :
  main su ≠ Err TlsUnreachable ∧
  ∀ rn, main su = Ok rn →
    let s := rn_settings rn in
    let a := st_auth_settings (rn_state rn) in
    rn_log_filter rn = default (filter_new "info") (try_from_default_env (su_env su)) ∧
    (∃ warning, Settings_from_env (su_env su) = Ok (s, warning)) ∧
    from_env (su_env su) = Ok a ∧ settings_ok a ∧
    rn_pool rn = pool_options s ∧ su_connect su (rn_pool rn) = Ok tt ∧
    (∃ w0 b, su_migrate su = Ok w0 ∧ seed_default_user a w0 = (Ok b, rn_world rn) ∧
       (good (w_db w0) → is_ok (Email_new (default_user_email a)) = true → good (w_db (rn_world rn)))) ∧
    limiters_configured s rn ∧ revocations_configured s rn ∧ jwt_configured a rn ∧
    st_trusted_proxy_ips (rn_state rn) = mg_trusted_proxy_ips (rd_metrics_guard_config (rn_deps rn)) ∧
    (∃ addrs, su_lookup su (bind_text s) = Ok (rn_addr rn :: addrs)) ∧
    match rn_tls rn with
    | Some (cert, key) => tls_cert_path s = Some cert ∧ tls_key_path s = Some key ∧ su_pem su cert key = Ok tt
    | None => tls_cert_path s = None ∧ tls_key_path s = None
    end.
Proof. exact (main_facts su). Qed.

End sound.

(** *** Witness *)

Definition start_env (name : string) : result VarError string :=
  match settings_env name with Ok v => Ok v | Err _ => demo_env name end.

Definition toy_tracing : TracingLib := {|
  EnvFilter := string; filter_parse s := if is_empty s then None else Some s; filter_new s := s |}.

Definition demo_surroundings : @Surroundings toy_redis toy_tracing :=
  @MkSurroundings toy_redis toy_tracing start_env (λ _, Ok tt) (Ok tt) (Ok tt) (λ _, Ok tt) (Ok (fresh_world empty_db (from_secs 1000)))
    (λ _, Err "no Redis"%string) (λ _, Elapsed) (λ _, Elapsed) (Err "no Redis"%string) Elapsed ∅
    (λ _, Ok [MkSocketAddr (V4 2130706433) 3000]) (λ _ _, Ok tt) (λ _, Ok tt).

Definition demo_main : result Failure (@Running toy_redis bounded_buffer toy_tracing) :=
  @main toy_uuid toy_bcrypt toy_url toy_redis bounded_buffer toy_tracing demo_surroundings.

Lemma startup_sound_witness :
  ∃ rn, demo_main = Ok rn ∧ good (w_db (rn_world rn)) ∧ size (db_users (w_db (rn_world rn))) = 1%nat.
Proof.
  assert (Hok : is_ok demo_main = true) by (vm_compute; reflexivity).
  destruct demo_main as [rn|e] eqn:E; [|discriminate Hok].
  exists rn. split; [reflexivity|].
  destruct (@startup_sound toy_uuid toy_bcrypt toy_bcrypt_spec toy_url toy_redis bounded_buffer
    toy_tracing demo_surroundings) as [_ Hall].
  destruct (Hall rn E) as (_ & _ & Ha & _ & _ & _ & (w0 & b & Hw0 & _ & Hg) & _). split.
  - apply Hg.
    + injection Hw0 as <-. exact empty_db_good.
    + assert (Hs : default_user_email <$> ok (from_env start_env) = Some "admin@example.com"%string)
        by (vm_compute; reflexivity).
      change (su_env demo_surroundings) with start_env in Ha. rewrite Ha in Hs. injection Hs as Hs. rewrite Hs.
      vm_compute. reflexivity.
  - assert (Hn : (λ rn, size (db_users (w_db (rn_world rn)))) <$> ok demo_main = Some 1%nat) by (vm_compute; reflexivity).
    rewrite E in Hn. by injection Hn.
Defined.
