(* ===== verification/Deployment.v ===== *)
(** * A fresh deployment

    The process [main] starts, answering requests: [AppState]'s trait objects
    dispatch to the backends the configuration chose. On a database the
    migrations just made, without Redis, the configured account can log in and
    its token is accepted; it is not an administrator. *)

From S2P Require Import Prelude RustStr ValueObjects Entities Aggregate Database Effects UserRepo.
From S2P Require Import Bcrypt AuthSettings Jwt UseCases Net Redis RateLimiter Blacklist Http Admin Profiles.
From S2P Require Import Telemetry EventBus Evolution AuthRoutes EndToEnd Lifecycle Settings App Router System Appointment Startup.

(** ** Trait objects *)

(** [Arc<dyn RateLimiter>]: a call goes to the backend behind it; [net] is the
    network as Redis sees it. *)
Section dispatch.
Context `{RedisLib, IpDisplay, UuidLib}.

Definition on_backend {A} (memory : MemoryRateLimiter → A * MemoryRateLimiter)
    (redis : RedisRateLimiter → A * RedisRateLimiter) (l : AnyLimiter) : A * AnyLimiter :=
  match l with
  | LMemory m => let '(a, m) := memory m in (a, LMemory m)
  | LRedis r => let '(a, r) := redis r in (a, LRedis r)
  end.

Definition AnyLimiter_port (net : Net) : RateLimiter AnyLimiter := {|
  rl_check t1 t2 ip := on_backend (memory_check t1 t2 ip) (redis_check net t1 t2 ip);
  rl_record_attempt t1 t2 ip l := (on_backend (λ m, (tt, memory_record_attempt t1 t2 ip m))
                                     (λ r, (tt, redis_record_attempt net t1 t2 ip r)) l).2;
  rl_try_check_and_record t1 t2 ip := on_backend (memory_try t1 t2 ip) (redis_try net t1 t2 ip);
  rl_remaining_attempts t ip := on_backend (memory_remaining t ip) (redis_remaining net t ip);
  rl_reset ip l := (on_backend (λ m, (tt, memory_reset ip m)) (λ r, (tt, redis_reset net ip r)) l).2 |}.

(** [Arc<dyn AccessTokenBlacklist>]; the environment gives the outcomes of the
    Redis round trip and of the journal's. *)
Definition AnyBlacklist_port : AccessTokenBlacklist AnyBlacklist (Net * Net) := {|
  bl_revoke env t jti ttl b :=
    match b with
    | BMemory m => let '(r, m) := memory_revoke t jti ttl m in (r, BMemory m)
    | BDurable d => let '(r, d) := @durable_revoke _ _ RedisBlacklist_port env t jti ttl d in (r, BDurable d)
    end;
  bl_is_revoked env t jti b :=
    match b with
    | BMemory m => let '(r, m) := memory_is_revoked t jti m in (r, BMemory m)
    | BDurable d => let '(r, d) := @durable_is_revoked _ _ RedisBlacklist_port env.1 t jti d in (r, BDurable d)
    end |}.

End dispatch.

Section running.
Context `{UuidLib, BcryptLib, ChronoLib, JwtLib, UrlLib, RedisLib, IpDisplay, BroadcastLib, TracingLib, AuthProviderPort}.

(** The state [main] hands to the server, before the first request. *)
Definition serving (rn : Running) : Srv AnyLimiter AnyBlacklist :=
  MkSrv (rn_world rn) (st_rate_limiter (rn_state rn)) (st_refresh_rate_limiter (rn_state rn)) [] (rn_blacklist rn).

(** The router with [rn]'s state and dependencies behind it. *)
Definition respond (rn : Running) (version : string) (net : Net) (env1 env2 : Net * Net) (peer : IpAddr)
    (headers : HeaderMap) (e : Endpoint) : H AnyLimiter AnyBlacklist (Response Body) :=
  let st := rn_state rn in
  @serve _ _ _ _ _ _ _ (JwtServiceImpl_service (st_jwt_service st)) _ AnyLimiter AnyBlacklist _
    (AnyLimiter_port net) AnyBlacklist_port
    (st_auth_settings st) (st_trusted_proxy_ips st) (rd_verification (rn_deps rn)) version env1 env2 peer headers e.

End running.

(** ** The first requests of a process *)

(** A world whose tables hold just the account [r], with nothing failing. *)
Record seeded (r : UserRow) (w : World) : Prop := {
  seeded_db : w_db w = with_users empty_db {[ur_id r := r]};
  seeded_pg : w_pg w = [];
  seeded_join : w_join w = [] }.

(** What seeding leaves on the tables of the migrations. *)
Lemma seed_fresh `{UuidLib, BcryptSpec} settings w b w' :
  w_db w = empty_db → w_pg w = [] → w_join w = [] → dummies_ok w →
  seed_default_user settings w = (Ok b, w') →
  ∃ id h t, seeded (MkUserRow id (Some (default_user_username settings)) (default_user_email settings)
                      "Administrator" (Some h) "local" t t) w' ∧
    dummies_ok w' ∧ h ≠ EmptyString ∧ bcrypt_verify (default_user_password settings) h = Ok true.
Proof.
  intros Hdb Hp Hj Hd Hr. unfold seed_default_user in Hr.
  rewrite (bind_Ok _ _ _ _ _ (exec_no_fault count_local_users w _ (w_db w) Hp eq_refl)) in Hr.
  rewrite Hdb in Hr. unfold rows in Hr. cbn [db_users empty_db] in Hr. rewrite map_to_list_empty in Hr.
  simpl in Hr. unfold seed_insert in Hr. run_inv Hr. run_inv R.
  set (w1 := with_db w empty_db) in R.
  destruct (hash_io_run (E := AuthError) (default_user_password settings) (bcrypt_cost settings) w1) as (w2 & [Hh Hq] & Hdum & _).
  unfold run_bounded in R. change (w_join w1) with (w_join w) in R. rewrite Hj, Hh in R. injection R as <- <-.
  destruct Hq as (Hdb2 & Hpg2 & _ & _ & Hj2 & _). unfold w1 in Hdb2, Hpg2, Hj2, Hdum.
  cbn [w_db w_pg w_join w_dummies with_db] in Hdb2, Hpg2, Hj2, Hdum.
  destruct (bcrypt_hash _ _ _) as [h|] eqn:Eh; [|by run_inv Hr]. simpl in Hr. run_inv Hr. injection R as <- <-.
  rewrite (bind_Ok _ _ _ _ _ (now_v7_run w2)), (bind_Ok _ _ _ _ _ (utc_now_run _)) in Hr.
  simpl in Hr. set (row := MkUserRow _ _ _ _ _ _ _ _) in Hr.
  match type of Hr with (mbind _ _) ?x = _ => set (w3 := x) in Hr end.
  assert (Hst : insert_user_on_conflict_username row (w_db w3) = Ok (tt, with_users empty_db {[ur_id row := row]})).
  { unfold w3. simpl. rewrite Hdb2. reflexivity. }
  rewrite (bind_Ok _ _ _ _ _ (exec_no_fault _ w3 _ _ ltac:(unfold w3; simpl; congruence) Hst)) in Hr.
  injection Hr as <- <-. exists (ur_id row), h, (ur_created_at row). split_and!.
  - split; simpl; [done|congruence..].
  - intros c x Hc. apply (Hd c x). unfold w3 in Hc. simpl in Hc. by rewrite Hdum in Hc.
  - by apply stored_hash_cost_own in Eh as [_ ?].
  - by eapply bcrypt_verify_own.
Qed.

Lemma fresh_memory_admits t1 t2 ip max secs :
  1 ≤ max → (memory_try t1 t2 ip (MemoryRateLimiter_new max secs)).1 = true.
Proof.
  intros Hmax. unfold memory_try.
  assert (Hc : clean_expired t1 (MemoryRateLimiter_new max secs) = MemoryRateLimiter_new max secs).
  { unfold clean_expired, with_entries, MemoryRateLimiter_new. simpl. by rewrite map_filter_empty. }
  assert (He : entry_or_insert t1 t2 ip (MemoryRateLimiter_new max secs) =
    (MkEntry 0 t2, with_entries (MemoryRateLimiter_new max secs) {[ip := MkEntry 0 t2]})).
  { unfold entry_or_insert. by rewrite Hc. }
  rewrite He. simpl. destruct (_ <=? _); [done|]. by rewrite (proj2 (Z.ltb_lt _ _)) by lia.
Qed.

(** The limiter only moves the clock. *)
Lemma try_login_world {L B} `{RateLimiter L} ip (s : Srv L B) :
  ∃ t ticks, sv_world (try_login ip s).2 = with_time (sv_world s) t ticks.
Proof. unfold try_login. h_run. destruct (rl_try_check_and_record _ _ _ _). by eexists _, _. Qed.

Lemma seeded_state_good `{UuidLib} r w u :
  w_db w = with_users empty_db {[ur_id r := r]} → UserRow_into_user r = Ok u → good (w_db w).
Proof.
  intros -> Hu. apply (insert_user_good r empty_db r).
  - unfold insert_user. simpl. rewrite bool_decide_eq_false_2 by (by intros [x Hx]).
    assert (username_taken (ur_username r) empty_db = false) as ->.
    { unfold username_taken, rows. simpl. rewrite map_to_list_empty. by destruct (ur_username r). }
    assert (email_taken (ur_email r) empty_db = false) as -> by (unfold email_taken, rows; simpl; by rewrite map_to_list_empty).
    done.
  - by exists u.
  - apply empty_db_good.
Qed.

Lemma default_row_converts id name email h t e :
  Email_new email = Ok e → h ≠ EmptyString →
  UserRow_into_user (MkUserRow id (Some name) email "Administrator" (Some h) "local" t t) =
    Ok (User_new id (Some name) e "Administrator" (Some (MkHashedPassword h)) Local t t).
Proof.
  intros He Hh. unfold UserRow_into_user. simpl. rewrite He. simpl.
  unfold HashedPassword_new. destruct h as [|b h]; [done|]. reflexivity.
Qed.

(** The one account logs in. *)
Lemma seeded_login `{UuidLib, BcryptSpec, JwtServiceTotal} {jspec : JwtServiceSpec} settings r u h password w :
  seeded r w → dummies_ok w → 4 ≤ bcrypt_cost settings ≤ 31 →
  UserRow_into_user r = Ok u → u_password_hash u = Some h → bcrypt_verify password (hash_str h) = Ok true →
  ∀ name, ur_username r = Some name →
  ∀ o w', login_with_password settings name password w = (o, w') → datable settings w w' →
  ∃ res, o = Ok res ∧ lr_user res = u.
Proof.
  intros [Hdb Hp Hj] Hd Hc Hu Hh Hv name Hname o w' Hlogin Hdate. destruct (seeded_state_good r w u Hdb Hu) as (Hok & Hrd & _).
  apply (login_succeeds settings name password w r u Hok Hrd Hp Hj Hd Hc) with (w' := w'); [|done|..|done|done].
  - rewrite Hdb. unfold rows. cbn [db_users with_users]. rewrite map_to_list_singleton. simpl. unfold username_is. by rewrite Hname, bool_decide_eq_true_2.
  - unfold password_matches. simpl. rewrite Hh. simpl. by rewrite Hv, bool_decide_eq_true_2.
  - rewrite Hdb. unfold session_rows, rows. cbn [db_sessions with_users empty_db]. by rewrite map_to_list_empty.
  - intros n _. by rewrite Hdb.
Qed.

(** A password login whose attempt is admitted ends with its use case. *)
Lemma login_handler_admitted `{UuidLib, BcryptLib, JwtService} {L B} `{RateLimiter L} settings trusted peer headers name
    password (s : Srv L B) o w :
  login_fields_invalid name password = false →
  let ip := resolve_client_ip peer headers trusted in
  login_decision ip s = true →
  login_with_password settings name password (sv_world (try_login ip s).2) = (o, w) →
  let out := login_password_handler settings trusted peer headers name password s in
  later w (sv_world out.2) ∧
  ∀ res, o = Ok res →
    out.1 = MkResponse 200 (AuthTokensResponse "authenticated" (uuid_to_string (u_id (lr_user res)))
              (lr_access_token res) (lr_refresh_token res)) ∧ sv_world out.2 = w.
Proof.
  intros Hf ip Hd Hr out. unfold out, login_password_handler. rewrite Hf. unfold mbind, H_bind. fold ip.
  unfold login_decision in Hd. destruct (try_login ip s) as [b s1]. simpl in *. subst b. simpl.
  unfold call. rewrite Hr. destruct o as [res|e]; [by split; [|intros ? [= <-]]|]. split; [|done]. by destruct e.
Qed.

(** A caller who is stored without a role row is shown the door. *)
Lemma plain_user_refused `{UuidLib, ChronoLib} {L B} uid page per_page actor (s : Srv L B) :
  au_user_id actor = uid → w_pg (sv_world s) = [] → is_Some (db_users (w_db (sv_world s)) !! uid) →
  unappointed (w_db (sv_world s)) → roles_ok (w_db (sv_world s)) →
  (list_users_handler page per_page actor s).1 = admin_guard.
Proof.
  intros Hid Hp [r Hr] Hun Hroles. unfold list_users_handler, require_admin, mbind, H_bind, call. rewrite Hid. simpl.
  assert (Hw : with_db (sv_world s) (w_db (sv_world s)) = sv_world s) by by destruct (sv_world s).
  assert (E : pg_is_admin uid (sv_world s) = (Ok false, sv_world s)).
  { unfold pg_is_admin, get_summary. simpl. unfold get_user_summary. rewrite bind_run. unfold with_err at 1.
    rewrite bind_run. unfold with_err. rewrite (exec_no_fault (select_user_by_id uid) _ _ _ Hp eq_refl), Hw. simpl.
    rewrite Hr. simpl. rewrite bind_run. unfold role_for. rewrite bind_run. unfold with_err.
    rewrite (exec_no_fault (select_role uid) _ _ _ Hp eq_refl), Hw. simpl.
    destruct (db_roles (w_db (sv_world s)) !! uid) as [row|] eqn:Hrow; [|done]. simpl.
    specialize (Hun _ _ Hrow). by destruct (Hroles _ _ Hrow) as [-> | ?]. }
  by rewrite E.
Qed.

(** Reading the token only moves the clock. *)
Lemma from_request_parts_pg `{UuidLib, JwtLib} {L B Env} `{AccessTokenBlacklist B Env} env ver ext headers (s : Srv L B) :
  w_pg (sv_world (from_request_parts env ver ext headers s).2) = w_pg (sv_world s).
Proof.
  unfold from_request_parts. destruct (bearer_token headers) as [token|]; [|done].
  destruct ver as [v|]; [|done]. destruct ext; [|done].
  h_run. unfold decode, mbind, M_bind, utc_now, mret, M_ret. simpl.
  destruct (jwt_decode _ _ _ token) as [claims|]; simpl; [|done].
  destruct (request_of_json claims) as [rc|]; simpl; [|done].
  destruct (bl_is_revoked _ _ _ _) as [r b]. simpl. by destruct r as [[]|].
Qed.

(** ** Properties *)

Section fresh.
Context `{UuidSpec, BcryptSpec, ChronoLib, JwtSpec, UrlLib, RedisLib, IpDisplay, BroadcastSpec, TracingLib, AuthProviderPort}.

#[local] Existing Instance AnyBlacklist_port.

(** The first attempt on the limiters [main] built. *)
Lemma first_attempt_admitted (rn : Running) net ip :
  limiters_configured (rn_settings rn) rn → redis_url (rn_settings rn) = None →
  1 ≤ rate_limit_max_attempts (rn_settings rn) →
  @login_decision _ _ (AnyLimiter_port net) ip (serving rn) = true.
Proof.
  unfold limiters_configured. intros Hlim Hredis Hmax. rewrite Hredis in Hlim. unfold login_decision, try_login. h_run.
  destruct (st_rate_limiter (rn_state rn)) as [l|]; [|by destruct (st_refresh_rate_limiter _)].
  destruct (st_refresh_rate_limiter (rn_state rn)) as [l'|]; [|done]. destruct Hlim as [-> _]. simpl.
  match goal with |- context [memory_try ?t1 ?t2 ip ?l] =>
    pose proof (fresh_memory_admits t1 t2 ip _ (rate_limit_window_seconds (rn_settings rn)) Hmax) as Hm;
    destruct (memory_try t1 t2 ip l) as [ok l1] end.
  exact Hm.
Qed.

(** A request with a live access token is authenticated; behind it a stored user,
    on tables without an administrator, does not get the users. *)
Lemma plain_token (rn : Running) version net env env2 peer hs w access (s : Srv AnyLimiter AnyBlacklist) uid :
  let self := st_jwt_service (rn_state rn) in
  let claims := issued_access self uid w in
  rd_verification (rn_deps rn) = verification self →
  jwt_encode (jv_secret (verification self)) (access_to_json claims) = Ok access →
  header_str "authorization" hs = Some (String.append "Bearer " access) →
  timestamp (reading (sv_world s)) - JWT_EXP_LEEWAY_SECS ≤ ac_exp claims →
  (∀ t', (@bl_is_revoked _ _ AnyBlacklist_port env t' (ac_jti claims) (sv_blacklist s)).1 ≠ Ok true) →
  (from_request_parts env (Some (rd_verification (rn_deps rn))) true hs s).1 =
    Ok (MkAuthenticatedUser uid (ac_jti claims) (ac_exp claims)) ∧
  (is_Some (db_users (w_db (sv_world s)) !! uid) → good (w_db (sv_world s)) →
   unappointed (w_db (sv_world s)) → w_pg (sv_world s) = [] → ∀ page per_page,
   (respond rn version net env env2 peer hs (EpListUsers page per_page) s).1 = admin_guard).
Proof.
  intros self claims Hver Henc Hh Hexp Hbl.
  assert (Hdec : jwt_decode (jv_secret (verification self)) (validation (verification self))
            (timestamp (reading (sv_world s))) access = Some (access_to_json claims)).
  { rewrite (jwt_decode_encode _ _ _ _ _ Henc) by done. rewrite access_valid by done.
    unfold JWT_EXP_LEEWAY_SECS in Hexp. by rewrite (proj2 (Z.leb_le _ _) Hexp). }
  pose proof (from_request_parts_accepts env (verification self) hs access claims s Hh Hdec Hbl) as Hacc.
  rewrite Hver. split; [exact Hacc|]. intros Hu (_ & _ & Hroles) Hun Hp page per_page.
  pose proof (from_request_parts_unchanged env (Some (verification self)) true hs s) as (Hdb & _).
  pose proof (from_request_parts_pg env (Some (verification self)) true hs s) as Hpg.
  unfold respond, serve, authenticated. rewrite Hver. unfold mbind, H_bind.
  destruct (from_request_parts env _ true hs s) as [o s']. simpl in *. subst o.
  apply (plain_user_refused uid); [done|congruence|by rewrite Hdb..].
Qed.

(** C9. A fresh deployment can be used, but not administered. When [main] serves
    on a database the migrations just made, without Redis, with the database and
    the worker pool up, a login budget of at least one attempt, a default account
    whose email is one and whose name and password the login accepts, tokens that
    can be signed, and a refresh lifetime that ends on a date chrono and Postgres
    have, then: the very first request may be that account's login, from
    anywhere, and it is answered 200 with tokens for the stored account; and from
    then on every request with the access token, until it ends or is revoked, is
    authenticated as that account, but on whatever sound tables without an
    administrator evolved from these, the database being up, the listing of users
    answers it 403. *)
Theorem fresh_deployment su rn w0 version net env1 env2 peer headers r s1 :
  let a := st_auth_settings (rn_state rn) in
  let self := st_jwt_service (rn_state rn) in
  @JwtServiceTotal (JwtServiceImpl_service self) →
  main su = Ok rn → su_migrate su = Ok w0 →
  w_db w0 = empty_db → w_pg w0 = [] → w_join w0 = [] → dummies_ok w0 →
  redis_url (rn_settings rn) = None → 1 ≤ rate_limit_max_attempts (rn_settings rn) →
  is_ok (Email_new (default_user_email a)) = true →
  login_fields_invalid (default_user_username a) (default_user_password a) = false →
  respond rn version net env1 env2 peer headers
    (EpLoginPassword (default_user_username a) (default_user_password a)) (serving rn) = (r, s1) →
  datable a (rn_world rn) (sv_world s1) →
  rs_status r = 200 ∧
  ∃ uid jti t access refresh,
    rs_body r = AuthTokensResponse "authenticated" (uuid_to_string uid) access refresh ∧
    (∃ row, db_users (w_db (sv_world s1)) !! uid = Some row ∧ ur_username row = Some (default_user_username a)) ∧
    w_clock (rn_world rn) ≤ t ≤ w_clock (sv_world s1) ∧
    ∀ net' env env' peer' hs s2,
      header_str "authorization" hs = Some (String.append "Bearer " access) →
      timestamp (reading (sv_world s2)) - JWT_EXP_LEEWAY_SECS ≤ access_exp self (timestamp t) →
      (∀ t', (@bl_is_revoked _ _ AnyBlacklist_port env t' jti (sv_blacklist s2)).1 ≠ Ok true) →
      (@from_request_parts AnyLimiter _ _ _ _ _ env (Some (rd_verification (rn_deps rn))) true hs s2).1 =
        Ok (MkAuthenticatedUser uid jti (access_exp self (timestamp t))) ∧
      (evolves (w_db (sv_world s1)) (w_db (sv_world s2)) → good (w_db (sv_world s2)) →
       unappointed (w_db (sv_world s2)) → w_pg (sv_world s2) = [] →
       ∀ page per_page, (respond rn version net' env env' peer' hs (EpListUsers page per_page) s2).1 = admin_guard).
Proof.
  intros a self Htot Hmain Hmig Hdb Hp Hj Hd Hredis Hmax Hemail Hfields Hresp Hdate.
  destruct (proj2 (main_facts su) rn Hmain) as (_ & _ & _ & (Hcost & _) & _ & _ & (w0' & b & Hmig' & Hseed & _) &
    Hlim & _ & (Hjwt & Hver & _) & _).
  fold a in Hcost, Hseed, Hjwt. fold self in Hjwt, Hver, Hresp. rewrite Hmig in Hmig'. injection Hmig' as <-.
  destruct (seed_fresh a w0 b _ Hdb Hp Hj Hd Hseed) as (uid & h & t0 & Hrow & Hdum & Hne & Hbv).
  destruct (Email_new (default_user_email a)) as [e|] eqn:He; [|done].
  set (row := MkUserRow uid _ _ _ _ _ _ _) in Hrow.
  pose proof (default_row_converts uid (default_user_username a) _ h t0 e He Hne) as Hconv. fold row in Hconv.
  set (u := User_new uid _ _ _ _ _ _ _) in Hconv.
  set (ip := resolve_client_ip peer headers (st_trusted_proxy_ips (rn_state rn))).
  pose proof (first_attempt_admitted rn net ip Hlim Hredis Hmax) as Hadm.
  pose (js := JwtServiceImpl_service self). pose (port := AnyLimiter_port net).
  destruct (@try_login_world AnyLimiter AnyBlacklist port ip (serving rn)) as (t1 & ticks & Hw1).
  pose proof (@try_login_clock AnyLimiter AnyBlacklist port ip (serving rn)) as Hclock.
  set (w1 := sv_world (@try_login AnyLimiter AnyBlacklist port ip (serving rn)).2) in Hw1.
  assert (Hrow1 : seeded row w1) by (rewrite Hw1; destruct Hrow; by split).
  assert (Hdum1 : dummies_ok w1) by (by rewrite Hw1).
  destruct (login_with_password a (default_user_username a) (default_user_password a) w1) as [o w2] eqn:Hlogin.
  destruct (login_handler_admitted a (st_trusted_proxy_ips (rn_state rn)) peer headers _ _ (serving rn) o w2 Hfields
    Hadm Hlogin) as [[Hend _] Hr].
  match type of Hend with context [sv_world (?out).2] => change (out = (r, s1)) in Hresp end.
  rewrite Hresp in Hr, Hend. simpl in Hr, Hend.
  assert (Hdate1 : datable a w1 w2) by (fold w1 in Hclock; change (sv_world (serving rn)) with (rn_world rn) in Hclock;
    destruct Hdate; split; lia).
  destruct (seeded_login a row u (MkHashedPassword h) (default_user_password a) w1 Hrow1 Hdum1 ltac:(lia) Hconv
    eq_refl Hbv _ eq_refl _ _ Hlogin Hdate1) as (res & -> & Hres).
  assert (Hgood1 : good (w_db w1)) by (eapply seeded_state_good; [apply Hrow1|exact Hconv]).
  destruct (Hr res eq_refl) as [-> <-]. clear Hr. split; [done|].
  destruct (login_tokens a _ _ _ _ _ Hlogin) as (w3 & w4 & tp & La & Lb & Hgen & Hacc & _). rewrite Hres in *.
  destruct (keeping_login a _ _ _ _ _ Hlogin Hgood1) as (_ & Hev & _).
  apply jwt_generate_Ok in Hgen as (Henc & _ & Hw4).
  assert (Hstored : db_users (w_db (sv_world s1)) !! uid = Some row).
  { eapply lookup_weaken; [|apply Hev]. rewrite (seeded_db _ _ Hrow1). apply lookup_singleton_eq. }
  exists uid, (uuid_v7 (w_seed w3)), (reading w3), (lr_access_token res), (lr_refresh_token res). split_and!.
  - done.
  - by exists row.
  - destruct La as [La _]. pose proof (reading_ge w3). fold w1 in Hclock. simpl in Hclock. lia.
  - destruct Lb as [Lb _]. by rewrite Hw4 in Lb.
  - intros net' env env' peer' hs s2 Hh Hexp Hbl.
    destruct (plain_token rn version net' env env' peer' hs w3 (lr_access_token res) s2 uid) as [Hauth Hrefused]; try done.
    { fold self. rewrite Hacc. by rewrite Hjwt in Henc |- *. }
    split; [exact Hauth|]. intros Hev2 Hg2 Hun Hp2. apply Hrefused; try done.
    exists row. eapply lookup_weaken; [exact Hstored|apply Hev2].
Qed.

End fresh.

(** *** Witness *)

Definition demo_respond (rn : Running) : Response Body * Srv AnyLimiter AnyBlacklist :=
  let a := st_auth_settings (rn_state rn) in
  @respond toy_uuid toy_bcrypt toy_chrono toy_jwt toy_redis toy_display bounded_buffer toy_tracing demo_google rn "1.0"
    NetOk (NetOk, NetOk) (NetOk, NetOk) (V4 1) [] (EpLoginPassword (default_user_username a) (default_user_password a))
    (serving rn).

(** What the hypotheses ask of the configuration holds of the demonstration's. *)
Definition demo_usable (rn : @Running toy_redis bounded_buffer toy_tracing) : bool :=
  let a := st_auth_settings (rn_state rn) in
  bool_decide (redis_url (rn_settings rn) = None) && (1 <=? rate_limit_max_attempts (rn_settings rn)) &&
  is_ok (Email_new (default_user_email a)) &&
  negb (login_fields_invalid (default_user_username a) (default_user_password a)).

#[local] Instance datable_dec settings w w' : Decision (datable settings w w').
Proof. unfold datable. apply _. Defined.

Lemma fresh_deployment_witness :
  ∃ rn r s1, demo_main = Ok rn ∧ demo_respond rn = (r, s1) ∧ rs_status r = 200.
Proof.
  assert (Hall : (λ rn, (demo_usable rn,
            bool_decide (datable (st_auth_settings (rn_state rn)) (rn_world rn) (sv_world (demo_respond rn).2))))
            <$> ok demo_main = Some (true, true)) by (vm_compute; reflexivity).
  destruct demo_main as [rn|e] eqn:E; [|discriminate Hall]. injection Hall as Hall Hdate.
  apply bool_decide_eq_true in Hdate.
  exists rn. destruct (demo_respond rn) as [r s1] eqn:Er. exists r, s1. split; [reflexivity|]. split; [reflexivity|].
  unfold demo_usable in Hall. apply andb_true_iff in Hall as [[[H1 H2]%andb_true_iff H3]%andb_true_iff H4].
  refine (proj1 (@fresh_deployment toy_uuid toy_uuid_spec toy_bcrypt toy_bcrypt_spec toy_chrono toy_jwt toy_jwt_spec
    toy_url toy_redis toy_display bounded_buffer toy_tracing demo_google demo_surroundings rn
    (fresh_world empty_db (from_secs 1000)) "1.0" NetOk (NetOk, NetOk) (NetOk, NetOk) (V4 1) [] r s1
    (toy_jwt_total _) E eq_refl eq_refl eq_refl eq_refl (@fresh_dummies_ok toy_bcrypt _ _) _ _ H3 _ Er Hdate)).
  - by apply bool_decide_eq_true in H1.
  - by apply Z.leb_le in H2.
  - by apply negb_true_iff in H4.
Defined.
